(* ===== verification/_CoqProject ===== *)
-Q . S2P
Prelude.v
Blake2s.v
Crs.v
Modular.v
FieldSqrt.v
Codec.v
CurveGroup.v
GroupLaw.v
SmallCurve.v
Pedersen.v
Schnorr.v
Sampling.v
Dict.v
Counter.v
PyStr.v
PyText.v
Regex.v
PySet.v
Csv.v
ArgParse.v
Effects.v
SelfTest.v
Trie.v
TrieView.v
TestRunner.v
Puppeteer.v
Faucet.v
Sidecar.v
NodeStatus.v
Ledger.v
ForkTree.v
PodExec.v
MakeReport.v
Watchdog.v
Networkx.v
Gossip.v
Notebook.v
BestTip.v
Logs.v
VisCommands.v
PeerConfig.v
Crawl.v
PpxCheck.v
BuildWarns.v
ScanState.v
SnarkJobs.v
NetUtil.v
Exporter.v
GraphQL.v
Queries.v
CommandLine.v
UserAgent.v
AgentSettings.v
VersionedItems.v
PrDiff.v
Simulation.v
AdminScripts.v
Http.v
Options.v
