(* ===== verification/Prelude.v ===== *)
(** * Mina (star2002): verification of the repository's Python programs

    The Python of this repository is a set of programs around the Mina network: the
    reference implementation of its Schnorr signatures, the services that watch and
    feed a network (watchdog, puppeteer, faucet, sidecar, exporter, user agent), the
    tools that validate a test network, and the scripts that run the integration
    tests, make genesis ledgers and compare serialized types.  The node itself is
    OCaml and is not treated here.  Paths below are relative to [src/].

    ** Conventions

    A Python operation that can raise is a [result] (this file); a program that also
    changes a world is a function of type [M W A] (file Effects), with a program
    logic of triples that end in a value or in an exception.  Loops without a bound
    run on fuel and answer [OutOfFuel] when it runs out; where the code ends, a
    theorem shows that the fuel is enough.  Integers are [Z], with the wrap-around
    of 32-bit words written out in Blake2s and the width of byte strings in Codec.
    Dictionaries (Dict) keep their insertion order and refine finite maps, sets (PySet)
    are lists without duplicates, Counter is [collections.Counter], strings, numerals and
    paths are in PyStr, lines and words of a text in PyText, Csv is the CSV reader of the
    standard library, and Regex is [re.search]: a backtracking matcher, proved sound and
    complete for the language of its expression; a mutable
    object that is shared (the blocks of the trie) lives in an explicit store.
    Strings are ASCII.  Code outside the repository (the Kubernetes, chat, GraphQL
    and daemon clients, shells, numpy, jinja2) is a parameter of the definitions that
    call it; what a theorem needs of it is a class or a named hypothesis, with a
    concrete instance where the theorem is run.

    ** The signature scheme, [docs/specs/signatures/]

    - Blake2s: the interface [Hash] of [hashlib.blake2s] and RFC 7693 itself.
    - Crs: the generator of common random bits of [crs.py], as a state machine that
      refines the stream of the digests' bits.
    - Modular, FieldSqrt: arithmetic modulo a prime; Legendre symbols and the
      Tonelli-Shanks square root of [reference.py], total and exact for every prime.
      Fuel: the modulus itself, in binary, for each of the three loops.
    - Codec, CurveGroup, GroupLaw, Pedersen, Schnorr: the encodings, the affine curve, the
      Pedersen parameters and hash, signing and verifying.  Signatures verify; a
      signature covers the first third of its message only, because [tryte_pad]
      reads overlapping triples; compression is undone by decompression.  GroupLaw
      proves the group law of a smooth curve for the code's own addition, hence the class
      [CyclicGroup] that the signatures need; that the moduli of the real curve are prime and
      that its generator has the order [n] are not computed here.  SmallCurve is a curve with 19
      points, for the witnesses; [reference_signatures_verify] is the instance for the curve and the
      hash function of the script.  The rejection loops of
      Pedersen take their fuel as an argument, since only the hash function ends
      them.
    - Sampling, SelfTest: which bits of the stream the Pedersen parameters are made of, and
      how much fuel is then enough; the self-test at the end of [reference.py].

    ** Test networks and tests

    - Trie: [testnet-validation/best_tip_trie.py].  Every trie that [insert] and
      [insertLink] build is a tree; traversals end and miss nothing.  Fuel: one more
      than the number of blocks.
    - TrieView: the abstract view of a trie (the blocks it knows, their links, the labels
      of their tips), which [insert] and [insertLink] refine.
    - BestTip: [compare_best_tip.py], and [visualize_blockchain] of
      [rebroadcasted_blocks_vis.py]: the pods are asked, their chains inserted in a
      trie, and the trie drawn; the drawing is what the view of the trie says, hence
      what the chains and links were.  Fuel of [render_fork]: the number of blocks.
    - Networkx: the interface to [networkx] graphs that the next two files use, with its
      laws and an instance made of dictionaries.
    - Gossip: the log sorter and the gossip graphs of
      [testnet-validation/rebroadcasted_blocks_vis.py]; the graph of a block is what
      its logs say.
    - Notebook: the cells of [Network-Visualization.ipynb], an older form of the same,
      with the creators of a block and thirty figures at most.
    - Logs: the queries of [logs.py] and the checker of [check_logs.py].
    - VisCommands: the commands of [rebroadcasted_blocks_vis.py] from their options to the
      graphs, with the cache of logs that a later run reads back, and the runs of the
      notebook and of its older copy, which ends in a SyntaxError.
    - PeerConfig: [local_daemon.py] and [helm_deploy.py], which read the addresses of
      peers off status texts and start a daemon or a chart with them.
    - Crawl: [scripts/node-status-crawl.py], whose crawl asks one node only (fuel 1 is
      proved to be enough).
    - SnarkJobs: [automation/scripts/get-snark-job-list.py], the drawing of job trees.
    - CommandLine: the command lines of [scripts/test.py], [introspection_query.py],
      [node-status-crawl.py] and [make_report.py]: what each makes of its arguments, and
      that every run of the tests can be asked for.  ArgParse is the part of [argparse] that
      they use, as it works up to Python 3.11.
    - TestRunner: [scripts/test.py], over a world of files, directories and a
      terminal: what a run executes, what a dry run does not, what the filters
      select, the working directory, and rendering against checking.
    - Ledger: [scripts/generate-local-network-ledger.py]: the accounts of a ledger
      and the decimal text of the balances.
    - VersionedItems: [scripts/compare_versioned_items.py]: the changes it refuses.
    - PrDiff: [scripts/compare_pr_diff_*.py], which run that comparison, through
      [compare_versioned_types.py] and [compare_binables.py], on the files of a pull
      request: its exit status says exactly whether an existing item changed.
    - PpxCheck: [scripts/require-ppxs.py], exact on the stanzas it looks at.
    - BuildWarns: [scripts/buildwarns.py], the counts and where the report breaks off.
    - ScanState: [rfcs/res/scan_state_memory_usage.py], closed forms and bounds.
    - Simulation: [src/app/proposer_simulation/sim.py], over rational numbers: money is
      conserved whatever the random numbers are.
    - AdminScripts: [scripts/generate-genesis-ledger.py], [update_branch_rule.py] and
      [archive/change_constraint.py].
    - Http: the replies of [lib/marlin_plonk_bindings/wasm/server.py] and of the puppeteer's
      mock server, over the buffer of headers of [http.server], and what a client reads.
    - Options: the options of the commands that click reads, with their defaults, and what
      each script does when it is run without arguments.

    ** Services

    - Puppeteer: [dockerfiles/puppeteer-context/mina_daemon_puppeteer.py], a step
      relation over signals and deaths of the daemon, with its invariant and a full
      start-stop cycle.
    - Faucet: [services/faucet/], an event loop with coroutines: one request per user
      and no payment without an approval.
    - Sidecar: [services/mina-bp-stats/sidecar/sidecar.py], for any number of turns of
      its loop: only finalized blocks are uploaded and no exception ends it.
    - Exporter: [services/buildkite/prometheus-exporter/exporter.py]: the samples of a
      scrape.
    - Queries: the texts of the queries of the exporter, the sidecar, the best tips and
      [introspection_query.py], and the readers of their answers: a reader looks for no
      key that its query does not ask for.  GraphQL has the lexer, the parser, the
      expansion of fragments and what an answer to a selection is (fuel 40: more than the
      depth of any of the texts, which are all found well formed with it).
    - UserAgent: [services/coda-user-agent/agent.py]: the outcomes of a transaction.
    - AgentSettings: its settings and its main loop.

    ** The watchdog, [services/watchdog/]

    - PodExec: [exec_on_pod] of [util.py] (and its copy in [make_report.py]) against the
      class [ShellRuns] of what a shell does: the output comes back whole.
      [run_periodically] is here too.
    - NodeStatus: [node_status_metrics.py], the queries to the seeds and the gauges.
    - Watchdog: the other collectors of [metrics.py] and the scheduler of
      [watchdog.py], from [main] on: turns do not disturb each other and no exception ends
      them.
    - ForkTree: the block tree of [make_report.py].  Specification: the chains of the
      peers and what follows what in them; the contracted tree and the fork alarm are
      proved to be exact with respect to it.  Fuel: one more than the number of
      blocks, enough on the paths of one blockchain.
    - MakeReport: the rest of [make_report.py], from the arguments to the posts: the
      tables of responses, participants, the windows over earlier
      reports, the JSON text, and the script that turns exceptions into messages.
    - NetUtil: [scripts/network-utilities.py]: which port mappings and which namespaces a
      cleanup removes.
    NodeStatus, ForkTree and PodExec know nothing of each other; Watchdog runs the
    first, MakeReport uses the first two.

    ** How the theorems are stated

    A theorem about a program that can raise says both what a successful run has done and
    when a run succeeds: as an equivalence with a condition on the inputs and on the answers of
    the outside ([helm_run_installs], [windows_exact]), as an outcome for every branch
    ([schnorr_sign_verify], [set_metrics_outcome], [report_counts]), or as a condition that is
    enough ([require_ppxs_exact], [cleanup_ports_exact], [ledger_accounts], [run_executes]).

    ** Not modelled

    Most of printing, logging, drawing, HTTP servers of metrics and times of sleeping.  How
    click (a third-party package) reads a command line is a parameter.
    Floats are exact: fractions are pairs or rational numbers,
    and their decimal text is a parameter.  Python's recursion limit is ignored.
    Left out as a whole: two notebooks without a program. *)

From Stdlib Require Import String Ascii ZArith Lia Bool List.
From Stdlib Require DecimalString DecimalZ.
Import ListNotations.

(** ** Exceptions and results

    A Python operation that can raise is a [result]: [Ok] is the value it
    returns and [Err] the exception that escapes it.  [OutOfFuel] is not an
    exception: it is what a loop of the model answers when its fuel runs out, and
    the termination theorems show that it is never reached. *)
Inductive exn : Type :=
| IndexError
| KeyError
| TypeError
| ValueError (msg : string)
| RuntimeError (msg : string)
| AttributeError
| OverflowError
| AssertionError
| SyntaxError
| ZeroDivisionError
| NameError
| FileNotFoundError (path : string)
| OSError (msg : string)
| UnboundLocalError
| JSONDecodeError
| RuntimeException (msg : string)
| SystemExit (code : Z)
| OutOfFuel.

Inductive result (A : Type) : Type :=
| Ok (a : A)
| Err (e : exn).
Arguments Ok {A} a.
Arguments Err {A} e.

Definition bind {A B : Type} (r : result A) (k : A -> result B) : result B :=
  match r with
  | Ok a => k a
  | Err e => Err e
  end.

Definition is_ok {A : Type} (r : result A) : bool :=
  match r with
  | Ok _ => true
  | Err _ => false
  end.

Declare Scope py_scope.
Delimit Scope py_scope with py.
Notation "'let*' x ':=' r 'in' k" := (bind r (fun x => k))
  (at level 10, x pattern, r at level 100, k at level 200,
   format "'[v' 'let*'  x  ':='  r  'in' '/' k ']'") : py_scope.
Open Scope py_scope.

(** [for x in l: ...] with an accumulator and a body that may raise. *)
Fixpoint foldM {A S : Type} (f : S -> A -> result S) (l : list A) (s : S) : result S :=
  match l with
  | [] => Ok s
  | x :: l' => let* s' := f s x in foldM f l' s'
  end.

(** [[ f(x) for x in l ]] with a body that may raise. *)
Fixpoint mapM {A B : Type} (f : A -> result B) (l : list A) : result (list B) :=
  match l with
  | [] => Ok []
  | x :: l' => let* y := f x in let* ys := mapM f l' in Ok (y :: ys)
  end.

(** ** Sequences: indexing and slices of Python lists, strings and bytes *)
Open Scope Z_scope.

Definition zlength {A : Type} (l : list A) : Z := Z.of_nat (length l).

(** [l[i]]: a negative index counts from the end, out of range raises. *)
Definition py_nth {A : Type} (l : list A) (i : Z) : result A :=
  let j := if i <? 0 then zlength l + i else i in
  if j <? 0 then Err IndexError else
  match nth_error l (Z.to_nat j) with
  | Some x => Ok x
  | None => Err IndexError
  end.

(** [l[i:j]] for [0 <= i] and [0 <= j]. *)
Definition slice {A : Type} (i j : nat) (l : list A) : list A := firstn (j - i) (skipn i l).

(** [l[-k:]] and [l[:-k]] for [0 < k]. *)
Definition last_n {A : Type} (k : nat) (l : list A) : list A := skipn (length l - k) l.
Definition but_last_n {A : Type} (k : nat) (l : list A) : list A := firstn (length l - k) l.

(** [range(i, j)]. *)
Definition range (i j : Z) : list Z :=
  map (fun k => i + Z.of_nat k) (seq 0 (Z.to_nat (j - i))).

(** ** While loops

    [while_loop fuel step s] runs [step] from [s] until it answers [inr]; the
    fuel is a binary number, so a bound as large as a 753-bit modulus costs
    nothing to write down. *)
Fixpoint iter_until {S R : Type} (fuel : positive) (step : S -> S + R) (s : S) : S + R :=
  match fuel with
  | xH => step s
  | xO f =>
      match iter_until f step s with
      | inl s' => iter_until f step s'
      | inr r => inr r
      end
  | xI f =>
      match step s with
      | inl s1 =>
          match iter_until f step s1 with
          | inl s2 => iter_until f step s2
          | inr r => inr r
          end
      | inr r => inr r
      end
  end.

Definition while_loop {S R : Type} (fuel : positive) (step : S -> S + result R) (s : S)
  : result R :=
  match iter_until fuel step s with
  | inl _ => Err OutOfFuel
  | inr r => r
  end.

(** [str(z)] for an integer [z]. *)
Definition py_str (z : Z) : string := DecimalString.NilZero.string_of_int (Z.to_int z).

(** The bytes of an ASCII string, as integers. *)
Definition bytes_of_string (s : string) : list Z :=
  map (fun c => Z.of_N (N_of_ascii c)) (list_ascii_of_string s).

(** ** Lemmas on results *)
Lemma bind_Ok_inv {A B} (r : result A) (k : A -> result B) b :
  bind r k = Ok b -> exists a, r = Ok a /\ k a = Ok b.
Proof. destruct r as [a|e]; simpl; [eauto | discriminate]. Qed.

Lemma bind_Err {A B} e (k : A -> result B) : bind (Err e) k = Err e.
Proof. reflexivity. Qed.

Lemma bind_assoc {A B C} (r : result A) (k : A -> result B) (h : B -> result C) :
  bind (bind r k) h = bind r (fun a => bind (k a) h).
Proof. destruct r; reflexivity. Qed.

Lemma foldM_app {A S} (f : S -> A -> result S) l1 l2 s :
  foldM f (l1 ++ l2) s = bind (foldM f l1 s) (foldM f l2).
Proof.
  revert s. induction l1 as [|x l1 IH]; intros s; simpl; [reflexivity|].
  destruct (f s x); simpl; [apply IH | reflexivity].
Qed.

(** The invariant rule of a [for] loop. *)
Lemma foldM_ind {A S} (I : S -> Prop) (f : S -> A -> result S) l s s' :
  (forall s x s', In x l -> I s -> f s x = Ok s' -> I s') ->
  I s -> foldM f l s = Ok s' -> I s'.
Proof.
  revert s. induction l as [|x l IH]; intros s Hf Hs H; simpl in H.
  - now injection H as <-.
  - apply bind_Ok_inv in H as (s1 & H1 & H2).
    eapply IH; [|eapply Hf; [left; reflexivity | exact Hs | exact H1] | exact H2].
    intros t y t' Hy. apply Hf. now right.
Qed.

(** The total-correctness rule: the loop returns, and keeps the invariant. *)
Lemma foldM_total {A S} (I : S -> Prop) (f : S -> A -> result S) l s :
  (forall s x, In x l -> I s -> exists s', f s x = Ok s' /\ I s') ->
  I s -> exists s', foldM f l s = Ok s' /\ I s'.
Proof.
  revert s. induction l as [|x l IH]; intros s Hf Hs; simpl; [eauto|].
  destruct (Hf s x (or_introl eq_refl) Hs) as (s1 & -> & H1). simpl.
  apply IH; [|exact H1]. intros t y Hy. apply Hf. now right.
Qed.

Lemma mapM_map {A B} (f : A -> B) l : mapM (fun x => Ok (f x)) l = Ok (map f l).
Proof. induction l as [|x l IH]; simpl; [reflexivity|]. now rewrite IH. Qed.

Lemma mapM_length {A B} (f : A -> result B) l ys : mapM f l = Ok ys -> length ys = length l.
Proof.
  revert ys. induction l as [|x l IH]; intros ys H; simpl in H.
  - now injection H as <-.
  - apply bind_Ok_inv in H as (y & _ & H). apply bind_Ok_inv in H as (zs & Hz & H).
    injection H as <-. simpl. f_equal. now apply IH.
Qed.

Lemma mapM_ext_in {A B} (f g : A -> result B) l :
  (forall x, In x l -> f x = g x) -> mapM f l = mapM g l.
Proof.
  induction l as [|x l IH]; intros H; simpl; [reflexivity|].
  rewrite (H x) by now left. rewrite IH; [reflexivity|].
  intros y Hy. apply H. now right.
Qed.

Lemma mapM_total {A B} (f : A -> result B) l :
  (forall x, In x l -> exists y, f x = Ok y) -> exists ys, mapM f l = Ok ys.
Proof.
  induction l as [|x l IH]; intros H; simpl; [eauto|].
  destruct (H x (or_introl eq_refl)) as [y ->]. simpl.
  destruct IH as [ys ->]; [|simpl; eauto]. intros z Hz. apply H. now right.
Qed.

Lemma mapM_Forall2 {A B} (f : A -> result B) l ys :
  mapM f l = Ok ys -> Forall2 (fun x y => f x = Ok y) l ys.
Proof.
  revert ys. induction l as [|x l IH]; intros ys H; simpl in H.
  - injection H as <-. constructor.
  - apply bind_Ok_inv in H as (y & E & H). apply bind_Ok_inv in H as (zs & Hz & H).
    injection H as <-. constructor; auto.
Qed.

(** ** Lemmas on loops *)
Section Loops.
Context {S R : Type} (step : S -> S + R).

(** A loop with an invariant and a variant below its fuel answers, and what it
    answers satisfies the postcondition. *)
Lemma iter_until_measure (I : S -> Prop) (Q : R -> Prop) (mu : S -> Z) :
  (forall s s', I s -> step s = inl s' -> I s' /\ 0 <= mu s' < mu s) ->
  (forall s r, I s -> step s = inr r -> Q r) ->
  forall fuel s, I s ->
    match iter_until fuel step s with
    | inl s' => I s' /\ 0 <= mu s' /\ mu s' + Z.pos fuel <= mu s
    | inr r => Q r
    end.
Proof.
  intros Hstep HQ. induction fuel as [f IH|f IH|]; intros s Hs; simpl.
  - destruct (step s) as [s1|r] eqn:E1; [|eapply HQ; eauto].
    destruct (Hstep _ _ Hs E1) as [H1 M1].
    specialize (IH s1 H1) as IH1. destruct (iter_until f step s1) as [s2|r]; [|exact IH1].
    destruct IH1 as (H2 & M2 & M2').
    specialize (IH s2 H2). destruct (iter_until f step s2) as [s3|r]; [|exact IH].
    destruct IH as (H3 & M3 & M3'). repeat split; [exact H3|lia|lia].
  - specialize (IH s Hs) as IH1. destruct (iter_until f step s) as [s2|r]; [|exact IH1].
    destruct IH1 as (H2 & M2 & M2').
    specialize (IH s2 H2). destruct (iter_until f step s2) as [s3|r]; [|exact IH].
    destruct IH as (H3 & M3 & M3'). repeat split; [exact H3|lia|lia].
  - destruct (step s) as [s1|r] eqn:E1; [|eapply HQ; eauto].
    destruct (Hstep _ _ Hs E1) as [H1 M1]. repeat split; [exact H1|lia|lia].
Qed.

(** Partial correctness needs no variant. *)
Lemma iter_until_inv (I : S -> Prop) (Q : R -> Prop) :
  (forall s s', I s -> step s = inl s' -> I s') ->
  (forall s r, I s -> step s = inr r -> Q r) ->
  forall fuel s, I s ->
    match iter_until fuel step s with
    | inl s' => I s'
    | inr r => Q r
    end.
Proof.
  intros Hstep HQ. induction fuel as [f IH|f IH|]; intros s Hs; simpl.
  - destruct (step s) as [s1|r] eqn:E1; [|eapply HQ; eauto].
    specialize (IH s1 (Hstep _ _ Hs E1)) as IH1.
    destruct (iter_until f step s1) as [s2|r]; [|exact IH1]. now apply IH.
  - specialize (IH s Hs) as IH1.
    destruct (iter_until f step s) as [s2|r]; [|exact IH1]. now apply IH.
  - destruct (step s) as [s1|r] eqn:E1; [eapply Hstep; eauto | eapply HQ; eauto].
Qed.
End Loops.

Lemma while_loop_total {S R : Type} (step : S -> S + result R)
  (I : S -> Prop) (Q : result R -> Prop) (mu : S -> Z) fuel s :
  (forall s s', I s -> step s = inl s' -> I s' /\ 0 <= mu s' < mu s) ->
  (forall s r, I s -> step s = inr r -> Q r) ->
  I s -> mu s < Z.pos fuel -> Q (while_loop fuel step s).
Proof.
  intros Hstep HQ Hs Hmu. unfold while_loop.
  pose proof (iter_until_measure step I Q mu Hstep HQ fuel s Hs) as H.
  destruct (iter_until fuel step s) as [s'|r]; [lia | exact H].
Qed.

Lemma while_loop_partial {S R : Type} (step : S -> S + result R)
  (I : S -> Prop) (Q : result R -> Prop) fuel s :
  Q (Err OutOfFuel) ->
  (forall s s', I s -> step s = inl s' -> I s') ->
  (forall s r, I s -> step s = inr r -> Q r) ->
  I s -> Q (while_loop fuel step s).
Proof.
  intros Hf Hstep HQ Hs. unfold while_loop.
  pose proof (iter_until_inv step I Q Hstep HQ fuel s Hs) as H.
  destruct (iter_until fuel step s) as [s'|r]; [exact Hf | exact H].
Qed.

(** ** Lemmas on sequences *)
Lemma zlength_nonneg {A} (l : list A) : 0 <= zlength l.
Proof. unfold zlength. lia. Qed.

Lemma zlength_app {A} (l1 l2 : list A) : zlength (l1 ++ l2) = zlength l1 + zlength l2.
Proof. unfold zlength. rewrite length_app. lia. Qed.

Lemma py_nth_ok {A} (l : list A) i :
  0 <= i < zlength l -> exists x, py_nth l i = Ok x /\ nth_error l (Z.to_nat i) = Some x.
Proof.
  unfold py_nth, zlength. intros Hi.
  destruct (Z.ltb_spec i 0); [lia|]. destruct (Z.ltb_spec i 0); [lia|].
  destruct (nth_error l (Z.to_nat i)) as [x|] eqn:E; [eauto|].
  apply nth_error_None in E. lia.
Qed.

Lemma py_nth_nonneg {A} (l : list A) i :
  0 <= i ->
  py_nth l i = match nth_error l (Z.to_nat i) with Some x => Ok x | None => Err IndexError end.
Proof.
  unfold py_nth. intros Hi.
  destruct (Z.ltb_spec i 0); [lia|]. destruct (Z.ltb_spec i 0); [lia|]. reflexivity.
Qed.

Lemma py_nth_inv {A} (l : list A) i x :
  0 <= i -> py_nth l i = Ok x -> nth_error l (Z.to_nat i) = Some x.
Proof.
  intros Hi. rewrite py_nth_nonneg by exact Hi.
  destruct (nth_error l (Z.to_nat i)); [now intros [= ->] | discriminate].
Qed.

Lemma range_S i j : i <= j -> range i (j + 1) = range i j ++ [j].
Proof.
  intros H. unfold range. replace (Z.to_nat (j + 1 - i)) with (S (Z.to_nat (j - i))) by lia.
  rewrite seq_S, map_app. simpl. f_equal. f_equal. lia.
Qed.

Lemma range_empty i j : j <= i -> range i j = [].
Proof. intros H. unfold range. now replace (Z.to_nat (j - i)) with 0%nat by lia. Qed.

Lemma range_cons i j : i < j -> range i j = i :: range (i + 1) j.
Proof.
  intros H. unfold range. replace (Z.to_nat (j - i)) with (S (Z.to_nat (j - (i + 1)))) by lia.
  simpl. f_equal; [lia|]. rewrite <- seq_shift, map_map. apply map_ext. intros k. lia.
Qed.

Lemma range_length i j : length (range i j) = Z.to_nat (j - i).
Proof. unfold range. now rewrite length_map, length_seq. Qed.

Lemma in_range i j k : In k (range i j) <-> i <= k < j.
Proof.
  unfold range. rewrite in_map_iff. split.
  - intros (x & <- & Hx). apply in_seq in Hx. lia.
  - intros H. exists (Z.to_nat (k - i)). split; [lia|]. apply in_seq. lia.
Qed.

Lemma last_n_length {A} k (l : list A) : length (last_n k l) = Nat.min k (length l).
Proof. unfold last_n. rewrite length_skipn. lia. Qed.

Lemma but_last_last {A} k (l : list A) : but_last_n k l ++ last_n k l = l.
Proof. apply firstn_skipn. Qed.

(** ** Automation

    [ok_inv] takes apart every successful [bind] among the hypotheses. *)
Ltac ok_inv :=
  repeat match goal with
  | H : bind _ _ = Ok _ |- _ =>
      let a := fresh "v" in let E := fresh "E" in apply bind_Ok_inv in H as (a & E & H)
  | H : Ok _ = Ok _ |- _ => injection H; clear H; intros; subst
  | H : Err _ = Ok _ |- _ => discriminate H
  | H : Ok _ = Err _ |- _ => discriminate H
  end; subst.

(** [case_if] splits on the first conditional of the goal. *)
Ltac case_if :=
  match goal with
  | |- context [if ?c then _ else _] => let E := fresh "C" in destruct c eqn:E
  end.

Ltac zify_bool :=
  rewrite ?Z.eqb_eq, ?Z.eqb_neq, ?Z.ltb_lt, ?Z.ltb_ge, ?Z.leb_le, ?Z.leb_gt in *.

Create HintDb py.
Create Rewrite HintDb py.
#[export] Hint Rewrite @length_app @length_map @length_seq @range_length @last_n_length
  @zlength_app : py.
#[export] Hint Resolve zlength_nonneg : py.
