(* ===== verification/Blake2s.v ===== *)
(** * BLAKE2s, the hash the signature scheme takes from [hashlib]

    [crs.py] and [reference.py] call [hashlib.blake2s(x).digest()].  This file
    gives the interface the clients are proved against ([Hash]: a digest is 32
    bytes) and the function itself, as RFC 7693 specifies it with no key and a
    32-byte output, as an executable instance.  Words are integers in
    [0, 2^32), with the wrap-around of the additions written out. *)

From Stdlib Require Import ZArith List Lia.
From S2P Require Import Prelude.
Import ListNotations.
Open Scope Z_scope.

Definition is_byte (b : Z) : Prop := 0 <= b < 256.

(** What the clients rely on. *)
Class Hash := blake2s : list Z -> list Z.

Class HashLaws (H : Hash) : Prop := {
  blake2s_length : forall bs, length (blake2s bs) = 32%nat;
  blake2s_bytes : forall bs, Forall is_byte (blake2s bs)
}.

(** ** The function *)
Module Blake2s.

Definition word (x : Z) : Z := x mod 2 ^ 32.
Definition rotr (x k : Z) : Z := Z.lor (Z.shiftr x k) (word (Z.shiftl x (32 - k))).

Definition IV : list Z :=
  [0x6A09E667; 0xBB67AE85; 0x3C6EF372; 0xA54FF53A;
   0x510E527F; 0x9B05688C; 0x1F83D9AB; 0x5BE0CD19].

Definition SIGMA : list (list nat) :=
  [[0; 1; 2; 3; 4; 5; 6; 7; 8; 9; 10; 11; 12; 13; 14; 15];
   [14; 10; 4; 8; 9; 15; 13; 6; 1; 12; 0; 2; 11; 7; 5; 3];
   [11; 8; 12; 0; 5; 2; 15; 13; 10; 14; 3; 6; 7; 1; 9; 4];
   [7; 9; 3; 1; 13; 12; 11; 14; 2; 6; 5; 10; 4; 0; 15; 8];
   [9; 0; 5; 7; 2; 4; 10; 15; 14; 1; 11; 12; 6; 8; 3; 13];
   [2; 12; 6; 10; 0; 11; 8; 3; 4; 13; 7; 5; 15; 14; 1; 9];
   [12; 5; 1; 15; 14; 13; 4; 10; 0; 7; 6; 3; 9; 2; 8; 11];
   [13; 11; 7; 14; 12; 1; 3; 9; 5; 0; 15; 4; 8; 6; 2; 10];
   [6; 15; 14; 9; 11; 3; 0; 8; 12; 2; 13; 7; 1; 4; 10; 5];
   [10; 2; 8; 4; 7; 6; 1; 5; 15; 11; 9; 14; 3; 12; 13; 0]]%nat.

Fixpoint set_nth (l : list Z) (i : nat) (x : Z) : list Z :=
  match l, i with
  | [], _ => []
  | _ :: l', O => x :: l'
  | y :: l', S i' => y :: set_nth l' i' x
  end.

Definition at_ (l : list Z) (i : nat) : Z := nth i l 0.

(** The mixing function G on four positions of the work vector. *)
Definition mix (a b c d : nat) (x y : Z) (v : list Z) : list Z :=
  let va := word (at_ v a + at_ v b + x) in
  let vd := rotr (Z.lxor (at_ v d) va) 16 in
  let vc := word (at_ v c + vd) in
  let vb := rotr (Z.lxor (at_ v b) vc) 12 in
  let va := word (va + vb + y) in
  let vd := rotr (Z.lxor vd va) 8 in
  let vc := word (vc + vd) in
  let vb := rotr (Z.lxor vb vc) 7 in
  set_nth (set_nth (set_nth (set_nth v a va) b vb) c vc) d vd.

Definition round (m : list Z) (v : list Z) (s : list nat) : list Z :=
  let w k := at_ m (nth k s 0%nat) in
  let v := mix 0 4 8 12 (w 0%nat) (w 1%nat) v in
  let v := mix 1 5 9 13 (w 2%nat) (w 3%nat) v in
  let v := mix 2 6 10 14 (w 4%nat) (w 5%nat) v in
  let v := mix 3 7 11 15 (w 6%nat) (w 7%nat) v in
  let v := mix 0 5 10 15 (w 8%nat) (w 9%nat) v in
  let v := mix 1 6 11 12 (w 10%nat) (w 11%nat) v in
  let v := mix 2 7 8 13 (w 12%nat) (w 13%nat) v in
  mix 3 4 9 14 (w 14%nat) (w 15%nat) v.

(** The compression function F: state, sixteen words, byte counter, last flag. *)
Definition compress (h m : list Z) (t : Z) (last : bool) : list Z :=
  let v := h ++ IV in
  let v := set_nth v 12 (Z.lxor (at_ v 12) (word t)) in
  let v := set_nth v 13 (Z.lxor (at_ v 13) (word (Z.shiftr t 32))) in
  let v := if last then set_nth v 14 (Z.lxor (at_ v 14) 0xFFFFFFFF) else v in
  let v := fold_left (round m) SIGMA v in
  map (fun i => Z.lxor (Z.lxor (at_ h i) (at_ v i)) (at_ v (i + 8))) (seq 0 8).

Definition le_word (bs : list Z) (i : nat) : Z :=
  at_ bs (4 * i) + 256 * at_ bs (4 * i + 1) + 65536 * at_ bs (4 * i + 2)
  + 16777216 * at_ bs (4 * i + 3).

Definition words (block : list Z) : list Z := map (le_word block) (seq 0 16).

Definition byte_of (x : Z) (k : Z) : Z := Z.land (Z.shiftr x (8 * k)) 255.

(** The blocks before the last one are full; the last one is padded with zeros
    ([le_word] reads zero beyond the end). *)
Fixpoint absorb (fuel : nat) (h : list Z) (t : Z) (bs : list Z) : list Z :=
  match fuel with
  | O => h
  | S fuel' =>
      if (64 <? zlength bs)
      then absorb fuel' (compress h (words (firstn 64 bs)) (t + 64) false) (t + 64) (skipn 64 bs)
      else compress h (words bs) (t + zlength bs) true
  end.

Definition h0 : list Z := set_nth IV 0 (Z.lxor (at_ IV 0) 0x01010020).

Definition digest (bs : list Z) : list Z :=
  let h := absorb (S (length bs)) h0 0 bs in
  flat_map (fun i => map (byte_of (at_ h i)) [0; 1; 2; 3]) (seq 0 8).

(** The instance satisfies the interface. *)
Lemma byte_of_is_byte x k : is_byte (byte_of x k).
Proof.
  unfold byte_of, is_byte. change 255 with (Z.ones 8). rewrite Z.land_ones by lia.
  apply Z.mod_pos_bound. lia.
Qed.

#[export] Instance hashlib : Hash := digest.

#[export] Instance hashlib_laws : HashLaws hashlib.
Proof.
  split; intros bs; [reflexivity|].
  unfold blake2s, hashlib, digest. apply Forall_flat_map, Forall_forall. intros i _.
  repeat constructor; apply byte_of_is_byte.
Qed.

(** The test vector of RFC 7693, appendix B, and two of the reference code. *)
Example blake2s_abc :
  digest [97; 98; 99] =
  [0x50; 0x8C; 0x5E; 0x8C; 0x32; 0x7C; 0x14; 0xE2; 0xE1; 0xA7; 0x2B; 0xA3; 0x4E; 0xEB; 0x45; 0x2F;
   0x37; 0x45; 0x8B; 0x20; 0x9E; 0xD6; 0x3A; 0x29; 0x4D; 0x99; 0x9B; 0x4C; 0x86; 0x67; 0x59; 0x82].
Proof. vm_compute. reflexivity. Qed.

Example blake2s_200 :
  firstn 8 (digest (map Z.of_nat (seq 0 200))) = [0x6D; 0x24; 0x4E; 0x1A; 0x06; 0xCE; 0x4E; 0xF5].
Proof. vm_compute. reflexivity. Qed.

Example blake2s_empty :
  digest [] =
  [0x69; 0x21; 0x7A; 0x30; 0x79; 0x90; 0x80; 0x94; 0xE1; 0x11; 0x21; 0xD0; 0x42; 0x35; 0x4A; 0x7C;
   0x1F; 0x55; 0xB6; 0x48; 0x2C; 0xA1; 0xA5; 0x1E; 0x1B; 0x25; 0x0D; 0xFD; 0x1E; 0xD0; 0xEE; 0xF9].
Proof. vm_compute. reflexivity. Qed.

End Blake2s.
