(* ===== verification/Crs.v ===== *)
(** * The common reference string, [docs/specs/signatures/crs.py]

    The module keeps a mutable dictionary with the current digest, the number
    [i] of the next digest and the position [j] of the next bit; [next_bit]
    reads it.  The dictionary is the record [state], threaded explicitly.

    [stream] is the specification: bit [k] of the string is bit [k mod 256] of
    digest [k / 256].  The theorems show that the state machine refines it. *)

From Stdlib Require Import String ZArith Lia List.
From S2P Require Import Prelude Blake2s.
Import ListNotations.
Open Scope Z_scope.

Section Crs.
Context `{hash : Hash}.

Definition seed : list Z := bytes_of_string "CodaPedersenParams".

Definition digest_length : Z := 256.

Definition ith_digest (i : Z) : list Z := blake2s (seed ++ bytes_of_string (py_str i)).

Definition ith_bit (s : list Z) (i : Z) : result bool :=
  let* x := py_nth s (i / 8) in
  Ok (Z.land (Z.shiftr x (i mod 8)) 1 =? 1).

Record state : Type := State { digest : list Z; i : Z; j : Z }.

Definition init_state : state := State (ith_digest 0) 1 0.

Definition next_bit (st : state) : result (bool * state) :=
  if j st =? digest_length then
    let d := ith_digest (i st) in
    let st' := State d (i st + 1) 1 in
    let* b := ith_bit d 0 in
    Ok (b, st')
  else
    let st' := State (digest st) (i st) (j st + 1) in
    let* b := ith_bit (digest st) (j st) in
    Ok (b, st').

(** [k] consecutive calls. *)
Fixpoint next_bits (k : nat) (st : state) : result (list bool * state) :=
  match k with
  | O => Ok ([], st)
  | S k' =>
      let* (b, st1) := next_bit st in
      let* (bs, st2) := next_bits k' st1 in
      Ok (b :: bs, st2)
  end.

(** ** Specification: an infinite string of bits *)
Definition stream (k : Z) : bool :=
  let d := ith_digest (k / digest_length) in
  Z.testbit (nth (Z.to_nat (k mod digest_length / 8)) d 0) (k mod 8).

(** The state reached after [k] calls; the digest is only renewed when a bit of
    the next one is asked for. *)
Definition at_position (k : Z) (st : state) : Prop :=
  exists q, 0 <= q /\ digest st = ith_digest q /\ i st = q + 1
            /\ 0 <= j st <= digest_length /\ k = digest_length * q + j st.

(** ** Theorems *)
Lemma at_position_init : at_position 0 init_state.
Proof. exists 0. unfold digest_length. simpl. repeat split; lia. Qed.

Context {L : HashLaws hash}.

Lemma ith_bit_testbit q b :
  0 <= b < digest_length ->
  ith_bit (ith_digest q) b = Ok (Z.testbit (nth (Z.to_nat (b / 8)) (ith_digest q) 0) (b mod 8)).
Proof.
  unfold digest_length. intros Hb. unfold ith_bit.
  assert (Hlen : length (ith_digest q) = 32%nat) by apply blake2s_length.
  assert (0 <= b / 8 < 32).
  { split; [apply Z.div_pos; lia | apply Z.div_lt_upper_bound; lia]. }
  rewrite py_nth_nonneg by lia.
  rewrite (nth_error_nth' _ 0) by (rewrite Hlen; lia). simpl. f_equal.
  set (x := nth _ _ _). assert (0 <= b mod 8) by (apply Z.mod_pos_bound; lia).
  change 1 with (Z.ones 1) at 1. rewrite Z.land_ones, Z.testbit_eqb, Z.shiftr_div_pow2 by lia.
  reflexivity.
Qed.

Lemma stream_digest q b :
  0 <= b < digest_length -> ith_bit (ith_digest q) b = Ok (stream (digest_length * q + b)).
Proof.
  intros Hb. rewrite ith_bit_testbit by exact Hb. unfold stream, digest_length in *. f_equal.
  replace (256 * q + b) with (b + q * 256) by ring.
  rewrite Z.div_add, Z.mod_add, (Z.div_small b 256), (Z.mod_small b 256) by lia. rewrite Z.add_0_l.
  f_equal. replace (q * 256) with ((q * 32) * 8) by ring. now rewrite Z.mod_add.
Qed.

Lemma next_bit_step k st :
  at_position k st -> exists st', next_bit st = Ok (stream k, st') /\ at_position (k + 1) st'.
Proof.
  intros (q & Hq & Hd & Hi & Hj & ->). unfold next_bit.
  destruct (Z.eqb_spec (j st) digest_length) as [E|E].
  - rewrite Hi, stream_digest by (unfold digest_length; lia). eexists. split.
    + cbn [bind]. do 3 f_equal. rewrite E. ring.
    + exists (q + 1). cbn [digest i j]. unfold digest_length in *. repeat split; lia.
  - rewrite Hd, stream_digest by (unfold digest_length in *; lia). eexists. split; [reflexivity|].
    exists q. cbn [digest i j]. unfold digest_length in *. repeat split; (exact Hd || lia).
Qed.

(** the bits that successive calls of [next_bit] return from the initial
    state are exactly the specified stream, digest after digest, none skipped
    and none repeated at a digest's boundary; no call ever raises. *)
Theorem next_bits_stream (n : nat) :
  exists st, next_bits n init_state = Ok (map (fun k => stream (Z.of_nat k)) (seq 0 n), st)
             /\ at_position (Z.of_nat n) st.
Proof.
  enough (G : forall n k st, at_position (Z.of_nat k) st ->
    exists st', next_bits n st = Ok (map (fun k => stream (Z.of_nat k)) (seq k n), st')
                /\ at_position (Z.of_nat (k + n)) st') by apply (G n 0%nat), at_position_init.
  clear n. induction n as [|n IH]; intros k st Hst; simpl.
  - exists st. now rewrite Nat.add_0_r.
  - destruct (next_bit_step _ _ Hst) as (st1 & -> & H1). cbn [bind].
    replace (Z.of_nat k + 1) with (Z.of_nat (S k)) in H1 by lia.
    destruct (IH _ _ H1) as (st2 & -> & H2). exists st2. split; [reflexivity|].
    now replace (k + S n)%nat with (S k + n)%nat by lia.
Qed.

End Crs.

(** The first digest of the module, with the real hash function, and the bits it
    starts with. *)
Example first_bits :
  match next_bits (hash := Blake2s.hashlib) 8 (init_state (hash := Blake2s.hashlib)) with
  | Ok (bs, st) => (bs, j st)
  | Err _ => ([], 0)
  end = ([true; false; false; false; false; false; true; false], 8).
Proof. vm_compute. reflexivity. Qed.

Lemma next_bits_stream_witness :
  exists st, next_bits (hash := Blake2s.hashlib) 300 (init_state (hash := Blake2s.hashlib))
             = Ok (map (fun k => stream (hash := Blake2s.hashlib) (Z.of_nat k)) (seq 0 300), st)
             /\ at_position (hash := Blake2s.hashlib) 300 st.
Proof. exact (next_bits_stream (hash := Blake2s.hashlib) (L := Blake2s.hashlib_laws) 300). Defined.
