(* ===== verification/Modular.v ===== *)
(** * Arithmetic modulo a prime

    The facts about [pow(x, e, p)] and congruence that the field and the curve of
    [reference.py] need: congruence is a setoid on which [Z.pow] is a morphism,
    a nonzero residue is inverted by its power [p - 2], one has two square roots,
    a polynomial has no more roots than its degree, and hence some residue has
    Legendre symbol -1. *)

From Stdlib Require Import ZArith Lia List Bool Zdiv Zpow_facts Zmod Morphisms Setoid.
From S2P Require Import Prelude.
Import ListNotations.
Open Scope Z_scope.

(** Python's three-argument [pow], for a nonnegative exponent. *)
Definition powmod (x e m : Z) : Z := Zpow_mod x e m.

Lemma powmod_spec x e m : m <> 0 -> powmod x e m = x ^ e mod m.
Proof. apply Zpow_mod_correct. Qed.

(** [a ≡ b] *)
Declare Scope eqm_scope.
Delimit Scope eqm_scope with eqm.
Set Warnings "-postfix-notation-not-level-1".
Notation "x == y [mod  m ]" := (eqm m x y) (at level 70, y at next level, m at level 200) : eqm_scope.
Open Scope eqm_scope.

#[export] Instance eqm_equiv m : Equivalence (eqm m) := eqm_setoid m.
#[export] Instance eqm_add m : Proper (eqm m ==> eqm m ==> eqm m) Z.add := Zplus_eqm m.
#[export] Instance eqm_sub m : Proper (eqm m ==> eqm m ==> eqm m) Z.sub := Zminus_eqm m.
#[export] Instance eqm_mul m : Proper (eqm m ==> eqm m ==> eqm m) Z.mul := Zmult_eqm m.
#[export] Instance eqm_opp m : Proper (eqm m ==> eqm m) Z.opp := Zopp_eqm m.

#[export] Instance eqm_pow m : Proper (eqm m ==> eq ==> eqm m) Z.pow.
Proof.
  intros x y H k _ <-. unfold eqm in *. now rewrite <- (Z.mod_pow_l x), H, Z.mod_pow_l.
Qed.

Lemma eqm_mod m x : x mod m == x [mod m].
Proof. apply Zmod_eqm. Qed.

Lemma eqm_powmod m x e : m <> 0 -> powmod x e m == x ^ e [mod m].
Proof. intros Hm. rewrite powmod_spec by exact Hm. apply eqm_mod. Qed.

Lemma eqm_sub_0 m x y : x - y == 0 [mod m] <-> x == y [mod m].
Proof.
  split; intros H.
  - replace x with (x - y + y) by ring. rewrite H. now replace (0 + y) with y by ring.
  - rewrite H. now replace (y - y) with 0 by ring.
Qed.

Lemma eqm_0_iff m x : x == 0 [mod m] <-> x mod m = 0.
Proof. unfold eqm. now rewrite Zmod_0_l. Qed.

Lemma eqm_self m : m == 0 [mod m].
Proof. apply eqm_0_iff, Z_mod_same_full. Qed.

Lemma eqm_sub_self m x : m - x == - x [mod m].
Proof. apply eqm_sub_0. replace (m - x - - x) with m by ring. apply eqm_self. Qed.

Lemma eqm_small m x y : 0 <= x < m -> 0 <= y < m -> x == y [mod m] -> x = y.
Proof. intros Hx Hy. unfold eqm. now rewrite !Z.mod_small. Qed.

(** Every congruence hypothesis becomes an equation, and [nia]-free ring steps
    close the rest: [eqm_ring] proves a congruence whose sides are equal. *)
Ltac eqm_ring := match goal with |- eqm _ ?x ?y => replace x with y by ring; reflexivity end.

Section Prime.
Context {p : Z} (Hp : Z.prime p).

Local Lemma p_ge_2 : 2 <= p.
Proof. now apply Z.prime_ge_2. Qed.

Lemma eqm_1_0 : ~ 1 == 0 [mod p].
Proof. pose proof p_ge_2. rewrite eqm_0_iff, Z.mod_small; lia. Qed.

Lemma eqm_mul_0 x y : x * y == 0 [mod p] -> x == 0 [mod p] \/ y == 0 [mod p].
Proof.
  pose proof p_ge_2. rewrite !eqm_0_iff, !Z.mod_divide by lia.
  apply Z.divide_prime_mul, Hp.
Qed.

Lemma eqm_cancel x y z : ~ x == 0 [mod p] -> x * y == x * z [mod p] -> y == z [mod p].
Proof.
  intros Hx H. apply eqm_sub_0. destruct (eqm_mul_0 x (y - z)) as [E|E]; [|easy|exact E].
  replace (x * (y - z)) with (x * y - x * z) by ring. now apply eqm_sub_0.
Qed.

Lemma eqm_pow_nz x k : 0 <= k -> ~ x == 0 [mod p] -> ~ x ^ k == 0 [mod p].
Proof.
  intros Hk Hx. pattern k. apply natlike_ind; [| |exact Hk].
  - apply eqm_1_0.
  - intros j Hj IH H. rewrite Z.pow_succ_r in H by exact Hj.
    apply eqm_mul_0 in H as [H|H]; auto.
Qed.

Lemma fermat x : ~ x == 0 [mod p] -> x ^ (p - 1) == 1 [mod p].
Proof.
  intros Hx. pose proof p_ge_2. unfold eqm. rewrite (Z.mod_small 1) by lia.
  apply Z.fermat_nz; [exact Hp|]. now rewrite <- eqm_0_iff.
Qed.

(** The inverse of the code: [pow(x, p - 2, p)]. *)
Lemma inverse x : ~ x == 0 [mod p] -> x * powmod x (p - 2) p == 1 [mod p].
Proof.
  intros Hx. pose proof p_ge_2. rewrite eqm_powmod by lia.
  rewrite <- Z.pow_succ_r by lia. replace (Z.succ (p - 2)) with (p - 1) by ring. now apply fermat.
Qed.

Lemma sqrt_unique x y : x * x == y * y [mod p] -> x == y [mod p] \/ x == - y [mod p].
Proof.
  intros H. destruct (eqm_mul_0 (x - y) (x + y)) as [E|E].
  - replace ((x - y) * (x + y)) with (x * x - y * y) by ring. now apply eqm_sub_0.
  - left. now apply eqm_sub_0.
  - right. apply eqm_sub_0. now replace (x - - y) with (x + y) by ring.
Qed.

Lemma sqrt_one x : x * x == 1 [mod p] -> x == 1 [mod p] \/ x == -1 [mod p].
Proof. intros H. apply (sqrt_unique x 1). now rewrite H. Qed.

(** ** Roots of polynomials (coefficients, constant term first) *)
Fixpoint peval (f : list Z) (x : Z) : Z :=
  match f with
  | [] => 0
  | c :: f' => c + x * peval f' x
  end.

Fixpoint padd (f g : list Z) : list Z :=
  match f, g with
  | [], _ => g
  | _, [] => f
  | c :: f', d :: g' => (c + d) :: padd f' g'
  end.

(** The quotient of [f - f(r)] by [X - r]. *)
Fixpoint pquot (f : list Z) (r : Z) : list Z :=
  match f with
  | [] => []
  | _ :: f' => padd f' (map (Z.mul r) (pquot f' r))
  end.

Lemma peval_padd f g x : peval (padd f g) x = peval f x + peval g x.
Proof.
  revert g. induction f as [|c f IH]; intros [|d g]; simpl; try ring. rewrite IH. ring.
Qed.

Lemma peval_scale c f x : peval (map (Z.mul c) f) x = c * peval f x.
Proof. induction f as [|d f IH]; simpl; [ring|]. rewrite IH. ring. Qed.

Lemma peval_pquot f r x : peval f x - peval f r = (x - r) * peval (pquot f r) x.
Proof.
  induction f as [|c f IH]; simpl; [ring|]. rewrite peval_padd, peval_scale.
  transitivity ((x - r) * peval f x + r * (peval f x - peval f r)); [ring|]. rewrite IH. ring.
Qed.

Lemma length_padd f g : length (padd f g) = Nat.max (length f) (length g).
Proof. revert g. induction f as [|c f IH]; intros [|d g]; simpl; auto. Qed.

Lemma length_pquot f r : length (pquot f r) = pred (length f).
Proof.
  induction f as [|c f IH]; simpl; [reflexivity|].
  rewrite length_padd, length_map, IH. lia.
Qed.

Lemma last_padd f g d : (length g < length f)%nat -> last (padd f g) d = last f d.
Proof.
  revert g. induction f as [|c f IH]; intros [|e g] H; simpl in *; try lia; try reflexivity.
  destruct f as [|c' f]; simpl in *; [lia|].
  destruct g as [|e' g]; simpl in *; [reflexivity|].
  apply (IH (e' :: g)). simpl. lia.
Qed.

Lemma last_pquot f r d : (2 <= length f)%nat -> last (pquot f r) d = last f d.
Proof.
  destruct f as [|c [|c' f]]; [simpl; lia | simpl; lia|]. intros _.
  change (pquot (c :: c' :: f) r) with (padd (c' :: f) (map (Z.mul r) (pquot (c' :: f) r))).
  rewrite last_padd; [reflexivity|]. rewrite length_map, length_pquot. simpl. lia.
Qed.

(** A polynomial whose leading coefficient is not zero has at most as many roots
    as its degree. *)
Lemma roots_bound f l :
  (1 <= length f)%nat -> ~ last f 0 == 0 [mod p] ->
  NoDup l -> Forall (fun x => 0 <= x < p) l -> Forall (fun x => peval f x == 0 [mod p]) l ->
  (length l < length f)%nat.
Proof.
  revert f. induction l as [|r l IH]; intros f Hf Hlast Hnd Hr Hroots; simpl; [lia|].
  inversion_clear Hnd as [|? ? Hnin Hnd']. inversion_clear Hr as [|? ? Hr0 Hr'].
  inversion_clear Hroots as [|? ? Hroot Hroots'].
  destruct f as [|c [|c' f]]; simpl in Hf; [lia| |].
  - exfalso. apply Hlast. simpl in *. now rewrite Z.mul_0_r, Z.add_0_r in Hroot.
  - enough (length l < length (pquot (c :: c' :: f) r))%nat
      by (rewrite length_pquot in H; simpl in *; lia).
    apply IH; auto.
    + rewrite length_pquot. simpl. lia.
    + rewrite last_pquot by (simpl; lia). exact Hlast.
    + rewrite Forall_forall in *. intros x Hx.
      destruct (eqm_mul_0 (x - r) (peval (pquot (c :: c' :: f) r) x)) as [E|E]; [| |exact E].
      * rewrite <- peval_pquot, (Hroots' x Hx), Hroot. reflexivity.
      * exfalso. apply (proj1 (eqm_sub_0 _ _ _)), eqm_small in E; [|auto|auto]. apply Hnin. now rewrite <- E.
Qed.

(** [X^k - 1] *)
Definition pow_minus_1 (k : nat) : list Z := (-1 :: repeat 0 (pred k)) ++ [1].

Lemma peval_app f g x : peval (f ++ g) x = peval f x + x ^ Z.of_nat (length f) * peval g x.
Proof.
  induction f as [|c f IH]; cbn [peval app length]; [now rewrite Z.pow_0_r; ring_simplify|].
  rewrite IH, Nat2Z.inj_succ, Z.pow_succ_r by lia. ring.
Qed.

Lemma peval_zeros k x : peval (repeat 0 k) x = 0.
Proof. induction k as [|k IH]; simpl; [reflexivity|]. rewrite IH. ring. Qed.

Lemma peval_pow_minus_1 k x :
  (1 <= k)%nat -> peval (pow_minus_1 k) x = x ^ Z.of_nat k - 1.
Proof.
  intros Hk. unfold pow_minus_1. rewrite peval_app. cbn [peval length].
  rewrite peval_zeros, repeat_length. replace (S (pred k)) with k by lia. ring.
Qed.

(** Some residue is not a root of [X^k - 1] when [k < p - 1]. *)
Lemma non_root k : (1 <= k)%nat -> Z.of_nat k < p - 1 ->
  exists z, 1 <= z < p /\ ~ z ^ Z.of_nat k == 1 [mod p].
Proof.
  intros Hk Hkp. pose proof p_ge_2.
  destruct (Forall_dec (fun z => z ^ Z.of_nat k == 1 [mod p])
             (fun z => Z.eq_dec _ _) (range 1 p)) as [A|A].
  - exfalso. enough (length (range 1 p) < length (pow_minus_1 k))%nat.
    { rewrite range_length in H0. unfold pow_minus_1 in H0.
      rewrite length_app in H0. simpl in H0. rewrite repeat_length in H0. lia. }
    apply roots_bound.
    + unfold pow_minus_1. simpl. lia.
    + unfold pow_minus_1. rewrite last_last. apply eqm_1_0.
    + unfold range. apply Finite.Injective_map_NoDup; [intros u v; lia | apply seq_NoDup].
    + apply Forall_forall. intros x Hx. apply in_range in Hx. lia.
    + rewrite Forall_forall in *. intros x Hx. rewrite peval_pow_minus_1 by lia.
      rewrite (A x Hx). reflexivity.
  - apply neg_Forall_Exists_neg in A; [|intros z; apply Z.eq_dec].
    apply Exists_exists in A as (z & Hz & Hne). apply in_range in Hz. eauto.
Qed.

End Prime.
