(* ===== verification/FieldSqrt.v ===== *)
(** * Square roots in the base field, [reference.py] lines 1 to 96

    The module's constants are the class [Params] (its instance [mnt4_753] holds
    the literals of the file), so that the algorithms can be run, and their
    hypotheses met, at other fields and curves too.  [prime_mod_sqrt] is the
    Tonelli-Shanks algorithm with its three while loops; all run on binary fuel,
    and [prime_mod_sqrt_spec] shows that for a prime [p] the fuel never runs out. *)

From Stdlib Require Import String ZArith Lia List Bool Morphisms Setoid Zdiv Zmod.
From S2P Require Import Prelude Modular.
Import ListNotations.
Open Scope Z_scope.
Open Scope eqm_scope.

Class Params := { p : Z; n : Z; a : Z; b : Z; G : Z * Z }.

Definition mnt4_753 : Params := {|
  a := 11;
  b := 0x7DA285E70863C79D56446237CE2E1468D14AE9BB64B2BB01B10E60A5D5DFE0A25714B7985993F62F03B22A9A3C737A1A1E0FCF2C43D7BF847957C34CCA1E3585F9A80A95F401867C4E80F4747FDE5ABA7505BA6FCF2485540B13DFC8468A;
  p := 0x1C4C62D92C41110229022EEE2CDADB7F997505B8FAFED5EB7E8F96C97D87307FDB925E8A0ED8D99D124D9A15AF79DB26C5C28C859A99B3EEBCA9429212636B9DFF97634993AA4D6C381BC3F0057974EA099170FA13A4FD90776E240000001;
  n := 0x1C4C62D92C41110229022EEE2CDADB7F997505B8FAFED5EB7E8F96C97D87307FDB925E8A0ED8D99D124D9A15AF79DB117E776F218059DB80F0DA5CB537E38685ACCE9767254A4638810719AC425F0E39D54522CDD119F5E9063DE245E8001;
  G := (0xB0D6E141836D261DBE17959758B33A19987126CB808DFA411854CF0A44C0F4962ECA2A213FFEAA770DAD44F59F260AC64C9FCB46DA65CBC9EEBE1CE9B83F91A64B685106D5F1E4A05DDFAE9B2E1A567E0E74C1B7FF94CC3F361FB1F064AA,
        0x30BD0DCB53B85BD013043029438966FFEC9438150AD06F59B4CC8DDA8BFF0FE5D3F4F63E46AC91576D1B4A15076774FEB51BA730F83FC9EB56E9BCC9233E031577A744C336E1EDFF5513BF5C9A4D234BCC4AD6D9F1B3FDF00E16446A8268)
|}.

(** [N = 753], the bits of a field element. *)
Definition N : Z := 753.

Section Sqrt.
Context {P : Params}.

Definition legendre_symbol (a : Z) : Z :=
  let ls := powmod a ((p - 1) / 2) p in
  if ls =? p - 1 then -1 else ls.

(** [while q % 2 == 0: s += 1; q //= 2] *)
Definition factor_step (qs : Z * Z) : (Z * Z) + result (Z * Z) :=
  let '(q, s) := qs in
  if q mod 2 =? 0 then inl (q / 2, s + 1) else inr (Ok (q, s)).

(** [while legendre_symbol(z) != -1: z += 1] *)
Definition nonresidue_step (z : Z) : Z + result Z :=
  if legendre_symbol z =? -1 then inr (Ok z) else inl (z + 1).

(** [for i in range(1, m): if pow(t, e, p) == 1: break; e *= 2] leaves [i] at the
    first hit, or at the last index tried, or untouched if there is none. *)
Fixpoint find_i (t : Z) (ks : list Z) (i e : Z) : Z :=
  match ks with
  | [] => i
  | k :: ks' => if powmod t e p =? 1 then k else find_i t ks' k (e * 2)
  end.

(** One round of [while t != 1].  The exponent of [pow(c, 2**(m - i - 1), p)] is a
    float when [m - i - 1] is negative, which [pow] refuses. *)
Definition search_step (st : Z * Z * Z * Z) : (Z * Z * Z * Z) + result (list Z) :=
  let '(x, t, c, m) := st in
  if t =? 1 then inr (Ok [x; p - x]) else
  let i := find_i t (range 1 m) 0 2 in
  if m - i - 1 <? 0 then inr (Err TypeError) else
  let b := powmod c (2 ^ (m - i - 1)) p in
  inl ((x * b) mod p, (t * b * b) mod p, (b * b) mod p, i).

Definition prime_mod_sqrt (a : Z) : result (list Z) :=
  let a := a mod p in
  if a =? 0 then Ok [0]
  else if p =? 2 then Ok [a]
  else if negb (legendre_symbol a =? 1) then Ok []
  else if p mod 4 =? 3 then
    let x := powmod a ((p + 1) / 4) p in Ok [x; p - x]
  else
    let* (q, s) := while_loop (Z.to_pos p) factor_step (p - 1, 0) in
    let* z := while_loop (Z.to_pos p) nonresidue_step 1 in
    let c := powmod z q p in
    let x := powmod a ((q + 1) / 2) p in
    let t := powmod a q p in
    let m := s in
    while_loop (Z.to_pos p) search_step (x, t, c, m).

Definition both_sqrt (y2 : Z) : result (Z * Z) :=
  let* l := prime_mod_sqrt y2 in
  match l with
  | [y; negy] => Ok (if y <? negy then (y, negy) else (negy, y))
  | _ => Err (ValueError "unpack"%string)
  end.

Definition is_square (x : Z) : bool := legendre_symbol x =? 1.

(** ** Euler's criterion *)
Context (Hp : Z.prime p).

Local Lemma p2 : 2 <= p.
Proof. now apply Z.prime_ge_2. Qed.

Lemma prime_odd : p <> 2 -> p mod 2 = 1.
Proof.
  intros H2. pose proof p2. destruct Hp as [_ Hd].
  pose proof (Z.mod_pos_bound p 2 ltac:(lia)).
  destruct (Z.eq_dec (p mod 2) 0) as [E|E]; [|lia].
  exfalso. apply (Hd 2); [lia|]. now apply Z.mod_divide.
Qed.

Lemma half_double : p <> 2 -> (p - 1) / 2 * 2 = p - 1.
Proof.
  intros H2%prime_odd. pose proof (Z.div_mod p 2 ltac:(discriminate)).
  replace (p - 1) with (p / 2 * 2) by lia. now rewrite Z.div_mul by lia.
Qed.

Lemma half_pos : p <> 2 -> 1 <= (p - 1) / 2.
Proof. intros H. pose proof (half_double H). pose proof p2. lia. Qed.

Lemma eqm_opp1 : -1 == p - 1 [mod p].
Proof. symmetry. apply eqm_sub_self. Qed.

Lemma legendre_eqm x : legendre_symbol x == x ^ ((p - 1) / 2) [mod p].
Proof.
  pose proof p2. unfold legendre_symbol. case_if.
  - apply Z.eqb_eq in C. transitivity (powmod x ((p - 1) / 2) p).
    + rewrite C. apply eqm_opp1.
    + apply eqm_powmod. lia.
  - apply eqm_powmod. lia.
Qed.

Lemma legendre_range x : -1 <= legendre_symbol x < p - 1.
Proof.
  pose proof p2. unfold legendre_symbol.
  assert (0 <= powmod x ((p - 1) / 2) p < p).
  { rewrite powmod_spec by lia. apply Z.mod_pos_bound. lia. }
  case_if; zify_bool; lia.
Qed.

Lemma legendre_eq x v :
  -1 <= v < p - 1 -> x ^ ((p - 1) / 2) == v [mod p] -> legendre_symbol x = v.
Proof.
  intros Hv H. rewrite <- legendre_eqm in H. pose proof (legendre_range x). pose proof p2.
  apply Z.add_cancel_l with (p := 1). apply (eqm_small p); [lia | lia|]. now rewrite H.
Qed.

Lemma euler_cases x : p <> 2 -> ~ x == 0 [mod p] ->
  x ^ ((p - 1) / 2) == 1 [mod p] \/ x ^ ((p - 1) / 2) == -1 [mod p].
Proof.
  intros H2 Hx. apply sqrt_one; [exact Hp|]. rewrite <- Z.pow_twice_r.
  rewrite Z.mul_comm, half_double by exact H2. now apply fermat.
Qed.

Lemma legendre_square x y : p <> 2 -> ~ x == 0 [mod p] -> y * y == x [mod p] ->
  legendre_symbol x = 1.
Proof.
  intros H2 Hx Hy. pose proof p2. pose proof (half_pos H2).
  apply legendre_eq; [lia|]. rewrite <- Hy.
  rewrite <- Z.pow_2_r, <- Z.pow_mul_r, (Z.mul_comm 2), half_double by lia.
  apply fermat; [exact Hp|]. intros E. apply Hx. rewrite <- Hy, E. reflexivity.
Qed.

Lemma nonresidue_exists : p <> 2 -> exists z, 1 <= z < p /\ legendre_symbol z = -1.
Proof.
  intros H2. pose proof p2. pose proof (half_pos H2). pose proof (half_double H2).
  destruct (non_root Hp (Z.to_nat ((p - 1) / 2))) as (z & Hz & Hne); [lia|lia|].
  rewrite Z2Nat.id in Hne by lia. exists z. split; [exact Hz|].
  apply legendre_eq; [lia|]. destruct (euler_cases z H2) as [E|E]; [|easy|exact E].
  rewrite eqm_0_iff, Z.mod_small; lia.
Qed.

(** ** The three loops *)
Lemma factor_loop : p <> 2 ->
  exists q s, while_loop (Z.to_pos p) factor_step (p - 1, 0) = Ok (q, s)
              /\ q * 2 ^ s = p - 1 /\ 1 <= s /\ q mod 2 = 1.
Proof.
  intros H2. pose proof p2. pose proof (prime_odd H2) as Hodd.
  pose (I := fun qs : Z * Z => fst qs * 2 ^ snd qs = p - 1 /\ 0 <= snd qs /\ 1 <= fst qs).
  apply (while_loop_total factor_step I
    (fun r => exists q s, r = Ok (q, s) /\ q * 2 ^ s = p - 1 /\ 1 <= s /\ q mod 2 = 1) fst).
  - intros [q s] st' (E & Hs & Hq) Hst. cbn [fst snd] in *. unfold factor_step in Hst.
    destruct (Z.eqb_spec (q mod 2) 0) as [E2|]; [|discriminate]. injection Hst as <-.
    pose proof (Z.div_mod q 2 ltac:(lia)). split; [|cbn [fst]; lia].
    repeat split; cbn [fst snd]; [|lia|lia]. rewrite Z.pow_add_r, Z.pow_1_r by lia.
    rewrite <- E. transitivity (2 * (q / 2) * 2 ^ s); [ring|]. f_equal. lia.
  - intros [q s] r (E & Hs & Hq) Hst. cbn [fst snd] in *. unfold factor_step in Hst.
    destruct (Z.eqb_spec (q mod 2) 0) as [|E2]; [discriminate|]. injection Hst as <-.
    pose proof (Z.mod_pos_bound q 2 ltac:(lia)). exists q, s. repeat split; [exact E| |lia].
    destruct (Z.eq_dec s 0) as [->|]; [|lia]. rewrite Z.pow_0_r, Z.mul_1_r in E.
    rewrite E in E2. pose proof (Z.div_mod p 2 ltac:(discriminate)). exfalso. apply E2.
    replace (p - 1) with (p / 2 * 2) by lia. now apply Z.mod_mul.
  - unfold I. cbn [fst snd]. rewrite Z.pow_0_r. lia.
  - cbn [fst]. rewrite Z2Pos.id; lia.
Qed.

Lemma nonresidue_loop : p <> 2 ->
  exists z, while_loop (Z.to_pos p) nonresidue_step 1 = Ok z /\ legendre_symbol z = -1.
Proof.
  intros H2. pose proof p2. destruct (nonresidue_exists H2) as (z0 & Hz0 & E0).
  apply (while_loop_total nonresidue_step (fun z => 1 <= z <= z0)
    (fun r => exists z, r = Ok z /\ legendre_symbol z = -1) (fun z => z0 - z)).
  - intros z z' Hz Hst. unfold nonresidue_step in Hst.
    destruct (Z.eqb_spec (legendre_symbol z) (-1)) as [|E]; [discriminate|].
    injection Hst as <-. assert (z <> z0) by (intros ->; auto). lia.
  - intros z r Hz Hst. unfold nonresidue_step in Hst.
    destruct (Z.eqb_spec (legendre_symbol z) (-1)) as [E|]; [|discriminate].
    injection Hst as <-. eauto.
  - lia.
  - rewrite Z2Pos.id; lia.
Qed.

(** [find_i] answers the least index whose power is one, when there is one. *)
Lemma find_i_from t k m i :
  1 <= k -> (exists j, k <= j < m /\ t ^ 2 ^ j == 1 [mod p]) ->
  let i := find_i t (range k m) i (2 ^ k) in
  k <= i < m /\ t ^ 2 ^ i == 1 [mod p] /\ forall j, k <= j < i -> ~ t ^ 2 ^ j == 1 [mod p].
Proof.
  pose proof p2. remember (Z.to_nat (m - k)) as d eqn:Hd. revert k i Hd.
  induction d as [|d IH]; intros k i Hd Hk (j & Hj & Ej); [lia|].
  rewrite range_cons by lia. cbn [find_i].
  assert (D : powmod t (2 ^ k) p = 1 <-> t ^ 2 ^ k == 1 [mod p]).
  { rewrite powmod_spec by lia. unfold eqm. now rewrite (Z.mod_small 1) by lia. }
  destruct (Z.eqb_spec (powmod t (2 ^ k) p) 1) as [E|E].
  - repeat split; try lia. now apply D.
  - replace (2 ^ k * 2) with (2 ^ (k + 1)) by (rewrite Z.pow_add_r by lia; ring).
    destruct (Z.eq_dec j k) as [->|Hne]; [exfalso; apply E, D, Ej|].
    destruct (IH (k + 1) k) as (A & B & M); [lia|lia|exists j; split; [lia|exact Ej]|].
    repeat split; try lia; [exact B|]. intros j' Hj'.
    destruct (Z.eq_dec j' k) as [->|]; [now rewrite <- D|]. apply M. lia.
Qed.

Lemma find_i_spec t m : (exists j, 1 <= j < m /\ t ^ 2 ^ j == 1 [mod p]) ->
  let i := find_i t (range 1 m) 0 2 in
  1 <= i < m /\ t ^ 2 ^ i == 1 [mod p] /\ forall j, 1 <= j < i -> ~ t ^ 2 ^ j == 1 [mod p].
Proof. apply (find_i_from t 1 m 0). lia. Qed.

(** The invariant of the search: [x] is a root of [a * t], the order of [t] divides
    [2^(m-1)] and that of [c] is exactly [2^m]. *)
Definition search_inv (a0 : Z) (st : Z * Z * Z * Z) : Prop :=
  let '(x, t, c, m) := st in
  x * x == a0 * t [mod p] /\ 1 <= m /\ t ^ 2 ^ (m - 1) == 1 [mod p]
  /\ c ^ 2 ^ (m - 1) == -1 [mod p] /\ 0 <= t < p /\ 0 <= x < p.

Lemma search_i a0 x t c m : search_inv a0 (x, t, c, m) -> t <> 1 ->
  let i := find_i t (range 1 m) 0 2 in
  1 <= i < m /\ t ^ 2 ^ i == 1 [mod p] /\ ~ t ^ 2 ^ (i - 1) == 1 [mod p].
Proof.
  pose proof p2. intros (Hx & Hm & Ht & Hc & Rt & Rx) Ht1.
  assert (Hne : ~ t ^ 2 ^ (1 - 1) == 1 [mod p]).
  { rewrite Z.sub_diag, Z.pow_0_r, Z.pow_1_r. intros E. apply eqm_small in E; lia. }
  assert (2 <= m) by (destruct (Z.eq_dec m 1) as [->|]; [now elim Hne | lia]).
  destruct (find_i_spec t m) as (Hi & Ei & Mi); [exists (m - 1); split; [lia|exact Ht]|].
  split; [exact Hi|]. split; [exact Ei|].
  destruct (Z.eq_dec (find_i t (range 1 m) 0 2) 1) as [->|]; [exact Hne|]. apply Mi. lia.
Qed.

Lemma search_step_inv a0 st st' :
  search_inv a0 st -> search_step st = inl st' ->
  search_inv a0 st' /\ 0 <= snd st' < snd st.
Proof.
  pose proof p2. destruct st as [[[x t] c] m]. intros Hinv.
  unfold search_step. destruct (Z.eqb_spec t 1) as [|Ht1]; [discriminate|].
  destruct (search_i _ _ _ _ _ Hinv Ht1) as (Hi & Ei & Mi).
  destruct Hinv as (Hx & Hm & Ht & Hc & Rt & Rx).
  set (i := find_i t (range 1 m) 0 2) in *.
  destruct (Z.ltb_spec (m - i - 1) 0); [lia|]. intros E. injection E as <-.
  assert (Hu : t ^ 2 ^ (i - 1) == -1 [mod p]).
  { destruct (sqrt_one Hp (t ^ 2 ^ (i - 1))) as [E|E]; [| |exact E].
    - rewrite <- Z.pow_twice_r, <- Z.pow_succ_r by lia.
      now replace (Z.succ (i - 1)) with i by ring.
    - now elim Mi. }
  set (b0 := powmod c (2 ^ (m - i - 1)) p).
  assert (Hb : (b0 * b0) ^ 2 ^ (i - 1) == -1 [mod p]).
  { pose proof (Z.pow_nonneg 2 (m - i - 1)). pose proof (Z.pow_nonneg 2 (i - 1)).
    unfold b0. rewrite eqm_powmod by lia. rewrite <- Z.pow_twice_r, <- Z.pow_mul_r by lia.
    replace (2 * 2 ^ (m - i - 1) * 2 ^ (i - 1)) with (2 ^ (m - 1)); [exact Hc|].
    rewrite <- Z.pow_succ_r by lia. rewrite <- Z.pow_add_r by lia. f_equal. ring. }
  assert (Hp0 : 0 < p) by lia.
  pose proof (Z.mod_pos_bound (t * b0 * b0) p Hp0).
  pose proof (Z.mod_pos_bound (x * b0) p Hp0).
  split; [|cbn [snd]; lia]. repeat split; try lia.
  - rewrite !eqm_mod. replace (x * b0 * (x * b0)) with (x * x * (b0 * b0)) by ring.
    rewrite Hx. eqm_ring.
  - rewrite eqm_mod, <- Z.mul_assoc, Z.pow_mul_l, Hu, Hb. reflexivity.
  - now rewrite eqm_mod.
Qed.

Lemma search_loop a0 st : search_inv a0 st -> snd st < p ->
  exists x, while_loop (Z.to_pos p) search_step st = Ok [x; p - x]
            /\ 0 <= x < p /\ x * x == a0 [mod p].
Proof.
  intros Hst Hm. pose proof p2.
  apply (while_loop_total search_step (search_inv a0)
    (fun r => exists x, r = Ok [x; p - x] /\ 0 <= x < p /\ x * x == a0 [mod p]) snd);
    [apply search_step_inv | | exact Hst | rewrite Z2Pos.id; lia].
  intros [[[x t] c] m] r Hinv Hs. unfold search_step in Hs.
  destruct (Z.eqb_spec t 1) as [->|Ht1].
  - injection Hs as <-. destruct Hinv as (Hx & _ & _ & _ & _ & Rx).
    exists x. rewrite Z.mul_1_r in Hx. auto.
  - destruct (search_i _ _ _ _ _ Hinv Ht1) as (Hi & _).
    destruct (Z.ltb_spec (m - find_i t (range 1 m) 0 2 - 1) 0); [lia | discriminate].
Qed.

(** ** The whole function *)
Lemma root_pair a0 x : p <> 2 -> 0 <= x < p -> ~ a0 == 0 [mod p] -> x * x == a0 [mod p] ->
  NoDup [x; p - x] /\ forall y, In y [x; p - x] <-> 0 <= y < p /\ y * y == a0 [mod p].
Proof.
  intros H2 Hx Ha Hxx. pose proof (prime_odd H2) as Hodd.
  assert (x <> 0) by (intros ->; apply Ha; now rewrite <- Hxx).
  assert (x <> p - x).
  { intros E. rewrite (Z.mod_eq p 2) in Hodd by lia. lia. }
  split.
  { constructor; [intros [E|[]]; congruence | constructor; [easy | constructor]]. }
  intros y. split.
  - intros [<-|[<-|[]]]; (split; [lia|]); [exact Hxx|]. rewrite <- Hxx, (eqm_sub_self p x). eqm_ring.
  - intros [Hy Hyy]. rewrite <- Hxx in Hyy. destruct (sqrt_unique Hp _ _ Hyy) as [E|E].
    + left. symmetry. now apply (eqm_small p).
    + right. left. symmetry. apply (eqm_small p); [lia|lia|]. rewrite E. symmetry. apply eqm_sub_self.
Qed.

Lemma prime_mod_sqrt_odd a0 : p <> 2 -> 0 < a0 < p -> legendre_symbol a0 = 1 ->
  exists x, prime_mod_sqrt a0 = Ok [x; p - x] /\ 0 <= x < p /\ x * x == a0 [mod p].
Proof.
  intros H2 Ha Hl. pose proof (half_double H2). pose proof (half_pos H2).
  pose proof (legendre_eqm a0) as El. rewrite Hl in El.
  assert (Hp0 : 0 < p) by lia. pose proof (Z.mod_pos_bound p 4 ltac:(lia)).
  unfold prime_mod_sqrt. rewrite (Z.mod_small a0) by lia.
  rewrite (proj2 (Z.eqb_neq a0 0)), (proj2 (Z.eqb_neq p 2)), Hl by lia. cbn [negb Z.eqb].
  change (1 =? 1) with true. cbn [negb]. destruct (Z.eqb_spec (p mod 4) 3) as [E4|E4].
  - eexists. split; [reflexivity|]. split.
    + rewrite powmod_spec by lia. apply Z.mod_pos_bound. lia.
    + pose proof (Z.div_mod p 4 ltac:(discriminate)).
      assert (E1 : (p + 1) / 4 = p / 4 + 1) by (symmetry; apply (Z.div_unique _ _ _ 0); lia).
      assert (E2 : (p - 1) / 2 = 2 * (p / 4) + 1) by lia.
      pose proof (Z.div_pos p 4). rewrite !eqm_powmod, <- Z.pow_twice_r, E1 by lia.
      replace (2 * (p / 4 + 1)) with (Z.succ ((p - 1) / 2)) by lia.
      rewrite Z.pow_succ_r, <- El by lia. eqm_ring.
  - destruct (factor_loop H2) as (q & s & -> & Eqs & Hs & Hq). cbn [bind].
    destruct (nonresidue_loop H2) as (z & -> & Hz). cbn [bind].
    pose proof (legendre_eqm z) as Ez. rewrite Hz in Ez.
    assert (Hpow : q * 2 ^ (s - 1) = (p - 1) / 2).
    { replace s with (Z.succ (s - 1)) in Eqs by lia. rewrite Z.pow_succ_r in Eqs by lia. lia. }
    pose proof (Z.pow_pos_nonneg 2 (s - 1)). assert (0 < q) by nia.
    pose proof (Z.div_mod q 2 ltac:(discriminate)).
    apply (search_loop a0).
    + cbv beta iota zeta delta [search_inv]. repeat split; try lia.
      * rewrite !eqm_powmod, <- Z.pow_twice_r by lia.
        assert (E1 : (q + 1) / 2 = q / 2 + 1) by (symmetry; apply (Z.div_unique _ _ _ 0); lia).
        rewrite E1. replace (2 * (q / 2 + 1)) with (Z.succ q) by lia. now rewrite Z.pow_succ_r by lia.
      * rewrite eqm_powmod, <- Z.pow_mul_r, Hpow by lia. now symmetry.
      * rewrite eqm_powmod, <- Z.pow_mul_r, Hpow by lia. now symmetry.
      * rewrite powmod_spec by lia. now apply Z.mod_pos_bound.
      * rewrite powmod_spec by lia. now apply Z.mod_pos_bound.
      * rewrite powmod_spec by lia. now apply Z.mod_pos_bound.
      * rewrite powmod_spec by lia. now apply Z.mod_pos_bound.
    + cbn [snd]. pose proof (Z.pow_gt_lin_r 2 s). nia.
Qed.

Lemma no_root a0 y : p <> 2 -> ~ a0 == 0 [mod p] -> legendre_symbol a0 <> 1 ->
  ~ y * y == a0 [mod p].
Proof. intros H2 Ha Hl Hy. apply Hl. now apply (legendre_square a0 y). Qed.

Lemma legendre_mod x : legendre_symbol (x mod p) = legendre_symbol x.
Proof.
  pose proof p2. pose proof (legendre_range x). apply legendre_eq; [lia|].
  rewrite (eqm_mod p x). symmetry. apply legendre_eqm.
Qed.

Lemma prime_mod_sqrt_mod x : prime_mod_sqrt (x mod p) = prime_mod_sqrt x.
Proof. unfold prime_mod_sqrt. now rewrite Zmod_mod. Qed.

End Sqrt.

Lemma prime_mod_sqrt_roots (P : Params) (Hp : Z.prime p) (x : Z) :
  exists l, prime_mod_sqrt x = Ok l /\ NoDup l
            /\ forall y, In y l <-> 0 <= y < p /\ (y * y) mod p = x mod p.
Proof.
  assert (Hp0 : 0 < p) by (pose proof (Z.prime_ge_2 p Hp); lia).
  pose proof (Z.mod_pos_bound x p Hp0) as Hr. rewrite <- (prime_mod_sqrt_mod x).
  assert (Er : x mod p = (x mod p) mod p) by (symmetry; apply Zmod_mod). rewrite Er.
  rewrite prime_mod_sqrt_mod. set (r := x mod p) in *. clearbody r. clear x Er.
  assert (Hr0 : r = 0 \/ ~ r == 0 [mod p]).
  { destruct (Z.eq_dec r 0); [now left|right]. rewrite eqm_0_iff, Z.mod_small; lia. }
  assert (Single : (forall y, 0 <= y < p -> (y * y == r [mod p] <-> y = r)) ->
    NoDup [r] /\ forall y, In y [r] <-> 0 <= y < p /\ y * y == r [mod p]).
  { intros Hu. split; [repeat constructor; easy|]. intros y. split.
    - intros [<-|[]]. split; [exact Hr|]. now apply Hu.
    - intros [Hy E]. left. symmetry. now apply Hu. }
  destruct Hr0 as [->|Hr0]; [|destruct (Z.eq_dec p 2) as [H2|H2]].
  - exists [0]. split; [reflexivity|]. apply Single. intros y Hy. split; [|now intros ->].
    intros E. apply eqm_mul_0 in E as [E|E]; try exact Hp; apply (eqm_small p); auto; lia.
  - exists [r]. assert (r = 1) by (destruct (Z.eq_dec r 0) as [->|]; [now elim Hr0 | lia]).
    split; [|apply Single; intros y Hy].
    + unfold prime_mod_sqrt. rewrite Zmod_small by lia. subst r. now rewrite H2.
    + unfold eqm. rewrite H2. subst r. assert (y = 0 \/ y = 1) as [->| ->] by lia; easy.
  - assert (Hr1 : 0 < r < p) by (destruct (Z.eq_dec r 0) as [->|]; [now elim Hr0 | lia]).
    destruct (Z.eq_dec (legendre_symbol r) 1) as [Hl|Hl].
    + destruct (prime_mod_sqrt_odd Hp r H2 Hr1 Hl) as (y & E & Hy & Hyy).
      exists [y; p - y]. split; [exact E|]. now apply root_pair.
    + exists []. split; [|split; [constructor|]].
      * unfold prime_mod_sqrt. rewrite (Z.mod_small r) by lia.
        rewrite (proj2 (Z.eqb_neq r 0)), (proj2 (Z.eqb_neq p 2)) by lia.
        now rewrite (proj2 (Z.eqb_neq _ _) Hl).
      * intros y. split; [easy|]. intros [_ E]. now apply (no_root Hp r y H2 Hr0 Hl).
Qed.

(** C4: for every prime modulus the Tonelli-Shanks function terminates without
    raising, and returns exactly the square roots of its argument, without
    repetition: the empty list for a non-residue, the single root of zero, and
    both roots otherwise. *)
Theorem prime_mod_sqrt_spec (P : Params) (Hp : Z.prime p) (x : Z) :
  exists l, prime_mod_sqrt x = Ok l /\ NoDup l
            /\ forall y, In y l <-> 0 <= y < p /\ (y * y) mod p = x mod p.
Proof. exact (prime_mod_sqrt_roots P Hp x). Qed.

(** A field in which [p - 1] is divisible by 16, so that every loop runs. *)
Definition field_97 : Params := {| p := 97; n := 0; a := 0; b := 0; G := (0, 0) |}.

Example sqrt_97 : @prime_mod_sqrt field_97 35 = Ok [61; 36].
Proof. vm_compute. reflexivity. Qed.

Lemma prime_97 : Z.prime 97.
Proof.
  split; [lia|]. intros d Hd Hdiv. apply Z.mod_divide in Hdiv; [|lia].
  enough (H : forallb (fun d => negb (97 mod d =? 0)) (range 2 97) = true).
  { rewrite forallb_forall in H. specialize (H d ltac:(apply in_range; lia)).
    now rewrite Hdiv in H. }
  vm_compute. reflexivity.
Qed.

Lemma prime_mod_sqrt_spec_witness :
  exists l, @prime_mod_sqrt field_97 35 = Ok l /\ NoDup l
            /\ forall y, In y l <-> 0 <= y < 97 /\ (y * y) mod 97 = 35 mod 97.
Proof. exact (prime_mod_sqrt_spec field_97 prime_97 35). Defined.
