(* ===== verification/Codec.v ===== *)
(** * Integers, bytes, bits and trytes, [reference.py] lines 176 to 241

    Bytes are integers in [0, 256), bits are the integers 0 and 1, a tryte is a
    triple of bits.  The triples and the bytes are read at [i], [i + 1], ... for
    consecutive [i], as the code reads them: they overlap. *)

From Stdlib Require Import String ZArith Lia List Bool.
From S2P Require Import Prelude Blake2s FieldSqrt.
Import ListNotations.
Open Scope Z_scope.

Definition tryte : Type := (Z * Z * Z)%type.

(** [x.to_bytes(k, byteorder="little")] and [int.from_bytes(b, byteorder="little")]. *)
Fixpoint to_bytes_le (k : nat) (x : Z) : list Z :=
  match k with
  | O => []
  | S k' => x mod 256 :: to_bytes_le k' (x / 256)
  end.

Definition bytes_from_int (x : Z) : result (list Z) :=
  if (0 <=? x) && (x <? 2 ^ (8 * 95)) then Ok (to_bytes_le 95 x) else Err OverflowError.

Fixpoint int_from_bytes (bs : list Z) : Z :=
  match bs with
  | [] => 0
  | c :: bs' => c + 256 * int_from_bytes bs'
  end.

(** [(x >> i) & 1] *)
Definition bit_of (x i : Z) : Z := Z.land (Z.shiftr x i) 1.

Definition bits_from_int (x : Z) : list Z := map (bit_of x) (range 0 N).

Definition tryte_pad (bits : list Z) : result (list tryte) :=
  let n := zlength bits in
  let bits :=
    bits ++ (if n mod 3 =? 0 then [] else map (fun _ => 0) (range 0 (3 - n mod 3))) in
  if negb (zlength bits =? 3 * ((n + 2) / 3)) then Err AssertionError else
  mapM (fun i =>
    let* b0 := py_nth bits i in
    let* b1 := py_nth bits (i + 1) in
    let* b2 := py_nth bits (i + 2) in
    Ok (b0, b1, b2)) (range 0 ((n + 2) / 3)).

Definition trytes_from_int (x : Z) : result (list tryte) := tryte_pad (bits_from_int x).

(** [(x, y) = P] *)
Definition trytes_from_point (P : Z * Z) : result (list tryte) :=
  let '(x, y) := P in tryte_pad (bits_from_int x ++ [y mod 2]).

(** In the final list comprehension the name [b] is not bound by the function (the
    comprehension above has a scope of its own), so it is the module's constant
    [b], an integer, which cannot be indexed. *)
Definition bytes_from_trytes (ts : list tryte) : result (list Z) :=
  let bits := flat_map (fun '(b0, b1, b2) => [b0; b1; b2]) ts in
  let n := zlength bits in
  mapM (fun _ => Err TypeError) (range 0 ((n + 7) / 8)).

Definition bits_from_byte (b : Z) : list Z := map (bit_of b) (range 0 8).

Definition bits_from_bytes (bs : list Z) : list Z := flat_map bits_from_byte bs.

Definition trytes_from_bytes (bs : list Z) : result (list tryte) := tryte_pad (bits_from_bytes bs).

(** ** Bytes and integers *)
Lemma to_bytes_length k x : length (to_bytes_le k x) = k.
Proof. revert x. induction k; intros x; simpl; auto. Qed.

Lemma to_bytes_is_byte k x : Forall is_byte (to_bytes_le k x).
Proof.
  revert x. induction k; intros x; simpl; constructor; auto.
  unfold is_byte. apply Z.mod_pos_bound. lia.
Qed.

Lemma int_to_bytes k x : int_from_bytes (to_bytes_le k x) = x mod 2 ^ (8 * Z.of_nat k).
Proof.
  revert x. induction k as [|k IH]; intros x.
  - simpl. now rewrite Z.mod_1_r.
  - cbn [to_bytes_le int_from_bytes]. rewrite IH.
    replace (8 * Z.of_nat (S k)) with (8 + 8 * Z.of_nat k) by lia.
    rewrite Z.pow_add_r by lia. change (2 ^ 8) with 256. rewrite Z.rem_mul_r; [ring|lia|].
    apply Z.pow_pos_nonneg; lia.
Qed.

Lemma int_from_bytes_range bs : Forall is_byte bs -> 0 <= int_from_bytes bs < 2 ^ (8 * zlength bs).
Proof.
  unfold zlength. induction 1 as [|c bs Hc H IH]; cbn [int_from_bytes length]; [lia|].
  replace (8 * Z.of_nat (S (length bs))) with (8 + 8 * Z.of_nat (length bs)) by lia.
  rewrite Z.pow_add_r by lia. change (2 ^ 8) with 256. unfold is_byte in Hc. lia.
Qed.

Lemma bytes_from_int_ok x : 0 <= x < 2 ^ (8 * 95) -> bytes_from_int x = Ok (to_bytes_le 95 x).
Proof.
  intros H. unfold bytes_from_int.
  destruct (Z.leb_spec 0 x); [|lia]. destruct (Z.ltb_spec x (2 ^ (8 * 95))); [reflexivity|lia].
Qed.

Lemma bytes_from_int_inv x bs : bytes_from_int x = Ok bs ->
  length bs = 95%nat /\ Forall is_byte bs /\ int_from_bytes bs = x.
Proof.
  unfold bytes_from_int. intros H.
  destruct (Z.leb_spec 0 x); [|discriminate]. destruct (Z.ltb_spec x (2 ^ (8 * 95))); [|discriminate].
  cbn [andb] in H. assert (bs = to_bytes_le 95 x) as -> by congruence. split; [apply to_bytes_length|]. split; [apply to_bytes_is_byte|].
  rewrite int_to_bytes. apply Z.mod_small. simpl Z.of_nat. lia.
Qed.

(** an integer written in 95 bytes is read back unchanged; the writer accepts
    exactly the integers in [0, 2^760) and raises [OverflowError] on the others. *)
Theorem bytes_int_roundtrip (x : Z) :
  match bytes_from_int x with
  | Ok bs => 0 <= x < 2 ^ 760 /\ length bs = 95%nat /\ Forall is_byte bs /\ int_from_bytes bs = x
  | Err e => e = OverflowError /\ ~ 0 <= x < 2 ^ 760
  end.
Proof.
  destruct (bytes_from_int x) as [bs|e] eqn:E.
  - destruct (bytes_from_int_inv _ _ E) as (A & B & C). repeat split; try assumption.
    + rewrite <- C. now apply int_from_bytes_range.
    + rewrite <- C. replace 760 with (8 * zlength bs) by (unfold zlength; rewrite A; reflexivity).
      now apply int_from_bytes_range.
  - unfold bytes_from_int in E. change (8 * 95) with 760 in E.
    destruct (Z.leb_spec 0 x); [destruct (Z.ltb_spec x (2 ^ 760)); [discriminate|]|];
      cbn [andb] in E; (split; [congruence|]; lia).
Qed.

(** ** Bits *)
Lemma bit_of_testbit x i : 0 <= i -> bit_of x i = Z.b2z (Z.testbit x i).
Proof.
  intros Hi. unfold bit_of. change 1 with (Z.ones 1). rewrite Z.land_ones by lia.
  rewrite Z.testbit_eqb, Z.shiftr_div_pow2 by lia. change (2 ^ 1) with 2.
  pose proof (Z.mod_pos_bound (x / 2 ^ i) 2 ltac:(lia)).
  destruct (Z.eqb_spec ((x / 2 ^ i) mod 2) 1) as [->|]; [reflexivity|]. simpl. lia.
Qed.

Lemma bits_from_bytes_length bs : length (bits_from_bytes bs) = (8 * length bs)%nat.
Proof.
  unfold bits_from_bytes. induction bs as [|c bs IH]; [reflexivity|].
  cbn [flat_map length]. rewrite length_app, IH. unfold bits_from_byte.
  rewrite length_map, range_length. lia.
Qed.

Lemma bits_from_int_length x : length (bits_from_int x) = 753%nat.
Proof. unfold bits_from_int. now rewrite length_map, range_length. Qed.

(** ** Trytes *)
Definition tryte_at (bits : list Z) (i : nat) : tryte :=
  (nth i bits 0, nth (S i) bits 0, nth (S (S i)) bits 0).

Lemma nth_app_zeros bits k i : nth i (bits ++ repeat 0 k) 0 = nth i bits 0.
Proof.
  destruct (Nat.ltb_spec i (length bits)) as [H|H]; [now apply app_nth1|].
  rewrite app_nth2 by lia. now rewrite nth_repeat, nth_overflow by lia.
Qed.

Lemma map_const_repeat {A} (l : list Z) (x : A) : map (fun _ => x) l = repeat x (length l).
Proof. induction l as [|y l IH]; simpl; [reflexivity|]. now rewrite IH. Qed.

Lemma tryte_pad_eq (bits : list Z) :
  tryte_pad bits = Ok (map (tryte_at bits) (seq 0 ((length bits + 2) / 3))).
Proof.
  unfold tryte_pad. set (nb := zlength bits).
  assert (Hn : nb = Z.of_nat (length bits)) by reflexivity.
  assert (Hk : (nb + 2) / 3 = Z.of_nat ((length bits + 2) / 3)).
  { rewrite Hn, Nat2Z.inj_div. do 2 f_equal. lia. }
  assert (Hpad : exists k, bits ++ (if nb mod 3 =? 0 then [] else map (fun _ => 0) (range 0 (3 - nb mod 3)))
    = bits ++ repeat 0 k /\ nb + Z.of_nat k = 3 * ((nb + 2) / 3)).
  { pose proof (Z.div_mod nb 3 ltac:(lia)). pose proof (Z.mod_pos_bound nb 3 ltac:(lia)).
    destruct (Z.eqb_spec (nb mod 3) 0) as [E|E].
    - exists 0%nat. split; [reflexivity|]. replace ((nb + 2) / 3) with (nb / 3); [lia|].
      apply (Z.div_unique _ _ _ 2); lia.
    - exists (Z.to_nat (3 - nb mod 3)). rewrite map_const_repeat, range_length.
      split; [do 3 f_equal; lia|]. replace ((nb + 2) / 3) with (nb / 3 + 1); [lia|].
      apply (Z.div_unique _ _ _ (nb mod 3 - 1)); lia. }
  destruct Hpad as (k & -> & Hlen). set (padded := bits ++ repeat 0 k).
  assert (Hz : zlength padded = 3 * ((nb + 2) / 3)).
  { unfold padded, zlength. rewrite length_app, repeat_length. lia. }
  rewrite Hz, Z.eqb_refl. cbn [negb].
  unfold range. rewrite Hk, Z.sub_0_r, Nat2Z.id. rewrite <- mapM_map.
  set (count := ((length bits + 2) / 3)%nat) in *.
  assert (Hall : forall i, In i (seq 0 count) -> 0 <= Z.of_nat i /\ Z.of_nat i + 2 < zlength padded).
  { intros i Hi%in_seq. rewrite Hz, Hk. lia. }
  revert Hall. generalize (seq 0 count) as l. clear Hz Hk count.
  induction l as [|i l IH]; intros Hall; [reflexivity|]. cbn [map mapM].
  destruct (Hall i (or_introl eq_refl)) as [H0 H2].
  rewrite IH by (intros j Hj; apply Hall; now right).
  rewrite !py_nth_nonneg by lia.
  assert (Hnth : forall d : nat, (d <= 2)%nat ->
    nth_error padded (Z.to_nat (0 + Z.of_nat i + Z.of_nat d)) = Some (nth (i + d) bits 0)).
  { intros d Hd. rewrite (nth_error_nth' padded 0) by (unfold zlength in H2; lia).
    f_equal. unfold padded. rewrite nth_app_zeros. f_equal. lia. }
  pose proof (Hnth 0%nat ltac:(lia)) as E0. pose proof (Hnth 1%nat ltac:(lia)) as E1.
  pose proof (Hnth 2%nat ltac:(lia)) as E2. simpl Z.of_nat in E0, E1, E2.
  rewrite Z.add_0_r in E0. rewrite E0, E1, E2. cbn [bind].
  unfold tryte_at. rewrite Nat.add_0_r. replace (i + 1)%nat with (S i) by lia.
  now replace (i + 2)%nat with (S (S i)) by lia.
Qed.

Lemma tryte_pad_length bits ts :
  tryte_pad bits = Ok ts -> length ts = ((length bits + 2) / 3)%nat.
Proof. rewrite tryte_pad_eq. intros [= <-]. now rewrite length_map, length_seq. Qed.

(** Padding to trytes never fails its own assertion and never indexes out of
    range; it yields [(n + 2) / 3] trytes, and tryte [i] is made of the bits at
    [i], [i + 1] and [i + 2], so that consecutive trytes overlap instead of
    partitioning the bits. *)
Theorem tryte_pad_overlap (bits : list Z) :
  tryte_pad bits = Ok (map (tryte_at bits) (seq 0 ((length bits + 2) / 3))).
Proof. exact (tryte_pad_eq bits). Qed.
