(* ===== verification/CurveGroup.v ===== *)
(** * The curve, [reference.py] lines 109 to 127 and 147 to 156

    A point is [None] (the point at infinity) or a Python pair; the pairs are
    tuples except the ones [point_from_bytes] builds, which are lists, and a list
    never equals a tuple: [kind] keeps the difference, because [point_add] compares
    its arguments with [==].

    [CyclicGroup] is what the signature scheme needs of the curve: the multiples of
    the generator form a group of order [n] under the code's own [point_add]; the file
    GroupLaw proves it. *)

From Stdlib Require Import ZArith Lia List Bool Morphisms Setoid Zdiv Zmod.
From S2P Require Import Prelude Modular FieldSqrt.
Import ListNotations.
Open Scope Z_scope.
Open Scope eqm_scope.

Inductive seq_kind : Type := Tuple | PyList.

Record point : Type := Pt { kind : seq_kind; px : Z; py : Z }.

Definition kind_eqb (k1 k2 : seq_kind) : bool :=
  match k1, k2 with
  | Tuple, Tuple | PyList, PyList => true
  | _, _ => false
  end.

(** [P1 == P2] *)
Definition point_eqb (P1 P2 : point) : bool :=
  kind_eqb (kind P1) (kind P2) && (px P1 =? px P2) && (py P1 =? py P2).

Section CurveGroup.
Context {P : Params}.

Definition point_add (P1 P2 : option point) : option point :=
  match P1, P2 with
  | None, _ => P2
  | Some _, None => P1
  | Some P1, Some P2 =>
      if (px P1 =? px P2) && negb (py P1 =? py P2) then None else
      let lam :=
        if point_eqb P1 P2
        then ((3 * px P1 * px P1 + a) * powmod (2 * py P1) (p - 2) p) mod p
        else ((py P2 - py P1) * powmod (px P2 - px P1) (p - 2) p) mod p in
      let x3 := (lam * lam - px P1 - px P2) mod p in
      Some (Pt Tuple x3 ((lam * (px P1 - x3) - py P1) mod p))
  end.

Definition point_sixteen_times (P : option point) : option point :=
  let P2 := point_add P P in
  let P4 := point_add P2 P2 in
  let P8 := point_add P4 P4 in
  point_add P8 P8.

Definition point_neg (P : option point) : result (option point) :=
  match P with
  | None => Err TypeError
  | Some P => Ok (Some (Pt Tuple (px P) (p - py P)))
  end.

(** One round of [for i in range(N)]. *)
Definition mul_step (n : Z) (RP : option point * option point) (i : Z)
  : option point * option point :=
  let '(R, P) := RP in
  let R := if Z.land (Z.shiftr n i) 1 =? 0 then R else point_add R P in
  (R, point_add P P).

Definition point_mul (P : option point) (n : Z) : option point :=
  fst (fold_left (mul_step n) (range 0 N) (None, P)).

(** ** Specification *)
Definition on_curve (x y : Z) : Prop :=
  0 <= x < p /\ 0 <= y < p /\ y * y == x * x * x + a * x + b [mod p].

Definition on_curve_pt (P : option point) : Prop :=
  match P with
  | None => True
  | Some P => on_curve (px P) (py P)
  end.

Definition tup (o : option (Z * Z)) : option point :=
  option_map (fun '(x, y) => Pt Tuple x y) o.

(** The multiples of the generator; [smul i] is [i]G. *)
Class CyclicGroup : Type := {
  smul : Z -> option (Z * Z);
  smul_0 : smul 0 = None;
  smul_1 : smul 1 = Some G;
  smul_add : forall i j, point_add (tup (smul i)) (tup (smul j)) = tup (smul (i + j));
  smul_eq : forall i j, smul i = smul j <-> i == j [mod n];
  smul_opp : forall i x y, smul i = Some (x, y) -> smul (- i) = Some (x, p - y);
  smul_curve : forall i x y, smul i = Some (x, y) -> on_curve x y /\ 0 < y
}.

(** ** Kinds matter only between equal coordinates *)
Definition untag (P : point) : point := Pt Tuple (px P) (py P).

Definition comparable (P1 P2 : point) : Prop :=
  kind P1 = kind P2 \/ px P1 <> px P2 \/ py P1 <> py P2.

Lemma point_eqb_untag P1 P2 :
  comparable P1 P2 -> point_eqb (untag P1) (untag P2) = point_eqb P1 P2.
Proof.
  unfold point_eqb, untag. intros H. simpl.
  destruct (Z.eqb_spec (px P1) (px P2)) as [Ex|Ex]; destruct (Z.eqb_spec (py P1) (py P2)) as [Ey|Ey];
    rewrite ?andb_false_r; try reflexivity.
  destruct H as [->|[H|H]]; [|easy|easy]. now destruct (kind P2).
Qed.

Lemma point_add_untag P1 P2 : comparable P1 P2 ->
  point_add (Some P1) (Some P2) = point_add (Some (untag P1)) (Some (untag P2)).
Proof. intros H. unfold point_add. now rewrite point_eqb_untag. Qed.

Lemma point_eqb_refl Q : point_eqb Q Q = true.
Proof. unfold point_eqb. rewrite !Z.eqb_refl. now destruct (kind Q). Qed.

(** ** The group operation stays on the curve *)
Section Closure.
Context (Hp : Z.prime p).

Lemma p_pos : 0 < p.
Proof. pose proof (Z.prime_ge_2 _ Hp). lia. Qed.

(** The third intersection of a line of slope [L] through two points of the curve. *)
Lemma chord L x1 y1 x2 x3 :
  y1 * y1 == x1 * x1 * x1 + a * x1 + b [mod p] ->
  L * L * (x2 - x1) + 2 * L * y1 - (x2 * x2 + x2 * x1 + x1 * x1) - a == 0 [mod p] ->
  x3 == L * L - x1 - x2 [mod p] ->
  let y3 := L * (x1 - x3) - y1 in
  y3 * y3 == x3 * x3 * x3 + a * x3 + b [mod p].
Proof.
  intros H1 H2 H3. cbv zeta. apply eqm_sub_0.
  apply eqm_sub_0 in H1. apply eqm_sub_0 in H3.
  transitivity ((y1 * y1 - (x1 * x1 * x1 + a * x1 + b))
    + (x3 - x1) * ((L * L * (x2 - x1) + 2 * L * y1 - (x2 * x2 + x2 * x1 + x1 * x1) - a)
                   - (x3 - x2) * (x3 - (L * L - x1 - x2)))).
  - eqm_ring.
  - rewrite H1, H2, H3. eqm_ring.
Qed.

Lemma slope_distinct x1 y1 x2 y2 :
  on_curve x1 y1 -> on_curve x2 y2 -> x1 <> x2 ->
  let L := ((y2 - y1) * powmod (x2 - x1) (p - 2) p) mod p in
  L * L * (x2 - x1) + 2 * L * y1 - (x2 * x2 + x2 * x1 + x1 * x1) - a == 0 [mod p].
Proof.
  intros (Hx1 & Hy1 & E1) (Hx2 & Hy2 & E2) Hne. cbv zeta.
  assert (Hd : ~ x2 - x1 == 0 [mod p]).
  { intros H. apply (proj1 (eqm_sub_0 _ _ _)), eqm_small in H; lia. }
  pose proof (inverse Hp _ Hd) as Hinv. set (v := powmod (x2 - x1) (p - 2) p) in *.
  set (L := ((y2 - y1) * v) mod p).
  assert (HL : L * (x2 - x1) - (y2 - y1) == 0 [mod p]).
  { unfold L. rewrite eqm_mod. transitivity ((y2 - y1) * ((x2 - x1) * v) - (y2 - y1)); [eqm_ring|].
    rewrite Hinv. eqm_ring. }
  apply eqm_sub_0 in E1. apply eqm_sub_0 in E2.
  apply (eqm_cancel Hp (x2 - x1)); [exact Hd|].
  transitivity ((L * (x2 - x1) - (y2 - y1)) * (L * (x2 - x1) + (y2 + y1))
    + (y2 * y2 - (x2 * x2 * x2 + a * x2 + b)) - (y1 * y1 - (x1 * x1 * x1 + a * x1 + b))).
  - eqm_ring.
  - rewrite HL, E1, E2. eqm_ring.
Qed.

Lemma slope_double x1 y1 :
  p <> 2 -> 0 < y1 < p ->
  let L := ((3 * x1 * x1 + a) * powmod (2 * y1) (p - 2) p) mod p in
  L * L * (x1 - x1) + 2 * L * y1 - (x1 * x1 + x1 * x1 + x1 * x1) - a == 0 [mod p].
Proof.
  intros H2 Hy. cbv zeta. pose proof p_pos.
  assert (Hd : ~ 2 * y1 == 0 [mod p]).
  { intros H0. apply eqm_mul_0 in H0 as [H0|H0]; [| |exact Hp].
    - pose proof (Z.prime_ge_2 _ Hp). apply eqm_small in H0; lia.
    - apply eqm_small in H0; lia. }
  pose proof (inverse Hp _ Hd) as Hinv. set (v := powmod (2 * y1) (p - 2) p) in *.
  rewrite eqm_mod. transitivity ((3 * x1 * x1 + a) * (2 * y1 * v) - (3 * x1 * x1 + a)); [eqm_ring|].
  rewrite Hinv. eqm_ring.
Qed.

Lemma point_add_closed Q1 Q2 :
  p <> 2 -> on_curve (px Q1) (py Q1) -> on_curve (px Q2) (py Q2) -> comparable Q1 Q2 ->
  (px Q1 = px Q2 -> py Q1 <> 0) ->
  on_curve_pt (point_add (Some Q1) (Some Q2)).
Proof.
  intros H2 H1 H3 Hc Hy. pose proof p_pos as Hp0. cbn [point_add].
  destruct (Z.eqb_spec (px Q1) (px Q2)) as [Ex|Ex].
  - destruct (Z.eqb_spec (py Q1) (py Q2)) as [Ey|Ey]; [|exact I]. cbn [andb negb].
    unfold point_eqb. rewrite Ex, Ey, !Z.eqb_refl, !andb_true_r.
    assert (Hk : kind_eqb (kind Q1) (kind Q2) = true).
    { destruct Hc as [->|[?|?]]; [now destruct (kind Q2)|congruence|congruence]. }
    rewrite Hk. cbn [on_curve_pt px py].
    split; [now apply Z.mod_pos_bound|]. split; [now apply Z.mod_pos_bound|].
    rewrite eqm_mod. apply chord with (x2 := px Q2); [apply H3| |apply eqm_mod].
    apply slope_double; [exact H2|]. destruct H3 as (_ & ? & _). specialize (Hy Ex). lia.
  - cbn [andb]. unfold point_eqb. rewrite (proj2 (Z.eqb_neq _ _) Ex), andb_false_r.
    cbn [andb on_curve_pt px py].
    split; [now apply Z.mod_pos_bound|]. split; [now apply Z.mod_pos_bound|].
    rewrite eqm_mod. apply chord with (x2 := px Q2); [apply H1| |apply eqm_mod].
    now apply slope_distinct.
Qed.
End Closure.

(** ** Scalar multiplication computes multiples *)
Section Multiples.
Context {Gr : CyclicGroup} (Hn : Z.prime n) (Hn753 : n < 2 ^ N).

Lemma smul_eqm i j : i == j [mod n] -> smul i = smul j.
Proof. apply smul_eq. Qed.

Lemma smul_None i : smul i = None <-> i == 0 [mod n].
Proof. rewrite <- smul_0. apply smul_eq. Qed.

Lemma tup_inj o1 o2 : tup o1 = tup o2 -> o1 = o2.
Proof. destruct o1 as [[x y]|], o2 as [[x' y']|]; simpl; congruence. Qed.

Lemma land_1_testbit m i : 0 <= i -> (Z.land (Z.shiftr m i) 1 =? 0) = negb (Z.testbit m i).
Proof.
  intros Hi. change 1 with (Z.ones 1). rewrite Z.land_ones by lia. change (2 ^ 1) with 2.
  rewrite Z.testbit_eqb, Z.shiftr_div_pow2 by lia.
  pose proof (Z.mod_pos_bound (m / 2 ^ i) 2 ltac:(lia)).
  destruct (Z.eqb_spec ((m / 2 ^ i) mod 2) 0), (Z.eqb_spec ((m / 2 ^ i) mod 2) 1); auto; lia.
Qed.

Lemma mod_pow2_S m i : 0 <= i ->
  m mod 2 ^ (i + 1) = m mod 2 ^ i + (if Z.testbit m i then 2 ^ i else 0).
Proof.
  intros Hi. rewrite Z.pow_add_r by lia. change (2 ^ 1) with 2.
  rewrite Z.rem_mul_r by (try apply Z.pow_nonzero; lia). rewrite Z.testbit_eqb by lia.
  pose proof (Z.mod_pos_bound (m / 2 ^ i) 2 ltac:(lia)).
  destruct (Z.eqb_spec ((m / 2 ^ i) mod 2) 1) as [->|]; [ring|].
  replace ((m / 2 ^ i) mod 2) with 0 by lia. ring.
Qed.

Context (j : Z) (k : seq_kind) (x y : Z) (Hj : smul j = Some (x, y)).

Lemma j_nonzero : ~ j == 0 [mod n].
Proof. intros H. apply smul_None in H. congruence. Qed.

(** The multiple [c] of the base point, as the loop holds it: the base point itself
    keeps its kind, every sum is a tuple. *)
Definition multiple (c : Z) : option point :=
  if c =? 1 then Some (Pt k x y) else tup (smul (j * c)).

Lemma multiple_0 : multiple 0 = None.
Proof. unfold multiple. simpl. now rewrite Z.mul_0_r, smul_0. Qed.

Lemma multiple_double c : point_add (multiple c) (multiple c) = multiple (2 * c).
Proof.
  unfold multiple at 3. rewrite (proj2 (Z.eqb_neq (2 * c) 1)) by lia.
  unfold multiple. destruct (Z.eqb_spec c 1) as [->|Hc].
  - rewrite point_add_untag by now left. change (Some (untag (Pt k x y))) with (tup (Some (x, y))).
    rewrite <- Hj, smul_add. do 2 f_equal. ring.
  - rewrite smul_add. do 2 f_equal. ring.
Qed.

(** The base point is only ever added to a point with other coordinates. *)
Lemma multiple_1_add e : 2 <= e -> 1 + e <= n ->
  point_add (Some (Pt k x y)) (tup (smul (j * e))) = tup (smul (j * (1 + e))).
Proof.
  intros He Hen. replace (j * (1 + e)) with (j + j * e) by ring. rewrite <- smul_add, Hj.
  assert (Hje : ~ j * (e - 1) == 0 [mod n] /\ ~ j * e == 0 [mod n]).
  { split; intros E; (apply eqm_mul_0 in E as [E|E]; [now apply j_nonzero| |exact Hn]);
      apply eqm_small in E; lia. }
  destruct (smul (j * e)) as [[x' y']|] eqn:Ee; [|apply smul_None in Ee; now destruct Hje].
  cbn [tup option_map]. rewrite point_add_untag; [reflexivity|]. right. cbn [px py].
  destruct (Z.eq_dec x x') as [<-|]; [|now left]. right. intros <-.
  rewrite <- Hj in Ee. apply smul_eq in Ee. apply (proj1 Hje).
  replace (j * (e - 1)) with (j * e - j) by ring. now apply (proj2 (eqm_sub_0 _ _ _)).
Qed.

Lemma multiple_add c e :
  0 <= c < e -> c + e <= n -> point_add (multiple c) (multiple e) = multiple (c + e).
Proof.
  intros Hc He. destruct (Z.eq_dec c 0) as [->|Hc0]; [now rewrite multiple_0|].
  unfold multiple at 2 3. rewrite (proj2 (Z.eqb_neq e 1)), (proj2 (Z.eqb_neq (c + e) 1)) by lia.
  unfold multiple. destruct (Z.eqb_spec c 1) as [->|Hc1]; [apply multiple_1_add; lia|].
  rewrite smul_add. do 2 f_equal. ring.
Qed.

Lemma mul_loop m i : 0 <= m <= n -> 0 <= i ->
  fold_left (mul_step m) (range 0 i) (None, Some (Pt k x y))
  = (multiple (m mod 2 ^ i), multiple (2 ^ i)).
Proof.
  intros Hm Hi. pattern i. apply natlike_ind; [| |exact Hi]; clear i Hi.
  - rewrite Z.pow_0_r, Z.mod_1_r, multiple_0. reflexivity.
  - intros i Hi IH. rewrite <- Z.add_1_r, range_S, fold_left_app, IH by lia.
    cbn [fold_left mul_step]. rewrite land_1_testbit, multiple_double by lia.
    replace (2 ^ (i + 1)) with (2 * 2 ^ i) by (rewrite Z.pow_add_r by lia; ring). f_equal.
    replace (2 * 2 ^ i) with (2 ^ (i + 1)) by (rewrite Z.pow_add_r by lia; ring).
    pose proof (mod_pow2_S m i Hi) as E. pose proof (Z.pow_pos_nonneg 2 i).
    pose proof (Z.mod_pos_bound m (2 ^ i)). pose proof (Z.mod_le m (2 ^ (i + 1))).
    pose proof (Z.pow_pos_nonneg 2 (i + 1)).
    rewrite E. destruct (Z.testbit m i); cbn [negb]; [apply multiple_add; lia|].
    now rewrite Z.add_0_r.
Qed.

Lemma point_mul_multiple m : 0 <= m <= n -> point_mul (Some (Pt k x y)) m = multiple m.
Proof.
  intros Hm. unfold point_mul. rewrite mul_loop by (unfold N; lia). cbn [fst].
  now rewrite Z.mod_small by lia.
Qed.
End Multiples.
End CurveGroup.

(** on a curve over a prime field of odd characteristic, adding two points of
    the curve with the code's formulas yields a point of the curve (or infinity),
    except in the two cases the formulas do not cover: doubling a point with
    [y = 0], and adding a list and a tuple with the same coordinates. *)
Theorem point_add_on_curve (C : Params) (Q1 Q2 : point) :
  Z.prime p -> p <> 2 ->
  on_curve (px Q1) (py Q1) -> on_curve (px Q2) (py Q2) ->
  (px Q1 = px Q2 -> py Q1 <> 0) -> comparable Q1 Q2 ->
  on_curve_pt (point_add (Some Q1) (Some Q2)).
Proof. intros Hp H2 H1 H3 Hy Hc. now apply point_add_closed. Qed.

(** for a generator whose multiples form a group of prime order below 2^753,
    the 753-round double-and-add loop computes the multiple [m] of any nonzero
    multiple [j] of the generator, for every scalar from 0 to the order, whether
    the point was given as a tuple or as a list. *)
Theorem point_mul_multiples (C : Params) (Gr : CyclicGroup) (k : seq_kind) (x y j m : Z) :
  Z.prime n -> n < 2 ^ N -> smul j = Some (x, y) -> 0 <= m <= n ->
  option_map untag (point_mul (Some (Pt k x y)) m) = tup (smul (j * m)).
Proof.
  intros Hn HN Hj Hm. rewrite (point_mul_multiple Hn HN j k x y Hj m Hm).
  unfold multiple. destruct (Z.eqb_spec m 1) as [->|].
  - rewrite Z.mul_1_r, Hj. reflexivity.
  - now destruct (smul (j * m)) as [[x' y']|].
Qed.
