(* ===== verification/GroupLaw.v ===== *)
(** * The group law of the curve

    The points of a smooth curve over a prime field form a group under the formulas of
    [point_add] of [reference.py], with infinity as the double of a point with [y = 0], which
    the code does not treat.  So the multiples of a generator of odd prime order are what the
    signature scheme needs: an instance of [CyclicGroup].  The polynomial identities are
    proved by [nsatz], over the integral domain of integers modulo [p]. *)

From Stdlib Require Import ZArith Lia List Bool Zdiv Zmod Morphisms Setoid.
From Stdlib Require Import Ncring Cring Integral_domain NsatzTactic.
From S2P Require Import Prelude Modular FieldSqrt CurveGroup.
Import ListNotations.
Open Scope Z_scope.
Open Scope eqm_scope.

(** ** The integral domain *)
Section Domain.
Context {q : Z} (Hq : Z.prime q).

#[local] Instance mod_ops : @Ring_ops Z 0 1 Z.add Z.mul Z.sub Z.opp (eqm q) := {}.

#[local] Instance mod_ring : Ring (Ro := mod_ops).
Proof.
  constructor; try exact _; intros.
  - change (eqm q (0 + x) x). eqm_ring.
  - change (eqm q (x + y) (y + x)). eqm_ring.
  - change (eqm q (x + (y + z)) (x + y + z)). eqm_ring.
  - change (eqm q (1 * x) x). eqm_ring.
  - change (eqm q (x * 1) x). eqm_ring.
  - change (eqm q (x * (y * z)) (x * y * z)). eqm_ring.
  - change (eqm q ((x + y) * z) (x * z + y * z)). eqm_ring.
  - change (eqm q (z * (x + y)) (z * x + z * y)). eqm_ring.
  - change (eqm q (x - y) (x + - y)). eqm_ring.
  - change (eqm q (x + - x) 0). eqm_ring.
Defined.

#[local] Instance mod_cring : Cring (Rr := mod_ring).
Proof. intros x y. change (eqm q (x * y) (y * x)). eqm_ring. Defined.

Definition mod_domain : Integral_domain (Rcr := mod_cring).
Proof. constructor; [intros x y; apply (eqm_mul_0 Hq) | apply (eqm_1_0 Hq)]. Defined.
End Domain.

(** ** Lines and sums *)
Section Lines.
Context {P : Params} (Hp : Z.prime p) (Hp2 : p <> 2).

#[local] Existing Instance mod_ops.
#[local] Existing Instance mod_ring.
#[local] Existing Instance mod_cring.
#[local] Instance p_domain : Integral_domain (Rcr := mod_cring (q := p)) := mod_domain Hp.

Definition curve (x y : Z) : Prop := y * y == x * x * x + a * x + b [mod p].

(** The line of slope [L] through two points, the tangent when they are one. *)
Definition line (x1 y1 x2 y2 L : Z) : Prop :=
  y2 - y1 == L * (x2 - x1) [mod p] /\ L * (y1 + y2) == x1 * x1 + x1 * x2 + x2 * x2 + a [mod p].

(** The opposite of the third point of a line. *)
Definition third (L x1 y1 x2 x3 y3 : Z) : Prop := x3 == L * L - x1 - x2 [mod p] /\ y3 == L * (x1 - x3) - y1 [mod p].

Definition opposite (x1 y1 x2 y2 : Z) : Prop := x1 == x2 [mod p] /\ y1 == - y2 [mod p].

Lemma two_nz x : 2 * x == 0 [mod p] -> x == 0 [mod p].
Proof.
  intros H. apply (eqm_mul_0 Hp) in H as [H|H]; [|exact H]. pose proof (Z.prime_ge_2 _ Hp). apply eqm_small in H; lia.
Qed.

Lemma eqm_dec x y : {x == y [mod p]} + {~ x == y [mod p]}.
Proof. unfold eqm. apply Z.eq_dec. Qed.

Lemma curve_same_x x1 y1 x2 y2 : curve x1 y1 -> curve x2 y2 -> x1 == x2 [mod p] -> ~ opposite x1 y1 x2 y2 -> y1 == y2 [mod p].
Proof.
  unfold curve, opposite. intros H1 H2 Hx Ho. destruct (sqrt_unique Hp y1 y2) as [H|H]; [nsatz|exact H|]. now destruct Ho.
Qed.

Lemma line_sym x1 y1 x2 y2 L : line x1 y1 x2 y2 L -> line x2 y2 x1 y1 L.
Proof. unfold line. intros [H1 H2]. split; nsatz. Qed.

Lemma line_unique x1 y1 x2 y2 L L' : curve x1 y1 -> curve x2 y2 -> ~ opposite x1 y1 x2 y2 ->
  line x1 y1 x2 y2 L -> line x1 y1 x2 y2 L' -> L == L' [mod p].
Proof.
  intros C1 C2 Ho [H1 H2] [H1' H2']. destruct (eqm_dec x1 x2) as [Hx|Hx].
  - assert (~ 2 * y1 == 0 [mod p]) as Hy.
    { intros Hy%two_nz. apply Ho. pose proof (curve_same_x _ _ _ _ C1 C2 Hx Ho) as E. split; [exact Hx|]. nsatz. }
    pose proof (curve_same_x _ _ _ _ C1 C2 Hx Ho) as E. clear Ho C1 C2. apply (eqm_cancel Hp (2 * y1)); [exact Hy|]. clear Hy. nsatz.
  - apply (eqm_cancel Hp (x2 - x1)); [|clear Hx Ho C1 C2 H2 H2'; nsatz]. intros E. apply Hx. clear - E Hp. nsatz.
Qed.

Lemma third_curve x1 y1 x2 y2 L x3 y3 : curve x1 y1 -> line x1 y1 x2 y2 L -> third L x1 y1 x2 x3 y3 -> curve x3 y3.
Proof. unfold curve, line, third. intros H1 [H2 H3] [H4 H5]. nsatz. Qed.

Lemma third_sym x1 y1 x2 y2 L x3 y3 : line x1 y1 x2 y2 L -> third L x1 y1 x2 x3 y3 -> third L x2 y2 x1 x3 y3.
Proof. unfold line, third. intros [H1 H2] [H3 H4]. split; nsatz. Qed.

Lemma opposite_sym x1 y1 x2 y2 : opposite x1 y1 x2 y2 -> opposite x2 y2 x1 y1.
Proof. unfold opposite. intros [H1 H2]. split; nsatz. Qed.

(** The third point of a line is the opposite of the sum, and the other two are on a line of the same slope with it. *)
Lemma line_third x1 y1 x2 y2 L x3 y3 : line x1 y1 x2 y2 L -> third L x1 y1 x2 x3 y3 -> line x2 y2 x3 (- y3) L.
Proof. unfold line, third. intros [H1 H2] [H3 H4]. split; nsatz. Qed.

(** The sum of the sum and of the opposite of a summand is the other summand. *)
Lemma line_cancel x1 y1 x2 y2 L x3 y3 : line x1 y1 x2 y2 L -> third L x1 y1 x2 x3 y3 -> line x1 (- y1) x3 y3 (- L) /\ third (- L) x1 (- y1) x3 x2 y2.
Proof. unfold line, third. intros [H1 H2] [H3 H4]. split; split; nsatz. Qed.

(** ** Three points *)
Section Three.
Context (x1 y1 x2 y2 x3 y3 L M xs ys xt yt : Z).
Context (C1 : curve x1 y1) (C2 : curve x2 y2) (C3 : curve x3 y3).
Context (H12 : line x1 y1 x2 y2 L) (HS : third L x1 y1 x2 xs ys) (H23 : line x2 y2 x3 y3 M) (HT : third M x2 y2 x3 xt yt).

(** Points on one line: the first two sum to the third up to its sign, or the outer two are one. *)
Lemma same_slope : L == M [mod p] -> opposite xs ys x3 y3 \/ (x1 == x3 [mod p] /\ y1 == y3 [mod p]).
Proof.
  unfold opposite, line, third, curve in *. destruct H12 as [A1 A2], H23 as [B1 B2], HS as [D1 D2]. clear H12 H23 HS HT. intros E.
  assert ((x1 - x3) * (xs - x3) == 0 [mod p]) as H by nsatz.
  apply (eqm_mul_0 Hp) in H as [H|H]; [right|left]; split; nsatz.
Qed.

(** The slope of the line through the sum of the first two points and the third. *)
Lemma slope_after N : ~ L == M [mod p] -> ~ opposite xs ys x3 y3 -> line xs ys x3 y3 N -> N * (L - M) == x1 - x3 - L * (L - M) [mod p].
Proof.
  intros HLM Ho [N1 N2]. pose proof (third_curve _ _ _ _ _ _ _ C1 H12 HS) as CS.
  assert (~ L - M == 0 [mod p]) as Hd by (intros E; apply HLM; nsatz).
  destruct (eqm_dec xs x3) as [Hx|Hx].
  - pose proof (curve_same_x _ _ _ _ CS C3 Hx Ho) as Hy.
    assert (~ 2 * y3 == 0 [mod p]) as Hy3.
    { intros E%two_nz. apply Ho. split; [exact Hx|]. nsatz. }
    unfold line, third, curve in *. destruct H12 as [A1 A2], H23 as [B1 B2], HS as [D1 D2]. clear H12 H23 HS HT Ho HLM.
    assert (2 * y3 == (L - M) * (x2 - x3) [mod p]) as E1.
    { apply (eqm_cancel Hp (L - M)); [exact Hd|]. clear Hd Hy3. nsatz. }
    assert (~ x2 - x3 == 0 [mod p]) as Hx2.
    { intros E. apply Hy3. clear Hd Hy3. nsatz. }
    apply (eqm_cancel Hp (x2 - x3)); [exact Hx2|]. clear Hd Hy3 Hx2. nsatz.
  - assert (~ x3 - xs == 0 [mod p]) as Hx' by (intros E; apply Hx; nsatz).
    unfold line, third, curve in *. destruct H12 as [A1 A2], H23 as [B1 B2], HS as [D1 D2]. clear H12 H23 HS HT Ho HLM Hx CS N2.
    apply (eqm_cancel Hp (x3 - xs)); [exact Hx'|]. clear Hx' Hd. nsatz.
Qed.

(** When the first two sum to the opposite of the third, so do the last two and the first. *)
Lemma opposite_after : ~ opposite x2 y2 x3 y3 -> opposite xs ys x3 y3 -> opposite x1 y1 xt yt.
Proof.
  intros H [Ox Oy]. pose proof (line_third _ _ _ _ _ _ _ H12 HS) as [E1 E2].
  assert (line x2 y2 x3 y3 L) as Hl by (split; clear -E1 E2 Ox Oy Hp; nsatz).
  pose proof (line_unique _ _ _ _ _ _ C2 C3 H Hl H23) as E.
  unfold opposite, line, third in *. destruct H12 as [A1 A2], HT as [D1 D2], HS as [D3 D4]. clear H12 HT HS H Hl H23. split; nsatz.
Qed.

(** The sums of three points from the left and from the right. *)
Lemma sums_agree N K u v u' v' : ~ L == M [mod p] ->
  N * (L - M) == x1 - x3 - L * (L - M) [mod p] -> K * (L - M) == x1 - x3 - M * (L - M) [mod p] ->
  third N x3 y3 xs u v -> third K x1 y1 xt u' v' -> u == u' [mod p] /\ v == v' [mod p].
Proof.
  intros HLM EN EK [U1 V1] [U2 V2]. assert (~ L - M == 0 [mod p]) as Hd by (intros E; apply HLM; nsatz).
  unfold line, third in *. destruct H12 as [A1 A2], H23 as [B1 B2], HS as [D1 D2], HT as [D3 D4]. clear H12 H23 HS HT HLM C1 C2 C3.
  assert (u == u' [mod p]) as Eu.
  { apply (eqm_cancel Hp (L - M)); [exact Hd|]. apply (eqm_cancel Hp (L - M)); [exact Hd|]. clear Hd A1 A2 B1 B2 D2 D4 V1 V2. nsatz. }
  split; [exact Eu|]. apply (eqm_cancel Hp (L - M)); [exact Hd|]. clear Hd U2. nsatz.
Qed.
End Three.
End Lines.

(** ** The group *)
Section Group.
Context {P : Params}.

Definition good (Q : option (Z * Z)) : Prop := match Q with None => True | Some (x, y) => on_curve x y end.

Definition pair_of (Q : option point) : option (Z * Z) := option_map (fun Q => (px Q, py Q)) Q.

(** The sum by the formulas of the code; the double of a point with [y = 0] is infinity. *)
Definition gadd (Q1 Q2 : option (Z * Z)) : option (Z * Z) :=
  match Q1, Q2 with
  | Some (x1, y1), Some (x2, y2) =>
      if (x1 =? x2) && (negb (y1 =? y2) || (y1 =? 0)) then None else pair_of (point_add (tup Q1) (tup Q2))
  | None, _ => Q2
  | _, None => Q1
  end.

Definition gneg (Q : option (Z * Z)) : option (Z * Z) := option_map (fun '(x, y) => (x, (- y) mod p)) Q.

(** [k] times a point, by doubling and adding. *)
Fixpoint gmul (k : positive) (Q : option (Z * Z)) : option (Z * Z) :=
  match k with
  | xH => Q
  | xO k' => let R := gmul k' Q in gadd R R
  | xI k' => let R := gmul k' Q in gadd Q (gadd R R)
  end.

(** The same, one by one. *)
Definition nmul (k : nat) (Q : option (Z * Z)) : option (Z * Z) := Nat.iter k (gadd Q) None.

Lemma gadd_None_r Q : gadd Q None = Q.
Proof. now destruct Q as [[x y]|]. Qed.

Lemma point_add_gadd Q1 Q2 : (forall x y, Q1 = Some (x, y) -> y <> 0) -> point_add (tup Q1) (tup Q2) = tup (gadd Q1 Q2).
Proof.
  intros H. destruct Q1 as [[x1 y1]|], Q2 as [[x2 y2]|]; try reflexivity.
  cbn [gadd]. specialize (H _ _ eq_refl). rewrite (proj2 (Z.eqb_neq y1 0)), orb_false_r by exact H. cbn [tup option_map point_add px py].
  now destruct ((x1 =? x2) && negb (y1 =? y2)).
Qed.

Section Laws.
Context (Hp : Z.prime p) (Hp2 : p <> 2) (smooth : forall x, curve x 0 -> ~ 3 * x * x + a == 0 [mod p]).

#[local] Existing Instance mod_ops.
#[local] Existing Instance mod_ring.
#[local] Existing Instance mod_cring.
#[local] Instance p_domain' : Integral_domain (Rcr := mod_cring (q := p)) := mod_domain Hp.

Lemma p_positive : 0 < p.
Proof. pose proof (Z.prime_ge_2 _ Hp). lia. Qed.

Lemma on_curve_eq x y x' y' : on_curve x y -> on_curve x' y' -> x == x' [mod p] -> y == y' [mod p] -> Some (x, y) = Some (x', y').
Proof. intros (H1 & H2 & _) (H3 & H4 & _) Hx Hy. apply eqm_small in Hx, Hy; [|assumption..]. congruence. Qed.

Lemma opposite_tests x1 y1 x2 y2 : on_curve x1 y1 -> on_curve x2 y2 ->
  opposite x1 y1 x2 y2 <-> (x1 =? x2) && (negb (y1 =? y2) || (y1 =? 0)) = true.
Proof.
  intros (Hx1 & Hy1 & C1) (Hx2 & Hy2 & C2). pose proof p_positive. unfold opposite.
  rewrite andb_true_iff, orb_true_iff, negb_true_iff, Z.eqb_eq, Z.eqb_neq, Z.eqb_eq. split.
  - intros [Ex Ey]. split; [now apply eqm_small in Ex|]. destruct (Z.eq_dec y1 y2) as [<-|]; [right|now left].
    apply (eqm_small p); [lia|lia|]. apply (two_nz Hp Hp2). nsatz.
  - intros [<- Hy]. split; [reflexivity|]. destruct (sqrt_unique Hp y1 y2) as [E|E]; [nsatz| |exact E].
    apply eqm_small in E; [|assumption..]. destruct Hy as [Hy| ->]; [easy|]. now subst y2.
Qed.

(** The sum of two points of the curve. *)
Lemma gadd_opposite x1 y1 x2 y2 : on_curve x1 y1 -> on_curve x2 y2 -> opposite x1 y1 x2 y2 -> gadd (Some (x1, y1)) (Some (x2, y2)) = None.
Proof. intros C1 C2 H. cbn [gadd]. now rewrite (proj1 (opposite_tests _ _ _ _ C1 C2) H). Qed.

Lemma slope_line x1 y1 x2 y2 : on_curve x1 y1 -> on_curve x2 y2 -> ~ opposite x1 y1 x2 y2 ->
  exists L, line x1 y1 x2 y2 L /\ gadd (Some (x1, y1)) (Some (x2, y2))
    = (let x3 := (L * L - x1 - x2) mod p in Some (x3, (L * (x1 - x3) - y1) mod p)).
Proof.
  intros C1 C2 Ho. pose proof (opposite_tests _ _ _ _ C1 C2) as Ht. destruct C1 as (Hx1 & Hy1 & C1), C2 as (Hx2 & Hy2 & C2). pose proof p_positive.
  cbn [gadd]. destruct ((x1 =? x2) && (negb (y1 =? y2) || (y1 =? 0))) eqn:E; [now destruct Ho; apply Ht|]. clear Ht.
  cbn [tup option_map point_add px py]. destruct (Z.eqb_spec x1 x2) as [<-|Hx].
  - destruct (Z.eqb_spec y1 y2) as [<-|Hy]; cbn [negb orb andb] in E |- *; [|discriminate]. apply Z.eqb_neq in E. rewrite point_eqb_refl.
    eexists. split; [|reflexivity]. assert (~ 2 * y1 == 0 [mod p]) as Hy.
    { intros E0%(two_nz Hp Hp2). apply eqm_small in E0; lia. }
    pose proof (inverse Hp _ Hy) as Hi. clear Ho Hy. split; [nsatz|]. rewrite eqm_mod. nsatz.
  - cbn [andb]. unfold point_eqb. cbn [px py kind kind_eqb]. rewrite (proj2 (Z.eqb_neq _ _) Hx). cbn [andb].
    assert (~ x2 - x1 == 0 [mod p]) as Hd.
    { intros E0. apply Hx. apply (eqm_small p); [lia|lia|]. nsatz. }
    eexists. split; [|reflexivity]. pose proof (inverse Hp _ Hd) as Hi. set (v := powmod _ _ _) in *.
    assert (((y2 - y1) * v) mod p == (y2 - y1) * v [mod p]) as EL by apply eqm_mod. set (L := ((y2 - y1) * v) mod p) in *. clear Ho Hx E.
    split; [clear C1 C2; nsatz|]. unfold curve in *. apply (eqm_cancel Hp (x2 - x1)); [exact Hd|]. clear Hd. nsatz.
Qed.

Lemma gadd_sum x1 y1 x2 y2 : on_curve x1 y1 -> on_curve x2 y2 -> ~ opposite x1 y1 x2 y2 ->
  exists L x3 y3, line x1 y1 x2 y2 L /\ third L x1 y1 x2 x3 y3 /\ on_curve x3 y3 /\ gadd (Some (x1, y1)) (Some (x2, y2)) = Some (x3, y3).
Proof.
  intros C1 C2 Ho. destruct (slope_line _ _ _ _ C1 C2 Ho) as (L & Hl & ->). pose proof p_positive.
  exists L, ((L * L - x1 - x2) mod p), ((L * (x1 - (L * L - x1 - x2) mod p) - y1) mod p).
  assert (third L x1 y1 x2 ((L * L - x1 - x2) mod p) ((L * (x1 - (L * L - x1 - x2) mod p) - y1) mod p)) as Ht by (split; apply eqm_mod).
  repeat split; try apply Hl; try apply Ht; try (now apply Z.mod_pos_bound). eapply (third_curve Hp); [apply C1 | exact Hl | exact Ht].
Qed.

Lemma gadd_is x1 y1 x2 y2 L x3 y3 : on_curve x1 y1 -> on_curve x2 y2 -> on_curve x3 y3 -> ~ opposite x1 y1 x2 y2 ->
  line x1 y1 x2 y2 L -> third L x1 y1 x2 x3 y3 -> gadd (Some (x1, y1)) (Some (x2, y2)) = Some (x3, y3).
Proof.
  intros C1 C2 C3 Ho Hl Ht. destruct (gadd_sum _ _ _ _ C1 C2 Ho) as (L' & x & y & Hl' & Ht' & C & ->).
  pose proof (line_unique Hp Hp2 _ _ _ _ _ _ (proj2 (proj2 C1)) (proj2 (proj2 C2)) Ho Hl Hl') as E.
  apply on_curve_eq; [assumption..| |]; destruct Ht, Ht'; nsatz.
Qed.

Lemma opposite_dec x1 y1 x2 y2 : {opposite x1 y1 x2 y2} + {~ opposite x1 y1 x2 y2}.
Proof. unfold opposite. destruct (eqm_dec x1 x2), (eqm_dec y1 (- y2)); [now left | right; tauto..]. Qed.

Lemma gadd_good Q1 Q2 : good Q1 -> good Q2 -> good (gadd Q1 Q2).
Proof.
  destruct Q1 as [[x1 y1]|], Q2 as [[x2 y2]|]; try easy. cbn [good]. intros C1 C2. destruct (opposite_dec x1 y1 x2 y2) as [Ho|Ho].
  - now rewrite (gadd_opposite _ _ _ _ C1 C2 Ho).
  - now destruct (gadd_sum _ _ _ _ C1 C2 Ho) as (L & x3 & y3 & _ & _ & C & ->).
Qed.

Lemma gadd_comm Q1 Q2 : good Q1 -> good Q2 -> gadd Q1 Q2 = gadd Q2 Q1.
Proof.
  destruct Q1 as [[x1 y1]|], Q2 as [[x2 y2]|]; try easy. intros C1 C2. destruct (opposite_dec x1 y1 x2 y2) as [Ho|Ho].
  - rewrite !gadd_opposite; try assumption; [reflexivity|]. now apply (opposite_sym Hp).
  - destruct (gadd_sum _ _ _ _ C1 C2 Ho) as (L & x3 & y3 & Hl & Ht & C & ->). symmetry. apply gadd_is with (L := L); try assumption.
    + intros H. apply Ho. now apply (opposite_sym Hp).
    + now apply (line_sym Hp).
    + now apply (third_sym Hp x1 y1).
Qed.

Lemma gneg_good Q : good Q -> good (gneg Q).
Proof.
  destruct Q as [[x y]|]; [|easy]. intros (Hx & Hy & C). pose proof p_positive. cbn. repeat split; try lia; try (now apply Z.mod_pos_bound).
  rewrite eqm_mod. nsatz.
Qed.

Lemma gadd_gneg Q : good Q -> gadd (gneg Q) Q = None.
Proof.
  destruct Q as [[x y]|]; [|easy]. intros C. apply gadd_opposite; [apply (gneg_good (Some (x, y)) C) | exact C|].
  split; [reflexivity | apply eqm_mod].
Qed.

(** No sum with a point is the other summand: at such a point the curve would have no tangent. *)
Lemma gadd_cancel Q1 Q2 : good Q1 -> good Q2 -> gadd (gneg Q1) (gadd Q1 Q2) = Q2.
Proof.
  intros G1 G2. destruct Q1 as [[x1 y1]|]; [|easy]. destruct Q2 as [[x2 y2]|]; [|now apply gadd_gneg]. cbn [good] in *.
  pose proof (gneg_good (Some (x1, y1)) G1) as GN. cbn [gneg option_map good] in *. destruct (opposite_dec x1 y1 x2 y2) as [Ho|Ho].
  - rewrite (gadd_opposite _ _ _ _ G1 G2 Ho). cbn [gadd]. destruct Ho as [Ex Ey]. apply on_curve_eq; [assumption..|]. rewrite eqm_mod. nsatz.
  - destruct (gadd_sum _ _ _ _ G1 G2 Ho) as (L & x3 & y3 & Hl & Ht & C3 & ->). destruct (line_cancel Hp _ _ _ _ _ _ _ Hl Ht) as [Hl' Ht'].
    assert (- y1 == (- y1) mod p [mod p]) as En by (symmetry; apply eqm_mod).
    apply gadd_is with (L := - L); try assumption.
    + intros [Ex Ey]. rewrite <- En in Ey. destruct Hl as [A1 A2], Ht as [D1 D2]. destruct G1 as (_ & _ & C1). clear Ho Hl' Ht' GN G2 C3.
      assert (y1 == 0 [mod p]) as Hy by (apply (two_nz Hp Hp2); clear C1 A2 D1 En; nsatz).
      apply (smooth x1); [unfold curve; clear - C1 Hy Hp; nsatz|]. clear C1 En. nsatz.
    + unfold line in *. rewrite <- En. exact Hl'.
    + unfold third in *. rewrite <- En. exact Ht'.
Qed.

Lemma opposite_gneg x1 y1 x2 y2 : on_curve x1 y1 -> on_curve x2 y2 -> opposite x1 y1 x2 y2 -> Some (x1, y1) = gneg (Some (x2, y2)).
Proof.
  intros C1 C2 [Ex Ey]. pose proof (gneg_good (Some (x2, y2)) C2) as GN. cbn [gneg option_map good] in *.
  apply on_curve_eq; try assumption. now rewrite eqm_mod.
Qed.

(** Three points of which no two are opposite. *)
Lemma gadd_assoc_affine x1 y1 x2 y2 x3 y3 : on_curve x1 y1 -> on_curve x2 y2 -> on_curve x3 y3 ->
  ~ opposite x1 y1 x2 y2 -> ~ opposite x2 y2 x3 y3 ->
  gadd (Some (x1, y1)) (gadd (Some (x2, y2)) (Some (x3, y3))) = gadd (gadd (Some (x1, y1)) (Some (x2, y2))) (Some (x3, y3)).
Proof.
  intros C1 C2 C3 Ho12 Ho23. pose proof (proj2 (proj2 C1)) as E1. pose proof (proj2 (proj2 C2)) as E2. pose proof (proj2 (proj2 C3)) as E3.
  destruct (gadd_sum _ _ _ _ C1 C2 Ho12) as (L & xs & ys & Hl & Hs & CS & Es), (gadd_sum _ _ _ _ C2 C3 Ho23) as (M & xt & yt & Hm & Ht & CT & Et).
  rewrite Es, Et. pose proof (fun H => Ho12 (opposite_sym Hp _ _ _ _ H)) as Ho21. pose proof (fun H => Ho23 (opposite_sym Hp _ _ _ _ H)) as Ho32.
  pose proof (third_sym Hp _ _ _ _ _ _ _ Hl Hs) as Hs'. pose proof (third_sym Hp _ _ _ _ _ _ _ Hm Ht) as Ht'.
  pose proof (line_sym Hp _ _ _ _ _ Hl) as Hl'. pose proof (line_sym Hp _ _ _ _ _ Hm) as Hm'.
  destruct (opposite_dec xs ys x3 y3) as [HoS|HoS].
  { rewrite (gadd_opposite _ _ _ _ CS C3 HoS), gadd_opposite; try assumption; [reflexivity|].
    exact (opposite_after Hp Hp2 _ _ _ _ _ _ _ _ _ _ _ _ E2 E3 Hl Hs Hm Ht Ho23 HoS). }
  destruct (opposite_dec x1 y1 xt yt) as [HoT|HoT].
  { rewrite (gadd_opposite _ _ _ _ C1 CT HoT), gadd_opposite; try assumption; [reflexivity|]. apply (opposite_sym Hp).
    exact (opposite_after Hp Hp2 _ _ _ _ _ _ _ _ _ _ _ _ E2 E1 Hm' Ht' Hl' Hs' Ho21 (opposite_sym Hp _ _ _ _ HoT)). }
  destruct (eqm_dec L M) as [HLM|HLM].
  - destruct (same_slope Hp _ _ _ _ _ _ _ _ _ _ E1 E2 E3 Hl Hs Hm HLM) as [H|[Hx Hy]]; [now destruct HoS|].
    pose proof (on_curve_eq _ _ _ _ C1 C3 Hx Hy) as E13. rewrite <- Es, <- Et, <- E13. rewrite (gadd_comm (Some (x2, y2)) (Some (x1, y1))) by assumption.
    apply gadd_comm; [assumption|]. now apply gadd_good.
  - destruct (gadd_sum _ _ _ _ CS C3 HoS) as (N & u & v & HN & Hu & CU & ->), (gadd_sum _ _ _ _ C1 CT HoT) as (K & u' & v' & HK & Hu' & CU' & ->).
    pose proof (slope_after Hp Hp2 _ _ _ _ _ _ _ _ _ _ E1 E2 E3 Hl Hs Hm N HLM HoS HN) as EN.
    assert (K * (L - M) == x1 - x3 - M * (L - M) [mod p]) as EK.
    { assert (K * (M - L) == x3 - x1 - M * (M - L) [mod p]) as E; [|clear - E Hp; nsatz].
      apply (slope_after Hp Hp2 x3 y3 x2 y2 x1 y1 M L xt yt E3 E2 E1 Hm' Ht' Hl' K).
      - intros H. apply HLM. now symmetry.
      - intros H. apply HoT. now apply (opposite_sym Hp).
      - now apply (line_sym Hp). }
    destruct (sums_agree Hp x1 y1 x2 y2 x3 y3 L M xs ys xt yt Hl Hs Hm Ht N K u v u' v' HLM EN EK) as [Hx Hy].
    + now apply (third_sym Hp xs ys).
    + exact Hu'.
    + symmetry. now apply on_curve_eq.
Qed.

Lemma gadd_assoc Q1 Q2 Q3 : good Q1 -> good Q2 -> good Q3 -> gadd Q1 (gadd Q2 Q3) = gadd (gadd Q1 Q2) Q3.
Proof.
  intros G1 G2 G3. destruct Q1 as [[x1 y1]|]; [|easy]. destruct Q2 as [[x2 y2]|]; [|easy]. destruct Q3 as [[x3 y3]|]; [|now rewrite !gadd_None_r].
  destruct (opposite_dec x1 y1 x2 y2) as [Ho12|Ho12].
  { rewrite (gadd_opposite x1 y1 x2 y2 G1 G2 Ho12), (opposite_gneg _ _ _ _ G1 G2 Ho12). now apply gadd_cancel. }
  destruct (opposite_dec x2 y2 x3 y3) as [Ho23|Ho23].
  { rewrite (gadd_opposite x2 y2 x3 y3 G2 G3 Ho23), (opposite_gneg _ _ _ _ G3 G2 (opposite_sym Hp _ _ _ _ Ho23)).
    rewrite gadd_None_r, (gadd_comm (gadd _ _)), (gadd_comm (Some (x1, y1))) by auto using gadd_good, gneg_good. symmetry. now apply gadd_cancel. }
  now apply gadd_assoc_affine.
Qed.

(** ** Multiples *)
Section Multiples.
Context (Q : option (Z * Z)) (GQ : good Q).

Lemma nmul_good k : good (nmul k Q).
Proof. induction k as [|k IH]; [exact I|]. now apply gadd_good. Qed.

Lemma nmul_S k : nmul (S k) Q = gadd Q (nmul k Q).
Proof. reflexivity. Qed.

Lemma nmul_add i j : nmul (i + j) Q = gadd (nmul i Q) (nmul j Q).
Proof.
  induction i as [|i IH]; [reflexivity|]. cbn [Nat.add]. rewrite !nmul_S, IH. apply gadd_assoc; auto using nmul_good.
Qed.

Lemma nmul_mul k c : nmul c Q = None -> nmul (k * c) Q = None.
Proof. intros H. induction k as [|k IH]; [reflexivity|]. cbn [Nat.mul]. now rewrite nmul_add, H, IH. Qed.

(** Doubling and adding computes the multiples. *)
Lemma gmul_nmul k : gmul k Q = nmul (Pos.to_nat k) Q.
Proof.
  induction k as [k IH|k IH|]; cbn [gmul].
  - rewrite IH, <- nmul_add, Pos2Nat.inj_xI. cbn [Nat.mul]. now rewrite Nat.add_0_r.
  - rewrite IH, <- nmul_add, Pos2Nat.inj_xO. cbn [Nat.mul]. now rewrite Nat.add_0_r.
  - symmetry. apply gadd_None_r.
Qed.

Lemma nmul_cancel i j : nmul i Q = nmul (i + j) Q -> nmul j Q = None.
Proof.
  rewrite nmul_add. intros H. rewrite <- (gadd_cancel (nmul i Q) (nmul j Q)), <- H by apply nmul_good. apply gadd_gneg, nmul_good.
Qed.

(** The multiples of a point whose multiple by a prime is infinity. *)
Context (m : Z) (Hm : Z.prime m) (order : nmul (Z.to_nat m) Q = None) (HQ : Q <> None).

Lemma nmul_mod i : 0 <= i -> nmul (Z.to_nat i) Q = nmul (Z.to_nat (i mod m)) Q.
Proof.
  intros Hi. pose proof (Z.prime_ge_2 _ Hm). pose proof (Z.mod_pos_bound i m). pose proof (Z.div_pos i m).
  rewrite (Z.div_mod i m) at 1 by lia. rewrite Z.add_comm, Z2Nat.inj_add, nmul_add, Z.mul_comm, Z2Nat.inj_mul by nia.
  rewrite nmul_mul by exact order. apply gadd_None_r.
Qed.

Lemma nmul_None i : 0 <= i -> nmul (Z.to_nat i) Q = None -> i == 0 [mod m].
Proof.
  intros Hi H. pose proof (Z.prime_ge_2 _ Hm). destruct (Z.eq_dec (i mod m) 0) as [E|E]; [now apply eqm_0_iff|]. exfalso. apply HQ.
  assert (~ i == 0 [mod m]) as Hn by (now rewrite eqm_0_iff). pose proof (inverse Hm _ Hn) as Hi1. set (u := powmod i (m - 2) m) in *.
  assert (0 <= u) as Hu by (unfold u; rewrite powmod_spec by lia; now apply Z.mod_pos_bound; lia).
  rewrite <- (gadd_None_r Q). change (nmul (Z.to_nat 1) Q = None). unfold eqm in Hi1. rewrite (Z.mod_small 1) in Hi1 by lia.
  rewrite <- Hi1, <- nmul_mod by nia. rewrite Z.mul_comm, Z2Nat.inj_mul by lia. now apply nmul_mul.
Qed.

Lemma nmul_inj i j : 0 <= i -> 0 <= j -> nmul (Z.to_nat i) Q = nmul (Z.to_nat j) Q -> i == j [mod m].
Proof.
  intros Hi Hj H. destruct (Z.le_ge_cases i j) as [Hij|Hij]; [symmetry|symmetry in H]; apply eqm_sub_0, nmul_None; try lia.
  - apply (nmul_cancel (Z.to_nat i)). rewrite H. f_equal. lia.
  - apply (nmul_cancel (Z.to_nat j)). rewrite H. f_equal. lia.
Qed.
End Multiples.
End Laws.
End Group.

(** The discriminant: a point where both derivatives vanish is a double root of the polynomial. *)
Lemma discriminant_smooth {P : Params} : Z.prime p -> ~ 4 * (a * a * a) + 27 * (b * b) == 0 [mod p] ->
  forall x, curve x 0 -> ~ 3 * x * x + a == 0 [mod p].
Proof.
  intros Hp H x H1 H2. apply H. unfold curve in H1.
  pose (mod_ops (q := p)) as i1. pose (mod_ring (q := p)) as i2. pose (mod_cring (q := p)) as i3. pose (mod_domain Hp) as i4. nsatz.
Qed.

(** ** The multiples of the generator *)

(** A smooth curve over a prime field, and a generator of odd prime order. *)
Class CurveLaws (P : Params) : Prop := {
  field_prime : Z.prime p;
  field_odd : p <> 2;
  curve_smooth : ~ 4 * (a * a * a) + 27 * (b * b) == 0 [mod p];
  gen_on_curve : on_curve (fst G) (snd G);
  order_prime : Z.prime n;
  order_odd : n <> 2;
  gen_order : gmul (Z.to_pos n) (Some G) = None
}.

Section Generator.
Context {P : Params} {C : CurveLaws P}.

Lemma gen_smooth : forall x, curve x 0 -> ~ 3 * x * x + a == 0 [mod p].
Proof. exact (discriminant_smooth field_prime curve_smooth). Qed.

Definition multiple_of_gen (i : Z) : option (Z * Z) := match i mod n with Zpos k => gmul k (Some G) | _ => None end.

Lemma gen_good : good (Some G).
Proof. pose proof gen_on_curve as H. cbn. now destruct G. Qed.

Lemma n_positive : 0 < n.
Proof. pose proof (Z.prime_ge_2 _ order_prime). lia. Qed.

Lemma gen_multiples k : gmul k (Some G) = nmul (Pos.to_nat k) (Some G).
Proof. apply (gmul_nmul field_prime field_odd gen_smooth), gen_good. Qed.

Lemma gen_nmul_order : nmul (Z.to_nat n) (Some G) = None.
Proof.
  pose proof n_positive. rewrite <- gen_order, gen_multiples. f_equal. now destruct n.
Qed.

Lemma multiple_of_gen_nmul i : 0 <= i -> multiple_of_gen i = nmul (Z.to_nat i) (Some G).
Proof.
  intros Hi. unfold multiple_of_gen. pose proof (Z.mod_pos_bound i n n_positive).
  rewrite (nmul_mod field_prime field_odd gen_smooth (Some G) gen_good n order_prime gen_nmul_order) by exact Hi.
  destruct (i mod n) as [|k|k]; [reflexivity|apply gen_multiples|lia].
Qed.

Lemma multiple_of_gen_mod i : multiple_of_gen i = nmul (Z.to_nat (i mod n)) (Some G).
Proof.
  pose proof (Z.mod_pos_bound i n n_positive). rewrite <- multiple_of_gen_nmul by lia. unfold multiple_of_gen. now rewrite Z.mod_mod by lia.
Qed.

Lemma multiple_of_gen_good i : good (multiple_of_gen i).
Proof. rewrite multiple_of_gen_mod. apply (nmul_good field_prime field_odd), gen_good. Qed.

Lemma multiple_of_gen_add i j : gadd (multiple_of_gen i) (multiple_of_gen j) = multiple_of_gen (i + j).
Proof.
  rewrite !multiple_of_gen_mod. pose proof (Z.mod_pos_bound i n n_positive). pose proof (Z.mod_pos_bound j n n_positive).
  rewrite <- (nmul_add field_prime field_odd gen_smooth _ gen_good), <- Z2Nat.inj_add by lia.
  rewrite (nmul_mod field_prime field_odd gen_smooth (Some G) gen_good n order_prime gen_nmul_order) by lia.
  now rewrite <- Z.add_mod by lia.
Qed.

Lemma multiple_of_gen_eq i j : multiple_of_gen i = multiple_of_gen j <-> i == j [mod n].
Proof.
  rewrite !multiple_of_gen_mod. pose proof (Z.mod_pos_bound i n n_positive). pose proof (Z.mod_pos_bound j n n_positive). split.
  - intros E. apply (nmul_inj field_prime field_odd gen_smooth _ gen_good n order_prime gen_nmul_order) in E; [|easy|lia|lia].
    now rewrite !eqm_mod in E.
  - unfold eqm. now intros ->.
Qed.

Lemma multiple_of_gen_opp i x y : multiple_of_gen i = Some (x, y) -> multiple_of_gen (- i) = gneg (Some (x, y)).
Proof.
  intros E. rewrite <- E. rewrite <- (gadd_cancel field_prime field_odd gen_smooth (multiple_of_gen i) (multiple_of_gen (- i))) by apply multiple_of_gen_good.
  rewrite multiple_of_gen_add, Z.add_opp_diag_r. change (multiple_of_gen 0) with (match 0 mod n with Zpos k => gmul k (Some G) | _ => None end).
  rewrite Zmod_0_l. apply gadd_None_r.
Qed.

(** No multiple has order two, since the order is odd. *)
Lemma multiple_of_gen_y i x y : multiple_of_gen i = Some (x, y) -> on_curve x y /\ 0 < y.
Proof.
  intros E. pose proof (multiple_of_gen_good i) as Hg. rewrite E in Hg. cbn in Hg. split; [exact Hg|]. destruct Hg as (_ & Hy & _).
  destruct (Z.eq_dec y 0) as [->|]; [|lia]. exfalso.
  assert (multiple_of_gen (i + i) = multiple_of_gen 0) as E2.
  { rewrite <- multiple_of_gen_add, E. cbn [gadd]. rewrite !Z.eqb_refl. cbn [negb orb andb]. unfold multiple_of_gen. now rewrite Zmod_0_l. }
  apply multiple_of_gen_eq in E2. replace (i + i) with (2 * i) in E2 by ring.
  apply (eqm_mul_0 order_prime) in E2 as [E2|E2].
  - pose proof (Z.prime_ge_2 _ order_prime). pose proof order_odd. apply eqm_small in E2; lia.
  - apply multiple_of_gen_eq in E2. rewrite E in E2. unfold multiple_of_gen in E2. now rewrite Zmod_0_l in E2.
Qed.

(** What the signature scheme needs, from the group law. *)
#[export] Instance curve_group : CyclicGroup.
Proof.
  refine {| smul := multiple_of_gen |}.
  - unfold multiple_of_gen. now rewrite Zmod_0_l.
  - unfold multiple_of_gen. rewrite Z.mod_small by (pose proof (Z.prime_ge_2 _ order_prime); lia). reflexivity.
  - intros i j. rewrite <- multiple_of_gen_add. apply point_add_gadd. intros x y E. apply multiple_of_gen_y in E. lia.
  - apply multiple_of_gen_eq.
  - intros i x y E. rewrite (multiple_of_gen_opp _ _ _ E). cbn. apply multiple_of_gen_y in E as [(_ & Hy & _) Hy0].
    rewrite Z.mod_opp_l_nz, (Z.mod_small y) by (rewrite ?(Z.mod_small y); lia). reflexivity.
  - apply multiple_of_gen_y.
Defined.
End Generator.

(** ** The curve of the signature scheme *)

(** MNT4-753 satisfies all of it that can be computed here: it is smooth, its generator is on it, and
    the moduli are odd.  That the moduli are prime and that the generator has the order [n] are facts about
    the constants of [reference.py] that the kernel does not evaluate. *)
Lemma mnt4_753_laws : Z.prime (p (Params := mnt4_753)) -> Z.prime (n (Params := mnt4_753)) ->
  gmul (P := mnt4_753) (Z.to_pos (n (Params := mnt4_753))) (Some (G (Params := mnt4_753))) = None -> CurveLaws mnt4_753.
Proof.
  intros Hp Hn Ho. refine (Build_CurveLaws mnt4_753 Hp _ _ _ Hn _ Ho).
  - discriminate.
  - unfold eqm. vm_compute. discriminate.
  - unfold on_curve, eqm. cbn [p a b G mnt4_753 fst snd]. split; [split; [discriminate|reflexivity]|]. split; [split; [discriminate|reflexivity]|]. vm_compute. reflexivity.
  - discriminate.
Qed.

(** C2: The points of a curve over a prime field of odd characteristic form a commutative group under
    the code's own [point_add], when no point of the curve has [y = 0] (as when the order is odd): sums
    stay on the curve, addition is commutative and associative, infinity is neutral, and [point_neg]
    gives the opposite of a point.  The formulas for chords and tangents are those of the
    code, with its powers for inverses. *)
Theorem point_add_group (P : Params) : Z.prime p -> p <> 2 -> (forall x, ~ on_curve x 0) ->
  forall Q1 Q2 Q3, good Q1 -> good Q2 -> good Q3 ->
  let P1 := tup Q1 in let P2 := tup Q2 in let P3 := tup Q3 in
  point_add P1 (point_add P2 P3) = point_add (point_add P1 P2) P3 /\
  point_add P1 P2 = point_add P2 P1 /\
  (exists Q, good Q /\ point_add P1 P2 = tup Q) /\
  point_add None P1 = P1 /\ point_add P1 None = P1 /\
  (forall N, point_neg P1 = Ok N -> point_add N P1 = None /\ point_add P1 N = None).
Proof.
  intros Hp Hp2 Ht Q1 Q2 Q3 G1 G2 G3. cbv zeta.
  assert (forall x, curve x 0 -> ~ 3 * x * x + a == 0 [mod p]) as Hs.
  { intros x Hx. destruct (Ht (x mod p)). pose proof (Z.prime_ge_2 _ Hp). split; [apply Z.mod_pos_bound; lia|]. split; [lia|].
    unfold curve in Hx. now rewrite !eqm_mod. }
  assert (forall R1 R2, good R1 -> point_add (tup R1) (tup R2) = tup (gadd R1 R2)) as E.
  { intros R1 R2 HR. apply point_add_gadd. intros x y -> ->. now apply (Ht x). }
  rewrite !E by auto using gadd_good. split; [f_equal; now apply gadd_assoc|]. split; [f_equal; now apply gadd_comm|].
  split; [exists (gadd Q1 Q2); split; [now apply gadd_good | reflexivity]|]. split; [reflexivity|]. split; [now destruct Q1 as [[x y]|]|].
  intros N HN. destruct Q1 as [[x y]|]; [|discriminate]. injection HN as <-. pose proof G1 as (_ & Hy & _). cbn [px py].
  assert (Some (Pt Tuple x (p - y)) = tup (gneg (Some (x, y)))) as ->.
  { cbn. assert (y <> 0) by (intros ->; now apply (Ht x)). rewrite Z.mod_opp_l_nz, (Z.mod_small y) by (rewrite ?(Z.mod_small y); lia). reflexivity. }
  pose proof (gneg_good Hp Hp2 (Some (x, y)) G1) as GN. rewrite !E by assumption. rewrite (gadd_comm Hp Hp2 _ _ G1 GN).
  now rewrite (gadd_gneg Hp Hp2 (Some (x, y)) G1).
Qed.
