(* ===== verification/SmallCurve.v ===== *)
(** * A small curve that meets the interface

    The curve y^2 = x^3 + 2 x + 2 over the field of 17 elements has 19 points, a
    prime number.  Everything the theorems assume of the curve ([CurveLaws]) is checked on it
    by computation, and their witnesses run on it. *)

From Stdlib Require Import ZArith Lia List Bool Zmod Zdiv.
From S2P Require Import Prelude Modular Blake2s FieldSqrt CurveGroup GroupLaw.
Import ListNotations.
Open Scope Z_scope.
Open Scope eqm_scope.

#[export] Instance curve17 : Params := {| p := 17; n := 19; a := 2; b := 2; G := (5, 1) |}.

(** Deciding primality of a small number by trial division. *)
Definition prime_check (q : Z) : bool :=
  (1 <? q) && forallb (fun d => negb (q mod d =? 0)) (range 2 q).

Lemma prime_check_sound q : prime_check q = true -> Z.prime q.
Proof.
  unfold prime_check. intros [H1 H2]%andb_prop. apply Z.ltb_lt in H1.
  rewrite forallb_forall in H2. split; [exact H1|]. intros d Hd Hdiv.
  specialize (H2 d ltac:(apply in_range; lia)). apply Z.mod_divide in Hdiv; [|lia].
  now rewrite Hdiv in H2.
Qed.

Lemma prime_17 : Z.prime (p (Params := curve17)).
Proof. apply prime_check_sound. reflexivity. Qed.

Lemma prime_19 : Z.prime (n (Params := curve17)).
Proof. apply prime_check_sound. reflexivity. Qed.

Definition on17 (x y : Z) : bool :=
  (0 <=? x) && (x <? 17) && (0 <=? y) && (y <? 17)
  && ((y * y) mod 17 =? (x * x * x + 2 * x + 2) mod 17).

Lemma on17_on_curve x y : on17 x y = true -> on_curve x y.
Proof.
  unfold on17. rewrite !andb_true_iff, !Z.leb_le, !Z.ltb_lt, Z.eqb_eq.
  intros [[[[? ?] ?] ?] ?]. repeat split; assumption.
Qed.

#[export] Instance curve17_laws : CurveLaws curve17.
Proof.
  refine (Build_CurveLaws curve17 prime_17 _ _ _ prime_19 _ _).
  - discriminate.
  - unfold eqm. vm_compute. discriminate.
  - apply on17_on_curve. reflexivity.
  - discriminate.
  - vm_compute. reflexivity.
Defined.

#[export] Instance group17 : CyclicGroup := curve_group.

(** No point of the curve has order two. *)
Lemma no_two_torsion x : ~ on_curve x 0.
Proof.
  intros (Hx & _ & E). enough (H : forallb (fun x => negb (on17 x 0)) (range 0 17) = true).
  { rewrite forallb_forall in H. specialize (H x ltac:(apply in_range; exact Hx)).
    unfold on17 in H. cbn [p curve17] in Hx. unfold eqm in E. cbn [p a b curve17] in E.
    rewrite (proj2 (Z.leb_le 0 x)), (proj2 (Z.ltb_lt x 17)) in H by lia.
    rewrite E, Z.eqb_refl in H. discriminate. }
  reflexivity.
Qed.

(** Hash functions for the witnesses: one that always answers zeros, so that every
    sampled bit is zero, and one whose digest is a single small byte. *)
Definition zero_hash : Hash := fun _ => repeat 0 32.

Definition small_hash : Hash := fun bs => [1 + fold_right Z.add 0 bs mod 7].

Lemma small_hash_bytes bs : Forall is_byte (small_hash bs).
Proof.
  constructor; [|constructor]. unfold is_byte.
  pose proof (Z.mod_pos_bound (fold_right Z.add 0 bs) 7). lia.
Qed.

Lemma point_add_on_curve_witness : on_curve_pt (point_add (Some (Pt Tuple 5 1)) (Some (Pt PyList 6 3))).
Proof.
  apply (point_add_on_curve curve17 (Pt Tuple 5 1) (Pt PyList 6 3)).
  - exact prime_17.
  - discriminate.
  - now apply on17_on_curve.
  - now apply on17_on_curve.
  - discriminate.
  - right. left. discriminate.
Defined.

Lemma point_mul_multiples_witness :
  option_map untag (point_mul (Some (Pt PyList 6 3)) 7) = tup (smul (2 * 7)).
Proof.
  apply (point_mul_multiples curve17 group17 PyList 6 3 2 7).
  - exact prime_19.
  - reflexivity.
  - vm_compute. reflexivity.
  - split; discriminate.
Defined.

Lemma point_add_group_witness :
  point_add (Some (Pt Tuple 5 1)) (point_add (Some (Pt Tuple 5 1)) (Some (Pt Tuple 6 3)))
  = point_add (point_add (Some (Pt Tuple 5 1)) (Some (Pt Tuple 5 1))) (Some (Pt Tuple 6 3)).
Proof.
  apply (point_add_group curve17 prime_17 ltac:(discriminate) no_two_torsion (Some (5, 1)) (Some (5, 1)) (Some (6, 3)));
    apply on17_on_curve; reflexivity.
Defined.
