(* ===== verification/Pedersen.v ===== *)
(** * The Pedersen hash, [reference.py] lines 82 to 142 and 158 to 180

    The parameters are sampled from the common reference string: each sampling
    function threads the CRS state, and its rejection loop runs on explicit fuel,
    since only the hash function decides when it stops. *)

From Stdlib Require Import String ZArith Lia List Bool Setoid Zdiv Zmod.
From S2P Require Import Prelude Modular Blake2s Crs FieldSqrt Codec CurveGroup SmallCurve.
Import ListNotations.
Open Scope Z_scope.

Section Pedersen.
Context {P : Params} {hash : Hash}.

(** [for i in range(N): res += crs.next_bit() * (2 ** i)] *)
Definition sample_bits (st : Crs.state) : result (Z * Crs.state) :=
  foldM (fun '(res, st) i =>
    let* (bit, st) := next_bit st in
    Ok (res + Z.b2z bit * 2 ^ i, st)) (range 0 N) (0, st).

Definition field_step (st : Crs.state) : Crs.state + result (Z * Crs.state) :=
  match sample_bits st with
  | Err e => inr (Err e)
  | Ok (res, st') => if res <? p then inr (Ok (res, st')) else inl st'
  end.

Definition random_field_elt (fuel : positive) (st : Crs.state) : result (Z * Crs.state) :=
  while_loop fuel field_step st.

Definition curve_step (fuel : positive) (st : Crs.state)
  : Crs.state + result (option point * Crs.state) :=
  match random_field_elt fuel st with
  | Err e => inr (Err e)
  | Ok (x, st1) =>
      let y2 := (x * x * x + a * x + b) mod p in
      if negb (is_square y2) then inl st1 else
      inr (let* (y1, y2) := both_sqrt y2 in
           let* (bit, st2) := next_bit st1 in
           let y := if bit : bool then y1 else y2 in
           Ok (Some (Pt Tuple x y), st2))
  end.

Definition random_curve_point (fuel : positive) (st : Crs.state)
  : result (option point * Crs.state) :=
  while_loop fuel (curve_step fuel) st.

(** [for _ in range(N // 4): params.append(Q); Q = point_sixteen_times(Q)] *)
Fixpoint sixteen_multiples (k : nat) (Q : option point) : list (option point) :=
  match k with
  | O => []
  | S k' => Q :: sixteen_multiples k' (point_sixteen_times Q)
  end.

Fixpoint random_curve_points (fuel : positive) (k : nat) (st : Crs.state)
  : result (list (option point) * Crs.state) :=
  match k with
  | O => Ok ([], st)
  | S k' =>
      let* (Q, st1) := random_curve_point fuel st in
      let* (Qs, st2) := random_curve_points fuel k' st1 in
      Ok (Q :: Qs, st2)
  end.

Definition generate_pedersen_params (fuel : positive) (st : Crs.state)
  : result (list (option point) * Crs.state) :=
  let* (params0, st') := random_curve_points fuel 10 st in
  Ok (flat_map (sixteen_multiples (Z.to_nat (N / 4))) params0, st').

(** The body of the loop of [pedersen]: the third bit of the tryte is not used. *)
Definition segment (Pi : option point) (t : tryte) : option point :=
  let '(b0, b1, b2) := t in
  let n := 1 + b0 + 2 * b1 in
  if n =? 1 then Pi
  else if n =? 2 then point_add Pi Pi
  else if n =? 3 then point_add Pi (point_add Pi Pi)
  else let PP := point_add Pi Pi in point_add PP PP.

Variable params : list (option point).

Definition pedersen_step (acc : option point * Z) (t : tryte) : result (option point * Z) :=
  let '(res, i) := acc in
  let* Pi := py_nth params i in
  Ok (point_add res (segment Pi t), i + 1).

Definition pedersen (ts : list tryte) : result Z :=
  let* (res, _) := foldM pedersen_step ts (None, 0) in
  match res with
  | Some R => Ok (px R)
  | None => Err TypeError
  end.

Definition hash_blake2s_pedersen (ts : list tryte) : result (list Z) :=
  let* x := pedersen ts in
  let* bs := bytes_from_int x in
  Ok (blake2s bs).

(** ** What the hash depends on *)

(** The two bits of a tryte that the hash reads. *)
Definition low_bits (t : tryte) : Z * Z := let '(b0, b1, _) := t in (b0, b1).

Lemma segment_low_bits Pi t1 t2 : low_bits t1 = low_bits t2 -> segment Pi t1 = segment Pi t2.
Proof. destruct t1 as [[? ?] ?], t2 as [[? ?] ?]. simpl. intros [= -> ->]. reflexivity. Qed.

Lemma pedersen_fold_low_bits ts1 ts2 acc :
  map low_bits ts1 = map low_bits ts2 ->
  foldM pedersen_step ts1 acc = foldM pedersen_step ts2 acc.
Proof.
  revert ts2 acc. induction ts1 as [|t1 ts1 IH]; intros [|t2 ts2] acc; try discriminate;
    [reflexivity|]. intros [= H1 H2]. cbn [foldM]. destruct acc as [res i]. unfold pedersen_step at 1 3.
  destruct (py_nth params i) as [Pi|]; [|reflexivity]. cbn [bind].
  rewrite (segment_low_bits Pi t1 t2) by (destruct t1 as [[? ?] ?], t2 as [[? ?] ?]; simpl in *; congruence).
  now apply IH.
Qed.

Lemma pedersen_low_bits ts1 ts2 :
  map low_bits ts1 = map low_bits ts2 ->
  hash_blake2s_pedersen ts1 = hash_blake2s_pedersen ts2.
Proof. intros H. unfold hash_blake2s_pedersen, pedersen. now rewrite (pedersen_fold_low_bits ts1 ts2). Qed.

(** The loop fails only when the parameters run out. *)
Lemma pedersen_fold_index ts res i :
  0 <= i ->
  if i + zlength ts <=? zlength params
  then exists res', foldM pedersen_step ts (res, i) = Ok (res', i + zlength ts)
  else i <= zlength params -> foldM pedersen_step ts (res, i) = Err IndexError.
Proof.
  revert res i. induction ts as [|t ts IH]; intros res i Hi.
  - unfold zlength at 1. cbn [length Z.of_nat]. rewrite Z.add_0_r.
    destruct (Z.leb_spec i (zlength params)); [eexists; cbn; f_equal; f_equal; unfold zlength; cbn; lia|lia].
  - assert (El : zlength (t :: ts) = 1 + zlength ts) by (unfold zlength; cbn [length]; lia).
    rewrite El. cbn [foldM]. unfold pedersen_step at 1 3. pose proof (zlength_nonneg ts).
    destruct (Z.ltb_spec i (zlength params)) as [Hlt|Hge].
    + destruct (py_nth_ok params i) as (Pi & -> & _); [lia|]. cbn [bind].
      specialize (IH (point_add res (segment Pi t)) (i + 1) ltac:(lia)).
      replace (i + (1 + zlength ts)) with (i + 1 + zlength ts) by ring.
      destruct (i + 1 + zlength ts <=? zlength params); [exact IH|]. intros _. apply IH. lia.
    + destruct (Z.leb_spec (i + (1 + zlength ts)) (zlength params)); [lia|]. intros _.
      rewrite py_nth_nonneg by lia.
      rewrite (proj2 (nth_error_None params (Z.to_nat i))) by (unfold zlength in *; lia). reflexivity.
Qed.

(** ** The sampled points are points of the curve *)
Section Sampling.
Context (Hp : Z.prime p) (H2 : p <> 2).

Lemma sample_bits_nonneg st r st' : sample_bits st = Ok (r, st') -> 0 <= r.
Proof.
  intros H.
  refine (foldM_ind (fun acc : Z * Crs.state => 0 <= fst acc) _ _ _ _ _ _ H); [|cbn; lia].
  intros [res s] i s' Hi Hs E. ok_inv. destruct v as [bit s1]. ok_inv. cbn [fst] in *.
  apply in_range in Hi. pose proof (Z.pow_nonneg 2 i). destruct bit; cbn [Z.b2z]; lia.
Qed.

Lemma random_field_elt_range fuel st r st' :
  random_field_elt fuel st = Ok (r, st') -> 0 <= r < p.
Proof.
  intros H. revert H.
  apply (while_loop_partial field_step (fun _ => True)
    (fun res => res = Ok (r, st') -> 0 <= r < p)); [discriminate|easy| |exact I].
  intros s res _ Hs E. subst res. unfold field_step in Hs.
  destruct (sample_bits s) as [[x s1]|e] eqn:Es; [|discriminate].
  destruct (Z.ltb_spec x p); [|discriminate]. injection Hs as <- <-.
  split; [|assumption]. eapply sample_bits_nonneg, Es.
Qed.

Lemma both_sqrt_roots y2 y1 y1' :
  both_sqrt y2 = Ok (y1, y1') ->
  (0 <= y1 < p /\ (y1 * y1) mod p = y2 mod p) /\ (0 <= y1' < p /\ (y1' * y1') mod p = y2 mod p).
Proof.
  unfold both_sqrt. destruct (prime_mod_sqrt_roots P Hp y2) as (l & -> & _ & Hl). cbn [bind].
  intros H. destruct l as [|u [|v [|]]]; try discriminate.
  pose proof (proj1 (Hl u) (or_introl eq_refl)). pose proof (proj1 (Hl v) (or_intror (or_introl eq_refl))).
  destruct (u <? v); injection H as <- <-; auto.
Qed.

Lemma random_curve_point_on_curve fuel st Q st' :
  random_curve_point fuel st = Ok (Q, st') ->
  exists Q', Q = Some Q' /\ kind Q' = Tuple /\ on_curve (px Q') (py Q').
Proof.
  intros H. revert H. pose proof (p_pos Hp) as Hp0.
  apply (while_loop_partial (curve_step fuel) (fun _ => True)
    (fun res => res = Ok (Q, st') ->
       exists Q', Q = Some Q' /\ kind Q' = Tuple /\ on_curve (px Q') (py Q')));
    [discriminate|easy| |exact I].
  intros s res _ Hs ->. unfold curve_step in Hs.
  destruct (random_field_elt fuel s) as [[x s1]|e] eqn:Ex; [|discriminate].
  apply random_field_elt_range in Ex. set (y2 := (x * x * x + a * x + b) mod p) in *.
  destruct (negb (is_square y2)); [discriminate|]. injection Hs as Hs.
  apply bind_Ok_inv in Hs as ([u v] & Ey & Hs). apply bind_Ok_inv in Hs as ([bit s2] & _ & Hs).
  injection Hs as <- _. eexists. split; [reflexivity|]. split; [reflexivity|]. cbn [px py].
  apply both_sqrt_roots in Ey as [[Hu Eu] [Hv Ev]].
  assert (E2 : y2 mod p = (x * x * x + a * x + b) mod p) by apply Zmod_mod.
  destruct bit; (split; [exact Ex|]; split; [assumption|]; unfold eqm; congruence).
Qed.

Context (H0 : forall x, ~ on_curve x 0).

Lemma point_double_on_curve Q : on_curve_pt Q -> on_curve_pt (point_add Q Q).
Proof.
  destruct Q as [Q|]; [|easy]. intros HQ. apply point_add_closed; auto.
  - now left.
  - intros _ E. cbn in HQ. rewrite E in HQ. now apply H0 in HQ.
Qed.

Lemma sixteen_multiples_on_curve k Q :
  on_curve_pt Q -> Forall on_curve_pt (sixteen_multiples k Q).
Proof.
  revert Q. induction k as [|k IH]; intros Q HQ; simpl; constructor; [exact HQ|].
  apply IH. unfold point_sixteen_times. now repeat apply point_double_on_curve.
Qed.

Lemma sixteen_multiples_length k Q : length (sixteen_multiples k Q) = k.
Proof. revert Q. induction k as [|k IH]; intros Q; simpl; auto. Qed.

Lemma random_curve_points_spec fuel k st Qs st' :
  random_curve_points fuel k st = Ok (Qs, st') -> length Qs = k /\ Forall on_curve_pt Qs.
Proof.
  revert st Qs. induction k as [|k IH]; intros st Qs H; simpl in H.
  - ok_inv. now split.
  - apply bind_Ok_inv in H as ([Q s1] & E1 & H). apply bind_Ok_inv in H as ([Qs' s2] & E2 & H).
    injection H as <- ->. apply IH in E2 as [El Ef].
    apply random_curve_point_on_curve in E1 as (Q' & -> & _ & HQ).
    split; [simpl; congruence | constructor; [exact HQ | exact Ef]].
Qed.

Lemma params_spec fuel st ps st' :
  generate_pedersen_params fuel st = Ok (ps, st') ->
  zlength ps = 1880 /\ Forall on_curve_pt ps.
Proof.
  intros H. apply bind_Ok_inv in H as ([Qs s1] & E & H).
  assert (ps = flat_map (sixteen_multiples (Z.to_nat (N / 4))) Qs) as -> by congruence.
  clear H. apply random_curve_points_spec in E as [El Ef]. split.
  - unfold zlength. rewrite (flat_map_constant_length (c := Z.to_nat (N / 4))).
    + now rewrite El.
    + intros Q _. apply sixteen_multiples_length.
  - apply Forall_flat_map. eapply Forall_impl; [|exact Ef].
    intros Q HQ. now apply sixteen_multiples_on_curve.
Qed.
End Sampling.
End Pedersen.

(** on a curve over a prime field of odd characteristic without points of order
    two, the parameter generation, if its rejection sampling ends, returns 1880
    parameters and every one of them is a point of the curve (or infinity),
    whatever the hash function answers. *)
Theorem pedersen_params_on_curve (C : Params) (hash : Hash) (fuel : positive)
  (st st' : Crs.state) (ps : list (option point)) :
  Z.prime p -> p <> 2 -> (forall x, ~ on_curve x 0) ->
  generate_pedersen_params fuel st = Ok (ps, st') ->
  zlength ps = 1880 /\ Forall on_curve_pt ps.
Proof. exact (fun Hp H2 H0 => params_spec Hp H2 H0 fuel st ps st'). Qed.

Lemma pedersen_params_on_curve_witness :
  match generate_pedersen_params (hash := zero_hash) 4 (init_state (hash := zero_hash)) with
  | Ok (ps, _) => zlength ps = 1880 /\ Forall on_curve_pt ps
  | Err _ => False
  end.
Proof.
  destruct (generate_pedersen_params (hash := zero_hash) 4 (init_state (hash := zero_hash)))
    as [[ps st]|e] eqn:E.
  - apply (pedersen_params_on_curve curve17 zero_hash 4 (init_state (hash := zero_hash)) st ps).
    + exact prime_17.
    + discriminate.
    + exact no_two_torsion.
    + exact E.
  - assert (H : is_ok (generate_pedersen_params (hash := zero_hash) 4 (init_state (hash := zero_hash))) = true)
      by (vm_compute; reflexivity).
    rewrite E in H. discriminate H.
Defined.

(** The hash of a list of trytes depends on the first two bits of each tryte
    only: the third bit never reaches the sum of points. *)
Lemma pedersen_third_bit (C : Params) (hash : Hash) (params : list (option point))
  (ts1 ts2 : list tryte) :
  map low_bits ts1 = map low_bits ts2 ->
  hash_blake2s_pedersen params ts1 = hash_blake2s_pedersen params ts2.
Proof. apply pedersen_low_bits. Qed.

Lemma pedersen_third_bit_witness :
  hash_blake2s_pedersen (hash := small_hash) (repeat (Some (Pt Tuple 5 1)) 4) [(1, 0, 1); (0, 1, 0)]
  = hash_blake2s_pedersen (hash := small_hash) (repeat (Some (Pt Tuple 5 1)) 4) [(1, 0, 0); (0, 1, 1)].
Proof. now apply (pedersen_third_bit curve17 small_hash). Defined.

(** ** Bits and trytes *)
Definition is_bit (b : Z) : Prop := b = 0 \/ b = 1.
Definition is_tryte (t : tryte) : Prop := let '(b0, b1, b2) := t in is_bit b0 /\ is_bit b1 /\ is_bit b2.

Lemma is_bit_mod2 x : is_bit (x mod 2).
Proof. unfold is_bit. pose proof (Z.mod_pos_bound x 2). lia. Qed.

Lemma bit_of_is_bit x i : is_bit (bit_of x i).
Proof. unfold bit_of. change 1 with (Z.ones 1). rewrite Z.land_ones by lia. apply is_bit_mod2. Qed.

Lemma bits_are_bits x : Forall is_bit (bits_from_int x).
Proof. apply Forall_map, Forall_forall. intros. apply bit_of_is_bit. Qed.

Lemma byte_bits_are_bits bs : Forall is_bit (bits_from_bytes bs).
Proof.
  apply Forall_flat_map, Forall_forall. intros c _. apply Forall_map, Forall_forall. intros. apply bit_of_is_bit.
Qed.

Lemma nth_is_bit bits i : Forall is_bit bits -> is_bit (nth i bits 0).
Proof.
  intros H. destruct (Nat.lt_ge_cases i (length bits)) as [Hi|Hi].
  - now apply (proj1 (Forall_forall is_bit bits) H), nth_In.
  - rewrite nth_overflow by lia. now left.
Qed.

Lemma tryte_pad_typed bits : Forall is_bit bits ->
  exists ts, tryte_pad bits = Ok ts /\ length ts = ((length bits + 2) / 3)%nat /\ Forall is_tryte ts.
Proof.
  intros H. rewrite tryte_pad_eq. eexists. split; [reflexivity|]. split; [now rewrite length_map, length_seq|].
  apply Forall_map, Forall_forall. intros i _. unfold tryte_at. repeat split; now apply nth_is_bit.
Qed.

(** C24: The encoders of the scheme are well typed and total: for all integers and all byte strings
    the trytes of an integer, of a point and of a message exist, are 251, 252 and
    (8 n + 2) / 3 in number, and are triples of bits.  On such a tryte the segment of the hash is
    the parameter added up 1 + b0 + 2 b1 times, between one and four times: the last branch of the
    code, which tests nothing, is taken for four only. *)
Theorem trytes_typed (C : Params) (x y : Z) (msg : list Z) :
  exists t1 t2 t3,
    trytes_from_int x = Ok t1 /\ trytes_from_point (x, y) = Ok t2 /\ trytes_from_bytes msg = Ok t3 /\
    length t1 = 251%nat /\ length t2 = 252%nat /\ length t3 = ((8 * length msg + 2) / 3)%nat /\
    Forall is_tryte (t1 ++ t2 ++ t3) /\
    forall b0 b1 b2 Q, In (b0, b1, b2) (t1 ++ t2 ++ t3) ->
      1 <= 1 + b0 + 2 * b1 <= 4 /\
      segment Q (b0, b1, b2) =
        nth (Z.to_nat (b0 + 2 * b1))
          [Q; point_add Q Q; point_add Q (point_add Q Q); point_add (point_add Q Q) (point_add Q Q)] None.
Proof.
  destruct (tryte_pad_typed (bits_from_int x) (bits_are_bits x)) as (t1 & E1 & L1 & F1).
  destruct (tryte_pad_typed (bits_from_int x ++ [y mod 2])) as (t2 & E2 & L2 & F2).
  { apply Forall_app. split; [apply bits_are_bits|]. constructor; [apply is_bit_mod2 | constructor]. }
  destruct (tryte_pad_typed (bits_from_bytes msg) (byte_bits_are_bits msg)) as (t3 & E3 & L3 & F3).
  rewrite bits_from_int_length in L1. rewrite length_app, bits_from_int_length in L2. rewrite bits_from_bytes_length in L3.
  assert (F : Forall is_tryte (t1 ++ t2 ++ t3)) by (rewrite !Forall_app; auto).
  exists t1, t2, t3. do 6 (split; [assumption|]). split; [exact F|].
  intros b0 b1 b2 Q Hin. apply (proj1 (Forall_forall is_tryte _) F) in Hin as (H0 & H1 & _).
  destruct H0 as [-> | ->], H1 as [-> | ->]; (split; [lia | reflexivity]).
Qed.
