(* ===== verification/Schnorr.v ===== *)
(** * The Schnorr signatures, [reference.py] lines 182 to 196 and 243 to 275

    The hash function, the curve and the Pedersen parameters are the context;
    exceptions are results.  [SchemeLaws] gathers what the scheme needs of its
    context, and the section [Correct] shows that under these laws every signature
    the code produces is accepted by the code.  A curve that meets [CurveLaws] and a hash function
    that meets [DigestLaws] are such a context. *)

From Stdlib Require Import String ZArith Lia List Bool Setoid Zdiv Zmod.
From S2P Require Import Prelude Modular Blake2s Crs FieldSqrt Codec CurveGroup GroupLaw Pedersen SmallCurve.
Import ListNotations.
Open Scope Z_scope.
Open Scope eqm_scope.

Section Schnorr.
Context {P : Params} {hash : Hash}.
Variable params : list (option point).

Definition gen : option point := tup (Some G).

(** [P[0]] and [P[1]]: [None] cannot be indexed. *)
Definition coords (Q : option point) : result (Z * Z) :=
  match Q with
  | Some Q => Ok (px Q, py Q)
  | None => Err TypeError
  end.

Definition bytes_from_point (Q : option point) : result (list Z) :=
  let* (x, y) := coords Q in
  let* bs := bytes_from_int x in
  Ok ((if Z.land y 1 =? 0 then 2 else 3) :: bs).

Definition point_from_bytes (bs : list Z) : result (option point) :=
  match slice 0 1 bs with
  | [h] =>
      if (h =? 2) || (h =? 3) then
        let odd := h - 2 in
        let x := int_from_bytes (slice 1 96 bs) in
        let y_sq := (powmod x 3 p + a * x + b) mod p in
        if negb (is_square y_sq) then Ok None else
        let* l := prime_mod_sqrt y_sq in
        let* y0 := py_nth l 0 in
        let y := if negb (Z.land y0 1 =? odd) then p - y0 else y0 in
        Ok (Some (Pt PyList x y))
      else Ok None
  | _ => Ok None
  end.

(** [int_from_bytes(hash_blake2s_pedersen(trytes_from_int(r) + trytes_from_point(P) +
    trytes_from_bytes(msg)))] *)
Definition challenge (r : Z) (Q : option point) (msg : list Z) : result Z :=
  let* t1 := trytes_from_int r in
  let* xy := coords Q in
  let* t2 := trytes_from_point xy in
  let* t3 := trytes_from_bytes msg in
  let* h := hash_blake2s_pedersen params (t1 ++ t2 ++ t3) in
  Ok (int_from_bytes h).

Definition schnorr_sign (msg : list Z) (seckey : Z) : result (list Z) :=
  if negb ((1 <=? seckey) && (seckey <=? n - 1)) then
    Err (ValueError "The secret key must be an integer in the range 1..n-1."%string)
  else
    let* sk := bytes_from_int seckey in
    let k0 := int_from_bytes (blake2s (sk ++ msg)) in
    if k0 =? 0 then
      Err (RuntimeError "Failure. This happens only with negligible probability."%string)
    else
      let R := point_mul gen k0 in
      let* (rx, ry) := coords R in
      let k := if negb (ry mod 2 =? 0) then n - k0 else k0 in
      let* e := challenge rx (point_mul gen seckey) msg in
      let* b1 := bytes_from_int rx in
      let* b2 := bytes_from_int ((k + e * seckey) mod n) in
      Ok (b1 ++ b2).

Definition schnorr_verify (msg pubkey sig : list Z) : result bool :=
  if negb (zlength pubkey =? 96) then
    Err (ValueError "The public key must be a 96-byte array."%string)
  else if negb (zlength sig =? 190) then
    Err (ValueError "The signature must be a 190-byte array."%string)
  else
    let* Q := point_from_bytes pubkey in
    match Q with
    | None => Ok false
    | Some _ =>
        let r := int_from_bytes (slice 0 95 sig) in
        let s := int_from_bytes (slice 95 190 sig) in
        if (p <=? r) || (n <=? s) then Ok false else
        let* e := challenge r Q msg in
        let R := point_add (point_mul gen s) (point_mul Q (n - e)) in
        match R with
        | None => Ok false
        | Some R => Ok (negb (negb (py R mod 2 =? 0) || negb (px R =? r)))
        end
    end.

(** ** What the scheme needs of its context *)
Class SchemeLaws (Gr : CyclicGroup) : Prop := {
  p_prime : Z.prime p;
  p_odd : p <> 2;
  n_prime : Z.prime n;
  n_bits : n < 2 ^ N;
  digest_bytes : forall bs, Forall is_byte (blake2s bs);
  digest_small : forall bs, int_from_bytes (blake2s bs) + 2 <= n
}.

(** ** Compressed points *)
Section Points.
Context (Hp : Z.prime p) (H2 : p <> 2).

Lemma land_1_mod x : Z.land x 1 = x mod 2.
Proof. change 1 with (Z.ones 1). now rewrite Z.land_ones. Qed.

Lemma parity_opp y : (p - y) mod 2 <> y mod 2.
Proof.
  pose proof (prime_odd Hp H2). intros E. rewrite !Z.mod_eq in * by lia. lia.
Qed.

Lemma slice_0_app (l1 l2 : list Z) k : length l1 = k -> slice 0 k (l1 ++ l2) = l1.
Proof. intros <-. unfold slice. rewrite Nat.sub_0_r. cbn [skipn]. now rewrite firstn_app, Nat.sub_diag, firstn_all, app_nil_r. Qed.

Lemma slice_app_r (l1 l2 : list Z) i j :
  length l1 = i -> (length l1 + length l2 = j)%nat -> slice i j (l1 ++ l2) = l2.
Proof.
  intros <- <-. unfold slice. rewrite skipn_app, skipn_all, Nat.sub_diag. cbn [app skipn].
  replace (length l1 + length l2 - length l1)%nat with (length l2) by lia. apply firstn_all.
Qed.

(** Decompression finds the [y] whose parity was written. *)
Lemma point_bytes_roundtrip Q bs :
  on_curve (px Q) (py Q) -> 0 < py Q -> bytes_from_point (Some Q) = Ok bs ->
  zlength bs = 96 /\ point_from_bytes bs = Ok (Some (Pt PyList (px Q) (py Q))).
Proof.
  intros (Hx & Hy & E) Hy0 H. unfold bytes_from_point in H. cbn [coords bind] in H.
  destruct (bytes_from_int (px Q)) as [xs|] eqn:Ex; [|discriminate]. cbn [bind] in H.
  destruct (bytes_from_int_inv _ _ Ex) as (Hlen & _ & Hint).
  set (h := if Z.land (py Q) 1 =? 0 then 2 else 3) in *.
  assert (bs = [h] ++ xs) as -> by (cbn [app]; congruence). clear H.
  split; [unfold zlength; rewrite length_app, Hlen; reflexivity|].
  unfold point_from_bytes. rewrite (slice_0_app [h] xs 1) by reflexivity.
  rewrite (slice_app_r [h] xs 1 96), Hint by (cbn [length]; lia).
  assert (Hh : (h =? 2) || (h =? 3) = true /\ h - 2 = py Q mod 2).
  { unfold h. rewrite land_1_mod. pose proof (Z.mod_pos_bound (py Q) 2 ltac:(lia)).
    destruct (Z.eqb_spec (py Q mod 2) 0); split; (reflexivity || lia). }
  destruct Hh as [-> ->].
  set (y_sq := (powmod (px Q) 3 p + a * px Q + b) mod p).
  assert (Esq : py Q * py Q == y_sq [mod p]).
  { rewrite E. unfold y_sq. rewrite eqm_mod, eqm_powmod by lia.
    replace (px Q ^ 3) with (px Q * px Q * px Q) by ring. reflexivity. }
  assert (Hnz : ~ y_sq == 0 [mod p]).
  { rewrite <- Esq. intros E0. apply eqm_mul_0 in E0 as [E0|E0]; try exact Hp;
      apply eqm_small in E0; lia. }
  assert (Hsq : is_square y_sq = true).
  { unfold is_square. now rewrite (legendre_square Hp y_sq (py Q) H2 Hnz Esq). }
  rewrite Hsq. cbn [negb].
  destruct (prime_mod_sqrt_roots P Hp y_sq) as (l & -> & _ & Hl). cbn [bind].
  assert (Hin : In (py Q) l) by (apply Hl; split; [exact Hy | exact Esq]).
  destruct l as [|y0 l]; [destruct Hin|]. cbn [py_nth]. unfold py_nth. cbn [zlength length].
  destruct (proj1 (Hl y0) (or_introl eq_refl)) as [Hy0r Hy0sq].
  cbn [Z.ltb Z.compare Z.to_nat nth_error bind]. do 3 f_equal. rewrite land_1_mod.
  assert (Hc : y0 == py Q [mod p] \/ y0 == - py Q [mod p]).
  { apply (sqrt_unique Hp). rewrite Esq. exact Hy0sq. }
  destruct Hc as [Ey|Ey].
  - apply eqm_small in Ey; [|lia|lia]. now rewrite Ey, Z.eqb_refl.
  - assert (y0 = p - py Q) as ->.
    { apply (eqm_small p); [lia|lia|]. rewrite Ey. symmetry. apply eqm_sub_self. }
    rewrite (proj2 (Z.eqb_neq _ _) (parity_opp (py Q))). cbn [negb]. ring.
Qed.
End Points.

(** ** Signatures verify *)
Section Correct.
Context {Gr : CyclicGroup} {L : SchemeLaws Gr}.

Lemma G_smul : smul 1 = Some (fst G, snd G).
Proof. rewrite smul_1. now destruct G. Qed.

Lemma gen_eq : gen = Some (Pt Tuple (fst G) (snd G)).
Proof. unfold gen. now destruct G. Qed.

Lemma point_mul_gen m : 0 <= m <= n -> point_mul gen m = tup (smul m).
Proof.
  intros Hm. rewrite gen_eq.
  rewrite (point_mul_multiple n_prime n_bits 1 Tuple _ _ G_smul m Hm). unfold multiple.
  destruct (Z.eqb_spec m 1) as [->|]; [now rewrite G_smul | now rewrite Z.mul_1_l].
Qed.

Lemma point_mul_list j x y m :
  smul j = Some (x, y) -> 2 <= m <= n ->
  point_mul (Some (Pt PyList x y)) m = tup (smul (j * m)).
Proof.
  intros Hj Hm. rewrite (point_mul_multiple n_prime n_bits j PyList x y Hj m) by lia.
  unfold multiple. now rewrite (proj2 (Z.eqb_neq m 1)) by lia.
Qed.

Lemma digest_range bs : 0 <= int_from_bytes (blake2s bs) <= n - 2.
Proof.
  pose proof (int_from_bytes_range _ (digest_bytes bs)). pose proof (digest_small bs). lia.
Qed.

Lemma challenge_range r Q msg e : challenge r Q msg = Ok e -> 0 <= e <= n - 2.
Proof.
  unfold challenge. intros H. ok_inv. unfold hash_blake2s_pedersen in *. ok_inv.
  apply digest_range.
Qed.

(** The challenge reads the coordinates of the key, not its kind. *)
Lemma challenge_kind r x y k msg :
  challenge r (Some (Pt k x y)) msg = challenge r (Some (Pt Tuple x y)) msg.
Proof. reflexivity. Qed.

Lemma smul_coords i x y : coords (tup (smul i)) = Ok (x, y) -> smul i = Some (x, y).
Proof. destruct (smul i) as [[x' y']|]; simpl; [now intros [= -> ->] | discriminate]. Qed.

(** The nonce point with an even ordinate. *)
Lemma even_nonce k0 rx ry :
  smul k0 = Some (rx, ry) ->
  let k := if negb (ry mod 2 =? 0) then n - k0 else k0 in
  exists ry', smul k = Some (rx, ry') /\ ry' mod 2 = 0.
Proof.
  intros Hk. cbv zeta. pose proof (Z.mod_pos_bound ry 2 ltac:(lia)).
  destruct (Z.eqb_spec (ry mod 2) 0) as [E|E]; cbn [negb]; [eauto|].
  exists (p - ry). split.
  - rewrite <- (smul_opp _ _ _ Hk). apply smul_eq, eqm_sub_self.
  - pose proof (parity_opp p_prime p_odd ry). pose proof (Z.mod_pos_bound (p - ry) 2 ltac:(lia)). lia.
Qed.

Lemma verify_equation k e sk s :
  s = (k + e * sk) mod n -> s + sk * (n - e) == k [mod n].
Proof.
  intros ->. rewrite eqm_mod. replace (k + e * sk + sk * (n - e)) with (k + sk * n) by ring.
  unfold eqm. now rewrite Z.mod_add by (pose proof (Z.prime_ge_2 _ n_prime); lia).
Qed.

Lemma sign_verify msg sk sig pk :
  schnorr_sign msg sk = Ok sig -> bytes_from_point (point_mul gen sk) = Ok pk ->
  schnorr_verify msg pk sig = Ok true.
Proof.
  intros Hs Hpk. unfold schnorr_sign in Hs.
  destruct ((1 <=? sk) && (sk <=? n - 1)) eqn:Hr; [|discriminate Hs]. cbn [negb] in Hs.
  apply andb_prop in Hr as [H1%Z.leb_le H3%Z.leb_le].
  apply bind_Ok_inv in Hs as (skb & _ & Hs). set (k0 := int_from_bytes (blake2s (skb ++ msg))) in *.
  destruct (Z.eqb_spec k0 0) as [|Hk0]; [discriminate Hs|].
  pose proof (digest_range (skb ++ msg)) as Hk0r. fold k0 in Hk0r.
  rewrite point_mul_gen in Hs by lia. rewrite point_mul_gen in Hs, Hpk by lia.
  apply bind_Ok_inv in Hs as ([rx ry] & HR%smul_coords & Hs).
  destruct (even_nonce _ _ _ HR) as (ry' & HR' & Heven).
  set (k := if negb (ry mod 2 =? 0) then n - k0 else k0) in *.
  apply bind_Ok_inv in Hs as (e & He & Hs). pose proof (challenge_range _ _ _ _ He) as Her.
  apply bind_Ok_inv in Hs as (b1 & Hb1 & Hs). apply bind_Ok_inv in Hs as (b2 & Hb2 & Hs).
  assert (sig = b1 ++ b2) as -> by congruence. clear Hs.
  destruct (bytes_from_int_inv _ _ Hb1) as (L1 & _ & I1).
  destruct (bytes_from_int_inv _ _ Hb2) as (L2 & _ & I2).
  destruct (smul sk) as [[x y]|] eqn:HQ; [|discriminate Hpk]. cbn [tup option_map] in Hpk, He.
  destruct (smul_curve _ _ _ HQ) as [HQc HQy].
  destruct (point_bytes_roundtrip p_prime p_odd (Pt Tuple x y) _ HQc HQy Hpk) as [Lpk Hdec].
  unfold schnorr_verify. rewrite Lpk. unfold zlength at 1. rewrite length_app, L1, L2.
  change (negb (96 =? 96)) with false. change (negb (Z.of_nat (95 + 95) =? 190)) with false. cbn iota.
  rewrite Hdec. cbn [bind px py].
  rewrite (slice_0_app b1 b2 95), (slice_app_r b1 b2 95 190), I1, I2 by (rewrite ?L1, ?L2; lia).
  destruct (smul_curve _ _ _ HR) as [(Hrx & _) _].
  assert (Hs : 0 <= (k + e * sk) mod n < n) by (apply Z.mod_pos_bound; lia).
  rewrite (proj2 (Z.leb_gt p rx)), (proj2 (Z.leb_gt n _)) by lia. cbn [orb].
  rewrite challenge_kind, He. cbn [bind].
  rewrite point_mul_gen, (point_mul_list _ _ _ _ HQ), smul_add by lia.
  rewrite (smul_eqm _ _ (verify_equation _ _ _ _ eq_refl)), HR'. cbn [tup option_map px py].
  rewrite Heven, !Z.eqb_refl. reflexivity.
Qed.
End Correct.

(** ** What the signature does not cover *)
Lemma low_bits_prefix bits1 bits2 k :
  firstn (S k) bits1 = firstn (S k) bits2 ->
  map low_bits (map (tryte_at bits1) (seq 0 k)) = map low_bits (map (tryte_at bits2) (seq 0 k)).
Proof.
  intros H. rewrite !map_map. apply map_ext_in. intros i Hi%in_seq. cbn [tryte_at low_bits].
  assert (E : forall d, (d <= k)%nat -> nth d bits1 0 = nth d bits2 0).
  { intros d Hd. pose proof (f_equal (fun l => nth d l 0) H) as E. cbv beta in E.
    rewrite !nth_firstn in E. now rewrite (proj2 (Nat.ltb_lt d (S k))) in E by lia. }
  now rewrite !E by lia.
Qed.

Lemma challenge_prefix r Q msg1 msg2 :
  length msg1 = length msg2 ->
  firstn (S ((8 * length msg1 + 2) / 3)) (bits_from_bytes msg1)
  = firstn (S ((8 * length msg1 + 2) / 3)) (bits_from_bytes msg2) ->
  challenge r Q msg1 = challenge r Q msg2.
Proof.
  intros Hl Hb. unfold challenge, trytes_from_bytes. rewrite !tryte_pad_eq.
  rewrite !bits_from_bytes_length, <- Hl.
  destruct (trytes_from_int r) as [t1|]; [|reflexivity]. cbn [bind].
  destruct (coords Q) as [xy|]; [|reflexivity]. cbn [bind].
  destruct (trytes_from_point xy) as [t2|]; [|reflexivity]. cbn [bind].
  erewrite pedersen_low_bits; [reflexivity|]. rewrite !map_app. do 2 f_equal.
  now apply low_bits_prefix.
Qed.

Lemma verify_challenge msg1 msg2 pk sig :
  (forall r Q, challenge r Q msg1 = challenge r Q msg2) ->
  schnorr_verify msg1 pk sig = schnorr_verify msg2 pk sig.
Proof.
  intros H. unfold schnorr_verify. destruct (negb (zlength pk =? 96)); [reflexivity|].
  destruct (negb (zlength sig =? 190)); [reflexivity|].
  destruct (point_from_bytes pk) as [[Q|]|]; [|reflexivity|reflexivity]. cbn [bind].
  now rewrite H.
Qed.

(** ** How the scheme fails *)
Section Outcomes.
Context (Hp : 0 < p) (Hp753 : p < 2 ^ N).

Definition x_in_field (Q : option point) : Prop :=
  match Q with
  | None => True
  | Some Q => 0 <= px Q < p
  end.

Lemma on_curve_x Q : on_curve_pt Q -> x_in_field Q.
Proof. destruct Q; cbn; [|easy]. now intros (H & _). Qed.

Lemma point_add_x Q1 Q2 : x_in_field Q1 -> x_in_field Q2 -> x_in_field (point_add Q1 Q2).
Proof.
  destruct Q1 as [Q1|], Q2 as [Q2|]; try (cbn; easy). intros _ _. cbn [point_add].
  case_if; [exact I|]. cbn [x_in_field px]. now apply Z.mod_pos_bound.
Qed.

Lemma segment_x Q t : x_in_field Q -> x_in_field (segment Q t).
Proof.
  intros H. destruct t as [[b0 b1] b2]. unfold segment.
  repeat case_if; auto using point_add_x.
Qed.

Lemma pedersen_x ts x :
  Forall x_in_field params -> pedersen params ts = Ok x -> 0 <= x < p.
Proof.
  intros HP H. unfold pedersen in H. apply bind_Ok_inv in H as ([res i] & E & H).
  destruct res as [R|]; [|discriminate H].
  assert (I1 : x_in_field (Some R)).
  { refine (foldM_ind (fun acc => x_in_field (fst acc)) (pedersen_step params) ts (None, 0) _ _ I E).
    intros [res k] t s' _ Hs Es. unfold pedersen_step in Es.
    apply bind_Ok_inv in Es as (Q & EQ & Es). injection Es as <-. cbn [fst] in *.
    apply point_add_x; [exact Hs|]. apply segment_x.
    rewrite Forall_forall in HP. apply HP. unfold py_nth in EQ.
    destruct (_ <? 0) in EQ; [discriminate EQ|].
    destruct (nth_error _ _) eqn:En in EQ; [|discriminate EQ].
    apply nth_error_In in En. congruence. }
  injection H as <-. exact I1.
Qed.

Lemma field_bytes x : 0 <= x < p -> exists bs, bytes_from_int x = Ok bs /\ zlength bs = 95.
Proof.
  intros Hx. unfold bytes_from_int.
  assert (2 ^ N < 2 ^ (8 * 95)) by (apply Z.pow_lt_mono_r; reflexivity || discriminate).
  rewrite (proj2 (Z.leb_le 0 x)), (proj2 (Z.ltb_lt x _)) by lia. cbn [andb].
  eexists. split; [reflexivity|]. unfold zlength. now rewrite to_bytes_length.
Qed.

(** The parameters cover 1880 trytes: 503 go to the nonce and the key, the rest
    to messages of at most 516 bytes. *)
Lemma challenge_outcome r Q msg :
  zlength params = 1880 -> Forall x_in_field params ->
  if 517 <=? zlength msg
  then challenge r (Some Q) msg = Err IndexError
  else (exists e, challenge r (Some Q) msg = Ok e) \/ challenge r (Some Q) msg = Err TypeError.
Proof.
  intros Hlen HP. unfold challenge, trytes_from_int, trytes_from_bytes, trytes_from_point.
  cbn [coords bind]. rewrite !tryte_pad_eq. cbn [bind].
  set (ts := _ ++ _ ++ _).
  assert (Hts : zlength ts = 503 + (8 * zlength msg + 2) / 3).
  { unfold ts, zlength. rewrite !length_app, !length_map, !length_seq.
    unfold bits_from_int at 1 2. rewrite !length_map, !range_length, bits_from_bytes_length.
    change (Z.to_nat (N - 0)) with 753%nat. cbn [length].
    rewrite !Nat2Z.inj_add, !Nat2Z.inj_div, !Nat2Z.inj_add, Nat2Z.inj_mul.
    change (Z.of_nat 3) with 3. change (Z.of_nat 2) with 2. change (Z.of_nat 8) with 8.
    change (Z.of_nat 753) with 753. change (Z.of_nat 1) with 1.
    change ((753 + 2) / 3) with 251. change ((753 + 1 + 2) / 3) with 252. lia. }
  pose proof (pedersen_fold_index params ts None 0 ltac:(lia)) as H.
  rewrite Hts, Hlen in H. unfold hash_blake2s_pedersen, pedersen.
  pose proof (Z.div_mod (8 * zlength msg + 2) 3 ltac:(lia)).
  pose proof (Z.mod_pos_bound (8 * zlength msg + 2) 3 ltac:(lia)).
  destruct (Z.leb_spec 517 (zlength msg)).
  - rewrite (proj2 (Z.leb_gt _ 1880)) in H by lia. rewrite H by lia. reflexivity.
  - rewrite (proj2 (Z.leb_le _ 1880)) in H by lia. destruct H as (res & E).
    rewrite E. cbn [bind]. destruct res as [R|]; [|now right]. cbn [bind].
    destruct (field_bytes (px R)) as (bs & -> & _); [|left; cbn [bind]; eauto].
    apply (pedersen_x ts); [exact HP|]. unfold pedersen. now rewrite E.
Qed.
End Outcomes.
End Schnorr.

Lemma bytes_from_int_small (z : Z) : 0 <= z < 2 ^ N -> bytes_from_int z = Ok (to_bytes_le 95 z).
Proof.
  intros Hz. unfold bytes_from_int.
  assert (2 ^ N < 2 ^ (8 * 95)) by (apply Z.pow_lt_mono_r; reflexivity || discriminate).
  now rewrite (proj2 (Z.leb_le 0 z)), (proj2 (Z.ltb_lt z _)) by lia.
Qed.

(** Every secret key in range has a public key. *)
Lemma public_key_total (C : Params) (hash : Hash) (Gr : CyclicGroup) (L : SchemeLaws Gr) (sk : Z) :
  p < 2 ^ N -> 1 <= sk <= n - 1 -> exists pk, bytes_from_point (point_mul gen sk) = Ok pk.
Proof.
  intros HpN Hr. rewrite point_mul_gen by lia. destruct (smul sk) as [[x y]|] eqn:HQ.
  2: { apply smul_None, eqm_small in HQ; lia. }
  destruct (smul_curve _ _ _ HQ) as [(Hx & _) _]. unfold bytes_from_point. cbn [tup option_map coords bind px py].
  rewrite bytes_from_int_small by lia. cbn [bind]. eauto.
Qed.

Lemma sign_outcomes (C : Params) (hash : Hash) (Gr : CyclicGroup) (L : SchemeLaws Gr)
  (params : list (option point)) (msg : list Z) (sk : Z) :
  p < 2 ^ N -> zlength params = 1880 -> Forall on_curve_pt params ->
  match schnorr_sign params msg sk with
  | Ok sig => 1 <= sk <= n - 1 /\ zlength msg < 517 /\ zlength sig = 190
  | Err (ValueError _) => ~ 1 <= sk <= n - 1
  | Err (RuntimeError _) => int_from_bytes (blake2s (to_bytes_le 95 sk ++ msg)) = 0
  | Err IndexError => 517 <= zlength msg
  | Err TypeError => zlength msg < 517
  | Err _ => False
  end.
Proof.
  intros HpN Hlen HP. pose proof (Z.prime_ge_2 _ p_prime) as Hp.
  assert (Hp0 : 0 < p) by lia.
  assert (HP' : Forall x_in_field params) by (eapply Forall_impl; [exact on_curve_x | exact HP]).
  unfold schnorr_sign. destruct ((1 <=? sk) && (sk <=? n - 1)) eqn:Hr; cbn [negb].
  2: { intros H. apply andb_false_iff in Hr as [Hr%Z.leb_gt|Hr%Z.leb_gt]; lia. }
  apply andb_prop in Hr as [H1%Z.leb_le H3%Z.leb_le]. pose proof n_bits as HnN.
  pose proof bytes_from_int_small as Hint. rewrite Hint by lia. cbn [bind]. set (k0 := int_from_bytes _).
  pose proof (digest_range (to_bytes_le 95 sk ++ msg)) as Hk. fold k0 in Hk.
  destruct (Z.eqb_spec k0 0) as [|Hk0]; [assumption|]. rewrite !point_mul_gen by lia.
  destruct (smul k0) as [[rx ry]|] eqn:HR.
  2: { apply smul_None, eqm_small in HR; lia. }
  destruct (smul sk) as [[x y]|] eqn:HQ.
  2: { apply smul_None, eqm_small in HQ; lia. }
  cbn [tup option_map coords bind px py].
  pose proof (challenge_outcome params Hp0 HpN rx (Pt Tuple x y) msg Hlen HP') as HC.
  destruct (Z.leb_spec 517 (zlength msg)); [rewrite HC; assumption|].
  destruct HC as [[e ->]| ->]; [|assumption]. cbn [bind].
  destruct (smul_curve _ _ _ HR) as [(Hrx & _) _]. rewrite Hint by lia. cbn [bind].
  match goal with |- context [bytes_from_int (?z mod n)] =>
    assert (Hs : 0 <= z mod n < n) by (apply Z.mod_pos_bound; lia) end.
  rewrite Hint by lia. cbn [bind]. split; [lia|]. split; [lia|].
  unfold zlength. now rewrite length_app, !to_bytes_length.
Qed.

(** compressing a point of the curve and decompressing the 96 bytes returns
    the same coordinates, over every prime field of odd characteristic: the stored
    parity selects the right square root.  The pair that comes back is a list. *)
Theorem point_compression_roundtrip (C : Params) (Q : point) (bs : list Z) :
  Z.prime p -> p <> 2 -> on_curve (px Q) (py Q) -> 0 < py Q ->
  bytes_from_point (Some Q) = Ok bs ->
  zlength bs = 96 /\ point_from_bytes bs = Ok (Some (Pt PyList (px Q) (py Q))).
Proof. exact (fun Hp H2 => point_bytes_roundtrip Hp H2 Q bs). Qed.

(** The digests fit below an order of at most [N] bits. *)
Class DigestLaws (C : Params) (hash : Hash) : Prop := {
  order_bits : n < 2 ^ N;
  digest_is_bytes : forall bs, Forall is_byte (blake2s bs);
  digest_below : forall bs, int_from_bytes (blake2s bs) + 2 <= n
}.

#[export] Instance scheme_on_curve (C : Params) (hash : Hash) (CL : CurveLaws C) (D : DigestLaws C hash) : SchemeLaws curve_group.
Proof. split; try apply CL; apply D. Qed.


(** C25: a signature covers only the first third of its message: when two messages
    of the same length agree on their first [(8 * length + 2) / 3 + 1] bits, every
    key and signature verify for both or for neither, with the same exceptions.
    [tryte_pad] reads overlapping triples of bits. *)
Theorem verify_prefix_only (C : Params) (hash : Hash) (params : list (option point))
  (msg1 msg2 pk sig : list Z) :
  length msg1 = length msg2 ->
  firstn (S ((8 * length msg1 + 2) / 3)) (bits_from_bytes msg1)
  = firstn (S ((8 * length msg1 + 2) / 3)) (bits_from_bytes msg2) ->
  schnorr_verify params msg1 pk sig = schnorr_verify params msg2 pk sig.
Proof.
  intros Hl Hb. apply verify_challenge. intros r Q. now apply challenge_prefix.
Qed.

(** the outcomes of [schnorr_sign] with 1880 Pedersen parameters: a secret key
    out of range raises a ValueError, a zero nonce a RuntimeError, a message of 517
    bytes or more an IndexError (the parameters run out); any other message is
    signed with 190 bytes, or raises a TypeError when the Pedersen sum is the point
    at infinity. *)
Theorem schnorr_sign_outcomes (C : Params) (hash : Hash) (Gr : CyclicGroup) (L : SchemeLaws Gr)
  (params : list (option point)) (msg : list Z) (sk : Z) :
  p < 2 ^ N -> zlength params = 1880 -> Forall on_curve_pt params ->
  match schnorr_sign params msg sk with
  | Ok sig => 1 <= sk <= n - 1 /\ zlength msg < 517 /\ zlength sig = 190
  | Err (ValueError _) => ~ 1 <= sk <= n - 1
  | Err (RuntimeError _) => int_from_bytes (blake2s (to_bytes_le 95 sk ++ msg)) = 0
  | Err IndexError => 517 <= zlength msg
  | Err TypeError => zlength msg < 517
  | Err _ => False
  end.
Proof.
  exact (sign_outcomes C hash Gr L params msg sk).
Qed.

(** ** The constants of [reference.py] *)

(** A digest of 32 bytes is far below the order of MNT4-753. *)
Lemma digests_mnt4_753 (hash : Hash) : HashLaws hash -> DigestLaws mnt4_753 hash.
Proof.
  intros [Hlen Hb]. split; [reflexivity | exact Hb|]. intros bs. pose proof (int_from_bytes_range _ (Hb bs)) as H. unfold zlength in H.
  rewrite Hlen in H. assert (2 ^ (8 * Z.of_nat 32) + 2 <= n (Params := mnt4_753)) by discriminate. lia.
Qed.

(** With the curve and the hash function of [reference.py], signatures verify, given three facts about its
    constants: the two moduli are prime and the generator has the order [n]. *)
Corollary reference_signatures_verify params msg sk sig pk :
  Z.prime (p (Params := mnt4_753)) -> Z.prime (n (Params := mnt4_753)) ->
  gmul (P := mnt4_753) (Z.to_pos (n (Params := mnt4_753))) (Some (G (Params := mnt4_753))) = None ->
  schnorr_sign (P := mnt4_753) (hash := Blake2s.hashlib) params msg sk = Ok sig ->
  bytes_from_point (point_mul (P := mnt4_753) (gen (P := mnt4_753)) sk) = Ok pk ->
  schnorr_verify (P := mnt4_753) (hash := Blake2s.hashlib) params msg pk sig = Ok true.
Proof.
  intros Hp Hn Ho. pose proof (mnt4_753_laws Hp Hn Ho) as CL. pose proof (digests_mnt4_753 Blake2s.hashlib Blake2s.hashlib_laws) as D.
  exact (sign_verify (Gr := curve_group) (L := scheme_on_curve mnt4_753 Blake2s.hashlib CL D) params msg sk sig pk).
Qed.

(** ** Witnesses on the curve of 19 points *)
#[export] Instance digests17 : DigestLaws curve17 small_hash.
Proof.
  constructor; [reflexivity | exact small_hash_bytes|].
  intros bs. unfold blake2s, small_hash. cbn [int_from_bytes n curve17].
  pose proof (Z.mod_pos_bound (fold_right Z.add 0 bs) 7). lia.
Defined.

Definition params17 : list (option point) := repeat (Some (Pt Tuple 5 1)) 1880.

Definition sig17 (msg : list Z) : list Z :=
  match schnorr_sign (hash := small_hash) params17 msg 5 with
  | Ok sig => sig
  | Err _ => []
  end.

Definition pk17 : list Z :=
  match bytes_from_point (point_mul gen 5) with
  | Ok pk => pk
  | Err _ => []
  end.

Lemma point_compression_roundtrip_witness :
  point_from_bytes (3 :: 5 :: repeat 0 94) = Ok (Some (Pt PyList 5 1)).
Proof.
  refine (proj2 (point_compression_roundtrip curve17 (Pt Tuple 5 1) _ prime_17 _ _ _ _)).
  - easy.
  - apply on17_on_curve. reflexivity.
  - reflexivity.
  - vm_compute. reflexivity.
Defined.


(** The signature of one message verifies for another. *)
Lemma verify_prefix_only_witness :
  schnorr_verify (hash := small_hash) params17 [1; 4; 9] pk17 (sig17 [1; 2; 3])
  = Ok true.
Proof.
  rewrite (verify_prefix_only curve17 small_hash params17 [1; 4; 9] [1; 2; 3]).
  - vm_compute. reflexivity.
  - reflexivity.
  - vm_compute. reflexivity.
Defined.

Lemma schnorr_sign_outcomes_witness :
  schnorr_sign (hash := small_hash) params17 (repeat 7 517) 5 = Err IndexError
  /\ 517 <= zlength (repeat 7 517).
Proof.
  assert (E : schnorr_sign (hash := small_hash) params17 (repeat 7 517) 5 = Err IndexError)
    by (vm_compute; reflexivity).
  split; [exact E|].
  pose proof (schnorr_sign_outcomes curve17 small_hash group17 (scheme_on_curve _ _ curve17_laws digests17) params17 (repeat 7 517) 5) as H.
  rewrite E in H. apply H.
  - reflexivity.
  - reflexivity.
  - unfold params17. apply Forall_forall. intros Q HQ%repeat_spec. subst Q.
    apply on17_on_curve. reflexivity.
Defined.
