(* ===== verification/Sampling.v ===== *)
(** * The sampling of the Pedersen parameters against the stream of bits

    The specification of the rejection loops of [reference.py] (lines 82 to 107 and 129 to
    132): which bits of the common random string a field element and a curve point are made
    of.  The loops return just what the specification draws, and fuel above the number of
    bits drawn is enough. *)

From Stdlib Require Import String ZArith Lia List Bool Setoid Zdiv Zmod.
From S2P Require Import Prelude Modular Blake2s Crs FieldSqrt Codec CurveGroup SmallCurve Pedersen.
Import ListNotations.
Open Scope Z_scope.
Open Scope eqm_scope.

Section Spec.
Context {P : Params} {hash : Hash}.

(** The number that the [m] bits from position [k] on write, the lowest bit first. *)
Fixpoint bits_value (m : nat) (k : Z) : Z :=
  match m with
  | O => 0
  | S m' => bits_value m' k + Z.b2z (stream (k + Z.of_nat m')) * 2 ^ Z.of_nat m'
  end.

Definition window (k : Z) : Z := bits_value (Z.to_nat N) k.

(** From position [k] on, [v] is the first window that is a field element; it ends before [k']. *)
Inductive draws_field : Z -> Z -> Z -> Prop :=
| field_here k : window k < p -> draws_field k (window k) (k + N)
| field_later k v k' : p <= window k -> draws_field (k + N) v k' -> draws_field k v k'.

Definition rhs (x : Z) : Z := (x * x * x + a * x + b) mod p.

(** The first element [x] whose right-hand side is a square other than zero gives the point;
    one more bit says which of the two roots [y] is: the smaller one when it is set. *)
Inductive draws_point : Z -> point -> Z -> Prop :=
| point_here k x k1 y : draws_field k x k1 -> rhs x <> 0 -> 0 <= y < p -> (y * y) mod p = rhs x ->
    stream k1 = (y <? p - y) -> draws_point k (Pt Tuple x y) (k1 + 1)
| point_later k x k1 Q k' : draws_field k x k1 -> ~ (rhs x <> 0 /\ exists y, (y * y) mod p = rhs x) ->
    draws_point k1 Q k' -> draws_point k Q k'.

Inductive draws_points : nat -> Z -> list point -> Z -> Prop :=
| points_nil k : draws_points 0 k [] k
| points_cons m k Q k1 Qs k' : draws_point k Q k1 -> draws_points m k1 Qs k' -> draws_points (S m) k (Q :: Qs) k'.

Lemma draws_field_later k v k' : draws_field k v k' -> k < k'.
Proof. induction 1; unfold N in *; lia. Qed.

Lemma draws_point_later k Q k' : draws_point k Q k' -> k < k'.
Proof. induction 1; match goal with H : draws_field _ _ _ |- _ => apply draws_field_later in H end; lia. Qed.

Lemma draws_points_later m k Qs k' : draws_points m k Qs k' -> k <= k'.
Proof. induction 1 as [|m k Q k1 Qs k' H _ IH]; [lia|]. apply draws_point_later in H. lia. Qed.

(** ** The loops *)
Context {L : HashLaws hash}.

(** The position is a function of the state. *)
Definition position (st : Crs.state) : Z := digest_length * (Crs.i st - 1) + j st.

Lemma position_at k st : at_position k st -> position st = k.
Proof. intros (q & _ & _ & Hi & _ & ->). unfold position. rewrite Hi. f_equal. f_equal. ring. Qed.

Lemma range_snoc m : range 0 (Z.of_nat (S m)) = range 0 (Z.of_nat m) ++ [Z.of_nat m].
Proof.
  unfold range. rewrite !Z.sub_0_r, !Nat2Z.id, seq_S, map_app. reflexivity.
Qed.

Lemma sample_bits_window k st : at_position k st ->
  exists st', sample_bits st = Ok (window k, st') /\ at_position (k + N) st'.
Proof.
  intros H. unfold sample_bits, window. change N with (Z.of_nat 753). rewrite Nat2Z.id.
  generalize 753%nat as m. induction m as [|m IH].
  - exists st. rewrite Z.add_0_r. now split.
  - destruct IH as (st1 & E1 & H1). rewrite range_snoc, foldM_app, E1. cbn [bind foldM].
    destruct (next_bit_step _ _ H1) as (st2 & -> & H2). exists st2. split; [reflexivity|].
    now replace (k + Z.of_nat (S m)) with (k + Z.of_nat m + 1) by lia.
Qed.

Lemma field_drawn k v k' : draws_field k v k' -> forall fuel st, at_position k st -> k' - k < Z.pos fuel ->
  exists st', random_field_elt fuel st = Ok (v, st') /\ at_position k' st'.
Proof.
  intros Hd fuel st Hst Hf. unfold random_field_elt.
  apply (while_loop_total field_step (fun s => exists k0, at_position k0 s /\ draws_field k0 v k')
    (fun r => exists st', r = Ok (v, st') /\ at_position k' st') (fun s => k' - position s)).
  - intros s s' (k0 & Hs & H0) E. rewrite (position_at _ _ Hs). unfold field_step in E.
    destruct (sample_bits_window _ _ Hs) as (s1 & E1 & H1). rewrite E1 in E.
    destruct (Z.ltb_spec (window k0) p); [discriminate|]. injection E as <-. rewrite (position_at _ _ H1).
    inversion H0; subst; [lia|]. split; [eauto|]. match goal with H : draws_field _ _ _ |- _ => apply draws_field_later in H end.
    unfold N in *. lia.
  - intros s r (k0 & Hs & H0) E. unfold field_step in E.
    destruct (sample_bits_window _ _ Hs) as (s1 & E1 & H1). rewrite E1 in E.
    destruct (Z.ltb_spec (window k0) p); [|discriminate]. injection E as <-. inversion H0; subst; [eauto | lia].
  - eauto.
  - now rewrite (position_at _ _ Hst).
Qed.

(** What the loop returns was drawn, and it raises nothing. *)
Lemma field_returned fuel k st : at_position k st ->
  match random_field_elt fuel st with
  | Ok (v, st') => exists k', draws_field k v k' /\ at_position k' st'
  | Err e => e = OutOfFuel
  end.
Proof.
  intros Hst. unfold random_field_elt.
  apply (while_loop_partial field_step
    (fun s => exists k0, at_position k0 s /\ forall w k', draws_field k0 w k' -> draws_field k w k')
    (fun r => match r with Ok (v, st') => exists k', draws_field k v k' /\ at_position k' st' | Err e => e = OutOfFuel end));
    [reflexivity| | |eauto].
  - intros s s' (k0 & Hs & H0) E. unfold field_step in E. destruct (sample_bits_window _ _ Hs) as (s1 & E1 & H1). rewrite E1 in E.
    destruct (Z.ltb_spec (window k0) p); [discriminate|]. injection E as <-. eexists. split; [exact H1|].
    intros w k' Hw. apply H0. now apply field_later.
  - intros s r (k0 & Hs & H0) E. unfold field_step in E. destruct (sample_bits_window _ _ Hs) as (s1 & E1 & H1). rewrite E1 in E.
    destruct (Z.ltb_spec (window k0) p); [|discriminate]. injection E as <-. exists (k0 + N). split; [|exact H1].
    apply H0. now apply field_here.
Qed.

(** ** Curve points *)
Context (Hp : Z.prime p) (H2 : p <> 2).

Lemma rhs_range x : 0 <= rhs x < p.
Proof. apply Z.mod_pos_bound. apply (p_pos Hp). Qed.

Lemma rhs_nonzero x : rhs x <> 0 -> ~ rhs x == 0 [mod p].
Proof. pose proof (rhs_range x). intros Hr. rewrite eqm_0_iff, Z.mod_small; lia. Qed.

Lemma root_eqm x y : (y * y) mod p = rhs x <-> y * y == rhs x [mod p].
Proof. unfold eqm. rewrite (Z.mod_small (rhs x)) by apply rhs_range. reflexivity. Qed.

Lemma is_square_rhs x : is_square (rhs x) = true <-> rhs x <> 0 /\ exists y, (y * y) mod p = rhs x.
Proof.
  pose proof (rhs_range x) as Hr. unfold is_square. rewrite Z.eqb_eq. split.
  - intros Hl. assert (Hr0 : rhs x <> 0).
    { intros E. rewrite E in Hl. pose proof (half_pos Hp H2) as Hh. pose proof (Z.prime_ge_2 p Hp).
      assert (legendre_symbol 0 = 0) by (apply (legendre_eq Hp); [lia|]; now rewrite Z.pow_0_l by lia). lia. }
    split; [exact Hr0|]. destruct (prime_mod_sqrt_odd Hp (rhs x) H2 ltac:(lia) Hl) as (y & _ & _ & Hy). exists y. now apply root_eqm.
  - intros [Hr0 (y & Hy)]. apply (legendre_square Hp _ y H2); [now apply rhs_nonzero | now apply root_eqm].
Qed.

(** The roots, the smaller one first. *)
Lemma both_sqrt_rhs x y : rhs x <> 0 -> 0 <= y < p -> (y * y) mod p = rhs x ->
  both_sqrt (rhs x) = Ok (if y <? p - y then (y, p - y) else (p - y, y)).
Proof.
  intros Hr0 Hy Hyy. pose proof (rhs_range x) as Hr. pose proof (rhs_nonzero x Hr0) as Hz.
  assert (Hl : legendre_symbol (rhs x) = 1) by (apply (legendre_square Hp _ y H2); [exact Hz | now apply root_eqm]).
  destruct (prime_mod_sqrt_odd Hp (rhs x) H2 ltac:(lia) Hl) as (u & E & Hu & Huu).
  destruct (root_pair Hp (rhs x) u H2 Hu Hz Huu) as [Hnd Hin].
  unfold both_sqrt. rewrite E. cbn [bind].
  assert (u <> p - u) by (inversion Hnd as [|? ? Hn]; subst; intros Eq; apply Hn; left; congruence).
  destruct (proj2 (Hin y) (conj Hy (proj1 (root_eqm x y) Hyy))) as [->|[<-|[]]]; [destruct (Z.ltb_spec y (p - y)); reflexivity|].
  destruct (Z.ltb_spec u (p - u)), (Z.ltb_spec (p - u) (p - (p - u))); try lia; f_equal; f_equal; lia.
Qed.

Lemma curve_step_here fuel k x k1 y st : at_position k st -> draws_field k x k1 -> k1 - k < Z.pos fuel ->
  rhs x <> 0 -> 0 <= y < p -> (y * y) mod p = rhs x -> stream k1 = (y <? p - y) ->
  exists st', curve_step fuel st = inr (Ok (Some (Pt Tuple x y), st')) /\ at_position (k1 + 1) st'.
Proof.
  intros Hst Hx Hf Hr0 Hy Hyy Hb. destruct (field_drawn _ _ _ Hx fuel st Hst Hf) as (st1 & E1 & H1).
  destruct (next_bit_step _ _ H1) as (st2 & E2 & H3). exists st2. split; [|exact H3].
  unfold curve_step. rewrite E1. fold (rhs x). rewrite (proj2 (is_square_rhs x)) by eauto. cbn [negb].
  rewrite (both_sqrt_rhs x y Hr0 Hy Hyy). rewrite Hb in E2. revert E2.
  destruct (y <? p - y); intros E2; cbn [bind]; rewrite E2; reflexivity.
Qed.

Lemma curve_step_later fuel k x k1 st : at_position k st -> draws_field k x k1 -> k1 - k < Z.pos fuel ->
  ~ (rhs x <> 0 /\ exists y, (y * y) mod p = rhs x) ->
  exists st', curve_step fuel st = inl st' /\ at_position k1 st'.
Proof.
  intros Hst Hx Hf Hn. destruct (field_drawn _ _ _ Hx fuel st Hst Hf) as (st1 & E1 & H1). exists st1. split; [|exact H1].
  unfold curve_step. rewrite E1. fold (rhs x). destruct (is_square (rhs x)) eqn:E; [|reflexivity]. now apply is_square_rhs in E.
Qed.

Lemma draws_point_inv k Q k' : draws_point k Q k' ->
  (exists x k1 y, Q = Pt Tuple x y /\ k' = k1 + 1 /\ draws_field k x k1 /\ rhs x <> 0 /\ 0 <= y < p /\ (y * y) mod p = rhs x /\
     stream k1 = (y <? p - y)) \/
  (exists x k1, draws_field k x k1 /\ ~ (rhs x <> 0 /\ exists y, (y * y) mod p = rhs x) /\ draws_point k1 Q k').
Proof. destruct 1; [left | right]; eauto 12. Qed.

Lemma point_drawn k Q k' : draws_point k Q k' -> forall fuel st, at_position k st -> k' - k < Z.pos fuel ->
  exists st', random_curve_point fuel st = Ok (Some Q, st') /\ at_position k' st'.
Proof.
  intros Hd fuel st Hst Hf. unfold random_curve_point.
  apply (while_loop_total (curve_step fuel) (fun s => exists k0, k <= k0 /\ at_position k0 s /\ draws_point k0 Q k')
    (fun r => exists st', r = Ok (Some Q, st') /\ at_position k' st') (fun s => k' - position s)).
  - intros s s' (k0 & Hk & Hs & H0) E. rewrite (position_at _ _ Hs). pose proof (draws_point_later _ _ _ H0) as Hlt.
    apply draws_point_inv in H0 as [(x & k1 & y & -> & -> & Hx & Hr0 & Hy & Hyy & Hb)|(x & k1 & Hx & Hn & HQ)].
    + destruct (curve_step_here fuel k0 x k1 y s Hs Hx ltac:(lia) Hr0 Hy Hyy Hb) as (? & E' & _). congruence.
    + pose proof (draws_point_later _ _ _ HQ). pose proof (draws_field_later _ _ _ Hx).
      destruct (curve_step_later fuel k0 x k1 s Hs Hx ltac:(lia) Hn) as (s1 & E' & H1).
      assert (s' = s1) as -> by congruence. rewrite (position_at _ _ H1). split; [|lia]. exists k1. repeat split; auto. lia.
  - intros s r (k0 & Hk & Hs & H0) E. pose proof (draws_point_later _ _ _ H0) as Hlt.
    apply draws_point_inv in H0 as [(x & k1 & y & -> & -> & Hx & Hr0 & Hy & Hyy & Hb)|(x & k1 & Hx & Hn & HQ)].
    + destruct (curve_step_here fuel k0 x k1 y s Hs Hx ltac:(lia) Hr0 Hy Hyy Hb) as (s1 & E' & H1).
      exists s1. split; [congruence | exact H1].
    + pose proof (draws_point_later _ _ _ HQ).
      destruct (curve_step_later fuel k0 x k1 s Hs Hx ltac:(lia) Hn) as (? & E' & _). congruence.
  - exists k. repeat split; auto. lia.
  - now rewrite (position_at _ _ Hst).
Qed.

Lemma point_returned fuel k st : at_position k st ->
  match random_curve_point fuel st with
  | Ok (Q, st') => exists Q' k', Q = Some Q' /\ draws_point k Q' k' /\ at_position k' st'
  | Err e => e = OutOfFuel
  end.
Proof.
  intros Hst. unfold random_curve_point.
  apply (while_loop_partial (curve_step fuel)
    (fun s => exists k0, at_position k0 s /\ forall Q k', draws_point k0 Q k' -> draws_point k Q k')
    (fun r => match r with
              | Ok (Q, st') => exists Q' k', Q = Some Q' /\ draws_point k Q' k' /\ at_position k' st'
              | Err e => e = OutOfFuel
              end)); [reflexivity| | |eauto].
  - intros s s' (k0 & Hs & H0) E. unfold curve_step in E. pose proof (field_returned fuel k0 s Hs) as Hf.
    destruct (random_field_elt fuel s) as [[x s1]|]; [|discriminate]. destruct Hf as (k1 & Hx & H1). fold (rhs x) in E.
    destruct (is_square (rhs x)) eqn:Esq; [discriminate|]. cbn [negb] in E. assert (s' = s1) as -> by congruence.
    exists k1. split; [exact H1|]. intros Q k' HQ. apply H0. apply (point_later k0 x k1); auto.
    intros Hn. apply is_square_rhs in Hn. congruence.
  - intros s r (k0 & Hs & H0) E. unfold curve_step in E. pose proof (field_returned fuel k0 s Hs) as Hf.
    destruct (random_field_elt fuel s) as [[x s1]|e]; [|injection E as <-; exact Hf]. destruct Hf as (k1 & Hx & H1). fold (rhs x) in E.
    destruct (is_square (rhs x)) eqn:Esq; [|discriminate]. cbn [negb] in E. apply is_square_rhs in Esq as [Hr0 (y0 & Hy0)].
    pose proof (p_pos Hp) as Hp0. set (y := y0 mod p) in *. assert (Hy : 0 <= y < p) by (apply Z.mod_pos_bound, (p_pos Hp)).
    assert (Hyy : (y * y) mod p = rhs x) by (rewrite <- Hy0; unfold y; now rewrite <- Z.mul_mod by lia).
    rewrite (both_sqrt_rhs x y Hr0 Hy Hyy) in E. destruct (next_bit_step _ _ H1) as (s2 & E2 & H3).
    assert (Hneg : ((p - y) * (p - y)) mod p = rhs x).
    { rewrite <- Hyy. replace ((p - y) * (p - y)) with (y * y + (p - 2 * y) * p) by ring. apply Z.mod_add. lia. }
    assert (Hy1 : y <> 0) by (intros E0; rewrite E0, Z.mul_0_l, Z.mod_0_l in Hyy by lia; congruence).
    assert (Hne : y <> p - y) by (pose proof (prime_odd Hp H2) as Ho; rewrite Z.mod_eq in Ho by lia; lia).
    destruct (Z.ltb_spec y (p - y)); cbn [bind] in E; rewrite E2 in E; cbn [bind] in E; injection E as <-;
      (eexists _, (k1 + 1); split; [reflexivity|]; split; [|exact H3]; apply H0; apply (point_here k0 x k1); auto);
      destruct (stream k1); try lia; auto; symmetry; (apply Z.ltb_lt || apply Z.ltb_ge); lia.
Qed.

(** ** The parameters *)
Lemma points_drawn m k Qs k' : draws_points m k Qs k' -> forall fuel st, at_position k st -> k' - k < Z.pos fuel ->
  exists st', random_curve_points fuel m st = Ok (map Some Qs, st') /\ at_position k' st'.
Proof.
  induction 1 as [k|m k Q k1 Qs k' HQ HQs IH]; intros fuel st Hst Hf; [exists st; now split|].
  pose proof (draws_point_later _ _ _ HQ). pose proof (draws_points_later _ _ _ _ HQs).
  destruct (point_drawn _ _ _ HQ fuel st Hst ltac:(lia)) as (st1 & E1 & H1).
  destruct (IH fuel st1 H1 ltac:(lia)) as (st2 & E2 & H3). exists st2. split; [|exact H3].
  cbn [random_curve_points]. rewrite E1. cbn [bind]. now rewrite E2.
Qed.

Lemma points_returned fuel m k st : at_position k st ->
  match random_curve_points fuel m st with
  | Ok (Qs, st') => exists Qs' k', Qs = map Some Qs' /\ draws_points m k Qs' k' /\ at_position k' st'
  | Err e => e = OutOfFuel
  end.
Proof.
  revert k st. induction m as [|m IH]; intros k st Hst; cbn [random_curve_points].
  - exists [], k. repeat split; [constructor | exact Hst].
  - pose proof (point_returned fuel k st Hst) as HQ. destruct (random_curve_point fuel st) as [[Q st1]|e]; [|exact HQ].
    destruct HQ as (Q' & k1 & -> & HQ & H1). cbn [bind]. pose proof (IH k1 st1 H1) as HQs.
    destruct (random_curve_points fuel m st1) as [[Qs st2]|e]; [|exact HQs].
    destruct HQs as (Qs' & k' & -> & HQs & H3). exists (Q' :: Qs'), k'. repeat split; [|exact H3]. econstructor; eassumption.
Qed.

(** The list made of the drawn points. *)
Definition params_of (Qs : list point) : list (option point) :=
  flat_map (sixteen_multiples (Z.to_nat (N / 4))) (map Some Qs).

Lemma params_drawn Qs k' fuel : draws_points 10 0 Qs k' -> k' < Z.pos fuel ->
  exists st', generate_pedersen_params fuel init_state = Ok (params_of Qs, st') /\ at_position k' st'.
Proof.
  intros HQs Hf. destruct (points_drawn _ _ _ _ HQs fuel init_state at_position_init ltac:(lia)) as (st' & E & H).
  exists st'. split; [|exact H]. unfold generate_pedersen_params. now rewrite E.
Qed.

Lemma params_returned fuel :
  match generate_pedersen_params fuel init_state with
  | Ok (ps, st') => exists Qs k', ps = params_of Qs /\ draws_points 10 0 Qs k' /\ at_position k' st'
  | Err e => e = OutOfFuel
  end.
Proof.
  pose proof (points_returned fuel 10 0 init_state at_position_init) as H. unfold generate_pedersen_params.
  destruct (random_curve_points fuel 10 init_state) as [[Qs st']|e]; [|exact H].
  destruct H as (Qs' & k' & -> & HQs & H). cbn [bind]. now exists Qs', k'.
Qed.
End Spec.

(** C13: The Pedersen parameters are a function of the bits of the common random string: ten points
    are drawn, each from the first 753-bit windows that are field elements until one has a right-hand
    side that is a square other than zero, with one more bit to choose the root.  When the string has
    ten such points before bit [k'], the generation ends with just their multiples by powers of 16,
    having read [k'] bits, on any fuel above [k']; and whatever it returns was drawn this way: it
    raises no exception. *)
Theorem pedersen_params_drawn (C : Params) (hash : Hash) (L : HashLaws hash) (fuel : positive) :
  Z.prime p -> p <> 2 ->
  (forall Qs k', draws_points 10 0 Qs k' -> k' < Z.pos fuel ->
     exists st', generate_pedersen_params fuel init_state = Ok (params_of Qs, st') /\ at_position k' st') /\
  match generate_pedersen_params fuel init_state with
  | Ok (ps, st') => exists Qs k', ps = params_of Qs /\ draws_points 10 0 Qs k' /\ at_position k' st'
  | Err e => e = OutOfFuel
  end.
Proof.
  intros Hp H2. split; [intros Qs k'; now apply params_drawn | now apply params_returned].
Qed.

#[export] Instance zero_hash_laws : HashLaws zero_hash.
Proof.
  constructor; intros bs; unfold blake2s, zero_hash; [reflexivity|]. apply Forall_forall.
  intros c Hc%repeat_spec. subst c. now split.
Qed.

(** A string of zeros, on the small curve: the ten points are (0, 11). *)
Lemma pedersen_params_drawn_witness :
  exists Qs k' st, draws_points (hash := zero_hash) 10 0 Qs k' /\
    generate_pedersen_params (hash := zero_hash) 7541 (init_state (hash := zero_hash)) = Ok (params_of Qs, st).
Proof.
  destruct (pedersen_params_drawn curve17 zero_hash zero_hash_laws 7541 prime_17 ltac:(discriminate)) as [_ H].
  assert (E : is_ok (generate_pedersen_params (hash := zero_hash) 7541 (init_state (hash := zero_hash))) = true) by (vm_compute; reflexivity).
  destruct (generate_pedersen_params (hash := zero_hash) 7541 (init_state (hash := zero_hash))) as [[ps st]|e]; [|discriminate E].
  destruct H as (Qs & k' & -> & HQ & _). now exists Qs, k', st.
Defined.
