(* ===== verification/Dict.v ===== *)
(** * Python dictionaries

    A dictionary keeps the order in which its keys were first inserted, and the
    code iterates over it in that order; it is an association list with distinct
    keys ([wf]).  [d[k] = v] replaces in place or appends, [del d[k]] removes.
    [to_map] forgets the order: the operations refine those of stdpp's [gmap]. *)

From stdpp Require Import base gmap sets list strings.
From S2P Require Import Prelude.

Lemma Forall2_elem_of_l {A B} (P : A -> B -> Prop) l k x :
  Forall2 P l k -> x ∈ l -> exists y, y ∈ k /\ P x y.
Proof.
  induction 1 as [|a c l k Hp _ IH]; [by intros ?%not_elem_of_nil|].
  intros [->|Hx]%elem_of_cons; [exists c; split; [left | done]|].
  destruct (IH Hx) as (y & Hy & Hxy). exists y. split; [by right | done].
Qed.

Lemma Forall2_elem_of_r {A B} (P : A -> B -> Prop) l k y :
  Forall2 P l k -> y ∈ k -> exists x, x ∈ l /\ P x y.
Proof. intros H. apply (Forall2_elem_of_l (fun y x => P x y)). by apply Forall2_flip. Qed.

Definition dict (K V : Type) : Type := list (K * V).

Section Dict.
Context {K V : Type} `{EqDecision K}.
Implicit Types (d : dict K V) (k : K) (v : V).

(** [d.get(k)] *)
Fixpoint get d k : option V :=
  match d with
  | [] => None
  | (k', v) :: d' => if decide (k = k') then Some v else get d' k
  end.

(** [d[k]] *)
Definition get_item d k : result V :=
  match get d k with
  | Some v => Ok v
  | None => Err KeyError
  end.

(** [k in d] *)
Definition mem k d : bool :=
  match get d k with
  | Some _ => true
  | None => false
  end.

(** [d[k] = v] *)
Fixpoint set k v d : dict K V :=
  match d with
  | [] => [(k, v)]
  | (k', v') :: d' => if decide (k = k') then (k', v) :: d' else (k', v') :: set k v d'
  end.

(** [del d[k]], for a key that is present. *)
Fixpoint del k d : dict K V :=
  match d with
  | [] => []
  | (k', v') :: d' => if decide (k = k') then d' else (k', v') :: del k d'
  end.

Definition keys d : list K := map fst d.
Definition values d : list V := map snd d.

Definition wf d : Prop := NoDup (keys d).

(** ** Lemmas *)
Lemma get_set d k v k' : get (set k v d) k' = if decide (k' = k) then Some v else get d k'.
Proof.
  induction d as [|[k1 v1] d IH]; simpl; [reflexivity|].
  destruct (decide (k = k1)) as [->|]; simpl; repeat case_decide; naive_solver.
Qed.

Lemma get_set_eq d k v : get (set k v d) k = Some v.
Proof. rewrite get_set. by rewrite decide_True. Qed.

Lemma get_set_ne d k v k' : k' <> k -> get (set k v d) k' = get d k'.
Proof. intros. rewrite get_set. by rewrite decide_False. Qed.

Lemma set_set d k v1 v2 : set k v2 (set k v1 d) = set k v2 d.
Proof.
  induction d as [|[k' v'] d IH]; cbn; [by rewrite decide_True|].
  case_decide; cbn; [subst; by rewrite decide_True|]. rewrite decide_False by done. by rewrite IH.
Qed.

Lemma get_in d k v : get d k = Some v -> (k, v) ∈ d.
Proof.
  induction d as [|[k1 v1] d IH]; simpl; [done|].
  case_decide; [intros [= ->]; subst; left | intros; right; auto].
Qed.

Lemma get_None d k : get d k = None <-> k ∉ keys d.
Proof.
  unfold keys. induction d as [|[k1 v1] d IH]; simpl.
  - split; [intros _; apply not_elem_of_nil | done].
  - rewrite not_elem_of_cons, <- IH. case_decide as E; [naive_solver|].
    split; [by split | by intros [_ ?]].
Qed.

Lemma in_get d k v : wf d -> (k, v) ∈ d -> get d k = Some v.
Proof.
  unfold wf, keys. induction d as [|[k1 v1] d IH]; simpl.
  - by intros _ ?%not_elem_of_nil.
  - intros [Hk Hd]%NoDup_cons [[= -> ->]|Hin]%elem_of_cons; [by rewrite decide_True|].
    rewrite decide_False; [by apply IH|]. intros ->. apply Hk.
    apply list_elem_of_fmap. by exists (k1, v).
Qed.

Lemma mem_true k d : mem k d = true <-> k ∈ keys d.
Proof.
  unfold mem. destruct (get d k) as [v|] eqn:E.
  - split; [|done]. intros _. apply get_in in E. apply list_elem_of_fmap. by exists (k, v).
  - apply get_None in E. naive_solver.
Qed.

Lemma mem_false k d : mem k d = false <-> k ∉ keys d.
Proof. rewrite <- mem_true. destruct (mem k d); naive_solver. Qed.

Lemma keys_set d k v : keys (set k v d) = if mem k d then keys d else keys d ++ [k].
Proof.
  unfold keys, mem. induction d as [|[k1 v1] d IH]; simpl; [reflexivity|].
  case_decide; simpl; [reflexivity|]. rewrite IH. by destruct (get d k).
Qed.

Lemma set_fresh d k v : get d k = None -> set k v d = d ++ [(k, v)].
Proof.
  induction d as [|[k1 v1] d IH]; simpl; [reflexivity|].
  case_decide; [done|]. intros E. by rewrite IH.
Qed.

Lemma elem_of_keys_set d k v k' : k' ∈ keys (set k v d) <-> k' = k \/ k' ∈ keys d.
Proof.
  rewrite keys_set. destruct (mem k d) eqn:E.
  - apply mem_true in E. naive_solver.
  - rewrite elem_of_app, list_elem_of_singleton. naive_solver.
Qed.

Lemma wf_nil : wf ([] : dict K V).
Proof. constructor. Qed.

Lemma wf_set d k v : wf d -> wf (set k v d).
Proof.
  unfold wf. rewrite keys_set. destruct (mem k d) eqn:E; [done|]. intros Hd.
  apply mem_false in E. apply NoDup_app. split; [exact Hd|]. split; [|apply NoDup_singleton].
  intros x Hx ->%list_elem_of_singleton. done.
Qed.

Lemma keys_del_sub d k k' : k' ∈ keys (del k d) -> k' ∈ keys d.
Proof.
  unfold keys. induction d as [|[k1 v1] d IH]; simpl; [done|].
  case_decide; simpl; rewrite ?elem_of_cons; naive_solver.
Qed.

Lemma wf_del d k : wf d -> wf (del k d).
Proof.
  unfold wf. induction d as [|[k1 v1] d IH]; [done|]. cbn. intros [H1 H2]%NoDup_cons.
  case_decide; [done|]. cbn. apply NoDup_cons. split; [|auto].
  intros Hin. apply H1. by apply (keys_del_sub d k).
Qed.

Lemma get_del d k k' : wf d -> get (del k d) k' = if decide (k' = k) then None else get d k'.
Proof.
  unfold wf. induction d as [|[k1 v1] d IH]; cbn; [by case_decide|].
  intros [H1 H2]%NoDup_cons. destruct (decide (k = k1)) as [->|]; cbn.
  - destruct (decide (k' = k1)) as [->|]; [by apply get_None | reflexivity].
  - destruct (decide (k' = k1)) as [->|]; [by rewrite decide_False by done|]. by rewrite IH.
Qed.

Lemma length_keys d : length (keys d) = length d.
Proof. apply length_map. Qed.

End Dict.

(** ** Refinement of finite maps *)
Section Refinement.
Context {K V : Type} `{Countable K}.
Implicit Types (d : dict K V) (k : K) (v : V).

Definition to_map d : gmap K V := list_to_map d.

Lemma lookup_to_map d k : to_map d !! k = get d k.
Proof.
  unfold to_map. induction d as [|[k1 v1] d IH]; simpl; [apply lookup_empty|].
  case_decide; subst; [apply lookup_insert_eq|]. rewrite lookup_insert_ne by congruence. exact IH.
Qed.

Lemma to_map_set d k v : to_map (set k v d) = <[k := v]> (to_map d).
Proof.
  apply map_eq. intros k'. rewrite lookup_to_map, get_set.
  destruct (decide (k' = k)) as [->|]; [by rewrite lookup_insert_eq|].
  by rewrite lookup_insert_ne, lookup_to_map by congruence.
Qed.

Lemma to_map_del d k : wf d -> to_map (del k d) = delete k (to_map d).
Proof.
  intros Hd. apply map_eq. intros k'. rewrite lookup_to_map, get_del by exact Hd.
  destruct (decide (k' = k)) as [->|]; [by rewrite lookup_delete_eq|].
  by rewrite lookup_delete_ne, lookup_to_map by congruence.
Qed.
End Refinement.

#[export] Hint Resolve wf_nil wf_set wf_del : py.
#[export] Hint Rewrite @get_set_eq @length_keys : py.
