(* ===== verification/Counter.v ===== *)
(** * Counting

    [count f l] is the number of elements of [l] that satisfy [f]; a [collections.Counter],
    or a dictionary used as one, holds the number of times that each key was seen. *)

From stdpp Require Import base list.
From Stdlib Require Import ZArith Lia.
From S2P Require Import Prelude Dict.
Open Scope Z_scope.

Definition count {A} (f : A -> bool) (l : list A) : Z := Z.of_nat (length (List.filter f l)).

Lemma count_cons {A} (f : A -> bool) x l : count f (x :: l) = ((if f x then 1 else 0) + count f l)%Z.
Proof. unfold count. cbn. destruct (f x); cbn; lia. Qed.

Lemma count_nonneg {A} (f : A -> bool) l : (0 <= count f l)%Z.
Proof. unfold count. lia. Qed.

Lemma count_le {A} (f : A -> bool) l : (count f l <= Z.of_nat (length l))%Z.
Proof. unfold count. pose proof (List.filter_length_le f l). lia. Qed.

Lemma count_app {A} (f : A -> bool) l1 l2 : count f (l1 ++ l2) = count f l1 + count f l2.
Proof. unfold count. rewrite List.filter_app, length_app. lia. Qed.

Lemma count_ext {A} (f g : A -> bool) l : (forall x, x ∈ l -> f x = g x) -> count f l = count g l.
Proof.
  induction l as [|x l IH]; intros H; [done|]. rewrite !count_cons, (H x) by left.
  by rewrite IH by (intros y Hy; apply H; by right).
Qed.

Section Counter.
Context {K : Type} `{EqDecision K}.

(** [d[k] += 1] on a Counter, or [if k in d: d[k] += 1 else: d[k] = 1]. *)
Definition bump (d : dict K Z) (k : K) : dict K Z :=
  match get d k with
  | Some n => set k (n + 1)%Z d
  | None => set k 1%Z d
  end.

(** [Counter(l)] *)
Definition counter (l : list K) : dict K Z := fold_left bump l [].

(** [d[k]] on a Counter. *)
Definition get_count (d : dict K Z) (k : K) : Z := default 0 (get d k).

Definition occurrences (x : K) (l : list K) : Z := count (fun y => bool_decide (x = y)) l.

Lemma get_bump d k x :
  get (bump d k) x = if decide (x = k) then Some (default 0 (get d k) + 1)%Z else get d x.
Proof. unfold bump. destruct (get d k) as [n|] eqn:E; rewrite get_set; case_decide; done. Qed.

Lemma get_count_bump d k x : get_count (bump d k) x = get_count d x + if bool_decide (x = k) then 1 else 0.
Proof.
  unfold get_count. rewrite get_bump. case_decide as D.
  - subst. by rewrite bool_decide_eq_true_2.
  - rewrite bool_decide_eq_false_2 by done. lia.
Qed.

Lemma wf_bump d k : wf d -> wf (bump d k).
Proof. unfold bump. destruct (get d k); auto with py. Qed.

Lemma wf_bumps l d : wf d -> wf (fold_left bump l d).
Proof. revert d. induction l as [|k l IH]; intros d Hd; cbn [fold_left]; [done|]. by apply IH, wf_bump. Qed.

Lemma occurrences_cons x y l : occurrences x (y :: l) = (if bool_decide (x = y) then 1 else 0) + occurrences x l.
Proof. unfold occurrences. by rewrite count_cons. Qed.

Lemma occurrences_nonneg x l : 0 <= occurrences x l.
Proof. apply count_nonneg. Qed.

Lemma occurrences_in x l : 0 < occurrences x l <-> x ∈ l.
Proof.
  induction l as [|y l IH]; [rewrite elem_of_nil; unfold occurrences, count; cbn; lia|].
  rewrite occurrences_cons, elem_of_cons. pose proof (occurrences_nonneg x l). case_bool_decide; subst; [|naive_solver lia].
  split; [by left | lia].
Qed.

Lemma get_bumps l d x :
  get (fold_left bump l d) x = if decide (x ∈ l) then Some (get_count d x + occurrences x l) else get d x.
Proof.
  revert d. induction l as [|k l IH]; intros d; cbn [fold_left].
  - rewrite decide_False by apply not_elem_of_nil. done.
  - rewrite IH, get_count_bump, get_bump, occurrences_cons. unfold get_count.
    pose proof (occurrences_in x l). pose proof (occurrences_nonneg x l).
    destruct (decide (x ∈ l)) as [Hl|Hl].
    + rewrite decide_True by (by right). f_equal. lia.
    + destruct (decide (x = k)) as [->|Hk].
      * rewrite decide_True by left. rewrite bool_decide_eq_true_2 by done. assert (~ 0 < occurrences k l) by tauto. f_equal. lia.
      * by rewrite decide_False by (rewrite elem_of_cons; tauto).
Qed.

(** A Counter counts. *)
Lemma counter_spec l :
  wf (counter l) /\ (forall x, get_count (counter l) x = occurrences x l) /\ (forall x, x ∈ keys (counter l) <-> x ∈ l).
Proof.
  split; [by apply wf_bumps, wf_nil|]. split; intros x.
  - unfold get_count, counter. rewrite get_bumps. pose proof (occurrences_in x l). pose proof (occurrences_nonneg x l).
    case_decide; cbn; [done|]. assert (~ 0 < occurrences x l) by tauto. lia.
  - rewrite <- mem_true. unfold mem, counter. rewrite get_bumps. case_decide; cbn; naive_solver.
Qed.
End Counter.

#[export] Hint Resolve wf_bump : py.
