(* ===== verification/PyStr.v ===== *)
(** * Python strings and paths

    The string methods and the functions of [os.path] (POSIX) that the programs
    use: [split], [join], [in], [startswith], [endswith], [replace], [strip], and
    [dirname], [basename], [join], [splitext]. *)

From stdpp Require Import base list strings.
From Stdlib Require Import Ascii Lia ZArith.
From Stdlib Require DecimalString DecimalZ.
From S2P Require Import Prelude.
Open Scope string_scope.

(** [s.split(c)] for a one-character separator. *)
Fixpoint split (c : ascii) (s : string) : list string :=
  match s with
  | EmptyString => [""]
  | String a s' =>
      if Ascii.eqb a c then "" :: split c s' else
      match split c s' with
      | [] => [String a ""]
      | x :: xs => String a x :: xs
      end
  end.

(** [sep.join(l)] *)
Fixpoint join (sep : string) (l : list string) : string :=
  match l with
  | [] => ""
  | [x] => x
  | x :: l' => x +:+ sep +:+ join sep l'
  end.

Definition startswith (p s : string) : bool := String.prefix p s.

Fixpoint endswith (p s : string) : bool :=
  if String.eqb p s then true else
  match s with
  | EmptyString => false
  | String _ s' => endswith p s'
  end.

(** [sub in s] *)
Fixpoint contains (sub s : string) : bool :=
  if String.prefix sub s then true else
  match s with
  | EmptyString => false
  | String _ s' => contains sub s'
  end.

(** [s.replace(c, r)] for a one-character pattern. *)
Fixpoint replace (c : ascii) (r s : string) : string :=
  match s with
  | EmptyString => ""
  | String a s' => if Ascii.eqb a c then r +:+ replace c r s' else String a (replace c r s')
  end.

(** [s.replace(sub, r)] for a [sub] that is not empty. *)
Fixpoint replace_from (sub r : string) (skip : nat) (s : string) : string :=
  match s with
  | EmptyString => ""
  | String a s' =>
      match skip with
      | S k => replace_from sub r k s'
      | O => if startswith sub s then r +:+ replace_from sub r (String.length sub - 1) s'
             else String a (replace_from sub r 0 s')
      end
  end.

Definition replace_str (sub r s : string) : string := replace_from sub r 0 s.

Definition is_space (a : ascii) : bool :=
  let n := nat_of_ascii a in (((9 <=? n) && (n <=? 13)) || ((28 <=? n) && (n <=? 32)))%nat.

Fixpoint lstrip (f : ascii -> bool) (s : string) : string :=
  match s with
  | EmptyString => ""
  | String a s' => if f a then lstrip f s' else s
  end.

Fixpoint rstrip (f : ascii -> bool) (s : string) : string :=
  match s with
  | EmptyString => ""
  | String a s' =>
      match rstrip f s' with
      | EmptyString => if f a then "" else String a ""
      | s'' => String a s''
      end
  end.

Definition strip (s : string) : string := rstrip is_space (lstrip is_space s).

(** [s[k:]], [s[:k]], [s[:-k]] and [s[-k:]]. *)
Definition drop_str (k : nat) (s : string) : string := String.substring k (String.length s - k)%nat s.
Definition take_str (k : nat) (s : string) : string := String.substring 0 k s.
Definition but_last_str (k : nat) (s : string) : string := take_str (String.length s - k)%nat s.
Definition last_str (k : nat) (s : string) : string := drop_str (String.length s - k)%nat s.

(** [int(s)] for a decimal literal, spaces around it allowed. *)
Definition digit_value (a : ascii) : option Z :=
  let n := Z.of_nat (nat_of_ascii a) in
  if (48 <=? n)%Z && (n <=? 57)%Z then Some (n - 48)%Z else None.

Fixpoint digits_value (s : string) (acc : Z) : option Z :=
  match s with
  | EmptyString => Some acc
  | String a s' =>
      match digit_value a with
      | Some d => digits_value s' (10 * acc + d)%Z
      | None => None
      end
  end.

Definition invalid_literal : exn := ValueError "invalid literal for int() with base 10".

Definition py_int (s : string) : result Z :=
  match
    match strip s with
    | EmptyString => None
    | String a s' =>
        if Ascii.eqb a "-"%char || Ascii.eqb a "+"%char then
          match s' with
          | EmptyString => None
          | _ => option_map (fun z => if Ascii.eqb a "-"%char then (- z)%Z else z) (digits_value s' 0)
          end
        else digits_value (String a s') 0
    end
  with
  | Some z => Ok z
  | None => Err invalid_literal
  end.

(** [\w] on ASCII characters. *)
Definition is_word (a : ascii) : bool :=
  let n := nat_of_ascii a in
  (((48 <=? n) && (n <=? 57)) || ((65 <=? n) && (n <=? 90)) || (n =? 95) || ((97 <=? n) && (n <=? 122)))%nat.

Fixpoint take_while (f : ascii -> bool) (s : string) : string :=
  match s with
  | EmptyString => ""
  | String a s' => if f a then String a (take_while f s') else ""
  end.

(** ** Paths *)
Definition slash : ascii := "/"%char.

(** The path up to and with its last slash, and the rest. *)
Fixpoint split_path (s : string) : string * string :=
  match s with
  | EmptyString => ("", "")
  | String a s' =>
      let '(h, t) := split_path s' in
      match h with
      | EmptyString => if Ascii.eqb a slash then (String a "", t) else ("", String a t)
      | _ => (String a h, t)
      end
  end.

Definition basename (s : string) : string := snd (split_path s).

Definition dirname (s : string) : string :=
  let h := fst (split_path s) in
  match lstrip (Ascii.eqb slash) h with
  | EmptyString => h
  | _ => rstrip (Ascii.eqb slash) h
  end.

Definition path_join (p q : string) : string :=
  if startswith "/" q then q
  else if String.eqb p "" || endswith "/" p then p +:+ q
  else p +:+ "/" +:+ q.

(** Splits at the last dot of the string, if any. *)
Fixpoint split_dot (s : string) : option (string * string) :=
  match s with
  | EmptyString => None
  | String a s' =>
      match split_dot s' with
      | Some (r, e) => Some (String a r, e)
      | None => if Ascii.eqb a "."%char then Some ("", s) else None
      end
  end.

(** [os.path.splitext]: dots at the start of the last component do not count. *)
Definition splitext (s : string) : string * string :=
  let '(h, t) := split_path s in
  match split_dot t with
  | Some (r, e) =>
      match lstrip (Ascii.eqb "."%char) r with
      | EmptyString => (s, "")
      | _ => (h +:+ r, e)
      end
  | None => (s, "")
  end.

(** ** Lemmas *)
Lemma app_cons_str a s1 s2 : String a s1 +:+ s2 = String a (s1 +:+ s2).
Proof. done. Qed.

Lemma app_nil_r_str s : s +:+ "" = s.
Proof. induction s as [|a s IH]; [done|]. rewrite ?app_cons_str. cbn. by rewrite IH. Qed.

Lemma app_assoc_str s1 s2 s3 : (s1 +:+ s2) +:+ s3 = s1 +:+ s2 +:+ s3.
Proof. induction s1 as [|a s1 IH]; [done|]. exact (f_equal (String a) IH). Qed.

Lemma app_length_str s1 s2 : String.length (s1 +:+ s2) = (String.length s1 + String.length s2)%nat.
Proof. induction s1 as [|a s1 IH]; [done|]. exact (f_equal S IH). Qed.

Lemma split_nonempty c s : split c s <> [].
Proof. destruct s as [|a s]; [done|]. cbn. destruct (Ascii.eqb a c); [done|]. by destruct (split c s). Qed.

(** Splitting loses nothing. *)
Lemma join_split c s : join (String c "") (split c s) = s.
Proof.
  induction s as [|a s IH]; [done|]. cbn. pose proof (split_nonempty c s) as Hne.
  destruct (Ascii.eqb_spec a c) as [->|Ha].
  - destruct (split c s) as [|x xs] eqn:E; [done|]. cbn in *. by rewrite <- IH.
  - destruct (split c s) as [|x [|y ys]] eqn:E; [done|..]; cbn in *; by rewrite <- IH, ?app_cons_str.
Qed.

Fixpoint no_char (c : ascii) (s : string) : bool :=
  match s with
  | EmptyString => true
  | String a s' => negb (Ascii.eqb a c) && no_char c s'
  end.

Lemma split_no_char c s : no_char c s = true -> split c s = [s].
Proof.
  induction s as [|a s IH]; [done|]. cbn. intros [Ha Hs]%andb_prop.
  destruct (Ascii.eqb a c); [done|]. by rewrite (IH Hs).
Qed.

Lemma split_two c s1 s2 :
  no_char c s1 = true -> no_char c s2 = true -> split c (s1 +:+ String c s2) = [s1; s2].
Proof.
  intros H1 H2. induction s1 as [|a s1 IH].
  - change ("" +:+ String c s2) with (String c s2). cbn [split]. rewrite Ascii.eqb_refl. by rewrite split_no_char.
  - cbn [no_char] in H1. apply andb_prop in H1 as [Ha Hs]. rewrite app_cons_str. cbn [split]. destruct (Ascii.eqb a c); [done|]. by rewrite IH.
Qed.

Lemma no_char_app c s1 s2 : no_char c (s1 +:+ s2) = no_char c s1 && no_char c s2.
Proof.
  induction s1 as [|a s1 IH]; [done|]. rewrite app_cons_str. cbn [no_char]. by rewrite IH, andb_assoc.
Qed.

Lemma split_app c s1 s2 : no_char c s1 = true -> split c (s1 +:+ String c s2) = s1 :: split c s2.
Proof.
  intros H1. induction s1 as [|a s1 IH].
  - change ("" +:+ String c s2) with (String c s2). cbn [split]. by rewrite Ascii.eqb_refl.
  - cbn [no_char] in H1. apply andb_prop in H1 as [Ha Hs].
    rewrite app_cons_str. cbn [split]. destruct (Ascii.eqb a c); [done|]. by rewrite IH.
Qed.

Lemma split_parts_no_char c s x : x ∈ split c s -> no_char c x = true.
Proof.
  revert x. induction s as [|a s IH]; intros x; cbn; [by intros ->%list_elem_of_singleton|].
  destruct (Ascii.eqb a c) eqn:Ea.
  - intros [->|Hx]%elem_of_cons; auto.
  - destruct (split c s) as [|y ys] eqn:E; [intros ->%list_elem_of_singleton; cbn; by rewrite Ea|].
    intros [->|Hx]%elem_of_cons; [|apply IH; by right]. cbn. rewrite Ea. apply IH. by left.
Qed.

Lemma split_path_app s : fst (split_path s) +:+ snd (split_path s) = s.
Proof.
  induction s as [|a s IH]; [done|]. cbn [split_path]. destruct (split_path s) as [h t]. cbn [fst snd] in IH.
  destruct h as [|b h]; [|exact (f_equal (String a) IH)].
  destruct (Ascii.eqb a slash); exact (f_equal (String a) IH).
Qed.

Example paths :
  (dirname "a/b/c.jinja", basename "a/b/c.jinja", splitext "a/b.c/d.jinja", splitext "a/.profile",
   path_join "a" "b", path_join "a/" "b", path_join "a" "/b")
  = ("a/b", "c.jinja", ("a/b.c/d", ".jinja"), ("a/.profile", ""), "a/b", "a/b", "/b").
Proof. reflexivity. Qed.

(** ** Decimal numerals *)
Lemma uint_digits_acc d p :
  digits_value (DecimalString.NilEmpty.string_of_uint d) (Z.pos p) = Some (Z.pos (Pos.of_uint_acc d p)).
Proof.
  revert p. induction d; intros p; cbn [DecimalString.NilEmpty.string_of_uint digits_value Pos.of_uint_acc]; [done|..];
    cbn [digit_value nat_of_ascii]; rewrite <- IHd; f_equal;
    match goal with |- context [nat_of_ascii ?c] =>
      let v := eval vm_compute in (nat_of_ascii c) in change (nat_of_ascii c) with v
    | _ => idtac end; lia.
Qed.

Lemma uint_digits d : digits_value (DecimalString.NilEmpty.string_of_uint d) 0 = Some (Z.of_N (Pos.of_uint d)).
Proof.
  induction d; [done|exact IHd|..]; cbn [DecimalString.NilEmpty.string_of_uint digits_value Pos.of_uint Z.of_N];
    rewrite <- uint_digits_acc; f_equal.
Qed.

Lemma py_str_digits n : (0 <= n)%Z -> digits_value (py_str n) 0 = Some n.
Proof.
  intros Hn. unfold py_str. pose proof (DecimalZ.of_to n) as E.
  destruct (Z.to_int n) as [d|d] eqn:Ed; cbn in *.
  - unfold Z.of_uint in E. destruct d; [by rewrite <- E|..];
      cbn [DecimalString.NilZero.string_of_uint]; rewrite uint_digits; by f_equal.
  - destruct n; cbn in Ed; try discriminate Ed; lia.
Qed.

Lemma digits_no_char c s acc v : digit_value c = None -> digits_value s acc = Some v -> no_char c s = true.
Proof.
  intros Hc. revert acc. induction s as [|a s IH]; intros acc H; [done|]. cbn in *.
  destruct (Ascii.eqb_spec a c) as [->|]; [by rewrite Hc in H|]. cbn.
  destruct (digit_value a); [by eapply IH | done].
Qed.

Lemma py_str_no_char c n : (0 <= n)%Z -> digit_value c = None -> no_char c (py_str n) = true.
Proof. intros Hn Hc. by eapply digits_no_char, py_str_digits. Qed.

Lemma py_str_nonempty n : py_str n <> "".
Proof.
  unfold py_str. destruct (Z.to_int n) as [d|d]; [by destruct d | done].
Qed.

Lemma digit_not_space a d : digit_value a = Some d -> is_space a = false.
Proof. destruct a as [[] [] [] [] [] [] [] []]; vm_compute; congruence. Qed.

Lemma digit_not_sign a d : digit_value a = Some d -> Ascii.eqb a "-" || Ascii.eqb a "+" = false.
Proof. destruct a as [[] [] [] [] [] [] [] []]; vm_compute; congruence. Qed.

Lemma rstrip_digits s acc v : digits_value s acc = Some v -> rstrip is_space s = s.
Proof.
  revert acc. induction s as [|a s IH]; intros acc H; [done|]. cbn [digits_value] in H.
  destruct (digit_value a) as [d|] eqn:E; [|done]. cbn [rstrip]. rewrite (IH _ H), (digit_not_space _ _ E).
  by destruct s.
Qed.

Lemma py_int_digits s v : s <> "" -> digits_value s 0 = Some v -> py_int s = Ok v.
Proof.
  intros Hne H. unfold py_int, strip. destruct s as [|a s]; [done|]. pose proof H as H'. cbn [digits_value] in H'.
  destruct (digit_value a) as [d|] eqn:E; [|done]. cbn [lstrip]. rewrite (digit_not_space _ _ E), (rstrip_digits _ _ _ H).
  by rewrite (digit_not_sign _ _ E), H.
Qed.

Lemma py_int_py_str n : (0 <= n)%Z -> py_int (py_str n) = Ok n.
Proof. intros Hn. apply py_int_digits; [apply py_str_nonempty | by apply py_str_digits]. Qed.
