(* ===== verification/PyText.v ===== *)
(** * Lines and words of Python strings

    [splitlines] and [split()] of ASCII strings, and [re.sub(' +', ' ', s)]. *)

From stdpp Require Import base list strings.
From Stdlib Require Import Ascii ZArith Lia.
From S2P Require Import Prelude PyStr.
Open Scope string_scope.

Definition newline : ascii := "010"%char.
Definition nl : string := String newline "".

(** The line boundaries of [str.splitlines]: LF, VT, FF, CR, FS, GS, RS. *)
Definition is_line_end (a : ascii) : bool :=
  let n := nat_of_ascii a in (((10 <=? n) && (n <=? 13)) || ((28 <=? n) && (n <=? 30)))%nat.

Definition flush (cur : string) (rest : list string) : list string :=
  match cur with EmptyString => rest | _ => cur :: rest end.

(** [s.splitlines()]; CR LF is one boundary. *)
Fixpoint splitlines_from (cur : string) (after_cr : bool) (s : string) : list string :=
  match s with
  | EmptyString => flush cur []
  | String a s' =>
      if after_cr && Ascii.eqb a newline then splitlines_from cur false s'
      else if is_line_end a then cur :: splitlines_from "" (Ascii.eqb a "013") s'
      else splitlines_from (cur +:+ String a "") false s'
  end.

Definition splitlines (s : string) : list string := splitlines_from "" false s.

(** [s.split()] *)
Fixpoint words_from (cur : string) (s : string) : list string :=
  match s with
  | EmptyString => flush cur []
  | String a s' => if is_space a then flush cur (words_from "" s') else words_from (cur +:+ String a "") s'
  end.

Definition words (s : string) : list string := words_from "" s.

(** [re.sub(' +', ' ', s)] *)
Fixpoint squeeze (in_run : bool) (s : string) : string :=
  match s with
  | EmptyString => ""
  | String a s' =>
      if Ascii.eqb a " " then (if in_run then squeeze true s' else String a (squeeze true s'))
      else String a (squeeze false s')
  end.

Fixpoint all_chars (f : ascii -> bool) (s : string) : bool :=
  match s with
  | EmptyString => true
  | String a s' => f a && all_chars f s'
  end.

(** A word: not empty, without white space. *)
Definition is_a_word (s : string) : bool := negb (String.eqb s "") && all_chars (fun a => negb (is_space a)) s.

Lemma words_from_word cur w s : all_chars (fun a => negb (is_space a)) w = true ->
  words_from cur (w +:+ s) = words_from (cur +:+ w) s.
Proof.
  revert cur. induction w as [|a w IH]; intros cur H; [by rewrite app_nil_r_str|].
  cbn in H. apply andb_true_iff in H as [Ha Hw]. rewrite app_cons_str. cbn [words_from].
  apply negb_true_iff in Ha. rewrite Ha, IH, app_assoc_str by done. done.
Qed.

Lemma words_cons w a s : is_a_word w = true -> is_space a = true -> words (w +:+ String a s) = w :: words s.
Proof.
  unfold is_a_word, words. intros [Hne Hw]%andb_true_iff Ha. rewrite words_from_word by done. cbn [words_from].
  rewrite Ha. change ("" +:+ w) with w. by destruct w.
Qed.

Lemma words_one w : is_a_word w = true -> words w = [w].
Proof.
  unfold is_a_word, words. intros [Hne Hw]%andb_true_iff. rewrite <- (app_nil_r_str w) at 1.
  rewrite words_from_word by done. cbn [words_from]. change ("" +:+ w) with w. by destruct w.
Qed.

(** [' '.join(l).split()] *)
Lemma words_join l : Forall (fun w => is_a_word w = true) l -> words (join " " l) = l.
Proof.
  induction 1 as [|w l Hw Hl IH]; [done|]. destruct l as [|w' l]; [by apply words_one|].
  change (join " " (w :: w' :: l)) with (w +:+ String " " (join " " (w' :: l))). rewrite words_cons by done.
  by rewrite IH.
Qed.
