(* ===== verification/Regex.v ===== *)
(** * Regular expressions with backtracking, [re.search]

    The expressions that the programs use: character classes, [\b], sequences, greedy
    repetition and one group.  [run] tries the alternatives in Python's order and answers the
    first end position from which the continuation succeeds; [matches] says, without an
    order, between which positions an expression can match, and [lang] which strings it
    consumes.  [run] finds a match just when there is one, and [search] the leftmost. *)

From stdpp Require Import base list strings.
From Stdlib Require Import Ascii ZArith Lia.
From S2P Require Import Prelude PyStr.
Open Scope string_scope.
Open Scope nat_scope.

Inductive re : Type :=
| Eps
| Chr (f : ascii -> bool)
| Bound                                        (* \b *)
| Seq (a b : re)
| Rep (a : re) (lo : nat) (hi : option nat)    (* a{lo,hi}; without [hi], a{lo,} *)
| Group (a : re).

(** A position: the character before it, the text after it, and the group's text. *)
Record pos : Type := Pos { before : option ascii; rest : string; group : option string }.

Definition boundary (p : pos) : bool :=
  let left := match before p with Some a => is_word a | None => false end in
  let right := match rest p with String a _ => is_word a | EmptyString => false end in
  xorb left right.

(** The end of a group that began at [p]. *)
Definition close (p p' : pos) : pos :=
  Pos (before p') (rest p') (Some (take_str (String.length (rest p) - String.length (rest p')) (rest p))).

Section Repeat.
Context (go : pos -> (pos -> option pos) -> option pos).

Fixpoint exactly (n : nat) (p : pos) (k : pos -> option pos) : option pos :=
  match n with
  | O => k p
  | S n' => go p (fun p' => exactly n' p' k)
  end.

(** At most [n] times, and as often as possible. *)
Fixpoint at_most (n : nat) (k : pos -> option pos) (p : pos) : option pos :=
  match n with
  | O => k p
  | S n' => match go p (at_most n' k) with Some x => Some x | None => k p end
  end.
End Repeat.

Fixpoint run (r : re) (p : pos) (k : pos -> option pos) : option pos :=
  match r with
  | Eps => k p
  | Chr f =>
      match rest p with
      | EmptyString => None
      | String a s => if f a then k (Pos (Some a) s (group p)) else None
      end
  | Bound => if boundary p then k p else None
  | Seq a b => run a p (fun p' => run b p' k)
  | Rep a lo hi =>
      exactly (run a) lo p (fun p' =>
        at_most (run a) (match hi with Some h => h - lo | None => String.length (rest p') end) k p')
  | Group a => run a p (fun p' => k (close p p'))
  end.

Fixpoint search_from (r : re) (b : option ascii) (s : string) : option pos :=
  match run r (Pos b s None) Some with
  | Some p => Some p
  | None =>
      match s with
      | EmptyString => None
      | String a s' => search_from r (Some a) s'
      end
  end.

(** [re.search(r, s)] *)
Definition search (r : re) (s : string) : option pos := search_from r None s.

Fixpoint lit (s : string) : re :=
  match s with
  | EmptyString => Eps
  | String a s' => Seq (Chr (Ascii.eqb a)) (lit s')
  end.

Definition digit (a : ascii) : bool := match digit_value a with Some _ => true | None => false end.

(** ** What an expression matches *)
Fixpoint iter (R : pos -> pos -> Prop) (n : nat) (p p' : pos) : Prop :=
  match n with
  | O => p' = p
  | S n' => exists q, R p q /\ iter R n' q p'
  end.

Definition within (n lo : nat) (hi : option nat) : Prop := lo <= n /\ match hi with Some h => n <= h | None => True end.

Fixpoint matches (r : re) (p p' : pos) : Prop :=
  match r with
  | Eps => p' = p
  | Chr f => exists a s, rest p = String a s /\ f a = true /\ p' = Pos (Some a) s (group p)
  | Bound => boundary p = true /\ p' = p
  | Seq a b => exists q, matches a p q /\ matches b q p'
  | Rep a lo hi => exists n, within n lo hi /\ iter (matches a) n p p'
  | Group a => exists q, matches a p q /\ p' = close p q
  end.

Definition concat_all (ws : list string) : string := foldr (fun w s => w +:+ s) "" ws.

(** The strings that an expression consumes. *)
Fixpoint lang (r : re) (w : string) : Prop :=
  match r with
  | Eps => w = ""
  | Chr f => exists a, w = String a "" /\ f a = true
  | Bound => w = ""
  | Seq a b => exists w1 w2, w = w1 +:+ w2 /\ lang a w1 /\ lang b w2
  | Rep a lo hi => exists ws, within (length ws) lo hi /\ Forall (lang a) ws /\ w = concat_all ws
  | Group a => lang a w
  end.

(** An expression that consumes something whenever it matches; the body of an unbounded
    repetition must be one. *)
Fixpoint consumes (r : re) : bool :=
  match r with
  | Chr _ => true
  | Seq a b => consumes a || consumes b
  | Rep a lo _ => (0 <? lo) && consumes a
  | Group a => consumes a
  | _ => false
  end.

Fixpoint regular (r : re) : bool :=
  match r with
  | Seq a b => regular a && regular b
  | Rep a lo hi => regular a && match hi with None => consumes a | Some h => lo <=? h end
  | Group a => regular a
  | _ => true
  end.

(** ** The matcher finds only matches *)
Lemma at_most_sound go (R : pos -> pos -> Prop) n k p x :
  (forall p k x, go p k = Some x -> exists p', R p p' /\ k p' = Some x) ->
  at_most go n k p = Some x -> exists m p', m <= n /\ iter R m p p' /\ k p' = Some x.
Proof.
  intros Hgo. revert p. induction n as [|n IH]; intros p H; cbn [at_most] in H; [by exists 0, p|].
  destruct (go p (at_most go n k)) as [y|] eqn:E.
  - injection H as ->. apply Hgo in E as (q & Hq & H). apply IH in H as (m & p' & Hm & Hi & Hk).
    exists (S m), p'. split; [lia|]. split; [by exists q | done].
  - exists 0, p. split; [lia|]. by split.
Qed.

Lemma exactly_sound go (R : pos -> pos -> Prop) n k p x :
  (forall p k x, go p k = Some x -> exists p', R p p' /\ k p' = Some x) ->
  exactly go n p k = Some x -> exists p', iter R n p p' /\ k p' = Some x.
Proof.
  intros Hgo. revert p. induction n as [|n IH]; intros p H; cbn [exactly] in H; [by exists p|].
  apply Hgo in H as (q & Hq & H). apply IH in H as (p' & Hi & Hk). exists p'. split; [by exists q | done].
Qed.

Lemma iter_add R n m p q p' : iter R n p q -> iter R m q p' -> iter R (n + m) p p'.
Proof.
  revert p. induction n as [|n IH]; intros p H1 H2; cbn [iter Nat.add] in *; [by subst|].
  destruct H1 as (q1 & Hq1 & H1). exists q1. split; [done|]. by apply IH.
Qed.

Lemma iter_split R n m p p' : iter R (n + m) p p' -> exists q, iter R n p q /\ iter R m q p'.
Proof.
  revert p. induction n as [|n IH]; intros p H; cbn [iter Nat.add] in *; [by exists p|].
  destruct H as (q1 & Hq1 & H). apply IH in H as (q & H1 & H2). exists q. split; [by exists q1 | done].
Qed.

Lemma run_sound r p k x : regular r = true -> run r p k = Some x -> exists p', matches r p p' /\ k p' = Some x.
Proof.
  revert p k x. induction r as [|f| |a IHa b IHb|a IH lo hi|a IH]; intros p k x Hr H; cbn [run matches regular] in *.
  - by exists p.
  - destruct (rest p) as [|c s] eqn:E; [done|]. destruct (f c) eqn:Ef; [|done]. eexists. split; [by exists c, s | done].
  - destruct (boundary p) eqn:E; [|done]. by exists p.
  - apply andb_true_iff in Hr as [Ha Hb].
    apply IHa in H as (q & Hq & H); [|done]. apply IHb in H as (p' & Hp' & H); [|done]. exists p'. split; [by exists q | done].
  - apply andb_true_iff in Hr as [Ha Hb].
    apply (exactly_sound _ (matches a)) in H as (q & Hq & H); [|intros; by apply IH].
    apply (at_most_sound _ (matches a)) in H as (m & p' & Hm & Hi & Hk); [|intros; by apply IH].
    exists p'. split; [|done]. exists (lo + m). split; [|by eapply iter_add].
    unfold within. destruct hi as [h|]; [apply Nat.leb_le in Hb|]; lia.
  - apply IH in H as (q & Hq & H); [|done]. exists (close p q). split; [by exists q | done].
Qed.

(** ** What a match consumes *)
Lemma concat_all_app ws1 ws2 : concat_all (ws1 ++ ws2) = concat_all ws1 +:+ concat_all ws2.
Proof. induction ws1 as [|w ws1 IH]; [done|]. cbn [app concat_all foldr]. unfold concat_all in IH. by rewrite IH, app_assoc_str. Qed.

Lemma iter_lang a n p p' :
  (forall p p', matches a p p' -> exists w, rest p = w +:+ rest p' /\ lang a w) ->
  iter (matches a) n p p' -> exists ws, length ws = n /\ Forall (lang a) ws /\ rest p = concat_all ws +:+ rest p'.
Proof.
  intros Ha. revert p. induction n as [|n IH]; intros p H; cbn [iter] in H.
  - exists []. by subst.
  - destruct H as (q & Hq & H). apply Ha in Hq as (w & Hw & Hl). apply IH in H as (ws & Hn & Hf & Hr).
    exists (w :: ws). split; [cbn; lia|]. split; [by constructor|]. rewrite Hw, Hr. cbn. by rewrite app_assoc_str.
Qed.

Lemma matches_lang r p p' : matches r p p' -> exists w, rest p = w +:+ rest p' /\ lang r w.
Proof.
  revert p p'. induction r as [|f| |a IHa b IHb|a IH lo hi|a IH]; intros p p' H; cbn [matches lang] in *.
  - exists "". by subst.
  - destruct H as (c & s & Hr & Hf & ->). exists (String c ""). rewrite Hr. split; [done|]. by exists c.
  - exists "". by destruct H as [_ ->].
  - destruct H as (q & H1 & H2). apply IHa in H1 as (w1 & E1 & L1). apply IHb in H2 as (w2 & E2 & L2).
    exists (w1 +:+ w2). rewrite E1, E2, app_assoc_str. split; [done|]. by exists w1, w2.
  - destruct H as (n & Hn & H). apply iter_lang in H as (ws & <- & Hf & E); [|done].
    exists (concat_all ws). split; [done|]. by exists ws.
  - destruct H as (q & H & ->). apply IH in H as (w & E & L). by exists w.
Qed.

Lemma take_app_str w s : take_str (String.length w) (w +:+ s) = w.
Proof.
  unfold take_str. induction w as [|a w IH]; [by destruct s|]. rewrite app_cons_str. cbn [String.length String.substring]. by rewrite IH.
Qed.

(** The text of a group is what its expression consumed. *)
Lemma group_text a p q : matches a p q -> exists w, group (close p q) = Some w /\ lang a w /\ rest p = w +:+ rest q.
Proof.
  intros H. apply matches_lang in H as (w & E & L). exists w. split; [|done]. unfold close. cbn [group].
  rewrite E, app_length_str. replace (_ - _) with (String.length w) by lia. by rewrite take_app_str.
Qed.

Lemma consumes_shrinks r p p' : consumes r = true -> matches r p p' -> String.length (rest p') < String.length (rest p).
Proof.
  intros Hc H. apply matches_lang in H as (w & E & L). rewrite E, app_length_str.
  enough (0 < String.length w) by lia. clear p p' E. revert w Hc L.
  induction r as [|f| |a IHa b IHb|a IH lo hi|a IH]; intros w Hc L; cbn [consumes lang] in *; try done.
  - destruct L as (c & -> & _). cbn. lia.
  - destruct L as (w1 & w2 & -> & L1 & L2). rewrite app_length_str. apply orb_true_iff in Hc as [Hc|Hc].
    + specialize (IHa w1 Hc L1). lia.
    + specialize (IHb w2 Hc L2). lia.
  - destruct L as (ws & Hn & Hf & ->). apply andb_true_iff in Hc as [Hlo%Nat.ltb_lt Hc].
    destruct Hf as [|w ws Hw Hf]; [unfold within in Hn; cbn in Hn; lia|]. cbn. rewrite app_length_str.
    specialize (IH w Hc Hw). lia.
  - by apply IH.
Qed.

(** ** The matcher misses no match *)
Lemma at_most_complete go (R : pos -> pos -> Prop) n m k p p' :
  (forall p p' k, R p p' -> k p' <> None -> go p k <> None) ->
  m <= n -> iter R m p p' -> k p' <> None -> at_most go n k p <> None.
Proof.
  intros Hgo. revert n p. induction m as [|m IH]; intros n p Hn Hi Hk.
  - cbn in Hi. subst. destruct n as [|n]; cbn [at_most]; [done|]. by destruct (go p (at_most go n k)).
  - destruct n as [|n]; [lia|]. destruct Hi as (q & Hq & Hi). cbn [at_most].
    pose proof (Hgo p q (at_most go n k) Hq (IH n q ltac:(lia) Hi Hk)) as H. by destruct (go p (at_most go n k)).
Qed.

Lemma exactly_complete go (R : pos -> pos -> Prop) n k p p' :
  (forall p p' k, R p p' -> k p' <> None -> go p k <> None) ->
  iter R n p p' -> k p' <> None -> exactly go n p k <> None.
Proof.
  intros Hgo. revert p. induction n as [|n IH]; intros p Hi Hk; cbn [exactly]; cbn [iter] in Hi; [by subst|].
  destruct Hi as (q & Hq & Hi). eapply Hgo; [done|]. by apply IH.
Qed.

Lemma iter_shrinks (R : pos -> pos -> Prop) n p p' :
  (forall p p', R p p' -> String.length (rest p') < String.length (rest p)) -> iter R n p p' -> n <= String.length (rest p).
Proof.
  intros HR. revert p. induction n as [|n IH]; intros p H; [lia|]. destruct H as (q & Hq & H).
  apply HR in Hq. apply IH in H. lia.
Qed.

Lemma run_complete r p p' k : regular r = true -> matches r p p' -> k p' <> None -> run r p k <> None.
Proof.
  revert p p' k. induction r as [|f| |a IHa b IHb|a IH lo hi|a IH]; intros p p' k Hr H Hk; cbn [run matches regular] in *.
  - by subst.
  - destruct H as (c & s & -> & -> & ->). done.
  - destruct H as [-> ->]. done.
  - apply andb_true_iff in Hr as [Ha Hb]. destruct H as (q & H1 & H2). eapply IHa; [done..|]. by eapply IHb.
  - apply andb_true_iff in Hr as [Ha Hb]. destruct H as (n & [Hlo Hhi] & Hi).
    replace n with (lo + (n - lo)) in Hi by lia. apply iter_split in Hi as (q & H1 & H2).
    eapply exactly_complete; [intros; by eapply IH | exact H1 |]. cbv beta.
    eapply at_most_complete; [intros; by eapply IH | | exact H2 | done].
    destruct hi as [h|]; [lia|]. eapply iter_shrinks; [|exact H2]. intros. by apply (consumes_shrinks a).
  - destruct H as (q & H & ->). by eapply IH.
Qed.

(** ** The search *)
Fixpoint last_char (b : option ascii) (s : string) : option ascii :=
  match s with
  | EmptyString => b
  | String a s' => last_char (Some a) s'
  end.

Lemma search_from_spec r b s : regular r = true ->
  match search_from r b s with
  | Some p => exists s1 s2, s = s1 +:+ s2 /\ matches r (Pos (last_char b s1) s2 None) p /\
      forall t1 t2 p', s = t1 +:+ t2 -> String.length t1 < String.length s1 -> ~ matches r (Pos (last_char b t1) t2 None) p'
  | None => forall s1 s2 p, s = s1 +:+ s2 -> ~ matches r (Pos (last_char b s1) s2 None) p
  end.
Proof.
  intros Hr. revert b. induction s as [|c s IH]; intros b; cbn [search_from].
  all: destruct (run r _ Some) as [p|] eqn:E.
  all: try (apply run_sound in E as (p' & Hp & [= ->]); [|done]; eexists "", _; split; [reflexivity|]; split; [exact Hp | cbn; lia]).
  - intros s1 s2 p Hs Hm. destruct s1; [|done]. change ("" +:+ s2) with s2 in Hs. subst s2. by eapply run_complete in Hm.
  - assert (H0 : forall p, ~ matches r (Pos b (String c s) None) p) by (intros p Hm; by eapply run_complete in Hm).
    specialize (IH (Some c)). destruct (search_from r (Some c) s) as [p|].
    + destruct IH as (s1 & s2 & -> & Hm & Hfirst). exists (String c s1), s2. split; [done|]. split; [exact Hm|].
      intros [|c' t1] t2 p' Ht Hl; [change ("" +:+ t2) with t2 in Ht; subst t2; apply H0|]. rewrite app_cons_str in Ht. injection Ht as <- Ht.
      apply Hfirst; [done|]. cbn in Hl. lia.
    + intros [|c' s1] s2 p Hs; [change ("" +:+ s2) with s2 in Hs; subst s2; apply H0|]. rewrite app_cons_str in Hs. injection Hs as <- Hs. by apply IH.
Qed.
