(* ===== verification/PySet.v ===== *)
(** * Python sets, and lists without duplicates

    A set is a list without duplicates; the order in which Python visits a set is not
    that of the list, and nothing that is proved depends on it. *)

From stdpp Require Import base list strings.
From Stdlib Require Import ZArith Lia.
From S2P Require Import Prelude Dict.

Section Sets.
Context {A : Type} `{EqDecision A}.

(** [s.update(l)] on a set. *)
Definition set_update (s l : list A) : list A :=
  fold_left (fun s x => if bool_decide (x ∈ s) then s else s ++ [x])%list l s.

Lemma elem_of_set_update s l (x : A) : x ∈ set_update s l <-> x ∈ s \/ x ∈ l.
Proof.
  unfold set_update. revert s. induction l as [|y l IH]; intros s; cbn [fold_left].
  - rewrite elem_of_nil. tauto.
  - rewrite IH, elem_of_cons. case_bool_decide as E; [naive_solver|].
    rewrite elem_of_app, list_elem_of_singleton. tauto.
Qed.

Lemma NoDup_set_update s l : NoDup s -> NoDup (set_update s l).
Proof.
  unfold set_update. revert s. induction l as [|y l IH]; intros s Hs; cbn [fold_left]; [done|]. apply IH.
  case_bool_decide as E; [done|]. apply NoDup_app. split_and!; [done| |apply NoDup_singleton].
  intros x Hx ->%list_elem_of_singleton. done.
Qed.
End Sets.

(** [d[k]] where a missing key is [None]. *)
Definition need {A} (o : option A) : result A := match o with Some a => Ok a | None => Err KeyError end.

(** ** Lists with two elements *)
Lemma two_elements {A} (l : list A) : NoDup l -> (1 <? zlength l)%Z = true <-> exists x y, x ∈ l /\ y ∈ l /\ x <> y.
Proof.
  intros Hl. rewrite Z.ltb_lt. unfold zlength. destruct l as [|x [|y l]]; cbn.
  - split; [lia | intros (x & y & H & _); by apply elem_of_nil in H].
  - split; [lia|]. intros (a & b & ->%list_elem_of_singleton & ->%list_elem_of_singleton & H). done.
  - split; [|lia]. intros _. exists x, y. apply NoDup_cons in Hl as [Hx _].
    split_and!; [left | right; left|]. intros ->. apply Hx. left.
Qed.

Lemma NoDup_filter_bool {A} (f : A -> bool) (l : list A) : NoDup l -> NoDup (List.filter f l).
Proof. rewrite !NoDup_ListNoDup. apply List.NoDup_filter. Qed.

Lemma elem_of_filter_bool {A} (f : A -> bool) (l : list A) x : x ∈ List.filter f l <-> x ∈ l /\ f x = true.
Proof. by rewrite !list_elem_of_In, filter_In. Qed.

Lemma filter_snd {A} (f : A -> bool) (l : list A) :
  map fst (List.filter snd (map (fun x => (x, f x)) l)) = List.filter f l.
Proof. induction l as [|x l IH]; [done|]. cbn. destruct (f x); cbn; by rewrite IH. Qed.

Lemma wf_NoDup {K V} (d : dict K V) : wf d -> NoDup d.
Proof. unfold wf, keys. apply NoDup_fmap_1. Qed.

Lemma get_is_key {K V} `{EqDecision K} (d : dict K V) x v : get d x = Some v -> x ∈ keys d.
Proof. intros H. apply get_in in H. apply list_elem_of_fmap. by exists (x, v). Qed.
