(* ===== verification/Csv.v ===== *)
(** * [csv.reader] of the standard library

    The reader of the default dialect with a delimiter of one comma and a given quote
    character: a state machine over the characters of a line, whose state at the end of
    a line is carried to the next one. *)

From stdpp Require Import base list strings.
From Stdlib Require Import Ascii.
From S2P Require Import Prelude PyStr.
Open Scope string_scope.

Inductive csv_state : Type := StartRecord | StartField | InField | InQuoted | QuoteInQuoted | EatCrNl.

Definition is_newline_char (c : ascii) : bool := Ascii.eqb c "010"%char || Ascii.eqb c "013"%char.

Record csv_acc : Type := CsvAcc { csv_st : csv_state; csv_field : string; csv_row : list string }.

Definition save_field (a : csv_acc) (st : csv_state) : csv_acc := CsvAcc st "" (csv_row a ++ [csv_field a])%list.

Definition add_char (a : csv_acc) (c : ascii) (st : csv_state) : csv_acc :=
  CsvAcc st (csv_field a +:+ String c "") (csv_row a).

Section Csv.
Context (quote : ascii).

Definition csv_char (a : csv_acc) (c : ascii) : result csv_acc :=
  match csv_st a with
  | StartRecord | StartField =>
      if is_newline_char c then
        Ok (match csv_st a with StartRecord => CsvAcc EatCrNl "" (csv_row a) | _ => save_field a EatCrNl end)
      else if Ascii.eqb c quote then Ok (CsvAcc InQuoted (csv_field a) (csv_row a))
      else if Ascii.eqb c "," then Ok (save_field a StartField)
      else Ok (add_char a c InField)
  | InField =>
      if is_newline_char c then Ok (save_field a EatCrNl)
      else if Ascii.eqb c "," then Ok (save_field a StartField)
      else Ok (add_char a c InField)
  | InQuoted =>
      if Ascii.eqb c quote then Ok (CsvAcc QuoteInQuoted (csv_field a) (csv_row a)) else Ok (add_char a c InQuoted)
  | QuoteInQuoted =>
      if Ascii.eqb c quote then Ok (add_char a c InQuoted)
      else if Ascii.eqb c "," then Ok (save_field a StartField)
      else if is_newline_char c then Ok (save_field a EatCrNl)
      else Ok (add_char a c InField)
  | EatCrNl => if is_newline_char c then Ok a else Err (RuntimeException "new-line character seen in unquoted field")
  end.

(** The end of a line: [Some row] when the record is complete. *)
Definition csv_end (a : csv_acc) : csv_acc * option (list string) :=
  match csv_st a with
  | InQuoted => (a, None)
  | StartRecord | EatCrNl => (CsvAcc StartRecord "" [], Some (csv_row a))
  | StartField | InField | QuoteInQuoted => (CsvAcc StartRecord "" [], Some (csv_row a ++ [csv_field a])%list)
  end.

Fixpoint csv_lines (lines : list string) (a : csv_acc) : result (list (list string)) :=
  match lines with
  | [] => match csv_st a with InQuoted => Ok [(csv_row a ++ [csv_field a])%list] | _ => Ok [] end
  | l :: lines' =>
      let* a1 := foldM csv_char (String.list_ascii_of_string l) a in
      let '(a2, row) := csv_end a1 in
      let* rows := csv_lines lines' a2 in
      Ok (match row with Some r => r :: rows | None => rows end)
  end.

Definition csv_reader (lines : list string) : result (list (list string)) := csv_lines lines (CsvAcc StartRecord "" []).
End Csv.

(** A line without quotes or line ends is split at the commas. *)
Definition plain (quote : ascii) (l : string) : bool :=
  no_char quote l && no_char "010" l && no_char "013" l.

Lemma csv_plain_from quote l a : quote <> ","%char -> plain quote l = true -> csv_st a = InField \/ csv_st a = StartField ->
  exists a', foldM (csv_char quote) (String.list_ascii_of_string l) a = Ok a' /\
    snd (csv_end a') = Some (csv_row a ++ match split "," l with [] => [] | x :: xs => (csv_field a +:+ x) :: xs end)%list.
Proof.
  intros Hq. revert a. induction l as [|c l IH]; intros a Hp Ha.
  - exists a. split; [done|]. cbn. rewrite app_nil_r_str. unfold csv_end. by destruct Ha as [-> | ->].
  - unfold plain in Hp. cbn [no_char] in Hp. apply andb_prop in Hp as [Hp H13]. apply andb_prop in Hp as [Hqc H10].
    apply andb_prop in Hqc as [Hc Hql]. apply andb_prop in H10 as [H10 Hl10]. apply andb_prop in H13 as [H13 Hl13].
    assert (Hpl : plain quote l = true) by (unfold plain; by rewrite Hql, Hl10, Hl13).
    cbn [String.list_ascii_of_string foldM split].
    assert (Hstep : csv_char quote a c = Ok (if Ascii.eqb c "," then save_field a StartField else add_char a c InField)).
    { unfold csv_char, is_newline_char. apply negb_true_iff in Hc, H10, H13.
      destruct Ha as [-> | ->]; rewrite ?H10, ?H13; cbn [orb]; rewrite ?Hc; by destruct (Ascii.eqb c ","). }
    rewrite Hstep. cbn [bind]. destruct (Ascii.eqb c ",") eqn:Ec.
    + destruct (IH (save_field a StartField) Hpl) as (a' & E & H); [by right|]. exists a'. split; [done|].
      rewrite H. unfold save_field. cbn [csv_row csv_field]. rewrite <- app_assoc. cbn [app].
      rewrite app_nil_r_str. pose proof (split_nonempty "," l). by destruct (split "," l).
    + destruct (IH (add_char a c InField) Hpl) as (a' & E & H); [by left|]. exists a'. split; [done|].
      rewrite H. unfold add_char. cbn [csv_row csv_field]. pose proof (split_nonempty "," l).
      destruct (split "," l) as [|x xs]; [done|]. by rewrite app_assoc_str.
Qed.

Lemma csv_plain quote l : quote <> ","%char -> plain quote l = true -> l <> "" -> csv_reader quote [l] = Ok [split "," l].
Proof.
  intros Hq Hp Hne. unfold csv_reader. cbn [csv_lines].
  destruct (csv_plain_from quote l (CsvAcc StartField "" []) Hq Hp) as (a' & E & H); [by right|].
  assert (E0 : foldM (csv_char quote) (String.list_ascii_of_string l) (CsvAcc StartRecord "" [])
    = foldM (csv_char quote) (String.list_ascii_of_string l) (CsvAcc StartField "" [])).
  { destruct l as [|c l]; [done|]. cbn [String.list_ascii_of_string foldM]. f_equal. unfold csv_char. cbn [csv_st].
    unfold plain in Hp. cbn [no_char] in Hp. unfold is_newline_char.
    destruct (Ascii.eqb c "010"), (Ascii.eqb c "013"); cbn in *; rewrite ?andb_false_r in Hp; done. }
  rewrite E0, E. cbn [bind]. destruct (csv_end a') as [a2 row] eqn:Ee. cbn [snd] in H. subst row.
  assert (Hst : csv_st a2 = StartRecord).
  { unfold csv_end in Ee. destruct (csv_st a'); try discriminate Ee;
      assert (E1 := f_equal fst Ee); cbn [fst] in E1; by rewrite <- E1. }
  rewrite Hst. cbn [bind csv_row csv_field app]. pose proof (split_nonempty "," l). by destruct (split "," l).
Qed.
