(* ===== verification/ArgParse.v ===== *)
(** * Command lines

    What the programs use of [argparse], as it works up to Python 3.11: optionals that
    store, append or take any number of arguments, prefixes and clusters of their strings,
    positionals in order, [--], and subcommands.  A command line that is refused exits with
    2, a call for help with 0; both print a text, which is left out. *)

From stdpp Require Import base list strings.
From Stdlib Require Import Ascii ZArith Lia.
From S2P Require Import Prelude Dict PyStr.
Open Scope string_scope.

(** ** Parsers *)
Inductive value : Type :=
| VNone
| VBool (b : bool)
| VInt (z : Z)
| VStr (s : string)
| VStrs (l : list string).

(** [action='store_true'], [type=str], [type=int], [type=bool], [action='append'], [nargs='*']. *)
Inductive action : Type := StoreTrue | StoreStr | StoreInt | StoreBool | Append | StoreMany | Help.

Record optional : Type := Optional { o_strings : list string; o_dest : string; o_action : action; o_default : value }.

(** A positional with one argument, or with any number. *)
Inductive positional : Type :=
| One (dest : string)
| Many (dest : string) (dflt : value).

Record parser : Type := Parser { p_optionals : list optional; p_positionals : list positional; p_defaults : dict string value }.

Definition help : optional := Optional ["-h"; "--help"] "help" Help VNone.

(** The strings of the optionals of a parser, in the order in which they were added. *)
Definition option_strings (p : parser) : list (string * optional) :=
  flat_map (fun o => map (fun s => (s, o)) (o_strings o)) (help :: p_optionals p).

(** ** The class of an argument *)

(** An optional, the string that names it, and the argument that follows it in the same word. *)
Definition option_tuple : Type := optional * string * option string.

Inductive class : Type :=
| CArg
| CDash
| COption (t : option option_tuple).

(** [s.split('=', 1)] *)
Fixpoint split_eq (s : string) : option (string * string) :=
  match s with
  | EmptyString => None
  | String a s' => if Ascii.eqb a "=" then Some ("", s') else '(l, r) ← split_eq s'; Some (String a l, r)
  end.

Definition is_dash (a : ascii) : bool := Ascii.eqb a "-".

(** [_get_option_tuples] *)
Definition option_tuples (os : list (string * optional)) (arg : string) : list option_tuple :=
  match arg with
  | String _ (String b _) =>
      if is_dash b then
        let '(prefix, explicit) := match split_eq arg with Some (l, r) => (l, Some r) | None => (arg, None) end in
        map (fun '(s, o) => (o, s, explicit)) (List.filter (fun '(s, _) => startswith prefix s) os)
      else
        omap (fun '(s, o) =>
          if String.eqb s (take_str 2 arg) then Some (o, s, Some (drop_str 2 arg))
          else if startswith arg s then Some (o, s, None) else None) os
  | _ => []
  end.

Definition is_digits (s : string) : bool :=
  match s with EmptyString => false | _ => forallb (fun a => bool_decide (is_Some (digit_value a))) (String.list_ascii_of_string s) end.

(** [^-\d+$|^-\d*\.\d+$], of what follows the dash. *)
Definition is_negative_number (s : string) : bool :=
  is_digits s ||
  match split "." s with
  | [l; r] => (String.eqb l "" || is_digits l) && is_digits r
  | _ => false
  end.

(** [_parse_optional]; none of the parsers has an optional like a negative number. *)
Definition classify (os : list (string * optional)) (arg : string) : result class :=
  match arg with
  | EmptyString => Ok CArg
  | String a rest =>
      if negb (is_dash a) then Ok CArg else
      match get os arg with
      | Some o => Ok (COption (Some (o, arg, None)))
      | None =>
          if String.eqb rest "" then Ok CArg else
          match split_eq arg ≫= (fun '(l, r) => o ← get os l; Some (o, l, Some r)) with
          | Some t => Ok (COption (Some t))
          | None =>
              match option_tuples os arg with
              | _ :: _ :: _ => Err (SystemExit 2)
              | [t] => Ok (COption (Some t))
              | [] => Ok (if is_negative_number rest || contains " " rest then CArg else COption None)
              end
          end
      end
  end.

Definition word : Type := string * class.

(** What follows the first [--] are arguments. *)
Fixpoint classes (os : list (string * optional)) (argv : list string) : result (list word) :=
  match argv with
  | [] => Ok []
  | arg :: argv' =>
      if String.eqb arg "--" then Ok ((arg, CDash) :: map (fun a => (a, CArg)) argv') else
      let* c := classify os arg in
      let* cs := classes os argv' in
      Ok ((arg, c) :: cs)
  end.

(** ** Optionals *)
Definition type_int (s : string) : result value := match py_int s with Ok z => Ok (VInt z) | Err _ => Err (SystemExit 2) end.

Definition appended (v : option value) (s : string) : value := match v with Some (VStrs l) => VStrs (l ++ [s]) | _ => VStrs [s] end.

(** The call of an action. *)
Definition take_action (ns : dict string value) (call : optional * list string) : result (dict string value) :=
  let '(o, args) := call in
  match o_action o, args with
  | StoreTrue, _ => Ok (set (o_dest o) (VBool true) ns)
  | StoreStr, [s] => Ok (set (o_dest o) (VStr s) ns)
  | StoreInt, [s] => let* v := type_int s in Ok (set (o_dest o) v ns)
  | StoreBool, [s] => Ok (set (o_dest o) (VBool (negb (String.eqb s ""))) ns)
  | Append, [s] => Ok (set (o_dest o) (appended (get ns (o_dest o)) s) ns)
  | StoreMany, l => Ok (set (o_dest o) (VStrs l) ns)
  | _, _ => Err (SystemExit (match o_action o with Help => 0 | _ => 2 end))
  end.

Definition takes_none (a : action) : bool := match a with StoreTrue | Help => true | _ => false end.

Fixpoint arguments_of (ws : list word) : list string * list word :=
  match ws with
  | (a, CArg) :: ws' => let '(l, r) := arguments_of ws' in (a :: l, r)
  | _ => ([], ws)
  end.

(** The arguments of an optional, among the words that follow it. *)
Definition match_argument (a : action) (ws : list word) : result (list string * list word) :=
  match a with
  | StoreTrue | Help => Ok ([], ws)
  | StoreMany => Ok (arguments_of ws)
  | _ => match ws with (s, CArg) :: ws' => Ok ([s], ws') | _ => Err (SystemExit 2) end
  end.

Definition is_long (s : string) : bool := match s with String _ (String b _) => is_dash b | _ => false end.

(** An optional with an argument in the same word: its own, or, after a one-letter flag, more flags. *)
Fixpoint explicit_argument (os : list (string * optional)) (o : optional) (s arg : string) (ws : list word) : result (list (optional * list string) * list word) :=
  if takes_none (o_action o) then
    match arg with
    | EmptyString => Err (SystemExit 2)
    | String c arg' =>
        if is_long s then Err (SystemExit 2) else
        match get os (String "-" (String c "")) with
        | None => Err (SystemExit 2)
        | Some o' =>
            let* r :=
              match arg' with
              | EmptyString => let* r := match_argument (o_action o') ws in Ok ([(o', fst r)], snd r)
              | _ => explicit_argument os o' (String "-" (String c "")) arg' ws
              end in
            Ok ((o, []) :: fst r, snd r)
        end
    end
  else Ok ([(o, [arg])], ws).

(** [consume_optional] *)
Definition consume_optional (os : list (string * optional)) (t : option_tuple) (ws : list word) : result (list (optional * list string) * list word) :=
  let '(o, s, explicit) := t in
  match explicit with
  | Some arg => explicit_argument os o s arg ws
  | None => let* r := match_argument (o_action o) ws in Ok ([(o, fst r)], snd r)
  end.

(** ** Positionals *)
Definition is_option (w : word) : bool := match snd w with COption _ => true | _ => false end.

(** The words up to the next optional. *)
Fixpoint chunk (ws : list word) : list word * list word :=
  match ws with
  | w :: ws' => if is_option w then ([], ws) else let '(l, r) := chunk ws' in (w :: l, r)
  | [] => ([], [])
  end.

Definition is_arg (w : word) : bool := match snd w with CArg => true | _ => false end.

Definition count_args (ws : list word) : nat := length (List.filter is_arg ws).
Definition count_ones (ps : list positional) : nat := length (List.filter (fun p => match p with One _ => true | _ => false end) ps).

(** One argument, with [--] around it; the first [--] of what a positional gets is removed, and a
    positional that is left with nothing cannot be unpacked. *)
Definition take_one (ws : list word) : result (string * list word) :=
  match ws with
  | (_, CDash) :: (s, CArg) :: ws' => Ok (s, ws')
  | (s, CArg) :: (_, CDash) :: ws' => Ok (s, ws')
  | (s, CArg) :: ws' => if String.eqb s "--" then Err (ValueError "not enough values to unpack") else Ok (s, ws')
  | _ => Err (SystemExit 2)
  end.

(** [k] arguments, and the [--] among and after them. *)
Fixpoint take_many (k : nat) (ws : list word) : list string * list word :=
  match ws, k with
  | (_, CDash) :: ws', _ => take_many k ws'
  | (s, CArg) :: ws', S k' => let '(l, r) := take_many k' ws' in (s :: l, r)
  | _, _ => ([], ws)
  end.

(** [consume_positionals]: as many positionals as can be matched, the first of any number
    with all the arguments that those after it leave. *)
Fixpoint consume_positionals (ps : list positional) (ns : dict string value) (ws : list word)
  : result (list positional * dict string value * list word) :=
  match ps with
  | [] => Ok ([], ns, ws)
  | One dest :: ps' =>
      if Nat.eqb (count_args ws) 0 then Ok (ps, ns, ws) else
      let* r := take_one ws in
      consume_positionals ps' (set dest (VStr (fst r)) ns) (snd r)
  | Many dest dflt :: ps' =>
      let '(l, ws') := take_many (count_args ws - count_ones ps') ws in
      consume_positionals ps' (set dest (match l with [] => dflt | _ => VStrs l end) ns) ws'
  end.

(** ** The whole line *)

(** At the end, no positional may be missing and no word may be left. *)
Definition finish (ps : list positional) (extras : bool) (ns : dict string value) : result (dict string value) :=
  if negb (Nat.eqb (count_ones ps) 0) || extras then Err (SystemExit 2) else Ok ns.

(** One round for each optional, and one for the words before it. *)
Fixpoint parse_words (fuel : nat) (os : list (string * optional)) (ps : list positional) (extras : bool) (ns : dict string value) (ws : list word)
  : result (dict string value) :=
  match fuel with
  | O => Err OutOfFuel
  | S fuel' =>
      match ws with
      | [] => let* r := consume_positionals ps ns [] in let '(ps', ns', _) := r in finish ps' extras ns'
      | (_, COption None) :: ws' => parse_words fuel' os ps true ns ws'
      | (_, COption (Some t)) :: ws' =>
          let* r := consume_optional os t ws' in
          let* ns' := foldM take_action (fst r) ns in
          parse_words fuel' os ps extras ns' (snd r)
      | _ =>
          let '(l, rest) := chunk ws in
          let* r := consume_positionals ps ns l in
          let '(ps', ns', remaining) := r in
          match remaining, rest with
          | [], [] => finish ps' extras ns'
          | [], _ => parse_words fuel' os ps' extras ns' rest
          | _, _ => parse_words fuel' os ps' true ns' rest
          end
      end
  end.

(** The attributes before anything is parsed. *)
Definition add_default (ns : dict string value) (kv : string * value) : dict string value :=
  match get ns (fst kv) with Some _ => ns | None => set (fst kv) (snd kv) ns end.

Definition initial (p : parser) : dict string value :=
  foldl add_default []
    (map (fun o => (o_dest o, o_default o)) (p_optionals p) ++
     map (fun q => match q with One dest => (dest, VNone) | Many dest dflt => (dest, dflt) end) (p_positionals p) ++
     p_defaults p)%list.

(** [parser.parse_args(argv)] *)
Definition parse_args (p : parser) (argv : list string) : result (dict string value) :=
  let* ws := classes (option_strings p) argv in
  parse_words (S (length ws)) (option_strings p) (p_positionals p) false (initial p) ws.

(** ** Subcommands *)
Definition root : parser := Parser [] [] [].

(** The root has only the option for help; the first argument and all that follows it go to the
    parser that it names. *)
Fixpoint parse_root (choices : dict string parser) (extras : bool) (ws : list word) : result (dict string value) :=
  match ws with
  | [] => if extras then Err (SystemExit 2) else Ok []
  | (_, COption None) :: ws' => parse_root choices true ws'
  | (_, COption (Some t)) :: ws' =>
      let* r := consume_optional (option_strings root) t ws' in let* _ := foldM take_action (fst r) [] in Err (SystemExit 2)
  | (name, CArg) :: ws' =>
      match get choices name with
      | Some p => let* ns := parse_args p (map fst ws') in if extras then Err (SystemExit 2) else Ok ns
      | None => Err (SystemExit 2)
      end
  | (_, CDash) :: _ => Err (SystemExit 2)
  end.

Definition parse_commands (choices : dict string parser) (argv : list string) : result (dict string value) :=
  let* ws := classes (option_strings root) argv in parse_root choices false ws.

(** ** Lines that parse *)

(** An argument that no parser takes for an optional. *)
Definition plain (s : string) : bool := match s with EmptyString => true | String a _ => negb (is_dash a) end.

Lemma classify_plain os s : plain s = true -> classify os s = Ok CArg.
Proof. destruct s as [|a s]; [done|]. cbn [plain classify]. by intros ->. Qed.

Lemma plain_not_dashes s : plain s = true -> String.eqb s "--" = false.
Proof. intros H. apply String.eqb_neq. by intros ->. Qed.

Lemma classes_plain os l : forallb plain l = true -> classes os l = Ok (map (fun a => (a, CArg)) l).
Proof.
  induction l as [|a l IH]; intros H; [done|]. cbn [forallb] in H. apply andb_true_iff in H as [Ha H]. cbn [classes map].
  by rewrite (plain_not_dashes _ Ha), (classify_plain _ _ Ha), IH.
Qed.

(** Words that are classified one by one. *)
Lemma classes_app os l1 l2 ws1 ws2 :
  Forall2 (fun a w => String.eqb a "--" = false /\ fst w = a /\ classify os a = Ok (snd w)) l1 ws1 ->
  classes os l2 = Ok ws2 -> classes os (l1 ++ l2) = Ok (ws1 ++ ws2)%list.
Proof.
  induction 1 as [|a [a' c] l1 ws1 (Hd & Ha & Hc) _ IH]; intros H2; [done|]. cbn in Ha, Hc. subst a'. cbn [app classes].
  by rewrite Hd, Hc, (IH H2).
Qed.

Lemma classes_total os l : (forall a, exists c, classify os a = Ok c) -> exists ws, classes os l = Ok ws /\ map fst ws = l.
Proof.
  intros H. induction l as [|a l (ws & IH & Hws)]; [by exists []|]. cbn [classes]. destruct (String.eqb a "--").
  - eexists. split; [done|]. cbn. f_equal. rewrite map_map. apply map_id.
  - destruct (H a) as [c ->]. cbn [bind]. rewrite IH. eexists. split; [done|]. cbn. by f_equal.
Qed.

(** The root takes every word for something: no word is a prefix of both of its options. *)
Lemma root_tuples s : (length (option_tuples (option_strings root) (String "-" s)) <= 1)%nat.
Proof.
  destruct s as [|b s]; [cbn; lia|]. unfold option_strings. cbn [option_tuples root p_optionals flat_map map o_strings help app].
  destruct (is_dash b) eqn:Eb.
  - apply Ascii.eqb_eq in Eb as ->. cbn [split_eq Ascii.eqb Bool.eqb andb]. destruct (split_eq s) as [[l r]|]; cbn [mbind option_bind];
      rewrite length_map; cbn [List.filter]; unfold startswith; cbn [String.prefix ascii_dec]; 
      repeat match goal with |- context [if ?c then _ else _] => destruct c eqn:?; cbn [length]; try lia end; try done.
  - assert (b <> "-"%char) as Hb by (by apply Ascii.eqb_neq).
    assert (String.eqb "--help" (take_str 2 (String "-" (String b s))) = false) as E1.
    { apply String.eqb_neq. unfold take_str. cbn [String.substring]. intros E. by injection E as <-. }
    assert (startswith (String "-" (String b s)) "--help" = false) as E2.
    { unfold startswith. cbn [String.prefix]. destruct (ascii_dec "-" "-"); [|done]. by destruct (ascii_dec b "-"). }
    cbn [omap list_omap]. rewrite E1, E2. repeat case_match; cbn; lia.
Qed.

Lemma root_classifies a : exists c, classify (option_strings root) a = Ok c.
Proof.
  unfold classify. destruct a as [|a s]; [by eexists|]. destruct (is_dash a) eqn:Ea; cbn [negb]; [|by eexists].
  apply Ascii.eqb_eq in Ea as ->. pose proof (root_tuples s) as H.
  destruct (get _ _); [by eexists|]. destruct (String.eqb s ""); [by eexists|]. destruct (_ ≫= _); [by eexists|].
  destruct (option_tuples _ _) as [|t [|t' ts]]; [by eexists..|]. cbn [length] in H. lia.
Qed.

(** A subcommand gets all the words after its name. *)
Lemma parse_subcommand choices name p argv : plain name = true -> get choices name = Some p ->
  parse_commands choices (name :: argv) = parse_args p argv.
Proof.
  intros Hn Hp. unfold parse_commands. cbn [classes]. rewrite (plain_not_dashes _ Hn), (classify_plain _ _ Hn). cbn [bind].
  destruct (classes_total (option_strings root) argv root_classifies) as (ws & -> & Hws). cbn [bind parse_root].
  rewrite Hp, Hws. by destruct (parse_args p argv).
Qed.

Lemma parse_no_subcommand choices name argv : plain name = true -> get choices name = None ->
  parse_commands choices (name :: argv) = Err (SystemExit 2).
Proof.
  intros Hn Hp. unfold parse_commands. cbn [classes]. rewrite (plain_not_dashes _ Hn), (classify_plain _ _ Hn). cbn [bind].
  destruct (classes_total (option_strings root) argv root_classifies) as (ws & -> & Hws). cbn [bind parse_root]. by rewrite Hp.
Qed.

(** One word at a time. *)
Definition reads (os : list (string * optional)) (a : string) (t : option_tuple) : Prop :=
  String.eqb a "--" = false /\ classify os a = Ok (COption (Some t)).

(** Words that are whole by themselves: a flag, or an optional with its argument after [=]. *)
Definition whole (t : option_tuple) : option (optional * list string) :=
  let '(o, s, explicit) := t in
  match explicit with
  | None => if takes_none (o_action o) then Some (o, []) else None
  | Some x => if takes_none (o_action o) then None else Some (o, [x])
  end.

Lemma whole_consumed os t call ws : whole t = Some call -> consume_optional os t ws = Ok ([call], ws).
Proof.
  destruct t as [[o s] [x|]]; cbn [whole consume_optional].
  - intros H. destruct x; cbn [explicit_argument]; destruct (takes_none (o_action o)); try discriminate; by injection H as <-.
  - intros H. destruct (o_action o) eqn:E; cbn in H; try discriminate; injection H as <-; done.
Qed.

Definition option_word (at_ : string * option_tuple) : word := (fst at_, COption (Some (snd at_))).
Definition arg_word (a : string) : word := (a, CArg).

(** A line of such words reads one after the other. *)
Lemma parse_wholes fuel os ps extras calls ts : Forall2 (fun t call => whole (snd t) = Some call) ts calls -> forall ns ns' ws,
  foldM take_action calls ns = Ok ns' ->
  parse_words (length ts + fuel) os ps extras ns (map option_word ts ++ ws) = parse_words fuel os ps extras ns' ws.
Proof.
  induction 1 as [|[a t] call ts calls Ht _ IH]; intros ns ns' ws H; cbn [foldM] in H; [by injection H as ->|].
  apply bind_Ok_inv in H as (ns1 & H1 & H). cbn [length Nat.add map app parse_words option_word fst snd].
  rewrite (whole_consumed _ _ _ _ Ht). cbn [bind foldM fst snd]. rewrite H1. cbn [bind]. by apply IH.
Qed.

Lemma chunk_args l : chunk (map arg_word l) = (map arg_word l, []).
Proof. induction l as [|a l IH]; [done|]. cbn [map chunk arg_word is_option snd]. by rewrite IH. Qed.

Lemma take_many_args l : take_many (length l) (map arg_word l) = (l, []).
Proof. induction l as [|a l IH]; [done|]. cbn [length map take_many arg_word]. by rewrite IH. Qed.

Lemma count_args_all l : count_args (map arg_word l) = length l.
Proof. unfold count_args. induction l as [|a l IH]; [done|]. cbn. by rewrite IH. Qed.

(** The arguments at the end, for a positional that takes any number and for two positionals. *)
Lemma parse_many fuel os dest dflt extras ns l :
  parse_words (S fuel) os [Many dest dflt] extras ns (map arg_word l)
  = finish [] extras (set dest (match l with [] => dflt | _ => VStrs l end) ns).
Proof.
  destruct l as [|a l]; [done|]. cbn [map]. unfold arg_word at 1. cbn [parse_words].
  change ((a, CArg) :: map arg_word l) with (map arg_word (a :: l)). rewrite chunk_args. cbn [consume_positionals count_ones List.filter length]. rewrite count_args_all, Nat.sub_0_r, take_many_args. done.
Qed.

Lemma parse_two fuel os d1 d2 extras ns a b : plain a = true -> plain b = true ->
  parse_words (S fuel) os [One d1; One d2] extras ns (map arg_word [a; b]) = finish [] extras (set d2 (VStr b) (set d1 (VStr a) ns)).
Proof.
  intros Ha Hb. cbn [parse_words map arg_word chunk is_option snd consume_positionals count_args List.filter is_arg length Nat.eqb take_one].
  rewrite (plain_not_dashes _ Ha). cbn [bind fst snd consume_positionals count_args List.filter is_arg length Nat.eqb take_one].
  unfold arg_word. cbn [is_arg snd length Nat.eqb]. by rewrite (plain_not_dashes _ Hb).
Qed.

(** A line of whole words and then of plain ones. *)
Lemma parse_line p ts calls l ns : Forall (fun at_ => reads (option_strings p) (fst at_) (snd at_)) ts ->
  Forall2 (fun t call => whole (snd t) = Some call) ts calls -> forallb plain l = true -> foldM take_action calls (initial p) = Ok ns ->
  exists fuel, parse_args p (map fst ts ++ l) = parse_words (S fuel) (option_strings p) (p_positionals p) false ns (map arg_word l).
Proof.
  intros Hr Hw Hl Hns. exists (length l). unfold parse_args.
  rewrite (classes_app _ (map fst ts) l (map option_word ts) (map arg_word l)); [|clear -Hr|by apply classes_plain].
  - cbn [bind]. rewrite length_app, !length_map, <- Nat.add_succ_r. by eapply parse_wholes.
  - induction Hr as [|[a t] ts [H1 H2] _ IH]; cbn [map]; constructor; [done | apply IH].
Qed.
