(* ===== verification/Effects.v ===== *)
(** * Effectful code

    A program that changes a world and can raise is a function from the world to
    the world it leaves and its result: the effects made before an exception stay.
    [hoare P m Q R] states that from a world satisfying [P] the program ends in
    [Q] with its value or in [R] with its exception. *)

From stdpp Require Import base list.
From S2P Require Import Prelude.

Definition M (W A : Type) : Type := W -> W * result A.

Section Effects.
Context {W : Type}.

Definition ret {A} (a : A) : M W A := fun w => (w, Ok a).
Definition raise {A} (e : exn) : M W A := fun w => (w, Err e).

Definition bindM {A B} (m : M W A) (k : A -> M W B) : M W B := fun w =>
  match m w with
  | (w', Ok a) => k a w'
  | (w', Err e) => (w', Err e)
  end.

Definition modify (f : W -> W) : M W unit := fun w => (f w, Ok tt).
Definition gets {A} (f : W -> A) : M W A := fun w => (w, Ok (f w)).
Definition lift {A} (r : result A) : M W A := fun w => (w, r).

(** [if c: m] *)
Definition when (c : bool) (m : M W unit) : M W unit := if c then m else ret tt.

(** [for x in l: f(x)] *)
Fixpoint for_each {A} (l : list A) (f : A -> M W unit) : M W unit :=
  match l with
  | [] => ret tt
  | x :: l' => bindM (f x) (fun _ => for_each l' f)
  end.

(** [[ f(x) for x in l ]], or [list(map(f, l))]. *)
Fixpoint map_each {A B} (f : A -> M W B) (l : list A) : M W (list B) :=
  match l with
  | [] => ret []
  | x :: l' => bindM (f x) (fun y => bindM (map_each f l') (fun ys => ret (y :: ys)))
  end.

(** [try: m finally: f], where [f] does not raise. *)
Definition try_finally {A} (m : M W A) (f : W -> W) : M W A := fun w =>
  match m w with (w', r) => (f w', r) end.

(** [try: m except ...: h(e)], where [h] answers [None] for an exception it does not
    catch. *)
Definition try_except {A} (m : M W A) (h : exn -> option (M W A)) : M W A := fun w =>
  match m w with
  | (w', Ok a) => (w', Ok a)
  | (w', Err e) =>
      match h e with
      | Some m' => m' w'
      | None => (w', Err e)
      end
  end.
End Effects.

Declare Scope eff_scope.
Delimit Scope eff_scope with eff.
Notation "'do' x '<-' m 'in' k" := (bindM m (fun x => k))
  (at level 10, x pattern, m at level 100, k at level 200,
   format "'[v' 'do'  x  '<-'  m  'in' '/' k ']'") : eff_scope.
Notation "'perform' m 'then' k" := (bindM m (fun _ => k))
  (at level 10, m at level 100, k at level 200,
   format "'[v' 'perform'  m  'then' '/' k ']'") : eff_scope.
Open Scope eff_scope.

(** ** A program logic *)
Section Hoare.
Context {W : Type}.

Definition hoare {A} (P : W -> Prop) (m : M W A) (Q : A -> W -> Prop) (R : exn -> W -> Prop) : Prop :=
  forall w, P w ->
  match m w with
  | (w', Ok a) => Q a w'
  | (w', Err e) => R e w'
  end.

Lemma hoare_ret {A} P (a : A) (Q : A -> W -> Prop) R :
  (forall w, P w -> Q a w) -> hoare P (ret a) Q R.
Proof. intros H w Hw. by apply H. Qed.

Lemma hoare_raise {A} P e (Q : A -> W -> Prop) (R : exn -> W -> Prop) :
  (forall w, P w -> R e w) -> hoare P (raise e) Q R.
Proof. intros H w Hw. by apply H. Qed.

Lemma hoare_bind {A B} P (m : M W A) (k : A -> M W B) Q0 Q R :
  hoare P m Q0 R -> (forall a, hoare (Q0 a) (k a) Q R) -> hoare P (bindM m k) Q R.
Proof.
  intros Hm Hk w Hw. unfold bindM. specialize (Hm w Hw). destruct (m w) as [w' [a|e]]; [|done].
  by apply Hk.
Qed.

Lemma hoare_modify P f (Q : unit -> W -> Prop) R :
  (forall w, P w -> Q tt (f w)) -> hoare P (modify f) Q R.
Proof. intros H w Hw. by apply H. Qed.

Lemma hoare_gets {A} P (f : W -> A) (Q : A -> W -> Prop) R :
  (forall w, P w -> Q (f w) w) -> hoare P (gets f) Q R.
Proof. intros H w Hw. by apply H. Qed.

Lemma hoare_lift {A} P (r : result A) (Q : A -> W -> Prop) (R : exn -> W -> Prop) :
  (forall w, P w -> match r with Ok a => Q a w | Err e => R e w end) -> hoare P (lift r) Q R.
Proof. intros H w Hw. by apply H. Qed.

Lemma hoare_when P c m (Q : unit -> W -> Prop) R :
  (c = true -> hoare P m Q R) -> (c = false -> forall w, P w -> Q tt w) -> hoare P (when c m) Q R.
Proof. intros Ht Hf. destruct c; [by apply Ht|]. apply hoare_ret. by apply Hf. Qed.

Lemma hoare_conseq {A} (P P' : W -> Prop) (m : M W A) (Q Q' : A -> W -> Prop) (R R' : exn -> W -> Prop) :
  hoare P' m Q' R' -> (forall w, P w -> P' w) -> (forall a w, Q' a w -> Q a w) ->
  (forall e w, R' e w -> R e w) -> hoare P m Q R.
Proof.
  intros H HP HQ HR w Hw. specialize (H w (HP w Hw)). destruct (m w) as [w' [a|e]]; auto.
Qed.

(** The rule of a [for] loop: an invariant of every turn. *)
Lemma hoare_for_each {A} (I : W -> Prop) (l : list A) (f : A -> M W unit) R :
  (forall x, x ∈ l -> hoare I (f x) (fun _ => I) R) -> hoare I (for_each l f) (fun _ => I) R.
Proof.
  induction l as [|x l IH]; intros H; cbn [for_each].
  - by apply hoare_ret.
  - eapply hoare_bind; [apply H; left|]. intros []. apply IH. intros y Hy. apply H. by right.
Qed.

Lemma hoare_finally {A} P (m : M W A) f (Q : A -> W -> Prop) R :
  hoare P m (fun a w => Q a (f w)) (fun e w => R e (f w)) -> hoare P (try_finally m f) Q R.
Proof.
  intros H w Hw. unfold try_finally. specialize (H w Hw). by destruct (m w) as [w' [a|e]].
Qed.

Lemma hoare_except {A} P (m : M W A) h (Q : A -> W -> Prop) R R' :
  hoare P m Q R' ->
  (forall e, match h e with
             | Some m' => hoare (R' e) m' Q R
             | None => forall w, R' e w -> R e w
             end) -> hoare P (try_except m h) Q R.
Proof.
  intros Hm Hh w Hw. unfold try_except. specialize (Hm w Hw). destruct (m w) as [w' [a|e]]; [done|].
  specialize (Hh e). destruct (h e) as [m'|]; by apply Hh.
Qed.

(** Inverting a run that ends in a value. *)
Lemma bindM_Ok_inv {A B} (m : M W A) (k : A -> M W B) w w' b :
  bindM m k w = (w', Ok b) -> exists a w1, m w = (w1, Ok a) /\ k a w1 = (w', Ok b).
Proof. unfold bindM. destruct (m w) as [w1 [a|e]]; [intros H; by exists a, w1 | done]. Qed.

Lemma lift_Ok {A} (r : result A) (w w' : W) a : lift r w = (w', Ok a) -> w' = w /\ r = Ok a.
Proof. unfold lift. by intros [= <- ->]. Qed.

Lemma ret_Ok {A} (a b : A) (w w' : W) : ret a w = (w', Ok b) -> w' = w /\ b = a.
Proof. unfold ret. by intros [= <- ->]. Qed.

Lemma modify_Ok (f : W -> W) w w' : modify f w = (w', Ok tt) -> w' = f w.
Proof. unfold modify. by intros [= <-]. Qed.

Lemma when_raise_Ok c e (w w' : W) : when c (raise e) w = (w', Ok tt) -> c = false /\ w' = w.
Proof. destruct c; [done|]. by intros [= <-]. Qed.

Lemma bindM_assoc {A B C} (m : M W A) (k : A -> M W B) (h : B -> M W C) w :
  bindM (bindM m k) h w = bindM m (fun a => bindM (k a) h) w.
Proof. unfold bindM. by destruct (m w) as [w' [a|e]]. Qed.

Lemma for_each_app {A} (l1 l2 : list A) (f : A -> M W unit) w :
  for_each (l1 ++ l2) f w = bindM (for_each l1 f) (fun _ => for_each l2 f) w.
Proof.
  revert w. induction l1 as [|x l1 IH]; intros w; [done|]. cbn [app for_each].
  rewrite bindM_assoc. unfold bindM at 1 2. destruct (f x w) as [w' [[]|e]]; [apply IH | done].
Qed.
End Hoare.

(** The invariant [I] is kept whether the program returns or raises. *)
Notation keeps I m := (hoare I m (fun _ => I) (fun _ => I)).

Create HintDb hoare.
#[export] Hint Resolve hoare_ret hoare_raise hoare_modify hoare_gets hoare_lift : hoare.

(** [hoare_step] applies the rule of the program's head, with the invariant as the
    intermediate assertion. *)
Ltac hoare_step :=
  match goal with
  | |- hoare ?I (bindM _ _) (fun _ => ?I) _ => eapply (hoare_bind I _ _ (fun _ => I)); [|intros ?]
  | |- hoare _ (ret _) _ _ => apply hoare_ret; intros ? ?
  | |- hoare _ (raise _) _ _ => apply hoare_raise; intros ? ?
  | |- hoare _ (modify _) _ _ => apply hoare_modify; intros ? ?
  | |- hoare _ (gets _) _ _ => apply hoare_gets; intros ? ?
  | |- hoare _ (lift ?r) _ _ => apply hoare_lift; intros ? ?; destruct r
  | |- hoare _ (when _ _) _ _ => apply hoare_when; intros ?
  | |- hoare _ (for_each _ _) _ _ => apply hoare_for_each; intros ? ?
  | |- hoare _ (if ?c then _ else _) _ _ => destruct c eqn:?
  | |- hoare _ (match ?x with _ => _ end) _ _ => destruct x eqn:?
  end.
