(* ===== verification/SelfTest.v ===== *)
(** * The self-test of [reference.py], lines 142 and 277 to 286

    The script generates the Pedersen parameters, draws a key from the same random string,
    signs a message with it and verifies the signature. *)

From Stdlib Require Import String ZArith Lia List Bool.
From S2P Require Import Prelude Modular Blake2s Crs FieldSqrt Codec CurveGroup GroupLaw SmallCurve Pedersen Schnorr Sampling Effects.
Import ListNotations.
Open Scope Z_scope.

Section SelfTest.
Context {P : Params} {hash : Hash}.

Definition MSG : list Z := bytes_of_string "this is a test".

(** The world is what was printed. *)
Definition print (line : string) : M (list string) unit := modify (fun out => out ++ [line]).

Definition main (fuel : positive) : M (list string) unit :=
  do params <- lift (generate_pedersen_params fuel init_state) in
  perform print "done generating base-points" then
  perform print "done generating all pedersen parameters" then
  do key <- lift (random_field_elt fuel (snd params)) in
  let KEY := fst key in
  do SIG <- lift (schnorr_sign (fst params) MSG KEY) in
  do pubkey <- lift (bytes_from_point (point_mul gen KEY)) in
  do ok <- lift (schnorr_verify (fst params) MSG pubkey SIG) in
  if ok : bool then print "Signature verified"
  else perform print "Signature failed to verify" then raise (SystemExit 1).
End SelfTest.

(** A public key in range has its 96 bytes. *)
Lemma pubkey_bytes (C : Params) (hash : Hash) (Gr : CyclicGroup) (L : SchemeLaws Gr) sk : p < 2 ^ N -> 1 <= sk <= n - 1 ->
  exists pk, bytes_from_point (point_mul gen sk) = Ok pk.
Proof.
  intros HpN Hsk. rewrite point_mul_gen by lia. destruct (smul sk) as [[x y]|] eqn:HQ.
  - cbn [tup option_map]. unfold bytes_from_point. cbn [coords bind px]. destruct (smul_curve _ _ _ HQ) as [(Hx & _) _].
    destruct (field_bytes HpN x Hx) as (bs & -> & _). eexists. reflexivity.
  - apply smul_None, eqm_small in HQ; lia.
Qed.

Lemma sign_refuses {C : Params} {hash : Hash} params msg sk :
  1 <= sk <= n - 1 \/ exists m, schnorr_sign params msg sk = Err (ValueError m).
Proof.
  unfold schnorr_sign. destruct ((1 <=? sk) && (sk <=? n - 1)) eqn:Hr; cbn [negb]; [left|right; eauto].
  apply andb_prop in Hr as [H1%Z.leb_le H2%Z.leb_le]. lia.
Qed.


(** ** The self-test on the small curve

    A hash function whose random string gives ten points, 76 windows that are no field
    elements, and the key 5. *)
Fixpoint list_eqb (l1 l2 : list Z) : bool :=
  match l1, l2 with
  | [], [] => true
  | x :: l1, y :: l2 => (x =? y) && list_eqb l1 l2
  | _, _ => false
  end.

Definition decimal (bs : list Z) : Z := fold_left (fun v c => 10 * v + (c - 48)) bs 0.

Definition test_byte (bs : list Z) : Z :=
  if list_eqb (firstn 18 bs) seed then
    let q := decimal (skipn 18 bs) in
    if q =? 253 then 5 else if (30 <=? q) && (q <? 253) then 1 else 0
  else 1 + fold_right Z.add 0 bs mod 7.

Definition test_hash : Hash := fun bs => test_byte bs :: repeat 0 31.

Lemma test_byte_range bs : 0 <= test_byte bs <= 7.
Proof.
  unfold test_byte. pose proof (Z.mod_pos_bound (fold_right Z.add 0 bs) 7 ltac:(lia)).
  repeat match goal with |- context [if ?c then _ else _] => destruct c end; lia.
Qed.

#[export] Instance test_hash_laws : HashLaws test_hash.
Proof.
  constructor; intros bs; unfold blake2s, test_hash; [reflexivity|]. constructor.
  - pose proof (test_byte_range bs). unfold is_byte. lia.
  - apply Forall_forall. intros c Hc%repeat_spec. subst c. now split.
Qed.

#[export] Instance test_digests : DigestLaws curve17 test_hash.
Proof.
  constructor; [reflexivity | apply test_hash_laws|].
  intros bs. unfold blake2s, test_hash. pose proof (test_byte_range bs).
  assert (E : forall m, int_from_bytes (repeat 0 m) = 0) by (induction m as [|m IH]; [reflexivity | cbn [repeat int_from_bytes]; lia]).
  cbn [int_from_bytes n curve17]. rewrite E. lia.
Qed.

(** The key, the number of bits read, and whether the message is signed. *)
Lemma test_draw :
  (let* ps := generate_pedersen_params (hash := test_hash) 70000 (init_state (hash := test_hash)) in
   let* key := random_field_elt (hash := test_hash) 70000 (snd ps) in
   Ok (fst key, position (snd key), is_ok (schnorr_sign (hash := test_hash) (fst ps) MSG (fst key)))) = Ok (5, 65521, true).
Proof. vm_compute. reflexivity. Qed.

