(* ===== verification/Trie.v ===== *)
(** * The best-tip trie, [automation/scripts/testnet-validation/best_tip_trie.py]

    Blocks are mutable objects shared between the tree and the dictionary
    [blocks], so the model keeps a store: a block is a position of the list
    [store], allocation appends to it, and [children] and [blocks] hold positions.
    The root is position 0.  A hash is a string or [None].

    [forest] is the invariant that the operations keep: the blocks form a tree
    under the root.  From it follow the termination and the completeness of the
    traversals. *)

From stdpp Require Import base list strings.
From Stdlib Require Import Lia.
From S2P Require Import Prelude Dict.
Open Scope nat_scope.

Definition hash_t : Type := option string.

Record block : Type := Block {
  hash : hash_t;
  labels : list hash_t;
  value : list string;
  children : dict hash_t nat
}.

(** [Block(hash=h, labels=[], value=[])] *)
Definition new_block (h : hash_t) : block := Block h [] [] [].

Definition block_at (s : list block) (l : nat) : block := nth l s (new_block None).

Definition set_children (b : block) (ch : dict hash_t nat) : block :=
  Block (hash b) (labels b) (value b) ch.

Definition getChild (s : list block) (l : nat) (hashPart : hash_t) : result nat :=
  get_item (children (block_at s l)) hashPart.

Definition insertChild (s : list block) (l : nat) (hashPart : hash_t) : nat * list block :=
  let b := block_at s l in
  match get (children b) hashPart with
  | Some c => (c, s)
  | None =>
      let c := length s in
      (c, <[l := set_children b (set hashPart c (children b))]> s ++ [new_block hashPart])
  end.

(** [Block.nodes]: the generator, run to its end. *)
Fixpoint nodes (fuel : nat) (s : list block) (key : list hash_t) (l : nat)
  : result (list (list hash_t * nat)) :=
  match fuel with
  | O => Err OutOfFuel
  | S fuel' =>
      let* rest := mapM (fun kc => nodes fuel' s (key ++ [fst kc]) (snd kc))
                        (children (block_at s l)) in
      Ok ((key, l) :: concat rest)
  end.

Record trie : Type := Trie { store : list block; blocks : dict hash_t nat }.

Definition root : nat := 0.

Definition empty_trie : trie := Trie [new_block None] [].

Definition append_value (s : list block) (l : nat) (v : string) : list block :=
  let b := block_at s l in <[l := Block (hash b) (labels b) (value b ++ [v]) (children b)]> s.

Definition append_label (s : list block) (l : nat) (v : hash_t) : list block :=
  let b := block_at s l in <[l := Block (hash b) (labels b ++ [v]) (value b) (children b)]> s.

(** [if value: childNode.value.append(value)] *)
Definition maybe_append (s : list block) (l : nat) (v : hash_t) : list block :=
  match v with
  | Some v => if decide (v = ""%string) then s else append_value s l v
  | None => s
  end.

(** The body of the loop of [insert]. *)
Definition insert_part (tn : trie * nat) (hashPart : hash_t) : trie * nat :=
  let '(t, node) := tn in
  let node := match get (blocks t) hashPart with Some l => l | None => node end in
  let '(c, s) := insertChild (store t) node hashPart in
  (Trie s (set hashPart c (blocks t)), c).

Definition insert (t : trie) (chain : list hash_t) (label : hash_t) : result trie :=
  let* last := py_nth chain (-1) in
  let node := match get (blocks t) last with Some l => l | None => root end in
  let '(t, node) := fold_left insert_part chain (t, node) in
  Ok (Trie (append_label (store t) node label) (blocks t)).

Definition insertLink (t : trie) (parent child value : hash_t) : result trie :=
  match get (blocks t) parent with
  | Some p =>
      let '(c, s) := insertChild (store t) p child in
      Ok (Trie (maybe_append s c value) (set child c (blocks t)))
  | None =>
      if mem child (blocks t) then
        let* c := get_item (children (block_at (store t) root)) child in
        let r := block_at (store t) root in
        let s := <[root := set_children r (del child (children r))]> (store t) in
        let '(p, s) := insertChild s root parent in
        let bs := set parent p (blocks t) in
        let b := block_at s p in
        let s := <[p := set_children b (set (hash (block_at s c)) c (children b))]> s in
        Ok (Trie (maybe_append s c value) bs)
      else insert t [parent; child] value
  end.

(** [BestTipTrie.get] *)
Definition get_value (t : trie) (chain : list hash_t) : result (list string) :=
  let* l := foldM (getChild (store t)) chain root in
  Ok (value (block_at (store t) l)).

Fixpoint prefix_from (fuel : nat) (s : list block) (key : list hash_t) (l : nat)
  : result (list hash_t) :=
  match fuel with
  | O => Err OutOfFuel
  | S fuel' =>
      match children (block_at s l) with
      | [(k, c)] => prefix_from fuel' s (key ++ [k]) c
      | _ => Ok key
      end
  end.

Definition prefix (t : trie) : result (list hash_t) :=
  prefix_from (length (store t)) (store t) [] root.

Definition all_nodes (t : trie) : result (list (list hash_t * nat)) :=
  nodes (length (store t)) (store t) [] root.

Definition items (t : trie) : result (list (list hash_t * nat)) :=
  let* ns := all_nodes t in
  Ok (List.filter (fun kl => negb (length (value (block_at (store t) (snd kl))) =? 0)) ns).

Definition forks (t : trie) : result (list (list hash_t * nat)) :=
  let* ns := all_nodes t in
  Ok (List.filter (fun kl => 1 <? length (children (block_at (store t) (snd kl)))) ns).

(** ** The invariant *)
Definition edge (s : list block) (n : nat) (k : hash_t) (c : nat) : Prop :=
  get (children (block_at s n)) k = Some c.

(** A tree: nodes below [len], each but the root with one parent, ranks growing
    along the edges. *)
Record tree (len : nat) (h : nat -> hash_t) (E : nat -> hash_t -> nat -> Prop) : Prop := {
  t_root : 0 < len;
  t_edge : forall n k c, E n k c -> n < len /\ 0 < c < len /\ h c = k;
  t_unique : forall n1 n2 k1 k2 c, E n1 k1 c -> E n2 k2 c -> n1 = n2;
  t_parent : forall c, 0 < c < len -> exists n k, E n k c;
  t_rank : exists rank : nat -> nat, forall n k c, E n k c -> rank n < rank c
}.

Record forest (t : trie) : Prop := {
  f_tree : tree (length (store t)) (fun l => hash (block_at (store t) l)) (edge (store t));
  f_wf : forall n, wf (children (block_at (store t) n));
  f_blocks : forall k l, get (blocks t) k = Some l ->
    0 < l < length (store t) /\ hash (block_at (store t) l) = k;
  f_known : forall l, 0 < l < length (store t) ->
    is_Some (get (blocks t) (hash (block_at (store t) l)))
}.

(** The operations of the class, as steps. *)
Inductive step : trie -> trie -> Prop :=
| step_insert t chain label t' : insert t chain label = Ok t' -> step t t'
| step_link t parent child v t' : insertLink t parent child v = Ok t' -> step t t'.

Inductive reachable : trie -> Prop :=
| reach_empty : reachable empty_trie
| reach_step t t' : reachable t -> step t t' -> reachable t'.

(** ** Store lemmas *)
Lemma block_at_upd s l b n :
  block_at (<[l := b]> s) n = if decide (n = l /\ l < length s) then b else block_at s n.
Proof.
  unfold block_at. case_decide as D.
  - destruct D as [-> D]. apply nth_lookup_Some. by apply list_lookup_insert_eq.
  - rewrite !nth_lookup. destruct (decide (n = l)) as [->|].
    + rewrite list_insert_ge by lia. reflexivity.
    + by rewrite list_lookup_insert_ne by congruence.
Qed.

Lemma block_at_app s b n :
  block_at (s ++ [b]) n = if decide (n = length s) then b else block_at s n.
Proof.
  unfold block_at. case_decide as D.
  - subst. by rewrite app_nth2, Nat.sub_diag by lia.
  - destruct (decide (n < length s)); [by rewrite app_nth1 by lia|].
    rewrite app_nth2 by lia. rewrite (nth_overflow s) by lia.
    apply nth_overflow. simpl. lia.
Qed.

Lemma block_at_ge s n : length s <= n -> block_at s n = new_block None.
Proof. intros. by apply nth_overflow. Qed.

Lemma edge_lt s n k c : edge s n k c -> n < length s.
Proof.
  unfold edge. intros H. destruct (decide (n < length s)); [done|].
  rewrite block_at_ge in H by lia. done.
Qed.

(** ** Trees *)
Section Trees.
Context (len : nat) (h : nat -> hash_t) (E : nat -> hash_t -> nat -> Prop).

Lemma tree_ext h' (E' : nat -> hash_t -> nat -> Prop) :
  (forall n, n < len -> h n = h' n) -> (forall n k c, E' n k c <-> E n k c) ->
  tree len h E -> tree len h' E'.
Proof.
  intros Hh HE [H0 He Hu Hp [rank Hr]]. split; [done|..].
  - intros n k c H%HE. destruct (He _ _ _ H) as (? & ? & ?).
    split; [done|]. split; [done|]. rewrite <- Hh; [done | lia].
  - intros n1 n2 k1 k2 c H1%HE H2%HE. eauto.
  - intros c Hc. destruct (Hp c Hc) as (n & k & H). exists n, k. by apply HE.
  - exists rank. intros n k c H%HE. eauto.
Qed.

Lemma tree_leaf h' (E' : nat -> hash_t -> nat -> Prop) n k :
  n < len -> (forall m, m < len -> h' m = h m) -> h' len = k ->
  (forall m k' c, E' m k' c <-> E m k' c \/ (m = n /\ k' = k /\ c = len)) ->
  tree len h E -> tree (S len) h' E'.
Proof.
  intros Hn Hh Hk HE [H0 He Hu Hp [rank Hr]]. split; [lia|..].
  - intros m k' c [H|(-> & -> & ->)]%HE; [|split; [lia|]; split; [lia|done]].
    destruct (He _ _ _ H) as (? & ? & ?). split; [lia|]. split; [lia|]. rewrite Hh; [done|lia].
  - intros n1 n2 k1 k2 c [H1|(-> & -> & ->)]%HE [H2|(-> & -> & E2)]%HE; subst; eauto.
    + destruct (He _ _ _ H1). lia.
    + destruct (He _ _ _ H2). lia.
  - intros c Hc. destruct (decide (c = len)) as [->|].
    + exists n, k. apply HE. by right.
    + destruct (Hp c) as (m & k' & H); [lia|]. exists m, k'. apply HE. by left.
  - exists (fun x => if decide (x = len) then S (rank n) else rank x).
    intros m k' c [H|(-> & -> & ->)]%HE.
    + destruct (He _ _ _ H) as (? & ? & ?). repeat case_decide; try lia. eauto.
    + rewrite decide_False, decide_True by lia. lia.
Qed.

(** A new node [len], with hash [k], between the root and its child [c]. *)
Lemma tree_splice h' (E' : nat -> hash_t -> nat -> Prop) k kc c :
  E 0 kc c -> (forall m, m < len -> h' m = h m) -> h' len = k ->
  (forall m k' d, E' m k' d <-> (E m k' d /\ d <> c) \/ (m = 0 /\ k' = k /\ d = len)
                                \/ (m = len /\ k' = kc /\ d = c)) ->
  tree len h E -> tree (S len) h' E'.
Proof.
  intros Hc Hh Hk HE [H0 He Hu Hp [rank Hr]]. destruct (He _ _ _ Hc) as (_ & Hc0 & Hhc).
  pose proof (Hr _ _ _ Hc) as Hrc. split; [lia|..].
  - intros m k' d [[H Hd]|[(-> & -> & ->)|(-> & -> & ->)]]%HE.
    + destruct (He _ _ _ H) as (? & ? & ?). split; [lia|]. split; [lia|]. rewrite Hh; [done|lia].
    + split; [lia|]. split; [lia|done].
    + split; [lia|]. split; [lia|]. rewrite Hh; [done|lia].
  - intros n1 n2 k1 k2 d H1%HE H2%HE.
    destruct H1 as [[H1 D1]|[(-> & -> & ->)|(-> & -> & ->)]], H2 as [[H2 D2]|[(-> & -> & D2)|(-> & -> & D2)]];
      subst; eauto; try done; try lia.
    + destruct (He _ _ _ H1). lia.
    + destruct (He _ _ _ H2). lia.
  - intros d Hd. destruct (decide (d = len)) as [->|]; [exists 0, k; apply HE; auto|].
    destruct (decide (d = c)) as [->|]; [exists len, kc; apply HE; auto|].
    destruct (Hp d) as (m & k' & H); [lia|]. exists m, k'. apply HE. auto.
  - exists (fun x => if decide (x = len) then 2 * rank c - 1 else 2 * rank x).
    intros m k' d [[H Hd]|[(-> & -> & ->)|(-> & -> & ->)]]%HE.
    + destruct (He _ _ _ H) as (? & ? & ?). pose proof (Hr _ _ _ H). repeat case_decide; lia.
    + rewrite decide_False, decide_True by lia. lia.
    + rewrite decide_True, decide_False by lia. lia.
Qed.
End Trees.

(** ** The operations keep the invariant *)
Lemma forest_empty : forest empty_trie.
Proof.
  assert (HE : forall n k c, ~ edge (store empty_trie) n k c).
  { intros n k c. unfold edge, block_at. by destruct n as [|[|n]]. }
  split; cbn; [split|..]; try naive_solver; try lia.
  - exists (fun _ => 0). naive_solver.
  - intros n. unfold block_at. destruct n as [|[|n]]; apply wf_nil.
Qed.

(** [insertChild]: the child that was there, or a new leaf. *)
Lemma insertChild_spec t n k c s :
  forest t -> n < length (store t) -> insertChild (store t) n k = (c, s) ->
  forest (Trie s (set k c (blocks t))) /\ edge s n k c /\ 0 < c < length s
  /\ length (store t) <= length s.
Proof.
  intros HF Hn H. unfold insertChild in H.
  destruct (get (children (block_at (store t) n)) k) as [c'|] eqn:Eg.
  - injection H as <- <-. destruct HF as [HT Hw Hb Hk].
    pose proof (t_edge _ _ _ HT _ _ _ Eg) as (_ & Hc & Hh).
    split; [|by split; [exact Eg|]].
    split; cbn [store blocks]; [done..| |].
    + intros k' l. rewrite get_set. case_decide; [intros [= <-]; subst; done | apply Hb].
    + intros l Hl. rewrite get_set. case_decide; [by eexists | by apply Hk].
  - injection H as <- <-. destruct HF as [HT Hw Hb Hk].
    set (s' := <[n := _]> (store t) ++ [new_block k]).
    assert (Hlen : length s' = S (length (store t)))
      by (unfold s'; rewrite length_app, length_insert; cbn; lia).
    assert (Hat : forall m, block_at s' m =
      if decide (m = length (store t)) then new_block k
      else if decide (m = n) then
        set_children (block_at (store t) n) (set k (length (store t)) (children (block_at (store t) n)))
      else block_at (store t) m).
    { intros m. unfold s'. rewrite block_at_app, length_insert, block_at_upd.
      case_decide; [done|]. destruct (decide (m = n)) as [->|]; [by rewrite decide_True|].
      rewrite decide_False; [done | by intros [? ?]]. }
    clearbody s'.
    assert (Hh : forall m, m < length (store t) -> hash (block_at s' m) = hash (block_at (store t) m)).
    { intros m Hm. rewrite Hat. repeat case_decide; subst; [lia|done|done]. }
    assert (HE : forall m k' d, edge s' m k' d <->
      edge (store t) m k' d \/ (m = n /\ k' = k /\ d = length (store t))).
    { intros m k' d. unfold edge. rewrite Hat. repeat case_decide; subst; cbn.
      - rewrite block_at_ge by lia. cbn. split; [done|]. intros [?|(? & _)]; [done|lia].
      - rewrite get_set. case_decide as Ek; [subst|]; rewrite ?Eg.
        + split; [intros [= <-]; by right | by intros [?|(_ & _ & ->)]].
        + split; [by left | by intros [?|(_ & ? & _)]].
      - split; [by left | by intros [?|(? & _)]]. }
    assert (Hkl : hash (block_at s' (length (store t))) = k) by (rewrite Hat, decide_True; done).
    split; [|split; [apply HE; by right | lia]].
    split; cbn [store blocks].
    + rewrite Hlen. eapply tree_leaf; [exact Hn|exact Hh|exact Hkl|exact HE|exact HT].
    + intros m. rewrite Hat. repeat case_decide; [apply wf_nil | by apply wf_set | apply Hw].
    + intros k' l. rewrite get_set, Hlen. case_decide; [intros [= <-]; subst; split; [lia|done]|].
      intros [? ?]%Hb. split; [lia|]. rewrite Hh by lia. done.
    + intros l. rewrite Hlen. intros Hl. rewrite get_set.
      destruct (decide (l = length (store t))) as [->|]; [by rewrite decide_True by done|].
      case_decide; [by eexists|]. rewrite Hh by lia. apply Hk. lia.
Qed.

(** Labels and values are outside the tree. *)
Lemma forest_same_shape s s' bs :
  length s' = length s ->
  (forall l, hash (block_at s' l) = hash (block_at s l)
             /\ children (block_at s' l) = children (block_at s l)) ->
  forest (Trie s bs) -> forest (Trie s' bs).
Proof.
  intros Hl Hs [HT Hw Hb Hk]. cbn [store blocks] in *.
  split; cbn [store blocks]; rewrite ?Hl.
  - eapply tree_ext; [| |exact HT]; cbn beta.
    + intros n _. symmetry. apply Hs.
    + intros n k c. unfold edge. by rewrite (proj2 (Hs n)).
  - intros n. rewrite (proj2 (Hs n)). apply Hw.
  - intros k l H. rewrite (proj1 (Hs l)). by apply Hb.
  - intros l Hr. rewrite (proj1 (Hs l)). by apply Hk.
Qed.

Lemma relabel_shape s l ls vs :
  let s' := <[l := Block (hash (block_at s l)) ls vs (children (block_at s l))]> s in
  length s' = length s
  /\ forall m, hash (block_at s' m) = hash (block_at s m)
               /\ children (block_at s' m) = children (block_at s m).
Proof.
  cbv zeta. rewrite length_insert. split; [done|]. intros m. rewrite block_at_upd.
  case_decide as D; [destruct D as [-> _]|]; done.
Qed.

Lemma maybe_append_shape s l v :
  length (maybe_append s l v) = length s
  /\ forall m, hash (block_at (maybe_append s l v) m) = hash (block_at s m)
               /\ children (block_at (maybe_append s l v) m) = children (block_at s m).
Proof.
  destruct v as [v|]; [|done]. cbn [maybe_append]. case_decide; [done|].
  apply relabel_shape.
Qed.

Lemma forest_maybe_append s bs l v : forest (Trie s bs) -> forest (Trie (maybe_append s l v) bs).
Proof. apply forest_same_shape; apply maybe_append_shape. Qed.

Lemma forest_append_label s bs l v : forest (Trie s bs) -> forest (Trie (append_label s l v) bs).
Proof. apply forest_same_shape; apply relabel_shape. Qed.

Lemma insert_part_spec t n k t' n' :
  forest t -> n < length (store t) -> insert_part (t, n) k = (t', n') ->
  forest t' /\ n' < length (store t') /\ get (blocks t') k = Some n'.
Proof.
  intros HF Hn H. unfold insert_part in H.
  set (n1 := match get (blocks t) k with Some l => l | None => n end) in *.
  assert (Hn1 : n1 < length (store t)).
  { unfold n1. destruct (get (blocks t) k) as [l|] eqn:E; [|done]. apply (f_blocks t HF) in E. lia. }
  destruct (insertChild (store t) n1 k) as [c s] eqn:Ei. injection H as <- <-.
  destruct (insertChild_spec _ _ _ _ _ HF Hn1 Ei) as (H1 & _ & H2 & _). cbn [store blocks].
  split; [exact H1|]. split; [lia | apply get_set_eq].
Qed.

Lemma insert_parts_spec ks t n t' n' :
  forest t -> n < length (store t) -> fold_left insert_part ks (t, n) = (t', n') ->
  forest t' /\ n' < length (store t').
Proof.
  revert t n. induction ks as [|k ks IH]; intros t n HF Hn H; cbn [fold_left] in H.
  - by injection H as <- <-.
  - destruct (insert_part (t, n) k) as [t1 n1] eqn:E.
    destruct (insert_part_spec _ _ _ _ _ HF Hn E) as (HF1 & Hn1 & _). eauto.
Qed.

(** The block where [insert] starts. *)
Definition start (t : trie) (last : hash_t) : nat :=
  match get (blocks t) last with Some l => l | None => root end.

Lemma start_lt t k : forest t -> start t k < length (store t).
Proof.
  intros HF. unfold start. destruct (get (blocks t) k) as [l|] eqn:E.
  - apply (f_blocks t HF) in E. lia.
  - apply (t_root _ _ _ (f_tree t HF)).
Qed.

Lemma forest_insert t chain label t' :
  forest t -> insert t chain label = Ok t' -> forest t'.
Proof.
  intros HF H. unfold insert in H. apply bind_Ok_inv in H as (last & _ & H).
  change (match get (blocks t) last with Some l => l | None => root end) with (start t last) in H.
  destruct (fold_left insert_part chain (t, start t last)) as [t1 n1] eqn:E.
  injection H as <-. destruct (insert_parts_spec _ _ _ _ _ HF (start_lt _ last HF) E) as [HF1 _].
  destruct t1 as [s1 bs1]. by apply forest_append_label.
Qed.

(** The splice of [insertLink]: the child moves under a new child of the root. *)
Section Splice.
Context (t : trie) (HF : forest t) (parent child : hash_t) (c : nat).
Context (Hp : get (blocks t) parent = None) (Hc : edge (store t) root child c).

Let len : nat := length (store t).
Let r : block := block_at (store t) root.
Let s1 : list block := <[root := set_children r (del child (children r))]> (store t).

Lemma parent_not_child n d : ~ edge (store t) n parent d.
Proof.
  intros H. destruct (t_edge _ _ _ (f_tree t HF) _ _ _ H) as (_ & Hd & Hh).
  destruct (f_known t HF d Hd) as [l Hl]. rewrite Hh in Hl. congruence.
Qed.

Lemma root_lt : root < len.
Proof. apply (t_root _ _ _ (f_tree t HF)). Qed.

Lemma splice_alloc :
  insertChild s1 root parent =
  (len, <[root := set_children r (set parent len (del child (children r)))]> (store t)
        ++ [new_block parent]).
Proof.
  pose proof root_lt as Hr. unfold insertChild. unfold s1 at 1. rewrite block_at_upd, decide_True by done.
  cbn [children set_children]. rewrite get_del by apply (f_wf t HF).
  destruct (get (children r) parent) as [d|] eqn:E; [by elim (parent_not_child root d)|].
  replace (if decide (parent = child) then None else None) with (@None nat) by (by case_decide).
  unfold s1. rewrite length_insert, block_at_upd, decide_True by done.
  by rewrite list_insert_insert_eq.
Qed.

Let s2 : list block := snd (insertChild s1 root parent).
Let b : block := block_at s2 len.
Let s3 : list block :=
  <[len := set_children b (set (hash (block_at s2 c)) c (children b))]> s2.

Lemma child_range : 0 < c < len /\ hash (block_at (store t) c) = child.
Proof. by destruct (t_edge _ _ _ (f_tree t HF) _ _ _ Hc) as (_ & ? & ?). Qed.

Lemma splice_length : length s3 = S len.
Proof. unfold s3, s2. rewrite splice_alloc. cbn. rewrite length_insert, length_app, length_insert. cbn. lia. Qed.

Lemma splice_s2 m : block_at s2 m =
  if decide (m = len) then new_block parent
  else if decide (m = root) then set_children r (set parent len (del child (children r)))
  else block_at (store t) m.
Proof.
  unfold s2. rewrite splice_alloc. cbn [snd]. rewrite block_at_app, length_insert, block_at_upd.
  change (length (store t)) with len. case_decide; [done|]. pose proof root_lt.
  destruct (decide (m = root)) as [->|]; [by rewrite decide_True by (by split)|].
  by rewrite decide_False by (by intros [? ?]).
Qed.

Lemma splice_at m : block_at s3 m =
  if decide (m = len) then Block parent [] [] [(child, c)]
  else if decide (m = root) then set_children r (set parent len (del child (children r)))
  else block_at (store t) m.
Proof.
  destruct child_range as [Hcr Hch].
  assert (Hl : len < length s2).
  { unfold s2. rewrite splice_alloc. cbn [snd]. rewrite length_app, length_insert. cbn. lia. }
  unfold s3. rewrite block_at_upd. destruct (decide (m = len)) as [->|Hm].
  - rewrite decide_True by done. unfold b. rewrite !splice_s2, (decide_True (P := len = len)) by done.
    rewrite decide_False, decide_False by (unfold root; lia). by rewrite Hch.
  - rewrite decide_False by (by intros [? ?]). rewrite splice_s2. by rewrite decide_False.
Qed.

Lemma splice_edge m k d :
  edge s3 m k d <-> (edge (store t) m k d /\ d <> c) \/ (m = 0 /\ k = parent /\ d = len)
                    \/ (m = len /\ k = child /\ d = c).
Proof.
  pose proof root_lt as Hr. unfold root in *.
  assert (Huniq : forall m k, edge (store t) m k c -> m = 0 /\ k = child).
  { intros m' k' H. split; [eapply (t_unique _ _ _ (f_tree t HF)); eauto|].
    destruct (t_edge _ _ _ (f_tree t HF) _ _ _ H) as (_ & _ & <-). by destruct child_range. }
  unfold edge at 1. rewrite splice_at. unfold root. case_decide as D1; [subst m|case_decide as D2; [subst m|]].
  - cbn. case_decide as D3.
    + subst k. split; [intros [= <-]; auto|]. intros [[H%edge_lt _]|[(? & _)|(_ & _ & ->)]]; [lia|lia|done].
    + split; [done|]. intros [[H%edge_lt _]|[(? & _)|(_ & ? & _)]]; [lia|lia|done].
  - cbn [children set_children]. rewrite get_set, get_del by apply (f_wf t HF).
    case_decide as D3; [subst k|case_decide as D4; [subst k|]].
    + split; [intros [= <-]; auto|]. intros [[H _]|[(_ & _ & ->)|(? & _)]]; [|done|lia].
      by elim (parent_not_child 0 d).
    + split; [done|]. intros [[H Hd]|[(_ & ? & _)|(? & _)]]; [|done|lia].
      unfold edge in *. unfold root in Hc. congruence.
    + change (get (children r) k = Some d) with (edge (store t) 0 k d).
      split; [|by intros [[? _]|[(_ & ? & _)|(? & _)]]; [|done|lia]].
      intros H. left. split; [done|]. intros ->. apply Huniq in H as [_ ->]. done.
  - change (get (children (block_at (store t) m)) k = Some d) with (edge (store t) m k d).
    split; [|by intros [[? _]|[(? & _)|(? & _)]]].
    intros H. left. split; [done|]. intros ->. by apply Huniq in H as [-> _].
Qed.

Lemma splice_hash m : m < len -> hash (block_at s3 m) = hash (block_at (store t) m).
Proof.
  intros Hm. rewrite splice_at. rewrite decide_False by lia. case_decide; [by subst|done].
Qed.

Lemma splice_forest : forest (Trie s3 (set parent len (blocks t))).
Proof.
  assert (Hhl : hash (block_at s3 len) = parent) by (rewrite splice_at, decide_True; done).
  pose proof root_lt as Hr. unfold root in Hr. split; cbn [store blocks]; rewrite ?splice_length.
  - eapply tree_splice; [exact Hc|exact splice_hash|exact Hhl|exact splice_edge|exact (f_tree t HF)].
  - intros m. rewrite splice_at. repeat case_decide; cbn.
    + apply NoDup_singleton.
    + apply wf_set, wf_del, (f_wf t HF).
    + apply (f_wf t HF).
  - intros k l. rewrite get_set. case_decide as D; [intros [= <-]; subst k; split; [lia|exact Hhl]|].
    intros [Hl Hh]%(f_blocks t HF). fold len in Hl. split; [lia|]. rewrite splice_hash; [exact Hh | lia].
  - intros l Hl. rewrite get_set. destruct (decide (l = len)) as [->|]; [by rewrite Hhl, decide_True|].
    case_decide; [by eexists|]. assert (l < len) by lia.
    rewrite splice_hash by done. apply (f_known t HF). fold len. lia.
Qed.
End Splice.

Lemma forest_insertLink t parent child v t' :
  forest t -> insertLink t parent child v = Ok t' -> forest t'.
Proof.
  intros HF H. unfold insertLink in H. destruct (get (blocks t) parent) as [p|] eqn:Ep.
  - destruct (insertChild (store t) p child) as [c s] eqn:Ei. injection H as <-.
    apply forest_maybe_append. eapply insertChild_spec; [exact HF| |exact Ei].
    apply (f_blocks t HF) in Ep. lia.
  - destruct (mem child (blocks t)); [|by eapply forest_insert].
    unfold get_item in H. destruct (get (children (block_at (store t) root)) child) as [c|] eqn:Ec; [|done].
    cbn [bind] in H. pose proof (splice_forest t HF parent child c Ep Ec) as HS.
    rewrite (splice_alloc t HF parent child) in H, HS by done. cbn [snd] in HS. injection H as <-.
    by apply forest_maybe_append.
Qed.

Lemma reachable_forest t : reachable t -> forest t.
Proof.
  induction 1 as [|t t' _ IH Hs]; [exact forest_empty|]. inversion Hs; subst.
  - by eapply forest_insert.
  - by eapply forest_insertLink.
Qed.

(** ** Traversals *)
Inductive path (s : list block) (l : nat) : list hash_t -> nat -> Prop :=
| path_here : path s l [] l
| path_snoc ks m k c : path s l ks m -> edge s m k c -> path s l (ks ++ [k]) c.

Lemma path_cons s l k c ks m : edge s l k c -> path s c ks m -> path s l (k :: ks) m.
Proof.
  intros He Hp. induction Hp as [|ks m' k' c' _ IH He'].
  - apply (path_snoc s l [] l k c); [constructor | exact He].
  - rewrite app_comm_cons. eapply path_snoc; eauto.
Qed.

Lemma path_inv s l ks m :
  path s l ks m ->
  (ks = [] /\ m = l) \/ exists k c ks', ks = k :: ks' /\ edge s l k c /\ path s c ks' m.
Proof.
  induction 1 as [|ks m k c Hp [[-> ->]|(k1 & c1 & ks' & -> & He1 & Hp1)] He]; [by left|right..].
  - exists k, c, []. split; [done|]. split; [done | constructor].
  - exists k1, c1, (ks' ++ [k]). split; [done|]. split; [done|]. by eapply path_snoc.
Qed.

Lemma in_range_length (l : list nat) len :
  NoDup l -> (forall x, x ∈ l -> x < len) -> length l <= len.
Proof.
  intros Hd Hr. rewrite <- (length_seq len 0). apply (NoDup_incl_length (l' := seq 0 len)).
  - by apply NoDup_ListNoDup.
  - intros x Hx. apply list_elem_of_In in Hx. apply in_seq. specialize (Hr x Hx). lia.
Qed.

Section Traversal.
Context (t : trie) (HF : forest t).
Let s : list block := store t.

Lemma children_edge l k c : (k, c) ∈ children (block_at s l) <-> edge s l k c.
Proof. split; [apply in_get, (f_wf t HF) | apply get_in]. Qed.

(** The ancestors of a block are distinct, so a walk down the tree is no longer
    than the store. *)
Lemma descend_fuel (rank : nat -> nat) l anc :
  (forall n k c, edge s n k c -> rank n < rank c) ->
  NoDup (l :: anc) -> (forall a, a ∈ l :: anc -> a < length s) ->
  (forall a, a ∈ anc -> rank a < rank l) ->
  S (length anc) <= length s /\
  forall k c, edge s l k c ->
    NoDup (c :: l :: anc) /\ (forall a, a ∈ c :: l :: anc -> a < length s)
    /\ forall a, a ∈ l :: anc -> rank a < rank c.
Proof.
  intros Hr Hd Hlt Hanc. split; [by apply (in_range_length (l :: anc))|].
  intros k c He. pose proof (Hr _ _ _ He) as Hlc.
  assert (Hall : forall a, a ∈ l :: anc -> rank a < rank c).
  { intros a [->|Ha]%elem_of_cons; [done|]. specialize (Hanc a Ha). lia. }
  split; [|split; [|done]].
  - apply NoDup_cons. split; [|done]. intros Hin. specialize (Hall c Hin). lia.
  - intros a [->|Ha]%elem_of_cons; [|by apply Hlt].
    destruct (t_edge _ _ _ (f_tree t HF) _ _ _ He) as (_ & Hc & _). unfold s. lia.
Qed.

Lemma nodes_total (rank : nat -> nat) fuel key l anc :
  (forall n k c, edge s n k c -> rank n < rank c) ->
  NoDup (l :: anc) -> (forall a, a ∈ l :: anc -> a < length s) ->
  (forall a, a ∈ anc -> rank a < rank l) -> length s <= length anc + fuel ->
  exists ns, nodes fuel s key l = Ok ns.
Proof.
  intros Hr. revert key l anc. induction fuel as [|fuel IH]; intros key l anc Hd Hlt Hanc Hf;
    destruct (descend_fuel rank l anc Hr Hd Hlt Hanc) as [Hlen Hdown]; [lia|]. cbn [nodes].
  destruct (mapM_total (fun kc => nodes fuel s (key ++ [fst kc]) (snd kc)) (children (block_at s l)))
    as [rest ->]; [|by eexists].
  intros [k c] Hin%list_elem_of_In%children_edge. cbn [fst snd].
  destruct (Hdown k c Hin) as (H1 & H2 & H3). apply (IH _ _ (l :: anc)); [done..|]. cbn. lia.
Qed.

Lemma prefix_total (rank : nat -> nat) fuel key l anc :
  (forall n k c, edge s n k c -> rank n < rank c) ->
  NoDup (l :: anc) -> (forall a, a ∈ l :: anc -> a < length s) ->
  (forall a, a ∈ anc -> rank a < rank l) -> length s <= length anc + fuel ->
  exists ks, prefix_from fuel s key l = Ok ks.
Proof.
  intros Hr. revert key l anc. induction fuel as [|fuel IH]; intros key l anc Hd Hlt Hanc Hf;
    destruct (descend_fuel rank l anc Hr Hd Hlt Hanc) as [Hlen Hdown]; [lia|]. cbn [prefix_from].
  destruct (children (block_at s l)) as [|[k c] [|]] eqn:E; [by eexists| |by eexists].
  destruct (Hdown k c) as (H1 & H2 & H3); [apply children_edge; rewrite E; left|].
  apply (IH _ _ (l :: anc)); [done..|]. cbn. lia.
Qed.

Lemma nodes_paths fuel key l ns :
  nodes fuel s key l = Ok ns ->
  forall key' l', (key', l') ∈ ns <-> exists ks, key' = key ++ ks /\ path s l ks l'.
Proof.
  revert key l ns. induction fuel as [|fuel IH]; intros key l ns H; [done|]. cbn [nodes] in H.
  apply bind_Ok_inv in H as (rest & Hrest & H). injection H as <-. apply mapM_Forall2 in Hrest.
  intros key' l'. rewrite elem_of_cons. split.
  - intros [[= -> ->]|Hin].
    + exists []. split; [by rewrite app_nil_r | constructor].
    + apply list_elem_of_In, in_concat in Hin as (ns' & Hns'%list_elem_of_In & Hin%list_elem_of_In).
      destruct (Forall2_elem_of_r _ _ _ _ Hrest Hns') as ([k c] & Hk%children_edge & E). cbn [fst snd] in E.
      pose proof (proj1 (IH _ _ _ E key' l') Hin) as (ks & Ek & Hp). exists (k :: ks).
      split; [by rewrite Ek, <- app_assoc | by eapply path_cons].
  - intros (ks & -> & Hp). destruct (path_inv _ _ _ _ Hp) as [[-> ->]|(k & c & ks' & -> & He & Hp')].
    + left. by rewrite app_nil_r.
    + right. apply children_edge in He. destruct (Forall2_elem_of_l _ _ _ _ Hrest He) as (ns' & Hns' & E).
      cbn [fst snd] in E. apply list_elem_of_In, in_concat. exists ns'. split; [by apply list_elem_of_In|].
      apply list_elem_of_In, (IH _ _ _ E). exists ks'. by rewrite <- app_assoc.
Qed.

(** Lists whose elements are tagged with distinct keys have distinct elements. *)
Lemma NoDup_concat_tagged {A B} (tag : A -> option B) (ks : list B) (nss : list (list A)) :
  NoDup ks -> Forall2 (fun k ns => NoDup ns /\ forall x, x ∈ ns -> tag x = Some k) ks nss ->
  NoDup (concat nss).
Proof.
  intros Hk HF2. induction HF2 as [|k ns ks nss [Hn Ht] HF2 IH]; cbn; [constructor|].
  apply NoDup_cons in Hk as [Hk Hks]. apply NoDup_app. split; [done|]. split; [|auto].
  intros x Hx Hin. apply list_elem_of_In, in_concat in Hin as (ns' & Hns'%list_elem_of_In & Hin%list_elem_of_In).
  destruct (Forall2_elem_of_r _ _ _ _ HF2 Hns') as (k' & Hk' & _ & Ht').
  specialize (Ht x Hx). specialize (Ht' x Hin). congruence.
Qed.

Lemma nodes_NoDup fuel key l ns : nodes fuel s key l = Ok ns -> NoDup ns.
Proof.
  revert key l ns. induction fuel as [|fuel IH]; intros key l ns H; [done|]. cbn [nodes] in H.
  apply bind_Ok_inv in H as (rest & Hrest & H). injection H as <-. apply mapM_Forall2 in Hrest.
  assert (HT : Forall2 (fun k (ns : list (list hash_t * nat)) =>
      NoDup ns /\ forall x, x ∈ ns -> fst x !! length key = Some k)
    (keys (children (block_at s l))) rest).
  { unfold keys. apply Forall2_fmap_l. eapply Forall2_impl; [exact Hrest|]. intros [k c] ns' E. cbn [fst snd] in *.
    split; [by eapply IH|]. intros [key' l'] Hin. apply (nodes_paths _ _ _ _ E) in Hin as (ks & -> & _).
    cbn [fst]. by rewrite <- app_assoc, lookup_app_r, Nat.sub_diag. }
  apply NoDup_cons. split; [|eapply NoDup_concat_tagged; [apply (f_wf t HF) | exact HT]].
  intros Hin. apply list_elem_of_In, in_concat in Hin as (ns' & Hns'%list_elem_of_In & Hin%list_elem_of_In).
  destruct (Forall2_elem_of_r _ _ _ _ HT Hns') as (k & _ & _ & Ht). specialize (Ht _ Hin).
  cbn [fst] in Ht. by rewrite lookup_ge_None_2 in Ht.
Qed.

Lemma path_root_unique ks1 ks2 l : path s root ks1 l -> path s root ks2 l -> ks1 = ks2.
Proof.
  intros H1. revert ks2. induction H1 as [|ks1 m1 k1 c H1 IH He1]; intros ks2 H2;
    inversion H2 as [|ks2' m2 k2 c2 H2' He2]; subst.
  - done.
  - apply (t_edge _ _ _ (f_tree t HF)) in He2. unfold root in *. lia.
  - apply (t_edge _ _ _ (f_tree t HF)) in He1. unfold root in *. lia.
  - pose proof (t_unique _ _ _ (f_tree t HF) _ _ _ _ _ He1 He2) as <-.
    destruct (t_edge _ _ _ (f_tree t HF) _ _ _ He1) as (_ & _ & <-).
    destruct (t_edge _ _ _ (f_tree t HF) _ _ _ He2) as (_ & _ & <-). by rewrite (IH _ H2').
Qed.

Lemma path_lt ks l : path s root ks l -> l < length s.
Proof.
  inversion 1 as [|ks' m k c H1 He]; subst; [apply (t_root _ _ _ (f_tree t HF))|].
  apply (t_edge _ _ _ (f_tree t HF)) in He. fold s in He. lia.
Qed.

Lemma path_exists l : l < length s -> exists ks, path s root ks l.
Proof.
  destruct (t_rank _ _ _ (f_tree t HF)) as [rank Hr]. remember (rank l) as r eqn:Er.
  revert l Er. induction (lt_wf r) as [r _ IH]; intros l -> Hl.
  destruct (decide (l = 0)) as [->|]; [exists []; constructor|].
  destruct (t_parent _ _ _ (f_tree t HF) l) as (m & k & He); [fold s; lia|].
  destruct (IH (rank m) (Hr _ _ _ He) m eq_refl) as [ks Hp]; [by eapply edge_lt|].
  exists (ks ++ [k]). by eapply path_snoc.
Qed.

Lemma singleton_root :
  NoDup [root] /\ (forall a, a ∈ [root] -> a < length s)
  /\ forall rank : nat -> nat, forall a, a ∈ ([] : list nat) -> rank a < rank root.
Proof.
  split; [apply NoDup_singleton|]. split; [|by intros ? ? ?%not_elem_of_nil].
  intros a ->%list_elem_of_singleton. apply (t_root _ _ _ (f_tree t HF)).
Qed.

Lemma all_nodes_spec : exists ns, all_nodes t = Ok ns /\ NoDup (map snd ns)
  /\ (forall l, l ∈ map snd ns <-> l < length (store t))
  /\ forall key l, (key, l) ∈ ns <-> path (store t) root key l.
Proof.
  destruct singleton_root as (H1 & H2 & H3). destruct (t_rank _ _ _ (f_tree t HF)) as [rank Hr].
  destruct (nodes_total rank (length s) [] root []) as [ns E]; auto.
  exists ns. split; [exact E|]. pose proof (nodes_paths _ _ _ _ E) as Hin.
  assert (Hin' : forall key l, (key, l) ∈ ns <-> path (store t) root key l).
  { intros key l. rewrite Hin. split; [by intros (ks & -> & ?) | by exists key]. }
  split; [|split; [|exact Hin']].
  - apply (NoDup_fmap_2_strong snd); [|by eapply nodes_NoDup].
    intros [k1 l1] [k2 l2] A1%Hin' A2%Hin' E'. cbn in E'. subst l2. f_equal. by eapply path_root_unique.
  - intros l. split.
    + intros ([k l'] & -> & A%Hin')%list_elem_of_fmap. by eapply path_lt.
    + intros [ks Hp]%path_exists. apply list_elem_of_fmap. exists (ks, l). by rewrite Hin'.
Qed.

(** Every other node lies on the common prefix or below it. *)
Lemma prefix_from_spec fuel key l ks :
  prefix_from fuel s key l = Ok ks ->
  exists tl m, ks = key ++ tl /\ path s l tl m /\ length (children (block_at s m)) <> 1
    /\ forall ks' m', path s l ks' m' -> tl `prefix_of` ks' \/ ks' `prefix_of` tl.
Proof.
  revert key l. induction fuel as [|fuel IH]; intros key l H; [done|]. cbn [prefix_from] in H.
  destruct (children (block_at s l)) as [|[k c] [|kc2 rest]] eqn:E.
  1,3: injection H as <-; exists [], l; rewrite E, app_nil_r; split; [done|]; split; [constructor|];
    split; [done|]; intros; left; apply prefix_nil.
  destruct (IH _ _ H) as (tl & m & -> & Hp & Hm & Hall). exists (k :: tl), m.
  assert (He : edge s l k c) by (apply children_edge; rewrite E; left).
  split; [by rewrite <- app_assoc|]. split; [by eapply path_cons|]. split; [done|].
  intros ks' m' Hp'. destruct (path_inv _ _ _ _ Hp') as [[-> ->]|(k1 & c1 & ks1 & -> & He1 & Hp1)].
  - right. apply prefix_nil.
  - apply children_edge in He1. rewrite E in He1. apply list_elem_of_singleton in He1 as [= -> ->].
    destruct (Hall _ _ Hp1); [left | right]; by apply prefix_cons.
Qed.

Lemma prefix_spec : exists ks, prefix t = Ok ks
  /\ (exists m, path (store t) root ks m /\ length (children (block_at (store t) m)) <> 1)
  /\ forall ks' m', path (store t) root ks' m' -> ks `prefix_of` ks' \/ ks' `prefix_of` ks.
Proof.
  destruct singleton_root as (H1 & H2 & H3). destruct (t_rank _ _ _ (f_tree t HF)) as [rank Hr].
  destruct (prefix_total rank (length s) [] root []) as [ks E]; auto.
  exists ks. split; [exact E|]. destruct (prefix_from_spec _ _ _ _ E) as (tl & m & -> & Hp & Hm & Hall).
  split; [by exists m|]. exact Hall.
Qed.
End Traversal.

(** ** What [insert] builds *)
Lemma insertChild_new s n k :
  n < length s -> get (children (block_at s n)) k = None ->
  exists s', insertChild s n k = (length s, s') /\ length s' = S (length s)
    /\ block_at s' (length s) = new_block k
    /\ forall m k', m < length s -> (m = n /\ k' = k) \/ 
         get (children (block_at s' m)) k' = get (children (block_at s m)) k'.
Proof.
  intros Hn Eg. unfold insertChild. rewrite Eg. eexists. split; [done|].
  split; [rewrite length_app, length_insert; cbn; lia|]. split.
  - rewrite block_at_app, length_insert. by rewrite decide_True.
  - intros m k' Hm. rewrite block_at_app, length_insert, decide_False by lia. rewrite block_at_upd.
    destruct (decide (m = n)) as [->|]; [|right; by rewrite decide_False by (by intros [? ?])].
    rewrite decide_True by done. destruct (decide (k' = k)) as [->|]; [by left|right].
    cbn [children set_children]. by rewrite get_set_ne.
Qed.

(** A hash in [blocks] whose block has no child of the same hash. *)
Definition no_self_child (t : trie) (k : hash_t) (l : nat) : Prop :=
  get (blocks t) k = Some l /\ get (children (block_at (store t) l)) k = None.

(** The block under which the loop of [insert] puts [k]. *)
Definition parent_of (t : trie) (n : nat) (k : hash_t) : nat :=
  match get (blocks t) k with Some l => l | None => n end.

(** One turn of the loop of [insert] that makes a new block. *)
Lemma insert_part_new t n k :
  forest t -> parent_of t n k < length (store t) ->
  get (children (block_at (store t) (parent_of t n k))) k = None ->
  exists t', insert_part (t, n) k = (t', length (store t))
    /\ length (store t') = S (length (store t))
    /\ edge (store t') (parent_of t n k) k (length (store t))
    /\ (forall m k' c, edge (store t) m k' c -> edge (store t') m k' c)
    /\ no_self_child t' k (length (store t))
    /\ (forall k', k' <> k -> get (blocks t') k' = get (blocks t) k')
    /\ (forall k' l, k' <> k -> no_self_child t k' l -> no_self_child t' k' l).
Proof.
  intros HF Hp Hg. destruct (insertChild_new _ _ _ Hp Hg) as (s' & Ei & Hl & Hnew & Hold).
  exists (Trie s' (set k (length (store t)) (blocks t))).
  unfold insert_part. fold (parent_of t n k). rewrite Ei. cbn [store blocks].
  assert (Hedge : forall m k' c, edge (store t) m k' c -> edge s' m k' c).
  { intros m k' c H. destruct (Hold m k') as [[-> ->]|E]; [by eapply edge_lt| |].
    - unfold edge in H. congruence.
    - unfold edge. by rewrite E. }
  split; [done|]. split; [done|]. split; [|split; [exact Hedge|]].
  - pose proof (insertChild_spec t _ k _ _ HF Hp Ei) as (_ & H & _). exact H.
  - split; [|split].
    + split; cbn [store blocks]; [apply get_set_eq | by rewrite Hnew].
    + intros k' Hk. by apply get_set_ne.
    + intros k' l Hk [Hb Hc]. split; cbn [store blocks]; [by rewrite get_set_ne|].
      destruct (Hold l k') as [[_ ?]|E]; [by apply (f_blocks t HF) in Hb as [? _]; lia|done|].
      by rewrite E.
Qed.

Lemma unknown_no_edge t n k : forest t -> get (blocks t) k = None -> get (children (block_at (store t) n)) k = None.
Proof.
  intros HF Hk. destruct (get (children (block_at (store t) n)) k) as [c|] eqn:E; [|done].
  destruct (t_edge _ _ _ (f_tree t HF) _ _ _ E) as (_ & Hc & Hh).
  destruct (f_known t HF c Hc) as [l Hl]. rewrite Hh in Hl. congruence.
Qed.

Lemma path_mono s s' l ks m :
  (forall n k c, edge s n k c -> edge s' n k c) -> path s l ks m -> path s' l ks m.
Proof. intros H. induction 1; [constructor | eapply path_snoc; eauto]. Qed.

(** Unknown hashes become a new path below the block where the loop starts. *)
Lemma insert_parts_fresh ks t n :
  forest t -> n < length (store t) -> NoDup ks -> (forall k, k ∈ ks -> get (blocks t) k = None) ->
  exists t' n', fold_left insert_part ks (t, n) = (t', n') /\ forest t'
    /\ length (store t') = length (store t) + length ks /\ path (store t') n ks n'
    /\ (forall k, k ∈ ks -> exists l, no_self_child t' k l)
    /\ (forall m k' c, edge (store t) m k' c -> edge (store t') m k' c)
    /\ (forall k' l, k' ∉ ks -> no_self_child t k' l -> no_self_child t' k' l).
Proof.
  revert t n. induction ks as [|k ks IH]; intros t n HF Hn Hd Hfr; cbn [fold_left].
  { exists t, n. split; [done|]. split; [done|]. cbn. split; [lia|]. split; [constructor|].
    split; [by intros k ?%not_elem_of_nil|]. by split. }
  apply NoDup_cons in Hd as [Hk Hd]. pose proof (Hfr k ltac:(left)) as Hkn.
  assert (Hpar : parent_of t n k = n) by (unfold parent_of; by rewrite Hkn).
  destruct (insert_part_new t n k HF) as (t1 & E & Hl & He & Hmono & Hns & Hb & Hns');
    rewrite ?Hpar in *; [done|by apply unknown_no_edge|].
  destruct (insert_part_spec _ _ _ _ _ HF Hn E) as (HF1 & Hn1 & _).
  destruct (IH t1 (length (store t)) HF1 Hn1 Hd) as (t' & n' & E' & HF' & Hl' & Hp & Hall & Hmono' & Hkeep).
  { intros k' Hk'. rewrite Hb by (intros ->; done). apply Hfr. by right. }
  rewrite E. exists t', n'. split; [exact E'|]. split; [done|]. cbn [length].
  split; [lia|]. split; [eapply path_cons; [apply Hmono', He | exact Hp]|]. split; [|split].
  - intros k' [->|Hk']%elem_of_cons; [|by apply Hall]. exists (length (store t)). by apply Hkeep.
  - intros m k' c H. by apply Hmono', Hmono.
  - intros k' l [Hne Hni]%not_elem_of_cons H. apply Hkeep; [done|]. by apply Hns'.
Qed.

(** Known hashes each get a new child of the same hash. *)
Lemma insert_parts_known ks t n :
  forest t -> n < length (store t) -> NoDup ks -> (forall k, k ∈ ks -> exists l, no_self_child t k l) ->
  exists t' n', fold_left insert_part ks (t, n) = (t', n')
    /\ length (store t') = length (store t) + length ks
    /\ (forall m k' c, edge (store t) m k' c -> edge (store t') m k' c)
    /\ (forall k, k ∈ ks -> exists l c, get (blocks t) k = Some l /\ edge (store t') l k c
                                        /\ length (store t) <= c).
Proof.
  revert t n. induction ks as [|k ks IH]; intros t n HF Hn Hd Hks; cbn [fold_left].
  { exists t, n. cbn. split; [done|]. split; [lia|]. split; [done|]. by intros k ?%not_elem_of_nil. }
  apply NoDup_cons in Hd as [Hk Hd]. destruct (Hks k ltac:(left)) as (l & Hbl & Hcl).
  assert (Hpar : parent_of t n k = l) by (unfold parent_of; by rewrite Hbl).
  destruct (f_blocks t HF _ _ Hbl) as [Hlr _].
  destruct (insert_part_new t n k HF) as (t1 & E & Hl & He & Hmono & _ & Hb & Hns');
    rewrite ?Hpar in *; [lia|done|].
  destruct (insert_part_spec _ _ _ _ _ HF Hn E) as (HF1 & Hn1 & _).
  destruct (IH t1 (length (store t)) HF1 Hn1 Hd) as (t' & n' & E' & Hl' & Hmono' & Hall).
  { intros k' Hk'. destruct (Hks k' ltac:(by right)) as [l' Hl'']. exists l'. apply Hns'; [|done]. by intros ->. }
  rewrite E. exists t', n'. split; [exact E'|]. cbn [length]. split; [lia|]. split.
  - intros m k' c H. by apply Hmono', Hmono.
  - intros k' [->|Hk']%elem_of_cons; [exists l, (length (store t)); by auto|].
    destruct (Hall k' Hk') as (l' & c & H1 & H2 & H3). exists l', c.
    rewrite <- Hb by (by intros ->). split; [done|]. split; [done|lia].
Qed.

Lemma edge_append_label s n v m k c : edge (append_label s n v) m k c <-> edge s m k c.
Proof. unfold edge, append_label. by rewrite (proj2 (proj2 (relabel_shape s n _ _) m)). Qed.

Lemma last_of_chain (chain : list hash_t) : chain <> [] -> exists k, py_nth chain (-1) = Ok k /\ k ∈ chain.
Proof.
  intros Hne. destruct chain as [|x l] using rev_ind; [done|]. exists x. split; [|apply elem_of_app; right; left].
  unfold py_nth. cbn [Z.ltb Z.compare]. rewrite zlength_app.
  replace (zlength [x]) with 1%Z by done. pose proof (zlength_nonneg l).
  destruct (Z.ltb_spec (zlength l + 1 + -1) 0); [lia|].
  replace (Z.to_nat (zlength l + 1 + -1)) with (length l) by (unfold zlength; lia).
  by rewrite nth_error_app2, Nat.sub_diag.
Qed.

Lemma insert_eq t chain label :
  chain <> [] -> exists k, k ∈ chain /\ insert t chain label =
    let '(t1, n1) := fold_left insert_part chain (t, start t k) in
    Ok (Trie (append_label (store t1) n1 label) (blocks t1)).
Proof. intros (k & E & Hk)%last_of_chain. exists k. split; [done|]. unfold insert. by rewrite E. Qed.

Lemma edge_maybe_append s n v m k c : edge (maybe_append s n v) m k c <-> edge s m k c.
Proof. unfold edge. by rewrite (proj2 (proj2 (maybe_append_shape s n v) m)). Qed.

Lemma parent_of_lt t n k : forest t -> n < length (store t) -> parent_of t n k < length (store t).
Proof.
  intros HF Hn. unfold parent_of. destruct (get (blocks t) k) as [l|] eqn:E; [|done].
  apply (f_blocks t HF) in E. lia.
Qed.

Lemma insert_part_edges t n k t' n' :
  forest t -> n < length (store t) -> insert_part (t, n) k = (t', n') ->
  edge (store t') (parent_of t n k) k n'
  /\ forall m k' c, edge (store t) m k' c -> edge (store t') m k' c.
Proof.
  intros HF Hn H. pose proof (parent_of_lt t n k HF Hn) as Hp.
  destruct (get (children (block_at (store t) (parent_of t n k))) k) as [c|] eqn:E.
  - unfold insert_part in H. fold (parent_of t n k) in H. unfold insertChild in H. rewrite E in H.
    injection H as <- <-. by split.
  - destruct (insert_part_new t n k HF Hp E) as (t1 & E1 & _ & He & Hm & _).
    rewrite E1 in H. injection H as <- <-. by split.
Qed.

Lemma insert_link_edge t parent child label :
  forest t -> get (blocks t) parent = None -> get (blocks t) child = None ->
  exists t' m n, insert t [parent; child] label = Ok t'
    /\ edge (store t') m child n /\ hash (block_at (store t') m) = parent.
Proof.
  intros HF Hp Hc. unfold insert. cbn [py_nth zlength length Z.of_nat bind].
  change (py_nth [parent; child] (-1)) with (Ok child). cbn [bind fold_left].
  rewrite Hc. change (match None with Some l => l | None => root end) with root.
  pose proof (t_root _ _ _ (f_tree t HF)) as H0.
  destruct (insert_part (t, root) parent) as [t1 n1] eqn:E1.
  destruct (insert_part_spec _ _ _ _ _ HF H0 E1) as (HF1 & Hn1 & Hb1).
  destruct (insert_part_edges _ _ _ _ _ HF H0 E1) as [He1 _].
  destruct (insert_part (t1, n1) child) as [t2 n2] eqn:E2.
  destruct (insert_part_spec _ _ _ _ _ HF1 Hn1 E2) as (HF2 & Hn2 & _).
  destruct (insert_part_edges _ _ _ _ _ HF1 Hn1 E2) as [He2 Hm2].
  assert (Hpar : parent_of t1 n1 child = n1).
  { unfold parent_of. unfold insert_part in E1. destruct (insertChild _ _ _) as [c s] in E1.
    injection E1 as <- <-. cbn [blocks]. rewrite get_set. by case_decide; [|rewrite Hc]. }
  rewrite Hpar in He2. eexists _, n1, n2. split; [done|]. cbn [store].
  split; [by apply edge_append_label|].
  unfold append_label. rewrite (proj1 (proj2 (relabel_shape (store t2) n2 _ _) n1)).
  apply Hm2 in He1. by destruct (t_edge _ _ _ (f_tree t2 HF2) _ _ _ He1) as (_ & _ & ->).
Qed.

Lemma insertLink_edge t parent child v :
  forest t ->
  match insertLink t parent child v with
  | Ok t' => exists m n, edge (store t') m child n /\ hash (block_at (store t') m) = parent
  | Err e => e = KeyError /\ get (blocks t) parent = None
             /\ is_Some (get (blocks t) child) /\ forall c, ~ edge (store t) root child c
  end.
Proof.
  intros HF. unfold insertLink. destruct (get (blocks t) parent) as [p|] eqn:Ep.
  - destruct (f_blocks t HF _ _ Ep) as [Hpr Hph].
    destruct (insertChild (store t) p child) as [c s] eqn:Ei. cbn [store]. exists p, c.
    destruct (insertChild_spec t p child c s HF ltac:(lia) Ei) as (HF' & He & _).
    split; [by apply edge_maybe_append|]. rewrite (proj1 (proj2 (maybe_append_shape s c v) p)).
    unfold insertChild in Ei. destruct (get _ child) in Ei; injection Ei as <- <-; [done|].
    rewrite block_at_app, length_insert, decide_False, block_at_upd by lia. by case_decide.
  - destruct (mem child (blocks t)) eqn:Em.
    + unfold get_item. destruct (get (children (block_at (store t) root)) child) as [c|] eqn:Ec; cbn [bind].
      * rewrite (splice_alloc t HF parent child) by done. cbn [store].
        exists (length (store t)), c. rewrite edge_maybe_append, (proj1 (proj2 (maybe_append_shape _ c v) _)).
        pose proof (splice_edge t HF parent child c Ep Ec (length (store t)) child c) as He.
        pose proof (splice_at t HF parent child c Ep Ec (length (store t))) as Ha.
        rewrite (splice_alloc t HF parent child) in He, Ha by done. cbn [snd] in He, Ha.
        rewrite Ha, decide_True by done. split; [|done]. apply He. auto.
      * split; [done|]. split; [done|]. unfold mem in Em. split; [by destruct (get (blocks t) child)|].
        intros c. unfold edge. by rewrite Ec.
    + unfold mem in Em. destruct (get (blocks t) child) eqn:Ec; [done|].
      destruct (insert_link_edge t parent child v HF Ep Ec) as (t' & m & n & -> & H). by exists m, n.
Qed.

(** ** Properties *)

(** C6: in every trie built by [insert] and [insertLink] from the empty one,
    [nodes] terminates and yields every block exactly once, each with the path of
    hashes that leads to it from the root. *)
Theorem nodes_once (t : trie) :
  reachable t ->
  exists ns, all_nodes t = Ok ns /\ NoDup (map snd ns)
    /\ (forall l, l ∈ map snd ns <-> l < length (store t))
    /\ forall key l, (key, l) ∈ ns <-> path (store t) root key l.
Proof. intros H. apply all_nodes_spec. by apply reachable_forest. Qed.

(** in every trie the operations build, [prefix] terminates and returns the
    longest common prefix of the chains: every path from the root extends it or is a
    part of it, and the block it ends in does not have exactly one child. *)
Theorem prefix_longest (t : trie) :
  reachable t ->
  exists ks, prefix t = Ok ks
    /\ (exists m, path (store t) root ks m /\ length (children (block_at (store t) m)) <> 1)
    /\ forall ks' m', path (store t) root ks' m' -> ks `prefix_of` ks' \/ ks' `prefix_of` ks.
Proof. intros H. apply prefix_spec. by apply reachable_forest. Qed.

(** [insertLink] raises only KeyError, exactly when the parent is unknown and
    the child is known but is not a child of the root; otherwise it leaves the child
    below a block with the parent's hash. *)
Theorem insertLink_outcome (t : trie) (parent child v : hash_t) :
  reachable t ->
  match insertLink t parent child v with
  | Ok t' => exists m n, edge (store t') m child n /\ hash (block_at (store t') m) = parent
  | Err e => e = KeyError /\ get (blocks t) parent = None
             /\ is_Some (get (blocks t) child) /\ forall c, ~ edge (store t) root child c
  end.
Proof. intros H. by apply insertLink_edge, reachable_forest. Qed.

(** inserting a chain of unknown hashes makes the path of that chain below the
    root, one block per hash; inserting the same chain a second time makes one more
    block per hash, each a child of the first block with the same hash, so that two
    daemons with the same chain look forked. *)
Theorem insert_twice_duplicates (t : trie) (chain : list hash_t) (label1 label2 : hash_t) :
  reachable t -> chain <> [] -> NoDup chain -> (forall k, k ∈ chain -> get (blocks t) k = None) ->
  exists t1 t2, insert t chain label1 = Ok t1 /\ insert t1 chain label2 = Ok t2
    /\ (exists m, path (store t1) root chain m)
    /\ length (store t1) = length (store t) + length chain
    /\ length (store t2) = length (store t) + 2 * length chain
    /\ forall k, k ∈ chain -> exists l c, get (blocks t1) k = Some l /\ edge (store t2) l k c.
Proof.
  intros HR Hne Hd Hfr. pose proof (reachable_forest t HR) as HF.
  destruct (insert_eq t chain label1 Hne) as (k1 & Hk1 & E1). rewrite E1.
  assert (Hs : start t k1 = root) by (unfold start; by rewrite Hfr). rewrite Hs.
  pose proof (t_root _ _ _ (f_tree t HF)) as H0.
  destruct (insert_parts_fresh chain t root HF H0 Hd Hfr) as (ta & na & -> & HFa & Hla & Hpa & Hall & _).
  set (t1 := Trie (append_label (store ta) na label1) (blocks ta)).
  assert (HF1 : forest t1) by (destruct ta; by apply forest_append_label).
  assert (Hl1 : length (store t1) = length (store ta)) by apply relabel_shape.
  destruct (insert_eq t1 chain label2 Hne) as (k2 & Hk2 & E2).
  destruct (insert_parts_known chain t1 (start t1 k2) HF1 (start_lt t1 k2 HF1) Hd) as (tb & nb & Eb & Hlb & _ & Hkb).
  { intros k Hk. destruct (Hall k Hk) as (l & H1 & H2). exists l. split; [done|]. cbn [store t1].
    unfold append_label. by rewrite (proj2 (proj2 (relabel_shape (store ta) na _ _) l)). }
  rewrite Eb in E2. exists t1. eexists. split; [done|]. split; [exact E2|]. cbn [store].
  split; [exists na; eapply path_mono; [|exact Hpa]; intros; by apply edge_append_label|].
  split; [lia|]. split; [unfold append_label; rewrite length_insert; lia|].
  intros k Hk. destruct (Hkb k Hk) as (l & c & H1 & H2 & _). exists l, c. split; [done|].
  by apply edge_append_label.
Qed.

(** ** Examples and witnesses *)
Definition chain_abc : list hash_t := [Some "a"%string; Some "b"%string; Some "c"%string].

(** The trie of [ops]: chains with their labels, then links. *)
Definition build (chains : list (list hash_t * hash_t)) : trie :=
  match foldM (fun t cl => insert t (fst cl) (snd cl)) chains empty_trie with
  | Ok t => t
  | Err _ => empty_trie
  end.

Example prefix_once : prefix (build [(chain_abc, Some "x"%string)]) = Ok chain_abc.
Proof. reflexivity. Qed.

Example prefix_twice :
  prefix (build [(chain_abc, Some "x"%string); (chain_abc, Some "y"%string)]) = Ok [Some "a"%string].
Proof. reflexivity. Qed.

Lemma build_reachable : reachable (build [(chain_abc, Some "x"%string); (chain_abc, Some "y"%string)]).
Proof.
  apply (reach_step (build [(chain_abc, Some "x"%string)])).
  - apply (reach_step empty_trie); [constructor|]. by apply (step_insert _ chain_abc (Some "x"%string)).
  - by apply (step_insert _ chain_abc (Some "y"%string)).
Qed.

Lemma nodes_once_witness :
  exists ns, all_nodes (build [(chain_abc, Some "x"%string); (chain_abc, Some "y"%string)]) = Ok ns
             /\ NoDup (map snd ns) /\ length ns = 7.
Proof.
  destruct (nodes_once _ build_reachable) as (ns & E & Hd & _).
  exists ns. split; [exact E|]. split; [exact Hd|]. vm_compute in E. injection E as <-. reflexivity.
Defined.

Lemma prefix_longest_witness :
  exists ks, prefix (build [(chain_abc, Some "x"%string); (chain_abc, Some "y"%string)]) = Ok ks
             /\ ks = [Some "a"%string].
Proof.
  destruct (prefix_longest _ build_reachable) as (ks & E & _).
  exists ks. split; [exact E|]. vm_compute in E. injection E as <-. reflexivity.
Defined.

Lemma insertLink_outcome_witness :
  let t := build [(chain_abc, Some "x"%string)] in
  insertLink t (Some "z"%string) (Some "b"%string) None = Err KeyError
  /\ forall c, ~ edge (store t) root (Some "b"%string) c.
Proof.
  cbv zeta. pose proof (insertLink_outcome (build [(chain_abc, Some "x"%string)])
    (Some "z"%string) (Some "b"%string) None) as H.
  split; [reflexivity|]. apply H. apply (reach_step empty_trie); [constructor|].
  by apply (step_insert _ chain_abc (Some "x"%string)).
Defined.

Lemma insert_twice_duplicates_witness :
  exists t1 t2, insert empty_trie chain_abc (Some "x"%string) = Ok t1
    /\ insert t1 chain_abc (Some "y"%string) = Ok t2 /\ length (store t2) = 7.
Proof.
  destruct (insert_twice_duplicates empty_trie chain_abc (Some "x"%string) (Some "y"%string))
    as (t1 & t2 & E1 & E2 & _ & _ & Hl & _).
  - constructor.
  - done.
  - unfold chain_abc. repeat (apply NoDup_cons; split; [by rewrite ?not_elem_of_cons; repeat split; try apply not_elem_of_nil|]).
    constructor.
  - done.
  - exists t1, t2. split; [exact E1|]. split; [exact E2|]. rewrite Hl. reflexivity.
Defined.
