(* ===== verification/TrieView.v ===== *)
(** * What a best-tip trie says: its links and its tips

    The trie of [best_tip_trie.py] is a structure of shared mutable blocks; seen from
    outside, only three things matter: the hashes it knows, the pairs of a parent's and a
    child's hash that its blocks make, and the labels with the hash of their block.  The
    operations of Trie refine the operations on these three lists. *)

From stdpp Require Import base list strings.
From Stdlib Require Import Lia.
From S2P Require Import Prelude Dict PySet Trie.
Open Scope nat_scope.

(** The root's hash is [None]. *)
Record spec : Type := Spec {
  known : list hash_t;
  links : list (hash_t * hash_t);     (* parent, child *)
  tips : list (hash_t * hash_t)       (* label, hash *)
}.

Definition spec_part (st : spec * hash_t) (k : hash_t) : spec * hash_t :=
  let '(sp, prev) := st in
  (Spec (k :: known sp) ((if bool_decide (k ∈ known sp) then k else prev, k) :: links sp) (tips sp), k).

(** [insert]: a known hash is put below itself, an unknown one below the hash before it; the
    first one goes below the root, or below the last hash of the chain when that is known. *)
Definition spec_insert (sp : spec) (chain : list hash_t) (label : hash_t) : spec :=
  let start := match last chain with
               | Some z => if bool_decide (z ∈ known sp) then z else None
               | None => None
               end in
  let '(sp', tip) := fold_left spec_part chain (sp, start) in
  Spec (known sp') (links sp') ((label, tip) :: tips sp').

(** [insertLink] *)
Definition spec_link (sp : spec) (parent child value : hash_t) : spec :=
  if bool_decide (parent ∈ known sp) then Spec (child :: known sp) ((parent, child) :: links sp) (tips sp)
  else if bool_decide (child ∈ known sp) then
    Spec (parent :: known sp)
      ((parent, child) :: (None, parent) :: List.filter (fun l => negb (bool_decide (l = (None, child)))) (links sp)) (tips sp)
  else spec_insert sp [parent; child] value.

Definition named_link (t : trie) (a b : hash_t) : Prop :=
  exists m c, edge (store t) m b c /\ hash (block_at (store t) m) = a.

Definition tip_of (t : trie) (label a : hash_t) : Prop :=
  exists m, label ∈ labels (block_at (store t) m) /\ hash (block_at (store t) m) = a.

Record view (t : trie) (sp : spec) : Prop := {
  v_forest : forest t;
  v_root : hash (block_at (store t) root) = None;
  v_root_labels : labels (block_at (store t) root) = [];
  v_some : forall m, 0 < m < length (store t) -> is_Some (hash (block_at (store t) m));
  v_known : forall k, k ∈ known sp <-> is_Some (get (blocks t) k);
  v_links : forall a b, (a, b) ∈ links sp <-> named_link t a b;
  v_tips : forall l a, (l, a) ∈ tips sp <-> tip_of t l a
}.

Lemma view_empty : view empty_trie (Spec [] [] []).
Proof.
  assert (HB : forall m, block_at (store empty_trie) m = new_block None) by (intros [|[|m]]; done).
  split; try done; [exact forest_empty|..].
  - intros m Hm. cbn in Hm. lia.
  - intros k. cbn. split; [by intros ?%elem_of_nil | by intros []].
  - intros a b. split; [by intros ?%elem_of_nil|]. intros (m & c & H & _). unfold edge in H. by rewrite HB in H.
  - intros a b. split; [by intros ?%elem_of_nil|]. intros (m & H & _). rewrite HB in H. by apply elem_of_nil in H.
Qed.

(** ** [insertChild] *)
Lemma insertChild_shape s n k c s' : n < length s -> (forall m, wf (children (block_at s m))) -> insertChild s n k = (c, s') ->
  (forall m, labels (block_at s' m) = labels (block_at s m)) /\
  (forall m, m < length s -> hash (block_at s' m) = hash (block_at s m)) /\
  (forall m, length s <= m < length s' -> hash (block_at s' m) = k) /\ length s <= length s' /\
  (forall m k' d, edge s' m k' d <-> edge s m k' d \/ (m = n /\ k' = k /\ d = c)).
Proof.
  intros Hn Hw H. unfold insertChild in H. destruct (get (children (block_at s n)) k) as [c'|] eqn:E.
  - injection H as <- <-. split_and!; [done | done | intros m Hm; lia | done |].
    intros m k' d. split; [by left|]. intros [H|(-> & -> & ->)]; done.
  - injection H as <- <-. set (b := set_children _ _).
    assert (Hat : forall m, block_at (<[n := b]> s ++ [new_block k]) m =
      if decide (m = length s) then new_block k else if decide (m = n) then b else block_at s m).
    { intros m. rewrite block_at_app, length_insert, block_at_upd. case_decide; [done|].
      destruct (decide (m = n)) as [->|]; [by rewrite decide_True | by rewrite decide_False by (by intros [? ?])]. }
    assert (Hl : length (<[n := b]> s ++ [new_block k]) = S (length s)) by (rewrite length_app, length_insert; cbn; lia).
    split_and!.
    + intros m. rewrite Hat. repeat case_decide; subst; [by rewrite block_at_ge|done|done].
    + intros m Hm. rewrite Hat. repeat case_decide; subst; [lia|done|done].
    + intros m Hm. rewrite Hat, decide_True; [done|lia].
    + lia.
    + intros m k' d. unfold edge. rewrite Hat. repeat case_decide; subst; cbn [children new_block].
      * rewrite block_at_ge by lia. cbn. split; [done|]. intros [?|(Em & _)]; [done | lia].
      * unfold b. cbn [children set_children]. rewrite get_set. case_decide as D.
        -- subst. rewrite E. split; [intros [= <-]; by right | by intros [?|(_ & _ & ->)]].
        -- split; [by left | by intros [?|(_ & ? & _)]].
      * split; [by left | by intros [?|(? & _)]].
Qed.

Lemma view_insertChild t sp n k c s :
  view t sp -> n < length (store t) -> is_Some k -> insertChild (store t) n k = (c, s) ->
  view (Trie s (set k c (blocks t))) (Spec (k :: known sp) ((hash (block_at (store t) n), k) :: links sp) (tips sp)) /\
  hash (block_at s c) = k /\ 0 < c < length s.
Proof.
  intros V Hn Hk H. destruct (insertChild_spec t n k c s (v_forest _ _ V) Hn H) as (HF & He & Hc & _).
  destruct (insertChild_shape _ _ _ _ _ Hn (f_wf t (v_forest _ _ V)) H) as (Hlab & Hh & Hnew & Hle & HE).
  pose proof (t_root _ _ _ (f_tree t (v_forest _ _ V))) as H0.
  assert (Hedge_lt : forall m k' d, edge s m k' d -> m < length (store t)).
  { intros m k' d [E|(-> & _)]%HE; [by eapply edge_lt | done]. }
  split; [|split; [by destruct (t_edge _ _ _ (f_tree _ HF) _ _ _ He) as (_ & _ & ?) | done]].
  split; cbn [store blocks known links tips]; [done|..].
  - unfold root. rewrite Hh by done. apply (v_root _ _ V).
  - rewrite Hlab. apply (v_root_labels _ _ V).
  - intros m Hm. destruct (decide (m < length (store t))); [rewrite Hh by done; apply (v_some _ _ V); lia|].
    by rewrite Hnew by lia.
  - intros k'. rewrite elem_of_cons, (v_known _ _ V), get_set. case_decide; naive_solver.
  - intros a b. rewrite elem_of_cons, (v_links _ _ V). split.
    + intros [[= -> ->]|(m & d & E & <-)].
      * exists n, c. split; [done|]. by apply Hh.
      * exists m, d. split; [apply HE; by left|]. apply Hh. by eapply edge_lt.
    + intros (m & d & E & <-). cbn [store] in *. rewrite (Hh m) by (by eapply Hedge_lt).
      apply HE in E as [E|(-> & -> & ->)]; [right; by exists m, d | by left].
  - intros l a. rewrite (v_tips _ _ V). unfold tip_of. cbn [store]. split; intros (m & Hm & <-); exists m; rewrite Hlab in *; (split; [done|]).
    all: assert (m < length (store t)) by (destruct (decide (m < length (store t))); [done|];
      rewrite block_at_ge in Hm by lia; by apply elem_of_nil in Hm).
    all: by rewrite Hh.
Qed.

(** ** [insert] *)
Lemma parent_hash t sp n k prev : view t sp -> hash (block_at (store t) n) = prev ->
  hash (block_at (store t) (parent_of t n k)) = if bool_decide (k ∈ known sp) then k else prev.
Proof.
  intros V Hp. unfold parent_of. pose proof (v_known _ _ V k) as Hk. destruct (get (blocks t) k) as [l|] eqn:E.
  - rewrite bool_decide_eq_true_2 by (apply Hk; by eexists). by apply (f_blocks t (v_forest _ _ V)) in E as [_ ?].
  - rewrite bool_decide_eq_false_2; [done|]. intros H. apply Hk in H as [? ?]. done.
Qed.

Lemma view_insert_part t sp n prev k t' n' :
  view t sp -> n < length (store t) -> hash (block_at (store t) n) = prev -> is_Some k -> insert_part (t, n) k = (t', n') ->
  view t' (fst (spec_part (sp, prev) k)) /\ n' < length (store t') /\ hash (block_at (store t') n') = k /\ 0 < n'.
Proof.
  intros V Hn Hp Hk H. unfold insert_part in H. fold (parent_of t n k) in H.
  destruct (insertChild (store t) (parent_of t n k) k) as [c s] eqn:E. injection H as <- <-.
  destruct (view_insertChild t sp _ k c s V (parent_of_lt t n k (v_forest _ _ V) Hn) Hk E) as (V' & Hc & Hl).
  rewrite (parent_hash t sp n k prev V Hp) in V'. split; [exact V'|]. cbn [store]. split; [lia|]. split; [done|lia].
Qed.

Lemma view_insert_parts ks t sp n prev t' n' :
  view t sp -> n < length (store t) -> hash (block_at (store t) n) = prev -> Forall (fun k : hash_t => is_Some k) ks ->
  fold_left insert_part ks (t, n) = (t', n') ->
  view t' (fst (fold_left spec_part ks (sp, prev))) /\ hash (block_at (store t') n') = snd (fold_left spec_part ks (sp, prev)) /\
  n' < length (store t') /\ (ks <> [] -> 0 < n').
Proof.
  intros V Hn Hp Hs. revert t sp n prev V Hn Hp. induction Hs as [|k ks Hk Hs IH]; intros t sp n prev V Hn Hp H; cbn [fold_left] in H.
  - injection H as <- <-. by split_and!.
  - destruct (insert_part (t, n) k) as [t1 n1] eqn:E.
    destruct (view_insert_part _ _ _ _ _ _ _ V Hn Hp Hk E) as (V1 & Hn1 & Hh1 & Hpos). cbn [fold_left spec_part].
    destruct (IH t1 _ n1 k V1 Hn1 Hh1 H) as (H1 & H2 & H3 & H4). split_and!; [exact H1 | exact H2 | done |].
    intros _. destruct ks; [|by apply H4]. cbn in H. congruence.
Qed.

Lemma view_append_label t sp n l : view t sp -> 0 < n < length (store t) ->
  view (Trie (append_label (store t) n l) (blocks t)) (Spec (known sp) (links sp) ((l, hash (block_at (store t) n)) :: tips sp)).
Proof.
  intros V Hn. destruct (relabel_shape (store t) n (labels (block_at (store t) n) ++ [l]) (value (block_at (store t) n))) as [Hlen Hsh].
  fold (append_label (store t) n l) in Hlen, Hsh.
  assert (Hlab : forall m x, x ∈ labels (block_at (append_label (store t) n l) m) <-> x ∈ labels (block_at (store t) m) \/ (m = n /\ x = l)).
  { intros m x. unfold append_label. rewrite block_at_upd. case_decide as D.
    - destruct D as [-> _]. cbn [labels]. rewrite elem_of_app, list_elem_of_singleton. naive_solver.
    - naive_solver lia. }
  split; cbn [store blocks known links tips].
  - apply forest_append_label. destruct t. apply (v_forest _ _ V).
  - rewrite (proj1 (Hsh root)). apply (v_root _ _ V).
  - unfold append_label. rewrite block_at_upd, decide_False by (unfold root; lia). apply (v_root_labels _ _ V).
  - intros m. rewrite Hlen, (proj1 (Hsh m)). apply (v_some _ _ V).
  - apply (v_known _ _ V).
  - intros a b. rewrite (v_links _ _ V). unfold named_link. cbn [store]. split; intros (m & c & E & Hm); exists m, c.
    + by rewrite edge_append_label, (proj1 (Hsh m)).
    + rewrite edge_append_label in E. by rewrite (proj1 (Hsh m)) in Hm.
  - intros x a. rewrite elem_of_cons, (v_tips _ _ V). unfold tip_of. cbn [store]. split.
    + intros [[= -> ->]|(m & Hm & <-)].
      * exists n. rewrite Hlab, (proj1 (Hsh n)). auto.
      * exists m. rewrite Hlab, (proj1 (Hsh m)). auto.
    + intros (m & [Hm|[-> ->]]%Hlab & <-); rewrite (proj1 (Hsh _)); [right; by exists m | by left].
Qed.

Lemma py_nth_last {A} (l : list A) : py_nth l (-1) = match last l with Some x => Ok x | None => Err IndexError end.
Proof.
  destruct l as [|x l] using rev_ind; [done|]. rewrite last_snoc. unfold py_nth. cbn [Z.ltb Z.compare].
  rewrite zlength_app. change (zlength [x]) with 1%Z. pose proof (zlength_nonneg l).
  destruct (Z.ltb_spec (zlength l + 1 + -1) 0); [lia|].
  replace (Z.to_nat (zlength l + 1 + -1)) with (length l) by (unfold zlength; lia).
  by rewrite nth_error_app2, Nat.sub_diag.
Qed.

Lemma view_insert t sp chain label t' :
  view t sp -> Forall (fun k : hash_t => is_Some k) chain -> insert t chain label = Ok t' -> view t' (spec_insert sp chain label).
Proof.
  intros V Hs H. assert (Hne : chain <> []) by (intros ->; done).
  unfold insert in H. apply bind_Ok_inv in H as (z & Hz & H). fold (start t z) in H.
  assert (Hlast : last chain = Some z).
  { rewrite py_nth_last in Hz. change (@last hash_t chain = Some z). destruct (@last hash_t chain); congruence. }
  assert (Hst : hash (block_at (store t) (start t z)) = if bool_decide (z ∈ known sp) then z else None).
  { pose proof (parent_hash t sp root z None V (v_root _ _ V)) as Hp. exact Hp. }
  destruct (fold_left insert_part chain (t, start t z)) as [t1 n1] eqn:E. injection H as <-.
  destruct (view_insert_parts _ _ _ _ _ _ _ V (start_lt t z (v_forest _ _ V)) Hst Hs E) as (V1 & Hh & Hlt & Hpos).
  pose proof (view_append_label t1 _ n1 label V1 (conj (Hpos Hne) Hlt)) as V2.
  unfold spec_insert. rewrite Hlast. destruct (fold_left spec_part chain _) as [sp1 tip]. cbn [fst snd] in *. by rewrite Hh in V2.
Qed.

(** ** [insertLink] *)
Lemma maybe_append_labels s l v m : labels (block_at (maybe_append s l v) m) = labels (block_at s m).
Proof.
  destruct v as [v|]; [|done]. cbn [maybe_append]. case_decide; [done|]. unfold append_value. rewrite block_at_upd.
  case_decide as D; [by destruct D as [-> _] | done].
Qed.

Lemma view_maybe_append t sp n v : view t sp -> view (Trie (maybe_append (store t) n v) (blocks t)) sp.
Proof.
  intros V. destruct (maybe_append_shape (store t) n v) as [Hlen Hsh]. split; cbn [store blocks].
  - apply forest_maybe_append. destruct t. apply (v_forest _ _ V).
  - rewrite (proj1 (Hsh root)). apply (v_root _ _ V).
  - rewrite maybe_append_labels. apply (v_root_labels _ _ V).
  - intros m. rewrite Hlen, (proj1 (Hsh m)). apply (v_some _ _ V).
  - apply (v_known _ _ V).
  - intros a b. rewrite (v_links _ _ V). unfold named_link. cbn [store]. setoid_rewrite edge_maybe_append.
    split; intros (m & c & E & Hm); exists m, c; by rewrite (proj1 (Hsh m)) in *.
  - intros l a. rewrite (v_tips _ _ V). unfold tip_of. cbn [store]. setoid_rewrite maybe_append_labels.
    split; intros (m & E & Hm); exists m; by rewrite (proj1 (Hsh m)) in *.
Qed.

Section SpliceView.
Context (t : trie) (sp : spec) (V : view t sp) (parent child : hash_t) (c : nat).
Context (Hp : get (blocks t) parent = None) (Hc : edge (store t) root child c) (Hps : is_Some parent).
Let HF : forest t := v_forest _ _ V.

(** The root is the only block without a hash. *)
Lemma only_root m : m < length (store t) -> hash (block_at (store t) m) = None -> m = root.
Proof. intros Hm Hh. destruct (decide (m = root)) as [|Hr]; [done|]. destruct (v_some _ _ V m) as [h E]; [unfold root in *; lia|congruence]. Qed.

Lemma view_splice (s3 := let '(p, s) := insertChild (<[root := set_children (block_at (store t) root) (del child (children (block_at (store t) root)))]> (store t)) root parent in
  <[p := set_children (block_at s p) (set (hash (block_at s c)) c (children (block_at s p)))]> s) :
  view (Trie s3 (set parent (length (store t)) (blocks t)))
    (Spec (parent :: known sp)
      ((parent, child) :: (None, parent) :: List.filter (fun l => negb (bool_decide (l = (None, child)))) (links sp)) (tips sp)).
Proof.
  pose proof (splice_alloc t HF parent child Hp) as Ha.
  pose proof (splice_length t HF parent child c Hp) as Hlen.
  pose proof (splice_at t HF parent child c Hp Hc) as Hat.
  pose proof (splice_edge t HF parent child c Hp Hc) as HE.
  pose proof (splice_hash t HF parent child c Hp Hc) as Hh.
  pose proof (splice_forest t HF parent child c Hp Hc) as HS.
  unfold s3. clear s3. destruct (insertChild _ root parent) as [p s2] eqn:Ei. cbn [snd] in *.
  assert (p = length (store t)) as -> by congruence. clear Ha Ei.
  set (s3 := <[length (store t) := _]> s2) in *. clearbody s3.
  pose proof (t_root _ _ _ (f_tree t HF)) as H0.
  assert (Hlab : forall m, labels (block_at s3 m) = labels (block_at (store t) m)).
  { intros m. rewrite Hat. repeat case_decide; subst; [by rewrite block_at_ge by lia | done | done]. }
  split; cbn [store blocks known links tips].
  - exact HS.
  - unfold root. rewrite Hh by done. apply (v_root _ _ V).
  - rewrite Hlab. apply (v_root_labels _ _ V).
  - intros m Hm. rewrite Hat. repeat case_decide; subst; [done | unfold root in *; lia |]. apply (v_some _ _ V). lia.
  - intros k. rewrite elem_of_cons, (v_known _ _ V), get_set. case_decide; naive_solver.
  - intros a b. rewrite !elem_of_cons, elem_of_filter_bool, negb_true_iff, bool_decide_eq_false, (v_links _ _ V). split.
    + intros [[= -> ->]|[[= -> ->]|[(m & d & E & <-) Hne]]].
      * exists (length (store t)), c. split; [apply HE; auto|]. cbn [store]. by rewrite Hat, decide_True.
      * exists root, (length (store t)). split; [apply HE; auto|]. cbn [store]. unfold root. rewrite Hh by done. apply (v_root _ _ V).
      * exists m, d. cbn [store]. rewrite Hh by (by eapply edge_lt). split; [|done]. apply HE. left. split; [done|]. intros ->.
        apply Hne. pose proof (t_unique _ _ _ (f_tree t HF) _ _ _ _ _ E Hc) as ->.
        destruct (t_edge _ _ _ (f_tree t HF) _ _ _ E) as (_ & _ & <-). destruct (t_edge _ _ _ (f_tree t HF) _ _ _ Hc) as (_ & _ & <-).
        by rewrite (v_root _ _ V).
    + intros (m & d & [[E Hd]|[(-> & -> & ->)|(-> & -> & ->)]]%HE & Hm); cbn [store] in Hm.
      * rewrite Hh in Hm by (by eapply edge_lt). right. right. split; [by exists m, d|]. intros [= -> ->].
        apply only_root in Hm; [|by eapply edge_lt]. subst m. unfold edge in *. congruence.
      * right. left. rewrite Hh in Hm by done. change 0 with root in Hm. rewrite (v_root _ _ V) in Hm. by subst a.
      * left. rewrite Hat, decide_True in Hm by done. cbn in Hm. by subst a.
  - intros l a. rewrite (v_tips _ _ V). unfold tip_of. cbn [store]. split; intros (m & Hm & <-); exists m; rewrite Hlab in *; (split; [done|]).
    all: assert (m < length (store t)) by (destruct (decide (m < length (store t))); [done|];
      rewrite block_at_ge in Hm by lia; by apply elem_of_nil in Hm).
    all: by rewrite Hh.
Qed.
End SpliceView.

Lemma view_insertLink t sp parent child v t' :
  view t sp -> is_Some parent -> is_Some child -> insertLink t parent child v = Ok t' -> view t' (spec_link sp parent child v).
Proof.
  intros V Hps Hcs H. pose proof (v_known _ _ V parent) as Kp. pose proof (v_known _ _ V child) as Kc.
  unfold insertLink in H. unfold spec_link. destruct (get (blocks t) parent) as [p|] eqn:Ep.
  - rewrite bool_decide_eq_true_2 by (apply Kp; by eexists).
    destruct (insertChild (store t) p child) as [c s] eqn:Ei. injection H as <-.
    destruct (f_blocks t (v_forest _ _ V) _ _ Ep) as [Hp Hh].
    destruct (view_insertChild t sp p child c s V ltac:(lia) Hcs Ei) as (V' & _). rewrite Hh in V'.
    exact (view_maybe_append _ _ c v V').
  - rewrite bool_decide_eq_false_2 by (intros [? ?]%Kp; done). unfold mem in H.
    destruct (get (blocks t) child) as [l|] eqn:Ec.
    + rewrite bool_decide_eq_true_2 by (apply Kc; by eexists).
      unfold get_item in H. destruct (get (children (block_at (store t) root)) child) as [c|] eqn:Er; [|done]. cbn [bind] in H.
      pose proof (view_splice t sp V parent child c Ep Er Hps) as V'. cbv zeta in V'.
      pose proof (splice_alloc t (v_forest _ _ V) parent child Ep) as Ha.
      destruct (insertChild _ root parent) as [p s2] eqn:Ei. assert (p = length (store t)) as -> by congruence.
      injection H as <-. exact (view_maybe_append _ _ c v V').
    + rewrite bool_decide_eq_false_2 by (intros [? ?]%Kc; done). eapply view_insert; [done| |done]. by repeat constructor.
Qed.

(** ** What the abstract operations do *)
Lemma spec_parts ks sp prev : let r := fold_left spec_part ks (sp, prev) in
  tips (fst r) = tips sp /\ snd r = default prev (last ks) /\
  (forall k, k ∈ known (fst r) <-> k ∈ known sp \/ k ∈ ks) /\
  (forall l, l ∈ links sp -> l ∈ links (fst r)) /\
  (forall k, k ∈ known sp -> k ∈ ks -> (k, k) ∈ links (fst r)).
Proof.
  cbv zeta. revert sp prev. induction ks as [|x ks IH]; intros sp prev; cbn [fold_left].
  - split_and!; try done; intros; rewrite elem_of_nil in *; tauto.
  - destruct (IH (fst (spec_part (sp, prev) x)) x) as (H1 & H2 & H3 & H4 & H5). cbn [spec_part fst snd known links tips] in *.
    split_and!.
    + exact H1.
    + rewrite H2. destruct ks; [done|]. rewrite last_cons_cons. by destruct (last _) eqn:E; [|by apply last_None in E].
    + intros k. rewrite H3, !elem_of_cons. tauto.
    + intros l Hl. apply H4. by right.
    + intros k Hk [->|Hin]%elem_of_cons; [apply H4; rewrite bool_decide_eq_true_2 by done; left|]. apply H5; [by right | done].
Qed.

Lemma spec_insert_facts sp chain label : let sp' := spec_insert sp chain label in
  (chain <> [] -> tips sp' = (label, default None (last chain)) :: tips sp) /\
  (forall k, k ∈ known sp' <-> k ∈ known sp \/ k ∈ chain) /\
  (forall l, l ∈ links sp -> l ∈ links sp') /\
  (forall k, k ∈ known sp -> k ∈ chain -> (k, k) ∈ links sp').
Proof.
  cbv zeta. unfold spec_insert. set (start := match last chain with Some z => _ | None => _ end).
  pose proof (spec_parts chain sp start) as (H1 & H2 & H3 & H4 & H5). destruct (fold_left spec_part chain (sp, start)) as [sp1 tip].
  cbn [fst snd known links tips] in *. split; [|done]. intros Hne. rewrite H1, H2. do 2 f_equal.
  by destruct (last chain) eqn:E; [|by apply last_None in E].
Qed.

(** A link is recorded below its parent, and no other pair of hashes appears. *)
Lemma spec_link_links sp (p k : string) v a b :
  (Some a, Some b) ∈ links (spec_link sp (Some p) (Some k) v) <-> (Some a, Some b) ∈ links sp \/ (a = p /\ b = k).
Proof.
  unfold spec_link. case_bool_decide as Dp; [|case_bool_decide as Dk].
  - cbn [links]. rewrite elem_of_cons. naive_solver.
  - cbn [links]. rewrite !elem_of_cons, elem_of_filter_bool, negb_true_iff, bool_decide_eq_false. naive_solver.
  - unfold spec_insert. cbn [last fold_left spec_part known links tips].
    rewrite (bool_decide_eq_false_2 (Some k ∈ known sp)), (bool_decide_eq_false_2 (Some p ∈ known sp)) by done.
    case_bool_decide as D; rewrite !elem_of_cons; [|naive_solver].
    apply elem_of_cons in D as [[= ->]|D]; [naive_solver | done].
Qed.
