(* ===== verification/TestRunner.v ===== *)
(** * The integration-test runner, [scripts/test.py]

    The world is the file system, the working directory, the terminal and the
    fields of the runner's objects that change.  Running a shell command, globbing
    and rendering a template are code outside the repository: parameters of the
    section.  [executed] records every command with the exit code it returned. *)

From stdpp Require Import base gmap list strings.
From Stdlib Require Import Ascii ZArith Lia.
From S2P Require Import Prelude Dict PyStr Effects.
Open Scope string_scope.

(** The double quote. *)
Definition dq : string := String "034"%char EmptyString.

(** ** Configuration *)
Definition build_artifact_profiles : list string := [].

Definition simple_tests : list string := ["full-test"; "transaction-snark-profiler -k 1"].

Definition compile_config_agnostic_tests : list string :=
  ["coda-bootstrap-test"; "coda-shared-state-test"; "coda-peers-test";
   "coda-transitive-peers-test"; "coda-block-production-test";
   "coda-shared-prefix-test -who-produces 0"; "coda-shared-prefix-test -who-produces 1";
   "coda-change-snark-worker-test"; "coda-delegation-test"].

Definition compile_config_agnostic_profiles : list string := ["dev"].

Definition required_config_agnostic_tests : dict string (list string) :=
  [("dev", ["coda-bootstrap-test"; "coda-shared-state-test"; "coda-delegation-test"])].

Definition small_curves_tests : dict string (list string) :=
  [("test_postake_snarkless", simple_tests);
   ("test_postake_split", ["coda-shared-prefix-multiproducer-test -num-block-producers 2"]);
   ("test_postake", []);
   ("test_postake_catchup", ["coda-restart-node-test"]);
   ("test_postake_three_producers", ["coda-txns-and-restart-non-producers"]);
   ("test_postake_five_even_txns",
    ["coda-shared-prefix-multiproducer-test -num-block-producers 5 -payments"])].

Definition medium_curves_and_other_tests : dict string (list string) :=
  [("test_postake_medium_curves", simple_tests);
   ("test_postake_snarkless_medium_curves", simple_tests);
   ("test_postake_split_medium_curves",
    ["coda-shared-prefix-multiproducer-test -num-block-producers 2"]);
   ("test_postake_full_epoch", ["full-test"])].

Definition archive_processor_test : dict string (list string) :=
  [("test_archive_processor", ["coda-archive-processor-test"])].

Definition ci_excludes : list string := ["ci/circleci: lint-opt"].

Definition required_excludes : list string :=
  ["test_postake_five_even_txns:*"; "test_postake_catchup:*"; "test_postake_three_producers:*";
   "test_postake_split_snarkless:*"; "test_postake:*"].

Definition extra_required_status_checks : list string :=
  ["buildkite/mina/pr"; "buildkite/mina-pr-gating"].

Definition not_required_status_checks : list string := ["ci/circleci: build-macos"].

(** [d.update(d')] *)
Definition update {V} (d d' : dict string V) : dict string V :=
  fold_left (fun d kv => set (fst kv) (snd kv) d) d' d.

(** ** The world *)
Inductive collector : Type :=
| SingleArtifactCollector (root_dir context src_name : string) (dst_name : option string)
| BatchArtifactCollector (root_dir context pattern : string).

Record world : Type := World {
  files : gmap string (list string);
  dirs : list string;
  cwd : string;
  out : list string;
  input : list ascii;
  artifact_collectors : list collector;
  current_profile : option string;
  executed : list (string * Z)
}.

Definition set_files f w :=
  World f (dirs w) (cwd w) (out w) (input w) (artifact_collectors w) (current_profile w) (executed w).
Definition set_dirs d w :=
  World (files w) d (cwd w) (out w) (input w) (artifact_collectors w) (current_profile w) (executed w).
Definition set_cwd c w :=
  World (files w) (dirs w) c (out w) (input w) (artifact_collectors w) (current_profile w) (executed w).
Definition set_out o w :=
  World (files w) (dirs w) (cwd w) o (input w) (artifact_collectors w) (current_profile w) (executed w).
Definition set_input i w :=
  World (files w) (dirs w) (cwd w) (out w) i (artifact_collectors w) (current_profile w) (executed w).
Definition set_collectors c w :=
  World (files w) (dirs w) (cwd w) (out w) (input w) c (current_profile w) (executed w).
Definition set_profile p w :=
  World (files w) (dirs w) (cwd w) (out w) (input w) (artifact_collectors w) p (executed w).
Definition set_executed e w :=
  World (files w) (dirs w) (cwd w) (out w) (input w) (artifact_collectors w) (current_profile w) e.

Record args : Type := Args {
  dry_run : bool;
  non_interactive : bool;
  yes : bool;
  collect_artifacts_arg : bool;
  no_build_arg : bool;
  out_dir : string;
  includes_patterns : list string;
  excludes_patterns : list string
}.

Definition print (s : string) : M world unit := modify (fun w => set_out (out w ++ [s])%list w).

Definition panic {A} (msg : string) : M world A :=
  perform print ("ERROR: " +:+ msg) then raise (SystemExit 1).

(** A path, seen from the working directory. *)
Definition resolve (c path : string) : string := if String.eqb path "." then c else path_join c path.

Definition is_dir (w : world) (path : string) : bool :=
  String.eqb path "." || bool_decide (resolve (cwd w) path ∈ dirs w).

Definition exists_path (w : world) (path : string) : bool :=
  is_dir w path || bool_decide (is_Some (files w !! resolve (cwd w) path)).

(** [with TempWorkingDirectory(path): m], on an object that was not entered before. *)
Definition with_dir {A} (path : string) (m : M world A) : M world A :=
  do prev_path <- gets cwd in
  do ok <- gets (fun w => is_dir w path) in
  if ok : bool then
    perform modify (fun w => set_cwd (resolve (cwd w) path) w) then
    try_finally m (set_cwd prev_path)
  else raise (FileNotFoundError path).

(** [open(path).readlines()] *)
Definition read_lines (path : string) : M world (list string) := fun w =>
  match files w !! resolve (cwd w) path with
  | Some ls => (w, Ok ls)
  | None => (w, Err (FileNotFoundError path))
  end.

(** [shutil.copyfile] *)
Definition copyfile (src dst : string) : M world unit :=
  do ls <- read_lines src in
  do ok <- gets (fun w => is_dir w (dirname dst)) in
  if ok : bool then modify (fun w => set_files (<[resolve (cwd w) dst := ls]> (files w)) w)
  else raise (FileNotFoundError dst).

(** ** Test patterns and filtering *)
Definition test_pattern (pattern : option string) (s : string) : bool :=
  match pattern with
  | None => false
  | Some p => negb (String.eqb p "") && (String.eqb p "*" || String.eqb p s)
  end.

Definition parse_filter (pattern_src : string) : M world (option string * option string) :=
  if String.eqb pattern_src "" then ret (None, None)
  else if String.eqb pattern_src "*" then ret (Some "*", Some "*")
  else match split ":"%char pattern_src with
       | [profile; test] => ret (Some profile, Some test)
       | _ => panic "invalid filter syntax"
       end.

Definition matches (profile test : string) (pat : option string * option string) : bool :=
  test_pattern (fst pat) profile && test_pattern (snd pat) test.

Definition keep (includes excludes : list (option string * option string)) (profile test : string)
  : bool :=
  forallb (matches profile test) includes && negb (existsb (matches profile test) excludes).

(** [result[profile].append(test)] on a [defaultdict(list)]. *)
Definition append_test (result : dict string (list string)) (profile test : string)
  : dict string (list string) :=
  set profile (default [] (get result profile) ++ [test])%list result.

Definition filter_loop (includes excludes : list (option string * option string))
  (permutations : dict string (list string)) : dict string (list string) :=
  fold_left (fun result pt =>
    fold_left (fun result test =>
      if keep includes excludes (fst pt) test then append_test result (fst pt) test else result)
      (snd pt) result) permutations [].

Definition filter_tests (permutations : dict string (list string)) (includes_filters excludes_filters : list string)
  : M world (dict string (list string)) :=
  do includes <- map_each parse_filter includes_filters in
  do excludes <- map_each parse_filter excludes_filters in
  ret (filter_loop includes excludes permutations).

(** ** Artifact collection *)
Section Runner.
(** [call c cmd fs]: the files and the exit code after [bash -c cmd] in directory [c];
    [glob c pattern fs]: the matches of a pattern; [render]: jinja2. *)
Context (call : string -> string -> gmap string (list string) -> gmap string (list string) * Z)
        (glob : string -> string -> gmap string (list string) -> list string)
        (render : string -> list (string * string) -> string)
        (args_ : args).

Definition decorate_target_path (context target_path : string) : string :=
  let new_basename := context +:+ "--" +:+ target_path in
  path_join (dirname target_path) new_basename.

Definition relative_glob (root_dir pattern : string) : M world (list string) :=
  with_dir root_dir (gets (fun w => glob (cwd w) pattern (files w))).

Definition collect (c : collector) (destination : string) : M world unit :=
  match c with
  | SingleArtifactCollector root_dir context src_name dst_name =>
      let src := path_join root_dir src_name in
      let dst_name :=
        match dst_name with
        | Some d => if String.eqb d "" then basename src_name else d
        | None => basename src_name
        end in
      copyfile src (path_join destination (decorate_target_path context dst_name))
  | BatchArtifactCollector root_dir context pattern =>
      do artifacts <- relative_glob root_dir pattern in
      for_each artifacts (fun artifact =>
        let name := decorate_target_path context (replace slash "--" artifact) in
        copyfile (path_join root_dir artifact) (path_join destination name))
  end.

(** ** Executive *)
Definition artifacts : string := path_join (out_dir args_) "artifacts".

(** [Executive.do] *)
Definition do_ (name : string) (f : M world unit) : M world unit :=
  if dry_run args_ then print name else f.

Definition register_artifact_collector (c : collector) : M world unit :=
  modify (fun w => set_collectors (artifact_collectors w ++ [c])%list w).

Definition collect_artifacts : M world unit :=
  when (collect_artifacts_arg args_)
    (do_ "collect artifacts"
      (do cs <- gets artifact_collectors in for_each cs (fun c => collect c artifacts))).

Definition fail {A} (msg : string) : M world A :=
  perform collect_artifacts then panic msg.

(** [subprocess.call(['bash', '-c', cmd])] *)
Definition subprocess_call (cmd : string) : M world Z := fun w =>
  let '(fs, rc) := call (cwd w) cmd (files w) in
  (set_executed (executed w ++ [(cmd, rc)])%list (set_files fs w), Ok rc).

Definition run_cmd (cmd directory : string) (log : option string) : M world unit :=
  do_ ("$ " +:+ cmd)
    (with_dir directory
      (do rc <- subprocess_call cmd in
       if Z.eqb rc 0 then ret tt else
       perform match log with
               | Some l =>
                   if String.eqb l "" then ret tt else
                   do ls <- read_lines l in for_each (last_n 200 ls) print
               | None => ret tt
               end then
       fail ("command failed: " +:+ cmd))).

(** The loop of [prompt], reading keys until it gets a valid one. *)
Fixpoint ask (msg : string) (keys : list ascii) : M world bool :=
  match keys with
  | [] => raise OutOfFuel
  | c :: keys' =>
      perform print (msg +:+ " [y/n] ") then
      perform modify (set_input keys') then
      if Ascii.eqb c "y"%char || Ascii.eqb c "Y"%char then ret true
      else if Ascii.eqb c "n"%char || Ascii.eqb c "N"%char then ret false
      else perform print "  invalid input" then ask msg keys'
  end.

Definition prompt (msg : string) (dflt : bool) : M world bool :=
  if yes args_ then ret true
  else if non_interactive args_ then ret dflt
  else do keys <- gets input in ask msg keys.

(** [os.remove] *)
Definition os_remove (path : string) : M world unit := fun w =>
  if is_dir w path then (w, Err (OSError "Is a directory"))
  else (set_files (base.delete (resolve (cwd w) path) (files w)) w, Ok tt).

(** The text that formatting [context] with %s gives, after [context += ' ']. *)
Definition context_str (context : option string) : string :=
  match context with
  | Some c => if String.eqb c "" then "" else c +:+ " "
  | None => "None"
  end.

Definition remove_directory (directory : string) (context : option string) : M world unit :=
  do_ ("remove " +:+ context_str context +:+ "directory")
    (do ex <- gets (fun w => exists_path w directory) in
     when ex (os_remove directory)).

(** [os.makedirs]: the missing parents first. *)
Fixpoint makedirs (fuel : nat) (c path : string) (ds : list string) : list string :=
  match fuel with
  | O => ds
  | S fuel' =>
      if String.eqb path "" || bool_decide (resolve c path ∈ ds) then ds
      else (makedirs fuel' c (dirname path) ds ++ [resolve c path])%list
  end.

Definition make_directory (directory : string) (context : option string) : M world unit :=
  do_ ("make " +:+ context_str context +:+ "directory")
    (do ex <- gets (fun w => exists_path w directory) in
     when (negb ex)
       (modify (fun w => set_dirs (makedirs (S (String.length directory)) (cwd w) directory (dirs w)) w))).

Definition reserve_file (path : string) : M world unit :=
  do ex <- gets (fun w => exists_path w path) in
  when ex
    (do ok <- prompt (dq +:+ path +:+ dq +:+ " already exits. Should it be overwritten?") false in
     if ok : bool then remove_directory path (Some "old test logs")
     else fail ("Refusing to overwrite " +:+ dq +:+ path +:+ dq)).

(** ** The project *)
Definition logproc_exe_path : string := "src/app/logproc/logproc.exe".
Definition coda_exe_path : string := "src/app/cli/src/mina.exe".
Definition build_path : string := path_join "." "_build/default".

Definition build_cmd (build_log profile : string) : string :=
  "dune build --display=progress --profile=" +:+ profile +:+ " " +:+ coda_exe_path +:+ " "
  +:+ logproc_exe_path +:+ " 2> " +:+ build_log.

Definition build (build_log profile : string) : M world unit :=
  perform run_cmd (build_cmd build_log profile) "." (Some build_log) then
  modify (set_profile (Some profile)).

Definition no_build (profile : string) : M world unit :=
  perform print "Skipping build" then modify (set_profile (Some profile)).

Definition coda_exe : string := path_join build_path coda_exe_path.
Definition logproc_exe : string := path_join build_path logproc_exe_path.

Definition cmd_template : string :=
  "set -o pipefail " +:+ "&& {{coda}} integration-test {{test}} 2>&1 " +:+ "| tee '{{log}}' "
  +:+ "| {{logproc}} -f '.level in ["
  +:+ join ", " (map (fun l => dq +:+ l +:+ dq) ["Warn"; "Error"; "Fatal"; "Faulty_peer"]) +:+ "]'".

Definition test_cmd (test test_log : string) : string :=
  render cmd_template
    [("log", test_log); ("coda", coda_exe); ("logproc", logproc_exe); ("test", test)].

Definition run_test (test test_log : string) : M world unit :=
  do p <- gets current_profile in
  perform match p with
          | None => fail "run_test initiated without building"
          | Some _ => ret tt
          end then
  run_cmd (test_cmd test test_log) "." (Some test_log).

(** ** Actions *)
Definition build_logs : string := path_join (out_dir args_) "build_logs".
Definition test_logs : string := path_join (out_dir args_) "test_logs".
Definition test_configs : string := path_join (out_dir args_) "test_configs".
Definition all_directories : list string :=
  [out_dir args_; build_logs; test_logs; test_configs; artifacts].

Definition initialize : M world unit :=
  for_each all_directories (fun dir => make_directory dir None).

(** [small_curves_tests] after the updates at the start of [run]. *)
Definition all_tests : dict string (list string) :=
  update (update (update small_curves_tests medium_curves_and_other_tests) archive_processor_test)
    (map (fun profile => (profile, compile_config_agnostic_tests)) compile_config_agnostic_profiles).

Definition build_log_of (profile : string) : string := path_join build_logs (profile +:+ ".log").
Definition test_log_name (profile test : string) : string := profile +:+ "--" +:+ test +:+ ".log".
Definition test_log_of (profile test : string) : string := path_join test_logs (test_log_name profile test).

Definition run_one (profile test : string) : M world unit :=
  perform print ("  - " +:+ test) then
  perform reserve_file (test_log_of profile test) then
  perform register_artifact_collector
    (SingleArtifactCollector test_logs "test-main" (test_log_name profile test) None) then
  perform register_artifact_collector
    (BatchArtifactCollector test_configs ("test-node--" +:+ profile +:+ "--" +:+ test) "**/*.log") then
  run_test test (test_log_of profile test).

Definition run_profile (profile : string) (tests : list string) : M world unit :=
  perform print ("- " +:+ profile +:+ ":") then
  perform
    (if no_build_arg args_ then no_build profile else
     perform reserve_file (build_log_of profile) then
     perform register_artifact_collector
       (SingleArtifactCollector build_logs "build" (profile +:+ ".log") None) then
     build (build_log_of profile) profile) then
  for_each tests (run_one profile).

(** The banner that [run] prints; [now] is [int(time.time())]. *)
Definition announce (now : Z) (selected : dict string (list string)) : M world unit :=
  perform print "Preparing to run the following tests:" then
  perform for_each selected (fun pt =>
    perform print ("- " +:+ fst pt +:+ ":") then
    for_each (snd pt) (fun test => print ("  - " +:+ test))) then
  perform print "======================================" then
  perform print ("============= " +:+ py_str now +:+ " =============") then
  print "======================================".

Definition run (now : Z) : M world unit :=
  do selected <- filter_tests all_tests (includes_patterns args_) (excludes_patterns args_) in
  perform
    (if Nat.eqb (length selected) 0 then
       if negb (bool_decide (includes_patterns args_ = ["*"])) then
         panic "no tests were selected -- includes pattern did not match any known tests"
       else panic "no tests were selected -- excludes is too restrictive"
     else ret tt) then
  perform initialize then
  perform announce now selected then
  perform for_each selected (fun pt => run_profile (fst pt) (snd pt)) then
  perform collect_artifacts then
  print "Testing successful".
End Runner.

(** [get_required_status] *)
Definition get_required_status : M world (list string) :=
  do permutations <- filter_tests small_curves_tests ["*"] ci_excludes in
  do tests <- filter_tests permutations ["*"] required_excludes in
  let jobs :=
    (map (fun profile => "test--" +:+ profile) (keys tests)
     ++ map (fun profile => "build-artifacts--" +:+ profile) build_artifact_profiles
     ++ flat_map (fun pt => map (fun name => "test--" +:+ fst pt +:+ "--" +:+ name) (snd pt))
          required_config_agnostic_tests)%list in
  ret (List.filter (fun el => negb (bool_decide (el ∈ not_required_status_checks)))
         (map (fun job => "ci/circleci: " +:+ job) jobs ++ extra_required_status_checks)%list).

Definition required_status : M world unit :=
  do names <- get_required_status in print (join (String "010"%char EmptyString) names).

(** [all_tests] and [small_curves_tests] are the same dictionary, so the update is
    seen by the lookup in the loop. *)
Definition list_tests : M world unit :=
  let small_curves_tests := update small_curves_tests medium_curves_and_other_tests in
  for_each (keys small_curves_tests) (fun profile =>
    perform print ("- " +:+ profile) then
    do tests <- lift (get_item small_curves_tests profile) in
    for_each tests (fun test => print ("  - " +:+ test))).

(** ** Rendering the CI configuration *)
Section Render.
(** The jinja2 environments: [render_ci dir name tests] and
    [render_mergify dir name required_status] render the template [name] of [dir]. *)
Context (render_ci : string -> string -> dict string (list string) -> string)
        (render_mergify : string -> string -> list string -> string).

(** [if args.check: ... file.read() != rendered ... else: file.write(rendered)] *)
Definition check_or_write (check : bool) (output_file rendered msg : string) : M world unit :=
  if check then
    do ls <- read_lines output_file in
    if negb (String.eqb (String.concat "" ls) rendered) then panic msg else ret tt
  else modify (fun w => set_files (<[resolve (cwd w) output_file := [rendered]]> (files w)) w).

Definition render_one (check : bool) (jinja_file msg : string) (rendered : string -> string -> M world string)
  : M world unit :=
  let '(output_file, ext) := splitext jinja_file in
  if negb (String.eqb ext ".jinja") then raise AssertionError else
  do text <- rendered (dirname jinja_file) (basename jinja_file) in
  check_or_write check output_file text msg.

Definition render_action (check : bool) (circle_jinja_file mergify_jinja_file : string) : M world unit :=
  perform render_one check circle_jinja_file "circle CI configuration is out of date, re-render it"
    (fun dir name =>
       do tests <- filter_tests small_curves_tests ["*"] ci_excludes in ret (render_ci dir name tests)) then
  render_one check mergify_jinja_file "mergify configuration is out of date, re-render it"
    (fun dir name => do names <- get_required_status in ret (render_mergify dir name names)).

(** A text that does not depend on the files. *)
Definition steady (rendered : string -> string -> M world string) : Prop :=
  forall dir name, exists text, forall w, rendered dir name w = (w, Ok text).

Lemma render_one_write jinja_file msg rendered w :
  steady rendered -> snd (splitext jinja_file) = ".jinja" ->
  exists text, (forall w', rendered (dirname jinja_file) (basename jinja_file) w' = (w', Ok text)) /\
    render_one false jinja_file msg rendered w =
    (set_files (<[resolve (cwd w) (fst (splitext jinja_file)) := [text]]> (files w)) w, Ok tt).
Proof.
  intros Hs He. destruct (Hs (dirname jinja_file) (basename jinja_file)) as [text Ht].
  exists text. split; [exact Ht|]. unfold render_one. destruct (splitext jinja_file) as [o e]. cbn in He. subst e.
  rewrite String.eqb_refl. unfold bindM. cbn [negb]. by rewrite Ht.
Qed.

Lemma render_one_check jinja_file msg rendered w text :
  snd (splitext jinja_file) = ".jinja" ->
  (forall w', rendered (dirname jinja_file) (basename jinja_file) w' = (w', Ok text)) ->
  files w !! resolve (cwd w) (fst (splitext jinja_file)) = Some [text] ->
  render_one true jinja_file msg rendered w = (w, Ok tt).
Proof.
  intros He Ht Hf. unfold render_one. destruct (splitext jinja_file) as [o e]. cbn in He, Hf. subst e.
  rewrite String.eqb_refl. unfold bindM at 1. cbn [negb]. rewrite Ht. unfold check_or_write, bindM, read_lines. rewrite Hf.
  cbn. by rewrite String.eqb_refl.
Qed.

Lemma render_then_check_ok circle mergify w :
  snd (splitext circle) = ".jinja" -> snd (splitext mergify) = ".jinja" ->
  resolve (cwd w) (fst (splitext circle)) <> resolve (cwd w) (fst (splitext mergify)) ->
  exists w', render_action false circle mergify w = (w', Ok tt)
             /\ render_action true circle mergify w' = (w', Ok tt).
Proof.
  intros Hc Hm Hne. unfold render_action.
  set (rc := fun dir name => bindM (filter_tests _ _ _) _). set (rm := fun dir name => bindM get_required_status _).
  assert (Src : steady rc) by (intros dir name; by eexists).
  assert (Srm : steady rm) by (intros dir name; by eexists).
  clearbody rc rm. set (mc := "circle CI configuration is out of date, re-render it").
  set (mm := "mergify configuration is out of date, re-render it").
  destruct (render_one_write circle mc rc w Src Hc) as (tc & Htc & E1).
  set (w1 := set_files _ w) in E1.
  destruct (render_one_write mergify mm rm w1 Srm Hm) as (tm & Htm & E2).
  set (w2 := set_files _ w1) in E2. exists w2. unfold bindM. rewrite E1, E2. split; [done|].
  rewrite (render_one_check circle mc rc w2 tc Hc Htc).
  - apply (render_one_check mergify mm rm w2 tm Hm Htm). cbn. apply lookup_insert_eq.
  - cbn. rewrite lookup_insert_ne by done. apply lookup_insert_eq.
Qed.
End Render.

(** ** Filtering selects *)
Definition nonempty (pt : string * list string) : bool :=
  match snd pt with
  | [] => false
  | _ => true
  end.

(** The tests that a filter keeps, profile by profile; profiles without tests are
    left out. *)
Definition select (includes excludes : list (option string * option string))
  (permutations : dict string (list string)) : dict string (list string) :=
  List.filter nonempty
    (map (fun pt => (fst pt, List.filter (keep includes excludes (fst pt)) (snd pt))) permutations).

Section Filtering.
Context (includes excludes : list (option string * option string)).

Lemma filter_profile p tests r :
  fold_left (fun result test =>
    if keep includes excludes p test then append_test result p test else result) tests r
  = match List.filter (keep includes excludes p) tests with
    | [] => r
    | l => set p (default [] (get r p) ++ l)%list r
    end.
Proof.
  revert r. induction tests as [|t tests IH]; intros r; [done|]. cbn [fold_left List.filter].
  rewrite IH. destruct (keep includes excludes p t); [|done].
  unfold append_test. destruct (List.filter _ tests); [done|].
  rewrite get_set_eq, set_set. cbn [from_option id]. by rewrite <- app_assoc.
Qed.

Lemma filter_loop_select perms :
  wf perms -> filter_loop includes excludes perms = select includes excludes perms.
Proof.
  intros Hwf. unfold filter_loop, select. change perms with ([] ++ perms)%list in Hwf.
  rewrite <- (app_nil_l (List.filter _ _)).
  assert (Hk : forall k, k ∈ keys ([] : dict string (list string)) -> k ∉ keys perms)
    by (intros k ?%not_elem_of_nil; done).
  unfold wf in Hwf. cbn [app] in Hwf. revert Hk.
  generalize ([] : dict string (list string)) as r.
  induction perms as [|[p ts] perms IH]; intros r Hk; [by rewrite app_nil_r|].
  cbn [fold_left map fst snd]. rewrite filter_profile.
  apply NoDup_cons in Hwf as [Hp Hwf].
  assert (Hr : get r p = None).
  { apply get_None. intros Hin. apply (Hk p Hin). cbn. left. }
  rewrite Hr. cbn [from_option id List.filter]. rewrite IH; [|done|].
  - unfold nonempty at 2. cbn [snd]. destruct (List.filter _ ts) as [|t l]; [done|].
    rewrite set_fresh by done. by rewrite <- app_assoc.
  - intros k Hin Hin'. destruct (List.filter _ ts) as [|t l].
    + apply (Hk k Hin). by right.
    + apply elem_of_keys_set in Hin as [->|Hin]; [done|]. apply (Hk k Hin). by right.
Qed.
End Filtering.

(** What a filter means, and what it prints when it has none. *)
Definition parsed (s : string) : option (option string * option string) :=
  if String.eqb s "" then Some (None, None)
  else if String.eqb s "*" then Some (Some "*", Some "*")
  else match split ":"%char s with
       | [profile; test] => Some (Some profile, Some test)
       | _ => None
       end.

Fixpoint parsed_all (l : list string) : option (list (option string * option string)) :=
  match l with
  | [] => Some []
  | s :: l' =>
      match parsed s, parsed_all l' with
      | Some x, Some xs => Some (x :: xs)
      | _, _ => None
      end
  end.

Definition syntax_error (w : world) : world := set_out (out w ++ ["ERROR: invalid filter syntax"])%list w.

Lemma parse_filter_eq s w :
  parse_filter s w = match parsed s with
                     | Some x => (w, Ok x)
                     | None => (syntax_error w, Err (SystemExit 1))
                     end.
Proof.
  unfold parse_filter, parsed. destruct (String.eqb s ""); [done|].
  destruct (String.eqb s "*"); [done|].
  destruct (split ":" s) as [|x [|y [|z l]]]; done.
Qed.

Lemma parse_filters_eq l w :
  map_each parse_filter l w = match parsed_all l with
                              | Some xs => (w, Ok xs)
                              | None => (syntax_error w, Err (SystemExit 1))
                              end.
Proof.
  induction l as [|s l IH]; [done|]. cbn [map_each parsed_all]. unfold bindM at 1.
  rewrite parse_filter_eq. destruct (parsed s) as [x|]; [|done].
  unfold bindM at 1. rewrite IH. by destruct (parsed_all l).
Qed.

Lemma filter_tests_eq perms inc exc w :
  wf perms ->
  filter_tests perms inc exc w =
  match parsed_all inc, parsed_all exc with
  | Some i, Some e => (w, Ok (select i e perms))
  | _, _ => (syntax_error w, Err (SystemExit 1))
  end.
Proof.
  intros Hwf. unfold filter_tests. unfold bindM at 1. rewrite parse_filters_eq.
  destruct (parsed_all inc) as [i|]; [|done]. unfold bindM at 1. rewrite parse_filters_eq.
  destruct (parsed_all exc) as [e|]; [|done]. unfold ret. by rewrite filter_loop_select.
Qed.

(** Two includes with different profiles exclude each other. *)
Lemma keep_two_includes i e p1 t1 p2 t2 profile test :
  (Some p1, t1) ∈ i -> (Some p2, t2) ∈ i -> p1 <> "*" -> p2 <> "*" -> p1 <> p2 ->
  keep i e profile test = false.
Proof.
  intros H1 H2 N1 N2 Hne. unfold keep. destruct (forallb _ i) eqn:E; [|done].
  rewrite forallb_forall in E. exfalso. apply Hne.
  assert (Hm : forall p t, (Some p, t) ∈ i -> p <> "*" -> p = profile).
  { intros p t Hin Hp. apply list_elem_of_In, E in Hin. unfold matches, test_pattern in Hin. cbn [fst] in Hin.
    apply andb_prop in Hin as [[_ Hin]%andb_prop _]. apply orb_prop in Hin as [Hin|Hin];
      by apply String.eqb_eq in Hin. }
  transitivity profile; [|symmetry]; eauto.
Qed.

Lemma select_nothing i e perms :
  (forall profile test, keep i e profile test = false) -> select i e perms = [].
Proof.
  intros H. unfold select. induction perms as [|[p ts] perms IH]; [done|]. cbn [map List.filter fst snd].
  assert (E : List.filter (keep i e p) ts = []) by (induction ts as [|t ts IHt]; [done|]; cbn; by rewrite H).
  rewrite E. exact IH.
Qed.

Lemma parsed_all_in l xs p t :
  parsed_all l = Some xs -> no_char ":" p = true -> no_char ":" t = true -> (p +:+ ":" +:+ t) ∈ l ->
  (Some p, Some t) ∈ xs.
Proof.
  intros H Hp Ht. revert xs H. induction l as [|s l IH]; intros xs H; [by intros ?%not_elem_of_nil|].
  cbn [parsed_all] in H. destruct (parsed s) as [x|] eqn:Ex; [|done].
  destruct (parsed_all l) as [ys|]; [|done]. injection H as <-.
  intros [<-|Hin]%elem_of_cons; [|right; by apply IH].
  apply elem_of_cons; left. symmetry. unfold parsed in Ex. change (":" +:+ t) with (String ":" t) in Ex. rewrite split_two in Ex by done.
  destruct (String.eqb_spec (p +:+ String ":" t) ""); [by destruct p|].
  destruct (String.eqb_spec (p +:+ String ":" t) "*") as [E|]; [|by injection Ex].
  destruct p as [|a [|b p]]; discriminate E.
Qed.

(** ** What the runner leaves alone *)
Section Frame.
Context (call : string -> string -> gmap string (list string) -> gmap string (list string) * Z)
        (glob : string -> string -> gmap string (list string) -> list string)
        (render : string -> list (string * string) -> string)
        (args_ : args).

(** A predicate that the terminal and the runner's fields do not touch; in a real
    run it must not depend on the files either. *)
Context (I : world -> Prop)
  (I_out : forall o w, I w -> I (set_out o w))
  (I_input : forall i w, I w -> I (set_input i w))
  (I_collectors : forall c w, I w -> I (set_collectors c w))
  (I_profile : forall p w, I w -> I (set_profile p w)).

Lemma print_keeps s : keeps I (print s).
Proof. apply hoare_modify. intros w. apply I_out. Qed.

Lemma panic_keeps {A} msg : keeps I (@panic A msg).
Proof. unfold panic. repeat hoare_step; auto using print_keeps. Qed.

Lemma parse_filters_keep l : keeps I (map_each parse_filter l).
Proof.
  intros w Hw. rewrite parse_filters_eq. destruct (parsed_all l); [done|]. by apply I_out.
Qed.

Lemma filter_tests_keep perms inc exc : keeps I (filter_tests perms inc exc).
Proof. unfold filter_tests. repeat hoare_step; auto using parse_filters_keep. Qed.

Lemma announce_keeps now sel : keeps I (announce now sel).
Proof. unfold announce. repeat hoare_step; auto using print_keeps. Qed.

Lemma ask_keeps msg keys : keeps I (ask msg keys).
Proof. induction keys as [|c keys IH]; cbn [ask]; repeat hoare_step; auto using print_keeps. Qed.

Lemma prompt_keeps msg dflt : keeps I (prompt args_ msg dflt).
Proof. unfold prompt. repeat hoare_step; auto using ask_keeps. Qed.

(** The operations on files, which a dry run only names. *)
Context (I_fs : dry_run args_ = true \/
  ((forall f w, I w -> I (set_files f w)) /\ (forall d w, I w -> I (set_dirs d w))
   /\ (forall A path (m : M world A), keeps I m -> keeps I (with_dir path m)))).

Lemma do_keeps name f : (dry_run args_ = false -> keeps I f) -> keeps I (do_ args_ name f).
Proof. intros H. unfold do_. hoare_step; [apply print_keeps | by apply H]. Qed.

Ltac fs := destruct I_fs as [?|(If & Id & Ic)]; [congruence|].

Lemma read_lines_keeps path : keeps I (read_lines path).
Proof. intros w Hw. unfold read_lines. by destruct (files w !! _). Qed.

Lemma copyfile_keeps src dst : dry_run args_ = false -> keeps I (copyfile src dst).
Proof. intros Hd. fs. unfold copyfile. repeat hoare_step; auto using read_lines_keeps. Qed.

Lemma collect_keeps c d : dry_run args_ = false -> keeps I (collect glob c d).
Proof.
  intros Hd. destruct c; cbn [collect]; [by apply copyfile_keeps|].
  fs. unfold relative_glob. repeat hoare_step; auto using copyfile_keeps.
  apply Ic. by hoare_step.
Qed.

Lemma collect_artifacts_keeps : keeps I (collect_artifacts glob args_).
Proof.
  unfold collect_artifacts. hoare_step; [|done]. apply do_keeps. intros Hd.
  repeat hoare_step; auto using collect_keeps.
Qed.

Lemma fail_keeps {A} msg : keeps I (@fail glob args_ A msg).
Proof. unfold fail. hoare_step; auto using collect_artifacts_keeps, panic_keeps. Qed.

Lemma os_remove_keeps path : dry_run args_ = false -> keeps I (os_remove path).
Proof. intros Hd w Hw. fs. unfold os_remove. destruct (is_dir w path); auto. Qed.

Lemma remove_directory_keeps d c : keeps I (remove_directory args_ d c).
Proof. apply do_keeps. intros Hd. repeat hoare_step; auto using os_remove_keeps. Qed.

Lemma make_directory_keeps d c : keeps I (make_directory args_ d c).
Proof. apply do_keeps. intros Hd. fs. repeat hoare_step; auto. Qed.

Lemma reserve_file_keeps path : keeps I (reserve_file glob args_ path).
Proof.
  unfold reserve_file. repeat hoare_step; auto using prompt_keeps, remove_directory_keeps, fail_keeps.
Qed.

Lemma initialize_keeps : keeps I (initialize args_).
Proof. apply hoare_for_each. intros. apply make_directory_keeps. Qed.

Lemma register_keeps c : keeps I (register_artifact_collector c).
Proof. apply hoare_modify. auto. Qed.

(** The commands, when what they do keeps the predicate too. *)
Context (I_call : dry_run args_ = true \/ forall cmd, keeps I (subprocess_call call cmd)).

Lemma run_cmd_keeps cmd directory log : keeps I (run_cmd call glob args_ cmd directory log).
Proof.
  apply do_keeps. intros Hd. fs. destruct I_call as [?|Hc]; [congruence|].
  apply Ic. repeat hoare_step; auto using read_lines_keeps, print_keeps, fail_keeps.
Qed.

Lemma run_test_keeps test log : keeps I (run_test call glob render args_ test log).
Proof. unfold run_test. repeat hoare_step; auto using fail_keeps, run_cmd_keeps. Qed.

Lemma run_profile_keeps p ts : keeps I (run_profile call glob render args_ p ts).
Proof.
  unfold run_profile, run_one, no_build, build.
  repeat hoare_step; auto using print_keeps, reserve_file_keeps, register_keeps, run_cmd_keeps, run_test_keeps.
Qed.

Lemma run_keeps now : keeps I (run call glob render args_ now).
Proof.
  unfold run. repeat hoare_step;
    auto using filter_tests_keep, panic_keeps, initialize_keeps, announce_keeps, run_profile_keeps,
      collect_artifacts_keeps, print_keeps.
Qed.
End Frame.

(** A real run keeps predicates that only depend on the commands executed. *)
Lemma with_dir_keeps {A} (I : world -> Prop) path (m : M world A) :
  (forall c w, I w -> I (set_cwd c w)) -> keeps I m -> keeps I (with_dir path m).
Proof. intros Ic Hm. unfold with_dir. repeat hoare_step; auto. apply hoare_finally. eapply hoare_conseq; eauto. Qed.

Lemma with_dir_cwd {A} c path (m : M world A) : keeps (fun w => cwd w = c) (with_dir path m).
Proof.
  intros w <-. unfold with_dir, bindM, gets, modify. cbn. destruct (is_dir w path); [|done].
  unfold try_finally. by destruct (m _) as [w' [a|e]].
Qed.

(** ** The commands that a run executes *)
Section Commands.
Context (call : string -> string -> gmap string (list string) -> gmap string (list string) * Z)
        (glob : string -> string -> gmap string (list string) -> list string)
        (render : string -> list (string * string) -> string)
        (args_ : args) (Hd : dry_run args_ = false) (ex0 : list (string * Z)).

(** After the commands [l], all successful. *)
Definition after (l : list string) (w : world) : Prop :=
  executed w = (ex0 ++ map (fun c => (c, 0%Z)) l)%list.

(** Stopped while doing [todo] after [l]: between two commands, or by one that failed. *)
Definition stopped (l todo : list string) (e : exn) (w : world) : Prop :=
  exists done rest, todo = (done ++ rest)%list /\
    (after (l ++ done) w \/
     exists c rest' rc, rest = c :: rest' /\ rc <> 0%Z /\
       executed w = (ex0 ++ map (fun c => (c, 0%Z)) (l ++ done) ++ [(c, rc)])%list).

Lemma stopped_here l todo e w : after l w -> stopped l todo e w.
Proof. intros H. exists [], todo. split; [done|]. left. by rewrite app_nil_r. Qed.

Lemma stopped_first l todo1 todo2 e w : stopped l todo1 e w -> stopped l (todo1 ++ todo2) e w.
Proof.
  intros (dn & rest & -> & H). exists dn, (rest ++ todo2)%list. split; [by rewrite app_assoc|].
  destruct H as [H|(c & rest' & rc & -> & Hrc & H)]; [by left|right].
  by exists c, (rest' ++ todo2)%list, rc.
Qed.

Lemma stopped_second l todo1 todo2 e w : stopped (l ++ todo1) todo2 e w -> stopped l (todo1 ++ todo2) e w.
Proof.
  intros (dn & rest & -> & H). exists (todo1 ++ dn)%list, rest. split; [by rewrite app_assoc|].
  rewrite <- !(app_assoc l todo1) in H. exact H.
Qed.

(** [does m todo]: from any point the program executes the commands [todo]. *)
Definition does (m : M world unit) (todo : list string) : Prop :=
  forall l, hoare (after l) m (fun _ => after (l ++ todo)) (stopped l todo).

Lemma does_nothing m : (forall l, keeps (after l) m) -> does m [].
Proof.
  intros H l. eapply hoare_conseq; [apply (H l)|done| |].
  - intros u w. cbv beta. by rewrite app_nil_r.
  - intros e w. apply stopped_here.
Qed.

Lemma does_seq m1 m2 todo1 todo2 :
  does m1 todo1 -> does m2 todo2 -> does (bindM m1 (fun _ => m2)) (todo1 ++ todo2).
Proof.
  intros H1 H2 l. apply (hoare_bind _ _ _ (fun _ => after (l ++ todo1))).
  - eapply hoare_conseq; [apply (H1 l)|done|done|]. intros e w. apply stopped_first.
  - intros _. eapply hoare_conseq; [apply (H2 (l ++ todo1)%list)|done| |].
    + intros u w. cbv beta. by rewrite app_assoc.
    + intros e w. apply stopped_second.
Qed.

Lemma does_first (m1 m2 : M world unit) todo : (forall l, keeps (after l) m1) -> does m2 todo ->
  does (bindM m1 (fun _ => m2)) todo.
Proof. intros H1 H2. apply (does_seq m1 m2 [] todo); [by apply does_nothing | done]. Qed.

Lemma does_last (m1 m2 : M world unit) todo : does m1 todo -> (forall l, keeps (after l) m2) -> does (bindM m1 (fun _ => m2)) todo.
Proof. intros H1 H2. rewrite <- (app_nil_r todo). apply does_seq; [done | by apply does_nothing]. Qed.

Lemma does_for_each {A} (xs : list A) (f : A -> M world unit) (todo : A -> list string) :
  (forall x, does (f x) (todo x)) -> does (for_each xs f) (flat_map todo xs).
Proof.
  intros H. induction xs as [|x xs IH]; cbn [for_each flat_map]; [|by apply does_seq].
  apply does_nothing. intros l. by apply hoare_ret.
Qed.

Lemma after_fs l : dry_run args_ = true \/
  ((forall f w, after l w -> after l (set_files f w)) /\ (forall d w, after l w -> after l (set_dirs d w))
   /\ (forall A path (m : M world A), keeps (after l) m -> keeps (after l) (with_dir path m))).
Proof. right. split; [done|]. split; [done|]. intros A path m. by apply with_dir_keeps. Qed.

Lemma hoare_with_dot (P : world -> Prop) (m : M world unit) (Q : unit -> world -> Prop) (R : exn -> world -> Prop) :
  (forall c w, P w -> P (set_cwd c w)) -> (forall c w, Q tt w -> Q tt (set_cwd c w)) ->
  (forall c e w, R e w -> R e (set_cwd c w)) ->
  hoare P m Q R -> hoare P (with_dir "." m) Q R.
Proof.
  intros HP HQ HR Hm. unfold with_dir.
  apply (hoare_bind _ _ _ (fun _ => P)); [by apply hoare_gets|]. intros c.
  apply (hoare_bind _ _ _ (fun b w => b = true /\ P w)); [by apply hoare_gets|].
  intros [|]; [|intros w [? _]; done].
  apply (hoare_bind _ _ _ (fun _ => P)); [apply hoare_modify; intros w [_ Hw]; auto|]. intros _.
  apply hoare_finally. eapply hoare_conseq; [exact Hm|done| |]; [intros [] w; apply HQ | intros e w; apply HR].
Qed.

(** Just after a command that returned [rc]. *)
Definition returned (l : list string) (cmd : string) (rc : Z) (w : world) : Prop :=
  executed w = (ex0 ++ map (fun c => (c, 0%Z)) l ++ [(cmd, rc)])%list.

Lemma fail_raises {A} l cmd rc msg (Q : A -> world -> Prop) :
  hoare (returned l cmd rc) (fail glob args_ msg) Q (fun _ => returned l cmd rc).
Proof.
  unfold fail. apply (hoare_bind _ _ _ (fun _ => returned l cmd rc)).
  - apply collect_artifacts_keeps; [done..|]. right.
    split; [done|]. split; [done|]. intros B path m. by apply with_dir_keeps.
  - intros u. unfold panic. apply (hoare_bind _ _ _ (fun _ => returned l cmd rc)); [by apply print_keeps|].
    intros u'. by apply hoare_raise.
Qed.

Lemma stopped_failed l cmd rc e w : rc <> 0%Z -> returned l cmd rc w -> stopped l [cmd] e w.
Proof.
  intros Hrc H. exists [], [cmd]. split; [done|]. right. exists cmd, [], rc.
  rewrite app_nil_r. by split.
Qed.

Lemma does_run_cmd cmd log : does (run_cmd call glob args_ cmd "." log) [cmd].
Proof.
  intros l. unfold run_cmd, do_. rewrite Hd. apply hoare_with_dot; [done..|].
  apply (hoare_bind _ _ _ (returned l cmd)).
  { intros w Hw. unfold subprocess_call. destruct (call (cwd w) cmd (files w)) as [fs rc].
    unfold returned, after in *. cbn. by rewrite Hw, app_assoc. }
  intros rc. destruct (Z.eqb_spec rc 0) as [->|Hrc].
  { apply hoare_ret. intros w. unfold after, returned. by rewrite map_app. }
  eapply hoare_conseq with (P' := returned l cmd rc) (Q' := fun _ => after (l ++ [cmd])) (R' := fun _ => returned l cmd rc);
    [|done|done|intros e w; by apply stopped_failed].
  apply (hoare_bind _ _ _ (fun _ => returned l cmd rc)); [|intros u; apply fail_raises].
  repeat hoare_step; try done; by first [apply read_lines_keeps | apply print_keeps].
Qed.

(** The commands for the selected tests. *)
Definition commands (selected : dict string (list string)) : list string :=
  flat_map (fun pt =>
    (if no_build_arg args_ then [] else [build_cmd (build_log_of args_ (fst pt)) (fst pt)])
    ++ flat_map (fun test => [test_cmd render test (test_log_of args_ (fst pt) test)]) (snd pt))%list selected.

Ltac quiet := intros; try (apply print_keeps || apply register_keeps
  || apply reserve_file_keeps || apply initialize_keeps || apply collect_artifacts_keeps
  || apply announce_keeps || apply hoare_modify); try done; apply after_fs.

Lemma does_run_test test log : does (run_test call glob render args_ test log) [test_cmd render test log].
Proof.
  intros l. unfold run_test. apply (hoare_bind _ _ _ (fun _ => after l)); [by apply hoare_gets|].
  intros p. apply does_first; [|apply does_run_cmd]. intros l'. destruct p; [by apply hoare_ret|].
  apply fail_keeps; [done|apply after_fs].
Qed.

Lemma does_run_profile p ts :
  does (run_profile call glob render args_ p ts)
    ((if no_build_arg args_ then [] else [build_cmd (build_log_of args_ p) p])
     ++ flat_map (fun test => [test_cmd render test (test_log_of args_ p test)]) ts).
Proof.
  unfold run_profile. apply does_first; [quiet|]. apply does_seq.
  - destruct (no_build_arg args_); [apply does_nothing; intros l; unfold no_build; repeat hoare_step; auto; quiet|].
    apply does_first; [quiet|]. apply does_first; [quiet|].
    unfold build. apply does_last; [apply does_run_cmd | quiet].
  - apply does_for_each. intros test. unfold run_one.
    do 4 (apply does_first; [quiet|]). apply does_run_test.
Qed.

Lemma run_after now w selected :
  wf all_tests -> filter_tests all_tests (includes_patterns args_) (excludes_patterns args_) w = (w, Ok selected) ->
  executed w = ex0 ->
  match run call glob render args_ now w with
  | (w', Ok _) => after (commands selected) w'
  | (w', Err e) => stopped [] (commands selected) e w'
  end.
Proof.
  intros Hwf E Hw. unfold run, bindM at 1. rewrite E.
  match goal with |- context [match ?m w with _ => _ end] => assert (HD : does m (commands selected)) end.
  { apply does_first; [intros l; repeat hoare_step; try (apply panic_keeps); done|].
    do 2 (apply does_first; [quiet|]). apply does_last.
    - apply does_for_each. intros [p ts]. apply does_run_profile.
    - intros l. repeat hoare_step; quiet. }
  apply (HD [] w). unfold after. cbn. by rewrite app_nil_r.
Qed.
End Commands.

(** ** Runs that nothing stops *)
Section Success.
Context (call : string -> string -> gmap string (list string) -> gmap string (list string) * Z)
        (glob : string -> string -> gmap string (list string) -> list string)
        (render : string -> list (string * string) -> string)
        (args_ : args).

(** The logs that a run writes. *)
Definition logs (selected : dict string (list string)) : list string :=
  flat_map (fun pt => build_log_of args_ (fst pt) :: map (test_log_of args_ (fst pt)) (snd pt)) selected.

(** Every command succeeds, something is selected, old logs may be overwritten, no artifact is
    collected, and no log is in the place of a directory. *)
Definition smooth (selected : dict string (list string)) (w : world) : Prop :=
  (forall c cmd fs, snd (call c cmd fs) = 0%Z) /\ selected <> [] /\ yes args_ = true /\ collect_artifacts_arg args_ = false /\
  forall log, log ∈ logs selected -> is_dir (fst (initialize args_ w)) log = false.

Context (Hd : dry_run args_ = false) (Hcall : forall c cmd fs, snd (call c cmd fs) = 0%Z) (Hyes : yes args_ = true)
        (w1 : world).

(** The directories are those of [w1]; when [built], a profile is set. *)
Definition settled (built : bool) (w : world) : Prop :=
  cwd w = cwd w1 /\ dirs w = dirs w1 /\ (built = true -> current_profile w <> None).

Notation succeeds b m b' := (hoare (settled b) m (fun _ => settled b') (fun _ _ => False)).

Lemma succeeds_then {A B} b b' b'' (m : M world A) (k : A -> M world B) :
  succeeds b m b' -> (forall a, succeeds b' (k a) b'') -> succeeds b (bindM m k) b''.
Proof. apply hoare_bind. Qed.

Lemma succeeds_run_cmd b cmd log : succeeds b (run_cmd call glob args_ cmd "." log) b.
Proof.
  unfold run_cmd, do_. rewrite Hd. intros w Hw. unfold with_dir, bindM, gets, modify, try_finally, subprocess_call.
  cbv beta iota. change (is_dir w ".") with true. cbv beta iota. change (resolve (cwd w) ".") with (cwd w). cbn [set_cwd cwd files]. pose proof (Hcall (cwd w) cmd (files w)) as Hrc.
  destruct (call (cwd w) cmd (files w)) as [fs rc]. cbn [snd] in Hrc. subst rc. exact Hw.
Qed.

Lemma succeeds_reserve b path : is_dir w1 path = false -> succeeds b (reserve_file glob args_ path) b.
Proof.
  intros Hp w Hw. unfold reserve_file, prompt, remove_directory, do_, os_remove. rewrite Hyes, Hd.
  unfold bindM, gets, when, ret. destruct (exists_path w path) eqn:E; [|exact Hw]. rewrite E.
  assert (is_dir w path = false) as -> by (unfold is_dir in *; by rewrite (proj1 Hw), (proj1 (proj2 Hw))).
  exact Hw.
Qed.

Lemma succeeds_quiet b f : (forall w, cwd (f w) = cwd w /\ dirs (f w) = dirs w /\ current_profile (f w) = current_profile w) ->
  succeeds b (modify f) b.
Proof. intros H w (H1 & H2 & H3). destruct (H w) as (E1 & E2 & E3). split_and!; [congruence..|by rewrite E3]. Qed.

Lemma succeeds_run_one profile test : is_dir w1 (test_log_of args_ profile test) = false ->
  succeeds true (run_one call glob render args_ profile test) true.
Proof.
  intros Hlog. unfold run_one. eapply succeeds_then; [by apply succeeds_quiet|intros _].
  eapply succeeds_then; [by apply succeeds_reserve|intros _]. do 2 (eapply succeeds_then; [by apply succeeds_quiet|intros _]).
  unfold run_test. apply (hoare_bind _ _ _ (fun p w => p <> None /\ settled true w)).
  - intros w Hw. split; [by apply Hw | exact Hw].
  - intros [p|]; [|by intros w [? _]]. intros w [_ Hw]. exact (succeeds_run_cmd true _ _ w Hw).
Qed.

Lemma succeeds_run_profile profile tests b : is_dir w1 (build_log_of args_ profile) = false ->
  (forall test, test ∈ tests -> is_dir w1 (test_log_of args_ profile test) = false) ->
  succeeds b (run_profile call glob render args_ profile tests) true.
Proof.
  intros Hb Ht. unfold run_profile. eapply succeeds_then; [by apply succeeds_quiet|intros _].
  assert (Hset : succeeds b (modify (set_profile (Some profile))) true) by (intros w (H1 & H2 & _); by split_and!).
  apply (succeeds_then b true).
  - destruct (no_build_arg args_).
    + unfold no_build. eapply succeeds_then; [by apply succeeds_quiet|]. by intros _.
    + eapply succeeds_then; [by apply succeeds_reserve|intros _]. eapply succeeds_then; [by apply succeeds_quiet|intros _].
      unfold build. eapply succeeds_then; [apply succeeds_run_cmd|]. by intros _.
  - intros _. apply hoare_for_each. intros test Hin. apply succeeds_run_one. by apply Ht.
Qed.
End Success.

Lemma make_directory_ends args_ d c w : exists w', make_directory args_ d c w = (w', Ok tt).
Proof.
  unfold make_directory, do_. destruct (dry_run args_); [by eexists|]. unfold bindM, gets, when, modify, ret.
  destruct (negb (exists_path w d)); by eexists.
Qed.

Lemma initialize_ends args_ w : exists w1, initialize args_ w = (w1, Ok tt).
Proof.
  unfold initialize. revert w. induction (all_directories args_) as [|d ds IH]; intros w; cbn [for_each]; [by exists w|].
  unfold bindM. destruct (make_directory_ends args_ d None w) as [w' ->]. apply IH.
Qed.

Lemma announce_settles w1 now selected w b : settled w1 b w ->
  exists w', announce now selected w = (w', Ok tt) /\ settled w1 b w'.
Proof.
  intros Hw. assert (H : hoare (settled w1 b) (announce now selected) (fun _ => settled w1 b) (fun _ _ => False)).
  { assert (Hp : forall s, hoare (settled w1 b) (print s) (fun _ => settled w1 b) (fun _ _ => False)) by (intros; by apply succeeds_quiet).
    assert (Hb : forall (m m' : M world unit), hoare (settled w1 b) m (fun _ => settled w1 b) (fun _ _ => False) ->
      hoare (settled w1 b) m' (fun _ => settled w1 b) (fun _ _ => False) ->
      hoare (settled w1 b) (bindM m (fun _ => m')) (fun _ => settled w1 b) (fun _ _ => False)).
    { intros m m' Hm Hm'. by apply (hoare_bind _ _ _ (fun _ => settled w1 b)). }
    unfold announce. apply Hb; [apply Hp|]. apply Hb; [|repeat (apply Hb; [apply Hp|]); apply Hp].
    apply hoare_for_each. intros [p ts] _. apply Hb; [apply Hp|]. apply hoare_for_each. intros t _. apply Hp. }
  specialize (H w Hw). destruct (announce now selected w) as [w' [[]|]]; [by exists w' | done].
Qed.

(** A smooth run ends without an exception. *)
Lemma smooth_run call glob render args_ now w selected : dry_run args_ = false ->
  filter_tests all_tests (includes_patterns args_) (excludes_patterns args_) w = (w, Ok selected) ->
  smooth call args_ selected w -> snd (run call glob render args_ now w) = Ok tt.
Proof.
  intros Hd E (Hc & Hne & Hy & Hcol & Hlogs). unfold run, bindM at 1. rewrite E.
  assert (Nat.eqb (length selected) 0 = false) as -> by (by destruct selected).
  destruct (initialize_ends args_ w) as [w1 E1]. rewrite E1 in Hlogs. cbn [fst] in Hlogs.
  unfold bindM at 1, ret at 1. unfold bindM at 1. rewrite E1.
  destruct (announce_settles w1 now selected w1 false) as (w2 & E2 & Hw2); [by split_and!|].
  unfold bindM at 1. rewrite E2.
  assert (H : hoare (settled w1 false) (for_each selected (fun pt => run_profile call glob render args_ (fst pt) (snd pt)))
    (fun _ => settled w1 false) (fun _ _ => False)).
  { apply hoare_for_each. intros pt Hpt. eapply hoare_conseq.
    - apply (succeeds_run_profile call glob render args_ Hd Hc Hy w1 (fst pt) (snd pt) false).
      + apply Hlogs. unfold logs. apply list_elem_of_In, in_flat_map. exists pt. split; [by apply list_elem_of_In | by left].
      + intros t Ht. apply Hlogs. unfold logs. apply list_elem_of_In, in_flat_map. exists pt.
        split; [by apply list_elem_of_In | right; apply in_map; by apply list_elem_of_In].
    - done.
    - intros _ w' (H1 & H2 & _). by split_and!.
    - done. }
  specialize (H w2 Hw2). unfold bindM at 1. destruct (for_each selected _ w2) as [w3 [[]|]]; [|done].
  unfold collect_artifacts. rewrite Hcol. done.
Qed.

(** ** Properties *)
Lemma all_tests_wf : wf all_tests.
Proof. unfold wf. apply (bool_decide_unpack _). vm_compute. exact I. Qed.

(** [filter_tests] keeps, profile by profile and in order, exactly the tests
    that match every include filter and no exclude filter, and leaves out the
    profiles that keep none; one malformed filter exits with status 1. *)
Theorem filter_tests_selects (permutations : dict string (list string)) (inc exc : list string) (w : world) :
  wf permutations ->
  filter_tests permutations inc exc w =
  match parsed_all inc, parsed_all exc with
  | Some i, Some e => (w, Ok (select i e permutations))
  | _, _ => (syntax_error w, Err (SystemExit 1))
  end.
Proof. exact (filter_tests_eq permutations inc exc w). Qed.

(** Include filters are intersected: with two filters for different profiles
    (on the command line, two patterns to run) no test is selected, whatever the
    tests, and [run] exits with status 1 before doing anything. *)
Theorem two_includes_select_nothing
  (call : string -> string -> gmap string (list string) -> gmap string (list string) * Z)
  (glob : string -> string -> gmap string (list string) -> list string)
  (render : string -> list (string * string) -> string) (a : args) (now : Z) (w : world)
  (i e : list (option string * option string)) (p1 t1 p2 t2 : string) :
  parsed_all (includes_patterns a) = Some i -> parsed_all (excludes_patterns a) = Some e ->
  (p1 +:+ ":" +:+ t1) ∈ includes_patterns a -> (p2 +:+ ":" +:+ t2) ∈ includes_patterns a ->
  forallb (no_char ":") [p1; t1; p2; t2] = true -> p1 <> "*" -> p2 <> "*" -> p1 <> p2 ->
  run call glob render a now w =
  (set_out (out w ++ ["ERROR: no tests were selected -- includes pattern did not match any known tests"])%list w,
   Err (SystemExit 1)).
Proof.
  intros Hi He H1 H2 Hc N1 N2 Hne. cbn in Hc. repeat (apply andb_prop in Hc as [? Hc]).
  unfold run, bindM at 1. rewrite (filter_tests_eq _ _ _ _ all_tests_wf), Hi, He.
  rewrite select_nothing.
  2: { intros. apply (keep_two_includes i e p1 (Some t1) p2 (Some t2)); auto; eapply parsed_all_in; eauto. }
  cbn [length Nat.eqb]. rewrite bool_decide_eq_false_2; [done|].
  intros Eq. rewrite Eq in H1, H2. apply list_elem_of_singleton in H1, H2.
  destruct p1 as [|c1 [|]]; try discriminate H1; destruct t1; discriminate H1.
Qed.

(** with [--dry-run], whatever the filters, the keys pressed and the way the
    run ends, no command is executed, no file or directory changes, and the working
    directory stays the same. *)
Theorem dry_run_safe
  (call : string -> string -> gmap string (list string) -> gmap string (list string) * Z)
  (glob : string -> string -> gmap string (list string) -> list string)
  (render : string -> list (string * string) -> string) (a : args) (now : Z) (w : world) :
  dry_run a = true ->
  let w' := fst (run call glob render a now w) in
  executed w' = executed w /\ files w' = files w /\ dirs w' = dirs w /\ cwd w' = cwd w.
Proof.
  intros Hd.
  pose proof (run_keeps call glob render a
    (fun w' => executed w' = executed w /\ files w' = files w /\ dirs w' = dirs w /\ cwd w' = cwd w)) as H.
  specialize (H ltac:(done) ltac:(done) ltac:(done) ltac:(done) ltac:(by left) ltac:(by left) now w ltac:(done)).
  by destruct (run call glob render a now w) as [w' [u|e]].
Qed.

(** however a run ends (tests failing, prompts refused, files missing), the
    working directory is the one it started in: every directory that is entered is
    left. *)
Theorem run_restores_cwd
  (call : string -> string -> gmap string (list string) -> gmap string (list string) * Z)
  (glob : string -> string -> gmap string (list string) -> list string)
  (render : string -> list (string * string) -> string) (a : args) (now : Z) (w : world) :
  cwd (fst (run call glob render a now w)) = cwd w.
Proof.
  pose proof (run_keeps call glob render a (fun w' => cwd w' = cwd w)) as H.
  specialize (H ltac:(done) ltac:(done) ltac:(done) ltac:(done)).
  assert (Hfs : dry_run a = true \/ (forall (f : gmap string (list string)) w0, cwd w0 = cwd w -> cwd (set_files f w0) = cwd w)
    /\ (forall d w0, cwd w0 = cwd w -> cwd (set_dirs d w0) = cwd w)
    /\ (forall A path (m : M world A), keeps (fun w' => cwd w' = cwd w) m ->
          keeps (fun w' => cwd w' = cwd w) (with_dir path m))).
  { right. split; [done|]. split; [done|]. intros A path m _. apply with_dir_cwd. }
  assert (Hc : dry_run a = true \/ forall cmd, keeps (fun w' => cwd w' = cwd w) (subprocess_call call cmd)).
  { right. intros cmd w0 Hw0. unfold subprocess_call. by destruct (call (cwd w0) cmd (files w0)). }
  specialize (H Hfs Hc now w eq_refl). by destruct (run call glob render a now w) as [w' [u|e]].
Qed.


(** ** Witnesses *)
Definition world0 : world := World ∅ [] "/repo" [] [] [] None [].

Definition call0 : string -> string -> gmap string (list string) -> gmap string (list string) * Z :=
  fun _ cmd fs => (fs, if contains "full-test" cmd then 1%Z else 0%Z).

Definition glob0 : string -> string -> gmap string (list string) -> list string := fun _ _ _ => [].

(** Enough of a template engine to tell the test. *)
Definition render0 : string -> list (string * string) -> string :=
  fun _ env => "mina integration-test " +:+ default "" (get env "test").

Definition args0 (dry : bool) (includes : list string) : args :=
  Args dry true true false true "out" includes [].

Lemma filter_tests_selects_witness :
  filter_tests small_curves_tests ["*:coda-restart-node-test"] ["test_postake:*"] world0
  = (world0, Ok [("test_postake_catchup", ["coda-restart-node-test"])]).
Proof.
  rewrite (filter_tests_selects small_curves_tests ["*:coda-restart-node-test"] ["test_postake:*"] world0).
  - vm_compute. reflexivity.
  - unfold wf. apply (bool_decide_unpack _). vm_compute. exact I.
Defined.

Lemma two_includes_select_nothing_witness :
  snd (run call0 glob0 render0 (args0 false ["dev:*"; "test_postake_split:*"]) 0 world0) = Err (SystemExit 1).
Proof.
  rewrite (two_includes_select_nothing call0 glob0 render0 (args0 false ["dev:*"; "test_postake_split:*"]) 0 world0
    [(Some "dev", Some "*"); (Some "test_postake_split", Some "*")] [] "dev" "*" "test_postake_split" "*");
    [reflexivity|reflexivity|reflexivity| | |reflexivity|discriminate|discriminate|discriminate].
  - left.
  - right. left.
Defined.

Lemma dry_run_safe_witness :
  let w' := fst (run call0 glob0 render0 (args0 true ["*"]) 0 world0) in executed w' = [] /\ files w' = ∅.
Proof.
  destruct (dry_run_safe call0 glob0 render0 (args0 true ["*"]) 0 world0 eq_refl) as (H1 & H2 & _).
  split; [exact H1 | exact H2].
Defined.


Example required_now : snd (get_required_status world0) = Ok
  ["ci/circleci: test--test_postake_snarkless"; "ci/circleci: test--test_postake_split";
   "ci/circleci: test--dev--coda-bootstrap-test"; "ci/circleci: test--dev--coda-shared-state-test";
   "ci/circleci: test--dev--coda-delegation-test"; "buildkite/mina/pr"; "buildkite/mina-pr-gating"].
Proof. vm_compute. reflexivity. Qed.

Example list_tests_ok : snd (list_tests world0) = Ok tt.
Proof. vm_compute. reflexivity. Qed.

(** whatever the templates render to, after [render] has written its two output
    files, [render --check] finds them up to date: it exits normally and changes
    nothing. *)
Theorem render_then_check (render_ci : string -> string -> dict string (list string) -> string)
  (render_mergify : string -> string -> list string -> string) (circle mergify : string) (w : world) :
  snd (splitext circle) = ".jinja" -> snd (splitext mergify) = ".jinja" ->
  resolve (cwd w) (fst (splitext circle)) <> resolve (cwd w) (fst (splitext mergify)) ->
  exists w', render_action render_ci render_mergify false circle mergify w = (w', Ok tt)
             /\ render_action render_ci render_mergify true circle mergify w' = (w', Ok tt).
Proof. exact (render_then_check_ok render_ci render_mergify circle mergify w). Qed.

Lemma render_then_check_witness :
  exists w', render_action (fun _ name _ => name) (fun _ name _ => name) true
    ".circleci/config.yml.jinja" ".mergify.yml.jinja" w' = (w', Ok tt).
Proof.
  destruct (render_then_check (fun _ name _ => name) (fun _ name _ => name)
    ".circleci/config.yml.jinja" ".mergify.yml.jinja" world0) as (w' & _ & H).
  - reflexivity.
  - reflexivity.
  - vm_compute. discriminate.
  - exists w'. exact H.
Defined.
