(* ===== verification/Puppeteer.v ===== *)
(** * The daemon puppeteer, [dockerfiles/puppeteer-context/mina_daemon_puppeteer.py]

    The script is a state machine driven by signals.  [mode] is the point of the
    code where it stands between two events; the fields of [state] are its globals,
    the state of the mina process in the kernel and the file [daemon-active].  The
    handlers and the bodies of the two loops are functions; [step] says which of
    them runs at which event.

    A signal handler runs at any point; [signal.pause] returns only for a signal
    that arrives while it is waiting.  [os.waitpid(-1)] reaps any dead child, and
    [Popen] takes a child that someone else reaped for one that returned 0. *)

From stdpp Require Import base list strings relations.
From Stdlib Require Import Ascii ZArith Lia.
From S2P Require Import Prelude PyStr.
Open Scope string_scope.

(** The mina process: running, dead with an exit status, or reaped by someone. *)
Inductive process : Type :=
| Running
| Zombie (status : Z)
| Reaped.

Inductive mode : Type :=
| Serving                (* inactive_loop, in the mock server *)
| Starting               (* inactive_loop, after start_daemon *)
| Paused                 (* active_loop, in signal.pause *)
| Woken                  (* active_loop, signal.pause has returned *)
| Stopping               (* active_loop, in mina_process.wait *)
| Exited (status : Z)
| Crashed (e : exn).

Record state : Type := State {
  md : mode;
  active_daemon_request : bool;
  inactive_daemon_request : bool;
  mina_process : option process;
  daemon_active : bool;
  script_log : list string
}.

Definition log (s : string) (st : state) : state :=
  State (md st) (active_daemon_request st) (inactive_daemon_request st) (mina_process st)
    (daemon_active st) (script_log st ++ ["mina_daemon_puppeteer_script: " +:+ s])%list.

Definition dq : string := String "034"%char EmptyString.

Definition log_event (puppeteer_event_type message : string) (st : state) : state :=
  let q s := dq +:+ s +:+ dq in
  State (md st) (active_daemon_request st) (inactive_daemon_request st) (mina_process st)
    (daemon_active st)
    (script_log st ++
     ["{" +:+ q "puppeteer_script_event" +:+ ": true, " +:+ q "puppeteer_event_type" +:+ ": "
      +:+ q puppeteer_event_type +:+ ", " +:+ q "message" +:+ ":" +:+ q message +:+ "}"])%list.

Definition set_mode m st :=
  State m (active_daemon_request st) (inactive_daemon_request st) (mina_process st) (daemon_active st) (script_log st).
Definition set_active b st :=
  State (md st) b (inactive_daemon_request st) (mina_process st) (daemon_active st) (script_log st).
Definition set_inactive b st :=
  State (md st) (active_daemon_request st) b (mina_process st) (daemon_active st) (script_log st).
Definition set_mina m st :=
  State (md st) (active_daemon_request st) (inactive_daemon_request st) m (daemon_active st) (script_log st).
Definition set_file b st :=
  State (md st) (active_daemon_request st) (inactive_daemon_request st) (mina_process st) b (script_log st).

(** ** Signal handlers *)

(** [os.waitpid(-1, os.WNOHANG)]: [mina] says whether the child that is reaped, if
    any, is mina. *)
Definition handle_child_termination (mina : bool) (st : state) : state :=
  let st := log "SIGCHLD received" st in
  match mina, mina_process st with
  | true, Some (Zombie _) => set_mina (Some Reaped) st
  | _, _ => st
  end.

Definition handle_start_request (st : state) : state :=
  set_active true (log "SIGUSR1 handle_start_request received, setting active_daemon_request to True" st).

Definition handle_stop_request (st : state) : state :=
  set_inactive true (log "SIGUSR2 handle_stop_request received, setting inactive_daemon_request to True" st).

Inductive signal : Type :=
| SIGCHLD (mina : bool)
| SIGUSR1
| SIGUSR2.

(** The handlers as [__main__] registers them. *)
Definition handler (s : signal) : state -> state :=
  match s with
  | SIGCHLD mina => handle_child_termination mina
  | SIGUSR1 => handle_stop_request
  | SIGUSR2 => handle_start_request
  end.

(** A signal runs its handler and ends a [signal.pause]. *)
Definition deliver (s : signal) (st : state) : state :=
  let st := handler s st in
  match md st with
  | Paused => set_mode Woken st
  | _ => st
  end.

(** ** Processes *)
Definition get_child_processes (output : string) : result (list Z) :=
  mapM py_int (List.filter (fun s => Nat.ltb 0 (String.length s)) (split " "%char output)).

(** What [os.kill(pid, 0)] does: the signal is sent, there is no such process, or it belongs to
    someone else. *)
Inductive kill_answer : Type :=
| Signalled
| NoProcess
| Denied.

Definition pid_is_running (a : kill_answer) : result bool :=
  match a with
  | Signalled => Ok true
  | NoProcess => Ok false
  | Denied => Err (OSError "Operation not permitted")
  end.

(** The loop over the answers it gets; [None]: it is still sleeping after the last of them. *)
Fixpoint wait_for_pid (answers : list kill_answer) : option (result unit) :=
  match answers with
  | [] => None
  | a :: answers' =>
      match pid_is_running a with
      | Ok true => wait_for_pid answers'
      | Ok false => Some (Ok tt)
      | Err e => Some (Err e)
      end
  end.

Definition start_daemon (st : state) : state :=
  let st := log "start_daemon called" st in
  let st := set_mina (Some Running) st in
  let st := log "touching /root/daemon-active" st in
  log "daemon fully started" (set_file true st).

(** The wait ends when the process is gone, and not before. *)
Lemma wait_for_pid_ends answers : wait_for_pid answers = Some (Ok tt) <->
  exists n rest, answers = (replicate n Signalled ++ NoProcess :: rest)%list.
Proof.
  induction answers as [|a answers IH]; cbn [wait_for_pid].
  - split; [done | by intros ([|n] & rest & E)].
  - destruct a; cbn [pid_is_running].
    + rewrite IH. split; intros (n & rest & E); [exists (S n), rest; by rewrite E|].
      destruct n as [|n]; [done|]. injection E as ->. by exists n, rest.
    + split; [by exists 0%nat, answers | done].
    + split; [done | by intros ([|n] & rest & E)].
Qed.

(** [stop_daemon] up to [mina_process.wait()]; [None] has no method [send_signal]. *)
Definition stop_daemon_begin (child_pids : list Z) (st : state) : result state :=
  let st := log "stop_daemon called" st in
  match mina_process st with
  | None => Err AttributeError
  | Some _ => Ok (log ("stop_daemon, child_pids: " +:+ join ", " (map py_str child_pids)) st)
  end.

(** [stop_daemon] from the return of [mina_process.wait()]. *)
Definition stop_daemon_end (child_pids : list Z) (st : state) : result state :=
  let st := fold_left (fun st pid =>
    log ("done waiting for: " +:+ py_str pid) (log ("waiting for child_pid: " +:+ py_str pid) st)) child_pids st in
  let st := log "removing /root/daemon-active" st in
  if daemon_active st then
    let st := set_mina None (set_file false st) in
    let st := log "daemon fully stopped" st in
    Ok (log_event "node_offline" "daemon is being stopped by puppeteer script and is going offline" st)
  else Err (FileNotFoundError "daemon-active").

(** [Popen.poll] *)
Definition poll (st : state) : result (option Z) :=
  match mina_process st with
  | None => Err AttributeError
  | Some Running => Ok None
  | Some (Zombie status) => Ok (Some status)
  | Some Reaped => Ok (Some 0%Z)
  end.

(** ** The loops *)
Definition enter_inactive_loop (st : state) : state := set_mode Serving (log "inactive_loop beginning" st).

Definition enter_active_loop (st : state) : state := set_mode Paused (log "active_loop beginning" st).

(** An exception in [inactive_loop]: the handler concatenates a string and an
    exception, so that a TypeError leaves the loop. *)
Definition inactive_loop_error (st : state) : state :=
  set_mode (Crashed TypeError)
    (log "inactive_loop terminating. mock server closed." (log "inactive_loop experienced an error: " st)).

(** One turn of the loop of [inactive_loop], up to [start_daemon]. *)
Definition inactive_tick (st : state) : state :=
  if active_daemon_request st then
    set_mode Starting
      (start_daemon (log "inactive_loop: active_daemon_request received, starting daemon" st))
  else st.

(** From [start_daemon] to the first [signal.pause] of [active_loop]. *)
Definition inactive_exit (st : state) : state :=
  enter_active_loop (log "inactive_loop terminating. mock server closed." (set_active false st)).

Definition cleanup_and_exit (status : Z) (st : state) : state := set_mode (Exited status) st.

(** One turn of the loop of [active_loop], from the return of [signal.pause]. *)
Definition active_poll (child_pids : list Z) (st : state) : state :=
  match poll st with
  | Err e => set_mode (Crashed e) st
  | Ok (Some status) =>
      cleanup_and_exit status (log "active_loop: status not None, cleaning up and exiting" st)
  | Ok None =>
      if inactive_daemon_request st then
        match stop_daemon_begin child_pids
                (log "active_loop: inactive daemon request detected, stopping daemon" st) with
        | Ok st => set_mode Stopping st
        | Err e => set_mode (Crashed e) st
        end
      else set_mode Paused st
  end.

Definition active_exit (child_pids : list Z) (st : state) : state :=
  match stop_daemon_end child_pids st with
  | Ok st => enter_inactive_loop (set_inactive false st)
  | Err e => set_mode (Crashed e) st
  end.

(** [__main__]: the mock server is started first. *)
Definition init : state :=
  enter_inactive_loop (log "starting..." (State Serving false false None false [])).

(** ** The machine *)
Definition live (st : state) : Prop :=
  match md st with
  | Exited _ | Crashed _ => False
  | _ => True
  end.

Inductive event : Type :=
| Signal (s : signal)
| MinaDies (status : Z)
| Served
| Failed
| Started
| Polled (child_pids : list Z)
| Stopped (child_pids : list Z).

Inductive step : event -> state -> state -> Prop :=
| step_signal s st : live st -> step (Signal s) st (deliver s st)
| step_mina_dies status st :
    live st -> mina_process st = Some Running -> step (MinaDies status) st (set_mina (Some (Zombie status)) st)
| step_serve st : md st = Serving -> step Served st (inactive_tick st)
| step_error st : md st = Serving -> step Failed st (inactive_loop_error st)
| step_started st : md st = Starting -> step Started st (inactive_exit st)
| step_poll pids st : md st = Woken -> step (Polled pids) st (active_poll pids st)
| step_stopped pids st :
    md st = Stopping -> mina_process st <> Some Running -> step (Stopped pids) st (active_exit pids st).

Inductive steps : list event -> state -> state -> Prop :=
| steps_nil st : steps [] st st
| steps_cons e es st1 st2 st3 : step e st1 st2 -> steps es st2 st3 -> steps (e :: es) st1 st3.

Definition reachable (st : state) : Prop := exists es, steps es init st.

(** ** The invariant *)
Definition inv (st : state) : Prop :=
  match md st with
  | Serving => mina_process st = None /\ daemon_active st = false
  | Starting | Paused | Woken | Stopping | Exited _ => mina_process st <> None /\ daemon_active st = true
  | Crashed e => e = TypeError /\ mina_process st = None
  end.

(** The fields the invariant and the guards read. *)
Definition core (st : state) := (md st, active_daemon_request st, inactive_daemon_request st, mina_process st, daemon_active st).

Lemma core_inv st m a i p d :
  core st = (m, a, i, p, d) ->
  md st = m /\ active_daemon_request st = a /\ inactive_daemon_request st = i
  /\ mina_process st = p /\ daemon_active st = d.
Proof. by intros [= -> -> -> -> ->]. Qed.

Lemma deliver_stop_paused st a i p d :
  core st = (Paused, a, i, p, d) -> core (deliver SIGUSR1 st) = (Woken, a, true, p, d).
Proof. destruct st. unfold core, deliver. cbn. by intros [= -> -> -> -> ->]. Qed.

Lemma stop_daemon_logs pids st :
  core (fold_left (fun st pid =>
    log ("done waiting for: " +:+ py_str pid) (log ("waiting for child_pid: " +:+ py_str pid) st)) pids st) = core st.
Proof. revert st. induction pids as [|pid pids IH]; intros st; [done|]. cbn [fold_left]. by rewrite IH. Qed.

Lemma stop_daemon_end_ok pids st :
  daemon_active st = true ->
  exists st', stop_daemon_end pids st = Ok st' /\
    core st' = (md st, active_daemon_request st, inactive_daemon_request st, None, false).
Proof.
  intros H. unfold stop_daemon_end. set (f := fold_left _ pids st).
  pose proof (stop_daemon_logs pids st) as E. fold f in E. unfold core in E. injection E as E1 E2 E3 E4 E5.
  cbn. rewrite E5, H. eexists. split; [done|]. unfold core. cbn. by rewrite E1, E2, E3.
Qed.

Lemma active_poll_eq pids st :
  mina_process st <> None ->
  core (active_poll pids st) =
  match mina_process st with
  | Some (Zombie status) => (Exited status, active_daemon_request st, inactive_daemon_request st, mina_process st, daemon_active st)
  | Some Reaped => (Exited 0%Z, active_daemon_request st, inactive_daemon_request st, mina_process st, daemon_active st)
  | _ => (if inactive_daemon_request st then Stopping else Paused,
          active_daemon_request st, inactive_daemon_request st, mina_process st, daemon_active st)
  end.
Proof.
  intros H. unfold active_poll, poll. destruct (mina_process st) as [[|status|]|] eqn:E; [|by unfold core; cbn; rewrite E..|done].
  destruct (inactive_daemon_request st) eqn:Ei; [|by unfold core; cbn; rewrite Ei, E].
  unfold stop_daemon_begin. cbn. rewrite E. unfold core. cbn. by rewrite Ei, E.
Qed.

Lemma inv_core st st' : core st' = core st -> inv st -> inv st'.
Proof. unfold core, inv. intros [= -> _ _ -> ->]. done. Qed.

Lemma handler_inv s st : inv st -> inv (handler s st) /\ md (handler s st) = md st.
Proof.
  intros H. destruct s as [mina| |]; cbn [handler]; [|split; [exact H|done]..].
  unfold handle_child_termination. destruct mina; [|by split]. cbn.
  destruct (mina_process st) as [[|status|]|] eqn:E; [by split| |by split..].
  split; [|done]. unfold inv in *. cbn. destruct (md st); rewrite ?E in H; naive_solver.
Qed.

Lemma step_inv e st st' : step e st st' -> inv st -> inv st'.
Proof.
  intros Hs Hi. destruct Hs as [s st Hl|status st Hl Hm|st Hm|st Hm|st Hm|pids st Hm|pids st Hm Hd].
  - destruct (handler_inv s st Hi) as [H1 H2]. unfold deliver. rewrite H2.
    destruct (md st) eqn:E; try exact H1. unfold inv in *. rewrite H2 in H1. exact H1.
  - unfold inv in *. cbn. destruct (md st); rewrite ?Hm in Hi; naive_solver.
  - unfold inactive_tick. destruct (active_daemon_request st); [|done]. by split.
  - unfold inv in *. rewrite Hm in Hi. cbn. naive_solver.
  - unfold inv in *. rewrite Hm in Hi. exact Hi.
  - unfold inv in Hi. rewrite Hm in Hi. destruct Hi as [Hp Hf]. pose proof (active_poll_eq pids st Hp) as E.
    unfold core in E. unfold inv. destruct (mina_process st) as [[|status|]|] eqn:Em; [|..|done];
      injection E as -> _ _ -> ->; [destruct (inactive_daemon_request st)|..]; done.
  - unfold inv in Hi. rewrite Hm in Hi. destruct Hi as [Hp Hf]. unfold active_exit.
    destruct (stop_daemon_end_ok pids st Hf) as (st' & -> & E). unfold core in E. injection E as _ _ _ E4 E5.
    unfold inv. cbn. by split.
Qed.

Lemma steps_inv es st st' : steps es st st' -> inv st -> inv st'.
Proof. induction 1; [done|]. eauto using step_inv. Qed.

Lemma reachable_inv st : reachable st -> inv st.
Proof. intros [es H]. eapply steps_inv; [exact H|]. by split. Qed.

(** A pause ends only with a signal. *)
Definition no_signal (e : event) : bool :=
  match e with
  | Signal _ => false
  | _ => true
  end.

Lemma paused_stays es st st' :
  steps es st st' -> forallb no_signal es = true -> md st = Paused ->
  md st' = Paused /\ inactive_daemon_request st' = inactive_daemon_request st /\ daemon_active st' = daemon_active st.
Proof.
  induction 1 as [st|e es st1 st2 st3 H1 H2 IH]; [done|]. cbn. intros [Hn Hns]%andb_prop Hm.
  assert (E : md st2 = Paused /\ inactive_daemon_request st2 = inactive_daemon_request st1
              /\ daemon_active st2 = daemon_active st1).
  { destruct H1; try congruence; [done|]. by rewrite <- Hm. }
  destruct E as (E1 & E2 & E3). destruct (IH Hns E1) as (F1 & F2 & F3). by rewrite F2, F3.
Qed.

(** ** Properties *)



(** The status of a mina process that dies by itself is lost: when the SIGCHLD
    handler reaps it, the script exits with status 0, whatever mina returned. *)
Theorem exit_status_lost (st : state) (status : Z) (pids : list Z) :
  md st = Paused -> mina_process st = Some Running ->
  exists st', steps [MinaDies status; Signal (SIGCHLD true); Polled pids] st st' /\ md st' = Exited 0.
Proof.
  intros Hm Hp. set (sa := set_mina (Some (Zombie status)) st). set (sb := deliver (SIGCHLD true) sa).
  assert (Eb : md sb = Woken /\ mina_process sb = Some Reaped) by (unfold sb, deliver, sa; cbn; by rewrite Hm).
  exists (active_poll pids sb). split.
  - repeat eapply steps_cons; [apply step_mina_dies|apply step_signal|apply step_poll|constructor]; try done.
    + unfold live. by rewrite Hm.
    + unfold live. cbn. by rewrite Hm.
    + apply Eb.
  - unfold active_poll, poll. rewrite (proj2 Eb). done.
Qed.

(** A stop request that arrives while the daemon is being started is recorded
    and then ignored: the script pauses with the request pending and the daemon
    running, and stays so until another signal arrives. *)
Theorem stop_while_starting_waits (st st' : state) (es : list event) :
  reachable st -> md st = Starting ->
  steps es (inactive_exit (deliver SIGUSR1 st)) st' -> forallb no_signal es = true ->
  md st' = Paused /\ inactive_daemon_request st' = true /\ daemon_active st' = true.
Proof.
  intros HR Hm Hs Hn. pose proof (reachable_inv st HR) as Hi. unfold inv in Hi. rewrite Hm in Hi.
  assert (E : inactive_daemon_request (inactive_exit (deliver SIGUSR1 st)) = true
              /\ daemon_active (inactive_exit (deliver SIGUSR1 st)) = true).
  { unfold deliver. cbn. rewrite Hm. cbn. by destruct Hi. }
  destruct (paused_stays es _ _ Hs Hn) as (H1 & H2 & H3); [done|]. by rewrite H2, H3.
Qed.

(** ** Witnesses *)
Lemma init_serving : reachable init.
Proof. exists []. constructor. Qed.

Definition starting : state := inactive_tick (deliver SIGUSR2 init).

Lemma starting_reachable : reachable starting.
Proof.
  exists [Signal SIGUSR2; Served].
  repeat eapply steps_cons; [apply step_signal|apply step_serve|constructor]; done.
Qed.



Lemma exit_status_lost_witness :
  exists st', steps [MinaDies 1; Signal (SIGCHLD true); Polled []] (inactive_exit starting) st' /\ md st' = Exited 0.
Proof. exact (exit_status_lost (inactive_exit starting) 1 [] eq_refl eq_refl). Defined.

Lemma stop_while_starting_waits_witness :
  inactive_daemon_request (inactive_exit (deliver SIGUSR1 starting)) = true.
Proof.
  exact (proj1 (proj2 (stop_while_starting_waits starting (inactive_exit (deliver SIGUSR1 starting)) []
    starting_reachable eq_refl (steps_nil _) eq_refl))).
Defined.
