(* ===== verification/Faucet.v ===== *)
(** * The faucet bot, [automation/services/faucet/tiny.py] and [faucet.py]

    The bot handles chat messages, reactions and block notifications in one event
    loop; a [$request] becomes a coroutine that waits for a reaction to its approval
    message and then for the payment.  [bot] holds the globals and the coroutines
    that are waiting ([tasks]); a step of the event loop is a function on it.  The
    client of the daemon is outside: what it answers comes with the event. *)

From stdpp Require Import base list strings.
From Stdlib Require Import Ascii ZArith Lia.
From S2P Require Import Prelude PyStr.
Open Scope string_scope.

Definition FAUCET_APPROVE_ROLE : string := "faucet-approvers".
Definition MOD_ROLE : string := "mod".
Definition LISTENING_CHANNELS : list string := ["faucet"].

Definition nl : string := String "010"%char EmptyString.

Record user : Type := User { id : Z; mention : string; roles : list string }.

(** [guild_roles]: the names of the roles of the guild, with their mentions. *)
Record message : Type := Message {
  author : user;
  content : string;
  channel : string;
  guild_roles : list (string * string)
}.

Inductive emoji : Type := ThumbsUp | Cross | Other.

Record reaction : Type := Reaction { message_id : Z; emo : emoji; reactor : user }.

(** Where the coroutine of a request waits. *)
Inductive stage : Type :=
| Waiting (approval_message_id : Z)
| Sending.

Record task : Type := Task { requester : user; recipient : string; stg : stage }.

Record bot : Type := Bot {
  active_requests : list Z;
  sent_this_block : bool;
  tasks : list task;
  next_id : Z;
  replies : list string;
  payments : list (string * option string);
  transaction_count : Z;
  total_coda_sent : Z;
  please_wait_errors : Z;
  block_notifications : Z
}.

Definition send (s : string) (b : bot) : bot :=
  Bot (active_requests b) (sent_this_block b) (tasks b) (next_id b + 1) (replies b ++ [s])%list (payments b)
    (transaction_count b) (total_coda_sent b) (please_wait_errors b) (block_notifications b).
Definition set_requests r (b : bot) : bot :=
  Bot r (sent_this_block b) (tasks b) (next_id b) (replies b) (payments b)
    (transaction_count b) (total_coda_sent b) (please_wait_errors b) (block_notifications b).
Definition set_tasks t (b : bot) : bot :=
  Bot (active_requests b) (sent_this_block b) t (next_id b) (replies b) (payments b)
    (transaction_count b) (total_coda_sent b) (please_wait_errors b) (block_notifications b).
Definition add_payment p (b : bot) : bot :=
  Bot (active_requests b) (sent_this_block b) (tasks b) (next_id b) (replies b) (payments b ++ [p])%list
    (transaction_count b) (total_coda_sent b) (please_wait_errors b) (block_notifications b).
Definition count_transaction (b : bot) : bot :=
  Bot (active_requests b) (sent_this_block b) (tasks b) (next_id b) (replies b) (payments b)
    (transaction_count b + 1) (total_coda_sent b) (please_wait_errors b) (block_notifications b).
Definition count_coda z (b : bot) : bot :=
  Bot (active_requests b) (sent_this_block b) (tasks b) (next_id b) (replies b) (payments b)
    (transaction_count b) (total_coda_sent b + z) (please_wait_errors b) (block_notifications b).
Definition count_please_wait (b : bot) : bot :=
  Bot (active_requests b) (sent_this_block b) (tasks b) (next_id b) (replies b) (payments b)
    (transaction_count b) (total_coda_sent b) (please_wait_errors b + 1) (block_notifications b).

Definition init : bot := Bot [] false [] 0 [] [] 0 0 0 0.

(** Iterating a generator expression with [next] when nothing matches raises
    StopIteration, which a coroutine turns into a RuntimeError. *)
Definition stop_iteration : exn := RuntimeError "coroutine raised StopIteration".

Section Faucet.
(** The environment variable FAUCET_AMOUNT. *)
Context (CODA_FAUCET_AMOUNT : option string).

Definition new_block_callback (b : bot) : bot :=
  Bot (active_requests b) false (tasks b) (next_id b) (replies b) (payments b)
    (transaction_count b) (total_coda_sent b) (please_wait_errors b) (block_notifications b + 1).

(** [re.search("\$request (\w+)", s)] and its group. *)
Fixpoint search_request (s : string) : option string :=
  let found := take_while is_word (drop_str 9 s) in
  if startswith "$request " s && negb (String.eqb found "") then Some found else
  match s with
  | EmptyString => None
  | String _ s' => search_request s'
  end.

Definition help_text : string :=
  "```" +:+ nl +:+ "Woof! I can help you get some coda on the testnet." +:+ nl
  +:+ "Just send me a message in the #faucet channel with the following contents: " +:+ nl +:+ nl
  +:+ "`$request <public-key>`" +:+ nl +:+ nl
  +:+ "Once a mod approves, `100 CODA` will be sent to the requested address!" +:+ nl
  +:+ "        ```".

Definition approval_text (mod_role : string) (u : user) (to : string) : string :=
  "Hey " +:+ mod_role +:+ ", should I approve this transaction?: " +:+ nl +:+ "Requester: " +:+ mention u
  +:+ nl +:+ "Recipient: " +:+ to +:+ nl +:+ "Amount: " +:+ default "None" CODA_FAUCET_AMOUNT
  +:+ nl +:+ " *To cancel, react with ❌*".

(** [del ACTIVE_REQUESTS[k]] *)
Fixpoint remove_id (k : Z) (l : list Z) : result (list Z) :=
  match l with
  | [] => Err KeyError
  | x :: l' => if Z.eqb x k then Ok l' else let* r := remove_id k l' in Ok (x :: r)
  end.

(** The [finally] clause; the bot keeps its state when the deletion raises. *)
Definition finish (u : user) (b : bot) : bot * option exn :=
  match remove_id (id u) (active_requests b) with
  | Ok r => (set_requests r b, None)
  | Err e => (b, Some e)
  end.

(** The part of [on_message] for [$request]. *)
Definition on_request (m : message) (b : bot) : bot * option exn :=
  match List.find (fun r => String.eqb (fst r) FAUCET_APPROVE_ROLE) (guild_roles m) with
  | None => (b, Some stop_iteration)
  | Some (_, mod_role) =>
      let u := author m in
      if bool_decide (id u ∈ active_requests b) then
        (send ("Hey " +:+ mention u +:+ ", please wait or cancel your previous request for faucet funds!") b, None)
      else
        let b := set_requests (active_requests b ++ [id u])%list b in
        match search_request (content m), sent_this_block b with
        | Some to, false =>
            let k := next_id b in
            let b := send (approval_text mod_role u to) b in
            (set_tasks (tasks b ++ [Task u to (Waiting k)])%list b, None)
        | _, true =>
            finish u (count_please_wait
              (send "I've sent too many transactions this block, please try again in a bit!" b))
        | None, false =>
            finish u (send ("Grrrrr... Invalid Parameters!!" +:+ nl +:+ "                `$request <public-key>`"
                            +:+ nl +:+ "                ") b)
        end
  end.

(** [on_message]; [status_text] is what the daemon's status formats to, or the
    exception of the request for it. *)
Definition on_message (me : user) (status_text : result string) (m : message) (b : bot) : bot * option exn :=
  if Z.eqb (id (author m)) (id me) then (b, None) else
  let here := bool_decide (channel m ∈ LISTENING_CHANNELS) in
  let b := if startswith "$tiny" (content m) && here then send "You summoned me?" b else b in
  let after_status :=
    if startswith "$status" (content m) && here then
      if bool_decide (MOD_ROLE ∈ roles (author m)) then
        match status_text with
        | Ok s => Ok (send s b)
        | Err e => Err e
        end
      else Ok b
    else Ok b in
  match after_status with
  | Err e => (b, Some e)
  | Ok b =>
      let b := if startswith "$help" (content m) && here then send help_text b else b in
      if startswith "$request" (content m) && here then on_request m b else (b, None)
  end.

Definition check_approval (r : reaction) (k : Z) : bool :=
  Z.eqb (message_id r) k && bool_decide (FAUCET_APPROVE_ROLE ∈ roles (reactor r))
  && match emo r with ThumbsUp => true | _ => false end.

Definition check_cancel (r : reaction) (k : Z) (u : user) : bool :=
  Z.eqb (message_id r) k && Z.eqb (id (reactor r)) (id u) && match emo r with Cross => true | _ => false end.

(** A coroutine that a reaction wakes up: it goes on to the payment, or ends; [None]
    means that it is over. *)
Definition resume (r : reaction) (t : task) : option task * option string :=
  match stg t with
  | Sending => (Some t, None)
  | Waiting k =>
      if check_approval r k then
        (Some (Task (requester t) (recipient t) Sending),
         Some "Woof! -- Transaction Approved, fetching your funds...")
      else if check_cancel r k (requester t) then (None, Some "Transaction Cancelled!")
      else (Some t, None)
  end.

Definition say (reply : option string) (b : bot) : bot :=
  match reply with
  | Some s => send s b
  | None => b
  end.

(** The coroutine at position [i] is scheduled for a reaction that was added. *)
Definition on_reaction (i : nat) (r : reaction) (b : bot) : bot * option exn :=
  match tasks b !! i with
  | None => (b, None)
  | Some t =>
      match resume r t with
      | (Some t', reply) => (say reply (set_tasks (<[i := t']> (tasks b)) b), None)
      | (None, reply) => finish (requester t) (say reply (set_tasks (List.firstn i (tasks b) ++ List.skipn (S i) (tasks b))%list b))
      end
  end.

(** The payment of the coroutine at position [i] has returned or raised. *)
Definition on_payment (i : nat) (output : result string) (b : bot) : bot * option exn :=
  match tasks b !! i with
  | Some (Task u to Sending) =>
      let b := set_tasks (List.firstn i (tasks b) ++ List.skipn (S i) (tasks b))%list b in
      match output with
      | Err e => (fst (finish u b), Some e)
      | Ok text =>
          let b := add_payment (to, CODA_FAUCET_AMOUNT) b in
          let b := send (mention u +:+ " Transaction Sent! Output from Daemon: ```" +:+ text +:+ "```") b in
          let b := count_transaction b in
          match match CODA_FAUCET_AMOUNT with Some s => py_int s | None => Err TypeError end with
          | Ok z => finish u (count_coda z b)
          | Err e => (fst (finish u b), Some e)
          end
      end
  | _ => (b, None)
  end.

(** ** The event loop *)
Inductive event : Type :=
| NewBlock
| NewMessage (me : user) (status_text : result string) (m : message)
| NewReaction (i : nat) (r : reaction)
| PaymentDone (i : nat) (output : result string).

(** An exception ends its handler; the loop goes on. *)
Definition handle (e : event) (b : bot) : bot * option exn :=
  match e with
  | NewBlock => (new_block_callback b, None)
  | NewMessage me s m => on_message me s m b
  | NewReaction i r => on_reaction i r b
  | PaymentDone i o => on_payment i o b
  end.

Definition run (es : list event) : bot := fold_left (fun b e => fst (handle e b)) es init.

(** ** Invariant *)
Definition owners (b : bot) : list Z := map (fun t => id (requester t)) (tasks b).

Record inv (b : bot) : Prop := {
  inv_owners : active_requests b = owners b;
  inv_nodup : NoDup (active_requests b);
  inv_sent : sent_this_block b = false;
  inv_wait : please_wait_errors b = 0%Z
}.

Lemma remove_id_app k l1 l2 : k ∉ l1 -> remove_id k (l1 ++ k :: l2) = Ok (l1 ++ l2)%list.
Proof.
  induction l1 as [|x l1 IH]; intros H; cbn; [by rewrite Z.eqb_refl|].
  apply not_elem_of_cons in H as [Hx H]. rewrite (proj2 (Z.eqb_neq x k)) by congruence. by rewrite IH.
Qed.

(** Ending the coroutine at position [i] removes exactly its own entry. *)
Lemma finish_task i t b b' :
  inv b -> tasks b !! i = Some t ->
  active_requests b' = active_requests b -> sent_this_block b' = sent_this_block b ->
  please_wait_errors b' = please_wait_errors b ->
  tasks b' = (List.firstn i (tasks b) ++ List.skipn (S i) (tasks b))%list ->
  inv (fst (finish (requester t) b')) /\ snd (finish (requester t) b') = None.
Proof.
  intros [Ho Hn Hs Hw] Hi Ea Es Ew Et. unfold finish. rewrite Ea, Ho.
  pose proof (take_drop_middle _ _ _ Hi) as Hsplit.
  assert (Hown : owners b = (map (fun t => id (requester t)) (take i (tasks b))
                             ++ id (requester t) :: map (fun t => id (requester t)) (drop (S i) (tasks b)))%list).
  { unfold owners. rewrite <- Hsplit at 1. by rewrite map_app. }
  rewrite Ho, Hown in Hn. rewrite Hown. apply NoDup_app in Hn as (Hn1 & Hn2 & Hn3).
  apply NoDup_cons in Hn3 as [Hn3 Hn4].
  rewrite remove_id_app by (intros Hin; apply (Hn2 _ Hin); left). split; [|done].
  split; cbn; [|apply NoDup_app; split; [done|]; split; [|done]|congruence..].
  - unfold owners. cbn. rewrite Et, map_app. reflexivity.
  - intros x Hx Hx'. apply (Hn2 x Hx). by right.
Qed.

Lemma inv_send s b : inv b -> inv (send s b).
Proof. intros [? ? ? ?]. by split. Qed.

Lemma inv_maybe_send (c : bool) s b : inv b -> inv (if c then send s b else b).
Proof. intros H. destruct c; [by apply inv_send | done]. Qed.

Lemma on_request_inv m b : inv b -> inv (fst (on_request m b)).
Proof.
  intros Hi. unfold on_request. destruct (List.find _ _) as [[r mr]|]; [|done].
  case_bool_decide as Hin; [by apply inv_send|].
  destruct Hi as [Ho Hn Hs Hw]. cbn [sent_this_block set_requests]. rewrite Hs.
  assert (Hn' : NoDup (active_requests b ++ [id (author m)])).
  { apply NoDup_app. split; [done|]. split; [|apply NoDup_singleton].
    intros x Hx ->%list_elem_of_singleton. done. }
  destruct (search_request (content m)) as [to|].
  - split; cbn; [|done..]. unfold owners. cbn. by rewrite map_app, Ho.
  - unfold finish. cbn [active_requests send set_requests]. rewrite remove_id_app, app_nil_r by done.
    by split.
Qed.

Lemma on_message_inv me s m b : inv b -> inv (fst (on_message me s m b)).
Proof.
  intros Hi. unfold on_message. destruct (Z.eqb _ _); [done|]. cbv zeta.
  set (b1 := if startswith "$tiny" _ && _ then _ else _).
  assert (H1 : inv b1) by (by apply inv_maybe_send).
  destruct (if startswith "$status" _ && _ then _ else _) as [b2|e] eqn:E2; [|done].
  assert (H2 : inv b2).
  { repeat (case_match; simplify_eq); try done. by apply inv_send. }
  set (b3 := if startswith "$help" _ && _ then _ else _).
  assert (H3 : inv b3) by (by apply inv_maybe_send).
  destruct (startswith "$request" _ && _); [by apply on_request_inv | done].
Qed.

Lemma owners_update i t t' b :
  tasks b !! i = Some t -> id (requester t') = id (requester t) ->
  map (fun t => id (requester t)) (<[i := t']> (tasks b)) = owners b.
Proof.
  intros Hi Ht. unfold owners. apply list_eq. intros j. rewrite !list_lookup_fmap.
  destruct (decide (i = j)) as [->|]; [|by rewrite list_lookup_insert_ne].
  rewrite list_lookup_insert_eq by (by eapply lookup_lt_Some). by rewrite Hi; cbn; rewrite Ht.
Qed.

Lemma on_reaction_inv i r b : inv b -> inv (fst (on_reaction i r b)).
Proof.
  intros Hi. unfold on_reaction. destruct (tasks b !! i) as [t|] eqn:Et; [|done].
  assert (Hsame : forall t' reply, id (requester t') = id (requester t) ->
    inv (say reply (set_tasks (<[i := t']> (tasks b)) b))).
  { intros t' reply Ht. destruct Hi as [Ho Hn Hs Hw].
    split; destruct reply; cbn; try done; unfold owners; cbn; by rewrite (owners_update i t t' b Et Ht). }
  unfold resume. destruct (stg t) as [k|]; [|by apply (Hsame t None)].
  destruct (check_approval r k); [by apply Hsame|].
  destruct (check_cancel r k (requester t)); [|by apply (Hsame t None)].
  by apply (finish_task i t b).
Qed.

Lemma on_payment_inv i o b : inv b -> inv (fst (on_payment i o b)).
Proof.
  intros Hi. unfold on_payment. destruct (tasks b !! i) as [[u to [k|]]|] eqn:Et; [done| |done].
  change u with (requester (Task u to Sending)).
  destruct o as [text|e]; [|by apply (finish_task i (Task u to Sending) b)].
  destruct (match CODA_FAUCET_AMOUNT with Some s => py_int s | None => Err TypeError end) as [z|e];
    by apply (finish_task i (Task u to Sending) b).
Qed.

Lemma handle_inv e b : inv b -> inv (fst (handle e b)).
Proof.
  intros Hi. destruct e; cbn [handle]; [destruct Hi; by split|..];
    auto using on_message_inv, on_reaction_inv, on_payment_inv.
Qed.

Lemma fold_inv es b : inv b -> inv (fold_left (fun b e => fst (handle e b)) es b).
Proof. revert b. induction es as [|e es IH]; intros b Hb; [done|]. apply IH. by apply handle_inv. Qed.

Lemma run_inv es : inv (run es).
Proof. apply fold_inv. split; try done. apply NoDup_nil_2. Qed.

(** ** Payments and approvals *)
Local Open Scope nat_scope.

Definition is_sending (t : task) : bool :=
  match stg t with
  | Sending => true
  | Waiting _ => false
  end.

(** A thumbs-up from someone with the approvers' role. *)
Definition is_approval (e : event) : bool :=
  match e with
  | NewReaction _ r =>
      bool_decide (FAUCET_APPROVE_ROLE ∈ roles (reactor r)) && match emo r with ThumbsUp => true | _ => false end
  | _ => false
  end.

Definition sending (ts : list task) : nat := length (List.filter is_sending ts).

Arguments sending : simpl never.

(** The payments made and those under way. *)
Definition committed (b : bot) : nat := length (payments b) + sending (tasks b).

Lemma sending_app l1 l2 : sending (l1 ++ l2) = sending l1 + sending l2.
Proof. unfold sending. by rewrite List.filter_app, length_app. Qed.

Lemma sending_split i t ts :
  ts !! i = Some t -> sending ts = sending (take i ts ++ drop (S i) ts) + (if is_sending t then 1 else 0).
Proof.
  intros H. rewrite <- (take_drop_middle _ _ _ H) at 1. rewrite !sending_app.
  unfold sending at 2. cbn. destruct (is_sending t); cbn; unfold sending; lia.
Qed.

Lemma sending_insert i t t' ts :
  ts !! i = Some t ->
  sending (<[i := t']> ts) = sending (take i ts ++ drop (S i) ts) + (if is_sending t' then 1 else 0).
Proof.
  intros H. rewrite insert_take_drop by (by eapply lookup_lt_Some). rewrite !sending_app.
  unfold sending at 2. cbn. destruct (is_sending t'); cbn; unfold sending; lia.
Qed.

Lemma finish_committed u b : committed (fst (finish u b)) = committed b.
Proof. unfold finish. by destruct (remove_id _ _). Qed.

Lemma on_request_committed m b : committed (fst (on_request m b)) = committed b.
Proof.
  unfold on_request. destruct (List.find _ _) as [[r mr]|]; [|done]. case_bool_decide; [done|].
  destruct (search_request _), (sent_this_block _); cbv beta iota zeta; rewrite ?finish_committed; try done.
  unfold committed. cbn. rewrite sending_app. unfold sending at 2. cbn. lia.
Qed.

Lemma maybe_send_committed (c : bool) s b : committed (if c then send s b else b) = committed b.
Proof. by destruct c. Qed.

Lemma on_message_committed me s m b : committed (fst (on_message me s m b)) = committed b.
Proof.
  unfold on_message. destruct (Z.eqb _ _); [done|]. cbv zeta.
  set (b1 := if startswith "$tiny" _ && _ then _ else _).
  assert (H1 : committed b1 = committed b) by apply maybe_send_committed.
  destruct (if startswith "$status" _ && _ then _ else _) as [b2|e] eqn:E2; [|done].
  assert (H2 : committed b2 = committed b) by (by repeat (case_match; simplify_eq)).
  set (b3 := if startswith "$help" _ && _ then _ else _).
  assert (H3 : committed b3 = committed b) by (unfold b3; by rewrite maybe_send_committed).
  destruct (startswith "$request" _ && _); [by rewrite on_request_committed | done].
Qed.

Lemma on_reaction_committed i r b :
  committed (fst (on_reaction i r b)) <= committed b + (if is_approval (NewReaction i r) then 1 else 0).
Proof.
  unfold on_reaction. destruct (tasks b !! i) as [t|] eqn:Et; [|cbn; lia].
  pose proof (sending_split i t (tasks b) Et) as Hs. unfold resume.
  destruct (stg t) as [k|] eqn:Ek; [|].
  2: { cbn [say fst]. unfold committed. cbn. rewrite (sending_insert i t t) by done. lia. }
  destruct (check_approval r k) eqn:Ea.
  - unfold check_approval in Ea. apply andb_prop in Ea as [[_ Ea1]%andb_prop Ea2].
    unfold is_approval. rewrite Ea1, Ea2. cbn [andb say fst]. unfold committed. cbn.
    rewrite (sending_insert i t) by done. cbn. lia.
  - destruct (check_cancel r k (requester t)).
    + rewrite finish_committed. unfold committed. cbn. fold (drop (S i) (tasks b)) (take i (tasks b)). lia.
    + cbn [say fst]. unfold committed. cbn. rewrite (sending_insert i t t) by done. lia.
Qed.

Lemma on_payment_committed i o b : committed (fst (on_payment i o b)) <= committed b.
Proof.
  unfold on_payment. destruct (tasks b !! i) as [[u to [k|]]|] eqn:Et; [done| |done].
  pose proof (sending_split i _ (tasks b) Et) as Hs. cbn [is_sending stg] in Hs.
  destruct o as [text|e]; [|cbn [fst]; rewrite finish_committed; unfold committed; cbn; lia].
  destruct (match CODA_FAUCET_AMOUNT with Some s => py_int s | None => Err TypeError end) as [z|e];
    cbn [fst]; rewrite finish_committed; unfold committed; cbn; rewrite length_app; cbn; lia.
Qed.

Lemma handle_committed e b : committed (fst (handle e b)) <= committed b + (if is_approval e then 1 else 0).
Proof.
  destruct e; cbn [handle].
  - cbn [is_approval]. unfold committed. cbn. lia.
  - rewrite on_message_committed. cbn [is_approval]. lia.
  - apply on_reaction_committed.
  - pose proof (on_payment_committed i output b). cbn [is_approval]. lia.
Qed.

Lemma run_committed es : committed (run es) <= length (List.filter is_approval es).
Proof.
  unfold run. change (length (List.filter is_approval es)) with (committed init + length (List.filter is_approval es)).
  generalize init. induction es as [|e es IH]; intros b; cbn [fold_left List.filter]; [cbn; lia|].
  specialize (IH (fst (handle e b))). pose proof (handle_committed e b).
  destruct (is_approval e); cbn [length]; lia.
Qed.
End Faucet.

(** ** Properties *)
Open Scope nat_scope.

(** C21: after any sequence of messages, reactions, block notifications and payment
    results, every user has at most one request under way, the users in
    ACTIVE_REQUESTS are exactly the owners of the waiting coroutines (each deletes
    its own entry, once), and SENT_TRANSACTION_THIS_BLOCK is False: the limit of one
    transaction per block is never applied and its error is never counted. *)
Theorem faucet_requests (amount : option string) (es : list event) :
  active_requests (run amount es) = owners (run amount es)
  /\ NoDup (active_requests (run amount es))
  /\ sent_this_block (run amount es) = false /\ please_wait_errors (run amount es) = 0%Z.
Proof. destruct (run_inv amount es) as [H1 H2 H3 H4]. by split. Qed.


(** A request, its approval and its payment; then another one in the same block. *)
Definition alice : user := User 1 "@alice" [].
Definition bob : user := User 2 "@bob" [].
Definition carol : user := User 3 "@carol" ["faucet-approvers"].

Definition request_of (u : user) : event :=
  NewMessage (User 0 "@tiny" []) (Ok "")
    (Message u ("$request key" +:+ py_str (id u)) "faucet" [("faucet-approvers", "@approvers")]).

Example two_in_a_block :
  payments (run (Some "100")
    [request_of alice; NewReaction 0 (Reaction 0 ThumbsUp carol); PaymentDone 0 (Ok "ok");
     request_of bob; NewReaction 0 (Reaction 3 ThumbsUp carol); PaymentDone 0 (Ok "ok")])
  = [("key1", Some "100"); ("key2", Some "100")].
Proof. vm_compute. reflexivity. Qed.
