(* ===== verification/Sidecar.v ===== *)
(** * The block-producer sidecar, [mina-bp-stats/sidecar/sidecar.py]

    The program polls the node and uploads finalized blocks for ever.  The world is
    the answers that the node and the endpoint still have to give, and a history of
    what was learnt, uploaded and slept.  The answers run out where the observation
    of the program ends: [OutOfFuel] stands for that end and is caught by nobody. *)

From stdpp Require Import base list strings.
From Stdlib Require Import Ascii ZArith Lia.
From S2P Require Import Prelude PyStr Effects.
Open Scope string_scope.
Open Scope Z_scope.

Definition FETCH_INTERVAL : Z := 60 * 3.
Definition ERROR_SLEEP_INTERVAL : Z := 30.
Definition FINALIZATION_THRESHOLD : Z := 12.

(** ** Configuration *)
Record config : Type := Config {
  file : option (string * string);   (* uploadURL and nodeURL of the config file, if it exists *)
  upload_envar : option string;
  node_envar : option string
}.

Definition rstrip_slash (s : string) : string := rstrip (Ascii.eqb slash) s.

(** The module's initialisation of [upload_url, node_url]. *)
Definition urls (c : config) : result (string * string) :=
  let from_file :=
    match file c with
    | Some (u, n) => (Some (rstrip_slash u), Some (rstrip_slash n))
    | None => (None, None)
    end in
  let upload_url := match upload_envar c with Some u => Some u | None => fst from_file end in
  let node_url := match node_envar c with Some n => Some n | None => snd from_file end in
  match upload_url, node_url with
  | None, _ => Err (RuntimeException "Could not find /etc/mina-sidecar.json or MINA_BP_UPLOAD_URL environment variable is not set.")
  | _, None => Err (RuntimeException "Could not find /etc/mina-sidecar.json or MINA_NODE_URL environment variable is not set.")
  | Some u, Some n => Ok (u, n)
  end.

(** ** The world *)

(** The data of a block: the fields the program reads or adds. *)
Record block_data : Type := BlockData {
  blockchainLength : Z;
  retrievedAt : option Z;
  blockHeight : option Z
}.

Inductive event : Type :=
| Head (height : Z)          (* the node reported this length *)
| Upload (data : block_data) (* a request to the endpoint *)
| Slept (seconds : Z).

Record world : Type := World {
  statuses : list (result (string * Z));      (* answers to SyncStatus *)
  fetches : list (result (option block_data)); (* answers to FetchBlockData; None is a null [data] *)
  uploads : list (result Z);                  (* status codes of the endpoint *)
  clock : Z;                                  (* floor(time.time() * 1000) *)
  history : list event
}.

Definition record (e : event) : M world unit :=
  modify (fun w => World (statuses w) (fetches w) (uploads w) (clock w) (history w ++ [e])%list).

Definition sleep (s : Z) : M world unit :=
  modify (fun w => World (statuses w) (fetches w) (uploads w) (clock w + 1000 * s) (history w ++ [Slept s])%list).

Definition fetch_mina_status : M world (string * Z) := fun w =>
  match statuses w with
  | [] => (w, Err OutOfFuel)
  | r :: rs =>
      let w' := World rs (fetches w) (uploads w) (clock w) in
      match r with
      | Ok (s, h) => (w' (history w ++ [Head h])%list, Ok (s, h))
      | Err e => (w' (history w), Err e)
      end
  end.

Definition fetch_block (block_id : Z) : M world block_data := fun w =>
  match fetches w with
  | [] => (w, Err OutOfFuel)
  | r :: rs =>
      let w' := World (statuses w) rs (uploads w) (clock w) (history w) in
      match r with
      | Ok (Some d) => (w', Ok d)
      | Ok None => (w', Err (RuntimeException "Response seems to be an error!"))
      | Err e => (w', Err e)
      end
  end.

Definition send_update (d : block_data) (block_height : Z) : M world unit := fun w =>
  let d := BlockData (blockchainLength d) (Some (clock w)) (Some block_height) in
  match uploads w with
  | [] => (w, Err OutOfFuel)
  | r :: rs =>
      let w' := World (statuses w) (fetches w) rs (clock w) (history w ++ [Upload d])%list in
      match r with
      | Ok code => if code =? 200 then (w', Ok tt) else (w', Err AssertionError)
      | Err e => (w', Err e)
      end
  end.

(** [except Exception]: everything the program can meet. *)
Definition is_exception (e : exn) : bool :=
  match e with
  | OutOfFuel | SystemExit _ => false
  | _ => true
  end.

Definition catch {A} (m : M world A) (h : M world A) : M world A :=
  try_except m (fun e => if is_exception e then Some h else None).

(** The loop of [check_mina_node_sync_state_and_fetch_head]; every turn but the last
    one uses up an answer, which is what the fuel counts. *)
Fixpoint wait_synced (fuel : nat) : M world Z :=
  match fuel with
  | O => raise OutOfFuel
  | S fuel' =>
      do head <- catch
        (do (status, head) <- fetch_mina_status in
         ret (if bool_decide (status = "SYNCED") then Some head else None))
        (ret None) in
      match head with
      | Some head => ret head
      | None => perform sleep 5 then wait_synced fuel'
      end
  end.

Definition check_mina_node_sync_state_and_fetch_head : M world Z :=
  do n <- gets (fun w => S (length (statuses w))) in wait_synced n.

(** The body of the main loop: from a finalized tip to the next one. *)
Definition main_turn (current_finalized_tip : Z) : M world Z :=
  catch
    (do d <- fetch_block current_finalized_tip in
     perform send_update d current_finalized_tip then
     let tip := blockchainLength d - FINALIZATION_THRESHOLD in
     perform record (Head (blockchainLength d)) then
     perform sleep FETCH_INTERVAL then
     ret tip)
    (perform sleep ERROR_SLEEP_INTERVAL then
     do head_block_id <- check_mina_node_sync_state_and_fetch_head in
     ret (head_block_id - FINALIZATION_THRESHOLD)).

Fixpoint main_turns (turns : nat) (tip : Z) : M world Z :=
  match turns with
  | O => ret tip
  | S turns' => do tip' <- main_turn tip in main_turns turns' tip'
  end.

(** [__main__], observed for a number of turns. *)
Definition main (turns : nat) : M world Z :=
  do head_block_id <- check_mina_node_sync_state_and_fetch_head in
  main_turns turns (head_block_id - FINALIZATION_THRESHOLD).

(** ** Specification *)

(** The length reported last. *)
Definition last_head (h : list event) : option Z :=
  fold_left (fun acc e => match e with Head z => Some z | _ => acc end) h None.

(** Every upload is of the block [FINALIZATION_THRESHOLD] below the length that the
    node had reported last. *)
Fixpoint finalized (head : option Z) (h : list event) : Prop :=
  match h with
  | [] => True
  | Head z :: h' => finalized (Some z) h'
  | Upload d :: h' =>
      (exists z, head = Some z /\ blockHeight d = Some (z - FINALIZATION_THRESHOLD)) /\ finalized head h'
  | Slept _ :: h' => finalized head h'
  end.

Lemma finalized_app o h1 h2 :
  finalized o (h1 ++ h2) <->
  finalized o h1 /\ finalized (fold_left (fun acc e => match e with Head z => Some z | _ => acc end) h1 o) h2.
Proof.
  revert o. induction h1 as [|[z|d|s] h1 IH]; intros o; cbn; [tauto|apply IH| |apply IH].
  rewrite IH. tauto.
Qed.

Lemma last_head_app h1 h2 : last_head (h1 ++ h2) =
  match last_head h2 with Some z => Some z | None => last_head h1 end.
Proof.
  unfold last_head. rewrite fold_left_app. generalize (fold_left (fun acc e => match e with Head z => Some z | _ => acc end) h1 None).
  intros o. assert (H : forall o h, fold_left (fun acc e => match e with Head z => Some z | _ => acc end) h o
    = match fold_left (fun acc e => match e with Head z => Some z | _ => acc end) h None with Some z => Some z | None => o end).
  { clear. intros o h. revert o. induction h as [|[z|d|s] h IH]; intros o; cbn; [done| |apply IH..].
    rewrite (IH (Some z)). by destruct (fold_left _ h None). }
  apply H.
Qed.

Arguments last_head : simpl never.

(** [ok]: the history is right; [at_tip tip]: and [tip] is what may be sent next. *)
Definition ok (w : world) : Prop := finalized None (history w).

Definition at_tip (tip : Z) (w : world) : Prop :=
  ok w /\ last_head (history w) = Some (tip + FINALIZATION_THRESHOLD).

Lemma ok_head z w s f u c : ok w -> ok (World s f u c (history w ++ [Head z])).
Proof. intros H. unfold ok. cbn. by apply finalized_app. Qed.

Lemma sleep_ok s : keeps ok (sleep s).
Proof. apply hoare_modify. intros w H. unfold ok. cbn. by apply finalized_app. Qed.

Lemma sleep_at_tip tip s : keeps (at_tip tip) (sleep s).
Proof.
  apply hoare_modify. intros w [H1 H2]. split; [by apply finalized_app|]. cbn.
  by rewrite last_head_app.
Qed.

Lemma fetch_status_ok :
  hoare ok fetch_mina_status (fun sh => at_tip (snd sh - FINALIZATION_THRESHOLD)) (fun _ => ok).
Proof.
  intros w Hw. unfold fetch_mina_status. destruct (statuses w) as [|[[s h]|e] rs]; [done| |done].
  split; [by apply ok_head|]. cbn. rewrite last_head_app. cbn. f_equal. lia.
Qed.

Lemma at_tip_ok tip w : at_tip tip w -> ok w.
Proof. by intros [? _]. Qed.

Lemma hoare_catch {A} (P : world -> Prop) (m h : M world A) Q R :
  hoare P m Q (fun _ => R) -> hoare R h Q (fun _ => R) -> hoare P (catch m h) Q (fun _ => R).
Proof.
  intros Hm Hh. eapply hoare_except; [exact Hm|]. intros e. cbn. by destruct (is_exception e).
Qed.

Lemma wait_synced_ok fuel :
  hoare ok (wait_synced fuel) (fun head => at_tip (head - FINALIZATION_THRESHOLD)) (fun _ => ok).
Proof.
  induction fuel as [|fuel IH]; cbn [wait_synced]; [by apply hoare_raise|].
  apply (hoare_bind _ _ _ (fun o w => match o with
    | Some head => at_tip (head - FINALIZATION_THRESHOLD) w | None => ok w end)).
  - apply hoare_catch; [|by apply hoare_ret].
    eapply hoare_bind; [apply fetch_status_ok|]. intros [s h]. apply hoare_ret. cbn. intros w Hw.
    case_bool_decide; [done | by eapply at_tip_ok].
  - intros [head|]; [by apply hoare_ret|]. apply (hoare_bind _ _ _ (fun _ => ok)); [apply sleep_ok|]. intros u. exact IH.
Qed.

Lemma check_ok : hoare ok check_mina_node_sync_state_and_fetch_head
  (fun head => at_tip (head - FINALIZATION_THRESHOLD)) (fun _ => ok).
Proof.
  apply (hoare_bind _ _ _ (fun _ => ok)); [by apply hoare_gets|]. intros n. apply wait_synced_ok.
Qed.

Lemma fetch_block_keeps tip id : keeps (at_tip tip) (fetch_block id).
Proof. intros w Hw. unfold fetch_block. by destruct (fetches w) as [|[[d|]|e] rs]. Qed.

Lemma send_update_ok tip d : keeps (at_tip tip) (send_update d tip).
Proof.
  intros w [H1 H2]. unfold send_update. destruct (uploads w) as [|r rs]; [done|].
  set (w' := World _ _ _ _ _).
  assert (H : at_tip tip w').
  { split; [|by unfold w'; cbn; rewrite last_head_app]. unfold ok, w'. cbn. apply finalized_app. split; [done|].
    cbn. split; [|done]. exists (tip + FINALIZATION_THRESHOLD). split; [exact H2|]. cbn. f_equal. lia. }
  destruct r as [code|e]; [|done]. by destruct (code =? 200).
Qed.

Lemma main_turn_ok tip : hoare (at_tip tip) (main_turn tip) (fun tip' => at_tip tip') (fun _ => ok).
Proof.
  unfold main_turn. apply hoare_catch.
  - apply (hoare_bind _ _ _ (fun _ => at_tip tip)).
    { eapply hoare_conseq; [apply fetch_block_keeps|done|done|intros e w; apply at_tip_ok]. }
    intros d. apply (hoare_bind _ _ _ (fun _ => at_tip tip)).
    { eapply hoare_conseq; [apply send_update_ok|done|done|intros e w; apply at_tip_ok]. }
    intros u. cbv zeta. set (tip' := blockchainLength d - FINALIZATION_THRESHOLD).
    apply (hoare_bind _ _ _ (fun _ => at_tip tip')).
    { apply hoare_modify. intros w [H1 _]. split; [by apply ok_head|]. cbn. rewrite last_head_app. cbn.
      f_equal. unfold tip'. lia. }
    intros u'. apply (hoare_bind _ _ _ (fun _ => at_tip tip')); [|intros u''; by apply hoare_ret].
    eapply hoare_conseq; [apply sleep_at_tip|done|done|intros e w; apply at_tip_ok].
  - apply (hoare_bind _ _ _ (fun _ => ok)); [apply sleep_ok|]. intros u. eapply hoare_bind; [apply check_ok|].
    intros head. by apply hoare_ret.
Qed.

Lemma main_turns_ok turns tip : hoare (at_tip tip) (main_turns turns tip) (fun tip' => at_tip tip') (fun _ => ok).
Proof.
  revert tip. induction turns as [|turns IH]; intros tip; cbn [main_turns]; [by apply hoare_ret|].
  eapply hoare_bind; [apply main_turn_ok|]. intros tip'. apply IH.
Qed.

Lemma main_ok turns : hoare ok (main turns) (fun tip' => at_tip tip') (fun _ => ok).
Proof. eapply hoare_bind; [apply check_ok|]. intros head. apply main_turns_ok. Qed.

(** ** The program goes on *)

(** The environment only raises exceptions that [except Exception] catches. *)
Definition ordinary (w : world) : Prop :=
  Forall (fun r => match r with Err e => is_exception e = true | Ok _ => True end) (statuses w)
  /\ Forall (fun r => match r with Err e => is_exception e = true | Ok _ => True end) (fetches w)
  /\ Forall (fun r => match r with Err e => is_exception e = true | Ok _ => True end) (uploads w).

(** What escapes: nothing the program catches. *)
Definition escapes (e : exn) (w : world) : Prop := ordinary w /\ e = OutOfFuel.

Definition caught (e : exn) (w : world) : Prop := ordinary w /\ (e = OutOfFuel \/ is_exception e = true).

Lemma ordinary_modify f s :
  (forall w, statuses (f w) = statuses w /\ fetches (f w) = fetches w /\ uploads (f w) = uploads w) ->
  hoare ordinary (modify f) (fun _ => ordinary) s.
Proof. intros H. apply hoare_modify. intros w. unfold ordinary. by destruct (H w) as (-> & -> & ->). Qed.

Lemma catch_all {A} (m h : M world A) :
  hoare ordinary m (fun _ => ordinary) caught -> hoare ordinary h (fun _ => ordinary) escapes ->
  hoare ordinary (catch m h) (fun _ => ordinary) escapes.
Proof.
  intros Hm Hh. eapply hoare_except; [exact Hm|]. intros e. cbn. destruct (is_exception e) eqn:E.
  - eapply hoare_conseq; [exact Hh|by intros w [? _]|done|done].
  - intros w [Hw [->|Hc]]; [by split | congruence].
Qed.

Lemma fetch_status_caught : hoare ordinary fetch_mina_status (fun _ => ordinary) caught.
Proof.
  intros w (H1 & H2 & H3). unfold fetch_mina_status. destruct (statuses w) as [|r rs] eqn:E.
  - split; [|by left]. unfold ordinary. rewrite E. by split.
  - apply Forall_cons in H1 as [Hr Hrs]. destruct r as [[s h]|e]; [by split|]. split; [by split | by right].
Qed.

Lemma fetch_block_caught id : hoare ordinary (fetch_block id) (fun _ => ordinary) caught.
Proof.
  intros w (H1 & H2 & H3). unfold fetch_block. destruct (fetches w) as [|r rs] eqn:E.
  - split; [|by left]. unfold ordinary. rewrite E. by split.
  - apply Forall_cons in H2 as [Hr Hrs]. destruct r as [[d|]|e]; [by split|split; [by split | by right]..].
Qed.

Lemma send_update_caught d h : hoare ordinary (send_update d h) (fun _ => ordinary) caught.
Proof.
  intros w (H1 & H2 & H3). unfold send_update. destruct (uploads w) as [|r rs] eqn:E.
  - split; [|by left]. unfold ordinary. rewrite E. by split.
  - apply Forall_cons in H3 as [Hr Hrs]. destruct r as [code|e]; [destruct (code =? 200)|];
      [by split|split; [by split | by right]..].
Qed.

Lemma wait_synced_escapes fuel : hoare ordinary (wait_synced fuel) (fun _ => ordinary) escapes.
Proof.
  induction fuel as [|fuel IH]; cbn [wait_synced]; [by apply hoare_raise|].
  apply (hoare_bind _ _ _ (fun _ => ordinary)).
  - apply catch_all; [|by apply hoare_ret]. eapply hoare_bind; [apply fetch_status_caught|].
    intros [s h]. by apply hoare_ret.
  - intros [head|]; [by apply hoare_ret|].
    apply (hoare_bind _ _ _ (fun _ => ordinary)); [by apply ordinary_modify|]. by intros ?.
Qed.

Lemma main_turn_escapes tip : hoare ordinary (main_turn tip) (fun _ => ordinary) escapes.
Proof.
  apply catch_all.
  - eapply hoare_bind; [apply fetch_block_caught|]. intros d.
    apply (hoare_bind _ _ _ (fun _ => ordinary)); [apply send_update_caught|]. intros u. cbv zeta.
    apply (hoare_bind _ _ _ (fun _ => ordinary)); [by apply ordinary_modify|]. intros ?.
    apply (hoare_bind _ _ _ (fun _ => ordinary)); [by apply ordinary_modify|]. intros ?. by apply hoare_ret.
  - apply (hoare_bind _ _ _ (fun _ => ordinary)); [by apply ordinary_modify|]. intros ?.
    apply (hoare_bind _ _ _ (fun _ => ordinary)); [|intros head; by apply hoare_ret].
    apply (hoare_bind _ _ _ (fun _ => ordinary)); [by apply hoare_gets|]. intros n. apply wait_synced_escapes.
Qed.

Lemma main_escapes turns : hoare ordinary (main turns) (fun _ => ordinary) escapes.
Proof.
  apply (hoare_bind _ _ _ (fun _ => ordinary)).
  - apply (hoare_bind _ _ _ (fun _ => ordinary)); [by apply hoare_gets|]. intros n. apply wait_synced_escapes.
  - intros head. generalize (head - FINALIZATION_THRESHOLD) as tip.
    induction turns as [|turns IH]; intros tip; cbn [main_turns]; [by apply hoare_ret|].
    eapply hoare_bind; [apply main_turn_escapes|]. intros tip'. apply IH.
Qed.

(** ** Properties *)


(** no exception of the node, the endpoint or the assertion on its status code
    ends the program: for any number of turns it returns, or the observation ends. *)
Theorem sidecar_survives (turns : nat) (w : world) :
  ordinary w ->
  match snd (main turns w) with
  | Ok _ => True
  | Err e => e = OutOfFuel
  end.
Proof.
  intros H. pose proof (main_escapes turns w H) as Hm.
  destruct (main turns w) as [w' [tip|e]]; [done | apply Hm].
Qed.

(** Not synced, then synced at 100; an upload that fails; a new start at 103; an
    upload that succeeds. *)
Definition observed : world :=
  World [Ok ("CATCHUP", 90); Err (RuntimeException "refused"); Ok ("SYNCED", 100); Ok ("SYNCED", 103)]
    [Ok (Some (BlockData 100 None None)); Ok (Some (BlockData 105 None None)); Err KeyError]
    [Ok 500; Ok 200] 0 [].

Example observed_run :
  map (fun e => match e with Head z => z | Upload d => - default 0 (blockHeight d) | Slept s => 10000 + s end)
    (history (fst (main 2 observed)))
  = [90; 10005; 10005; 100; -88; 10030; 103; -91; 105; 10180].
Proof. vm_compute. reflexivity. Qed.


Lemma sidecar_survives_witness : snd (main 2 observed) = Ok 93.
Proof.
  assert (H : match snd (main 2 observed) with Ok _ => True | Err e => e = OutOfFuel end).
  { apply (sidecar_survives 2 observed). split; [|split]; repeat constructor. }
  destruct (snd (main 2 observed)) as [z|e] eqn:E; vm_compute in E; [congruence | discriminate E].
Defined.
