(* ===== verification/NodeStatus.v ===== *)
(** * Node-status metrics, [watchdog/node_status_metrics.py]

    The answers of the peers are parsed responses; running a command on a pod and
    parsing a Python literal are parameters.  The gauges are the history of the
    values set, so that what was set before an exception is visible.  A fraction is
    kept as its numerator and denominator. *)

From stdpp Require Import base list strings.
From Stdlib Require Import Ascii ZArith Lia.
From S2P Require Import Prelude Dict Counter PyStr PySet Effects.
Open Scope string_scope.

Record valid_resp : Type := Valid {
  node_ip_addr : string;
  node_peer_id : string;
  sync_status : string;
  protocol_state_hash : string;
  k_block_hashes_and_timestamps : list (string * string)
}.

(** An error response; [None] when it has no string ['error']['string']. *)
Inductive resp : Type :=
| RValid (r : valid_resp)
| RError (error_str : option string).

Definition gauge : Type := string * (Z * Z).

(** ** Errors *)
Inductive error_class : Type :=
| ContextDeadline
| NegotiateSecurityProtocol
| ConnectionRefused
| TimeOut
| SizeLimitExceeded
| StreamReset
| Others.

#[export] Instance error_class_eq : EqDecision error_class.
Proof. solve_decision. Defined.

Definition classify (p : option string) : error_class :=
  match p with
  | None => Others
  | Some error_str =>
      if contains "context deadline exceeded" error_str then ContextDeadline
      else if contains "failed to negotiate security protocol" error_str then NegotiateSecurityProtocol
      else if contains "connection refused" error_str then ConnectionRefused
      else if contains "timed out requesting node status data from peer" error_str then TimeOut
      else if contains "node status data was greater than" error_str then SizeLimitExceeded
      else if contains "stream reset" error_str then StreamReset
      else Others
  end.

Record counters : Type := Counters {
  err_context_deadline : Z;
  err_negotiate_security_protocol : Z;
  err_connection_refused : Z;
  err_time_out : Z;
  err_size_limit_exceeded : Z;
  err_stream_reset : Z;
  err_others : Z
}.

Definition count_error (c : counters) (p : option string) : counters :=
  let '(Counters a b d e f g h) := c in
  match classify p with
  | ContextDeadline => Counters (a + 1) b d e f g h
  | NegotiateSecurityProtocol => Counters a (b + 1) d e f g h
  | ConnectionRefused => Counters a b (d + 1) e f g h
  | TimeOut => Counters a b d (e + 1) f g h
  | SizeLimitExceeded => Counters a b d e (f + 1) g h
  | StreamReset => Counters a b d e f (g + 1) h
  | Others => Counters a b d e f g (h + 1)
  end.

Definition count_errors (error_resps : list (option string)) : counters :=
  fold_left count_error error_resps (Counters 0 0 0 0 0 0 0).

(** ** The best tip *)

(** [zip(c, c[1:])] on the hashes. *)
Definition links (c : list (string * string)) : list (string * string) :=
  combine (map fst c) (map fst (tl c)).

(** [parents[child] = parent] for every link of every chain. *)
Definition parents_of (chains : list (list (string * string))) : dict string string :=
  fold_left (fun ps pc => set (snd pc) (fst pc) ps) (flat_map links chains) [].

(** [common_states] *)
Definition common_states (latest_protocol_states : list string) : dict string Z :=
  fold_left bump latest_protocol_states [].

(** [max(items, key=lambda x: x[1])]: the first of the largest. *)
Definition max_item (l : list (string * Z)) : result (string * Z) :=
  match l with
  | [] => Err (ValueError "max() arg is an empty sequence")
  | x :: l' => Ok (fold_left (fun m y => if (snd m <? snd y)%Z then y else m) l' x)
  end.

Fixpoint py_last {A} (l : list A) (d : A) : A :=
  match l with
  | [] => d
  | x :: l' => py_last l' x
  end.

(** The hash of the last block of each chain of at least 290 blocks. *)
Definition latest_protocol_states (chains : list (list (string * string))) : list string :=
  map (fun c => fst (py_last c ("", "")))
    (List.filter (fun c => (290 <=? length c)%nat && (0 <? length c)%nat) chains).

(** The loop that walks up the parents, [n] times. *)
Fixpoint ancestors (n : nat) (parents : dict string string) (acc : list string) : list string :=
  match n with
  | O => acc
  | S n' =>
      ancestors n' parents
        match get parents (py_last acc "") with
        | Some p => acc ++ [p]
        | None => acc
        end%list
  end.

Definition any_hash_in_last_n (n : nat) (last_n_protocol_states : list string) (peer : valid_resp) : bool :=
  existsb (fun hb => bool_decide (fst hb ∈ last_n_protocol_states))
    (last_n n (k_block_hashes_and_timestamps peer)).

Definition is_synced (p : valid_resp) : bool := String.eqb (sync_status p) "Synced".

(** [x / y] on integers. *)
Definition divide (x y : Z) : result (Z * Z) := if (y =? 0)%Z then Err ZeroDivisionError else Ok (x, y).

Definition set_gauge (name : string) (v : Z * Z) : M (list gauge) unit :=
  modify (fun w => w ++ [(name, v)])%list.

Definition int_gauge (name : string) (z : Z) : M (list gauge) unit := set_gauge name (z, 1%Z).

Definition peer_to_multiaddr (host libp2p_port peer_id : string) : string :=
  "/ip4/" +:+ host +:+ "/tcp/" +:+ libp2p_port +:+ "/p2p/" +:+ peer_id.

Definition best_states (valid_resps : list valid_resp) : result (list string) :=
  let chains := map k_block_hashes_and_timestamps valid_resps in
  let* (most_common_best_protocol_state, _) := max_item (common_states (latest_protocol_states chains)) in
  Ok (ancestors 3 (parents_of chains) [most_common_best_protocol_state]).

(** [collect_node_status_metrics] from the answers on. *)
Definition set_metrics (resp_count : Z) (valid_resps : list valid_resp) (error_resps : list (option string))
  : M (list gauge) unit :=
  let c := count_errors error_resps in
  let num_peers := Z.of_nat (length valid_resps) in
  do synced_fraction <- lift (divide (count is_synced valid_resps) num_peers) in
  perform int_gauge "nodes_queried" resp_count then
  perform int_gauge "nodes_responded" num_peers then
  perform int_gauge "nodes_errored" (Z.of_nat (length error_resps)) then
  perform int_gauge "context_deadline_exceeded" (err_context_deadline c) then
  perform int_gauge "failed_security_protocol_negotiation" (err_negotiate_security_protocol c) then
  perform int_gauge "connection_refused_errors" (err_connection_refused c) then
  perform int_gauge "stream_reset_errors" (err_stream_reset c) then
  perform int_gauge "size_limit_exceeded_errors" (err_size_limit_exceeded c) then
  perform int_gauge "timed_out_errors" (err_time_out c) then
  perform int_gauge "other_connection_errors" (err_others c) then
  perform set_gauge "nodes_synced" synced_fraction then
  do last_n_protocol_states <- lift (best_states valid_resps) in
  let synced_peers := List.filter is_synced valid_resps in
  do fraction <- lift (divide (count (any_hash_in_last_n 3 last_n_protocol_states) synced_peers)
                              (count is_synced valid_resps)) in
  set_gauge "nodes_synced_near_best_tip" fraction.

(** ** Collecting the answers *)
Record container : Type := Container { args : list string; env : list (string * string) }.
Record pod : Type := Pod { pod_name : string; phase : string; containers : list container }.

Section Collect.
(** [exec seed cmd]: the output of a command on a pod; [literal_eval]: Python's parser
    of literals, applied to a line of that output. *)
Context (exec : string -> string -> result string) (literal_eval : string -> result resp).

Definition pod_names (pods : list pod) : list string :=
  map pod_name (List.filter (fun p => String.eqb (phase p) "Running") pods).

Definition seeds_of (pods : list pod) : list string := List.filter (contains "seed") (pod_names pods).

(** The port of the daemon of a seed. *)
Definition seed_daemon_port (pods : list pod) (seed : string) : result string :=
  let* seed_pod := py_nth (List.filter (fun p => String.eqb (pod_name p) seed) pods) 0 in
  let* daemons := mapM (fun c => let* a := py_nth (args c) 0 in Ok (String.eqb a "daemon", c)) (containers seed_pod) in
  let* c := py_nth (map snd (List.filter fst daemons)) 0 in
  py_nth (map snd (List.filter (fun v => String.eqb (fst v) "DAEMON_CLIENT_PORT") (env c))) 0.

Record collected : Type := Collected {
  peer_table : dict (string * string) valid_resp;
  error_resps : list (option string);
  peer_set : list string;
  seed_gauges : list (string * Z * Z)    (* seed, responded, queried *)
}.

Definition valids (rs : list resp) : list valid_resp :=
  flat_map (fun r => match r with RValid v => [v] | RError _ => [] end) rs.

Definition errors (rs : list resp) : list (option string) :=
  flat_map (fun r => match r with RValid _ => [] | RError e => [e] end) rs.

(** [if p not in peer_table: peer_table[p] = r] *)
Definition add_valid (t : dict (string * string) valid_resp) (r : valid_resp) : dict (string * string) valid_resp :=
  let p := (node_ip_addr r, node_peer_id r) in
  if mem p t then t else set p r t.

Definition newline : ascii := "010"%char.

Definition add_resp (raw : string) (peers : list string) (seed : string) (c : collected) : result collected :=
  let* resps := mapM literal_eval (List.filter (fun s => negb (String.eqb s "")) (split newline raw)) in
  Ok (Collected (fold_left add_valid (valids resps) (peer_table c))
        (error_resps c ++ errors resps)%list
        (set_update (peer_set c) peers)
        (seed_gauges c ++ [(seed, Z.of_nat (length (valids resps)), Z.of_nat (length peers))])%list).

(** The body of the [try]. *)
Definition query_seed (port seed : string) (c : collected) : result collected :=
  let* out := exec seed "mina advanced get-peers" in
  let peers := split newline (rstrip is_space out) in
  let cmd := "mina advanced node-status -daemon-port " +:+ port +:+ " -peers " +:+ join "," peers +:+ " -show-errors" in
  let* resp := exec seed cmd in
  if negb (contains "Error: Unable to connect to Mina Daemon." resp) then add_resp resp peers seed c else Ok c.

Definition collect_seed (pods : list pod) (c : collected) (seed : string) : result collected :=
  let* port := seed_daemon_port pods seed in
  Ok (match query_seed port seed c with Ok c' => c' | Err _ => c end).

Definition collect_node_status (seeds : list string) (pods : list pod) : result (Z * list valid_resp * list (option string)) :=
  let* c := foldM (collect_seed pods) seeds (Collected [] [] [] []) in
  Ok (Z.of_nat (length (peer_set c)), values (peer_table c), error_resps c).

Definition collect_node_status_metrics (pods : list pod) : M (list gauge) unit :=
  do (resp_count, valid_resps, error_resps) <- lift (collect_node_status (seeds_of pods) pods) in
  set_metrics resp_count valid_resps error_resps.
End Collect.

(** ** Counting errors *)
Definition of_class (l : list (option string)) (k : error_class) : Z :=
  count (fun p => bool_decide (classify p = k)) l.

Lemma count_errors_spec l :
  count_errors l = Counters (of_class l ContextDeadline) (of_class l NegotiateSecurityProtocol)
    (of_class l ConnectionRefused) (of_class l TimeOut) (of_class l SizeLimitExceeded)
    (of_class l StreamReset) (of_class l Others).
Proof.
  enough (G : forall a b d e f g h, fold_left count_error l (Counters a b d e f g h) =
    Counters (a + of_class l ContextDeadline) (b + of_class l NegotiateSecurityProtocol)
      (d + of_class l ConnectionRefused) (e + of_class l TimeOut) (f + of_class l SizeLimitExceeded)
      (g + of_class l StreamReset) (h + of_class l Others)) by (unfold count_errors; by rewrite G).
  induction l as [|p l IH]; intros; cbn [fold_left].
  - unfold of_class, count. cbn. f_equal; lia.
  - unfold of_class in *. rewrite !count_cons. unfold count_error at 2.
    destruct (classify p); rewrite IH; repeat (case_bool_decide; [try discriminate|try congruence]); f_equal; lia.
Qed.

Lemma classes_partition l :
  (of_class l ContextDeadline + of_class l NegotiateSecurityProtocol + of_class l ConnectionRefused
   + of_class l TimeOut + of_class l SizeLimitExceeded + of_class l StreamReset + of_class l Others
   = Z.of_nat (length l))%Z.
Proof.
  induction l as [|p l IH]; [done|]. unfold of_class in *. rewrite !count_cons. cbn [length].
  destruct (classify p); repeat (case_bool_decide; [try discriminate|try congruence]); lia.
Qed.

(** ** The most common state *)
Lemma common_states_spec l :
  wf (common_states l) /\
  forall x n, get (common_states l) x = Some n <-> (n = occurrences x l /\ (0 < n)%Z).
Proof.
  destruct (counter_spec l) as (Hw & _ & _). split; [exact Hw|]. intros x n. unfold common_states.
  change (fold_left bump l []) with (counter l). unfold counter. rewrite get_bumps. pose proof (occurrences_in x l).
  unfold get_count. cbn. case_decide; [naive_solver|]. split; [done | naive_solver].
Qed.

Lemma max_item_spec l m :
  max_item l = Ok m -> m ∈ l /\ forall y, y ∈ l -> (snd y <= snd m)%Z.
Proof.
  destruct l as [|x l]; [done|]. cbn. intros [= <-].
  enough (G : forall x, fold_left (fun m y => if (snd m <? snd y)%Z then y else m) l x ∈ x :: l /\
    (snd x <= snd (fold_left (fun m y => if (snd m <? snd y)%Z then y else m) l x))%Z /\
    forall y, y ∈ l -> (snd y <= snd (fold_left (fun m y => if (snd m <? snd y)%Z then y else m) l x))%Z).
  { destruct (G x) as (H1 & H2 & H3). split; [done|]. intros y [->|Hy]%elem_of_cons; auto. }
  clear x. induction l as [|z l IH]; intros x; cbn [fold_left].
  { split; [left|]. split; [lia|]. by intros y ?%not_elem_of_nil. }
  destruct (Z.ltb_spec (snd x) (snd z)) as [Hlt|Hge].
  - destruct (IH z) as (H1 & H2 & H3). split; [by right|]. split; [lia|].
    intros y [->|Hy]%elem_of_cons; auto.
  - destruct (IH x) as (H1 & H2 & H3). split; [|split; [done|]].
    + apply elem_of_cons in H1 as [->|H1]; [left | by right; right].
    + intros y [->|Hy]%elem_of_cons; [lia | auto].
Qed.

Lemma max_item_total l : l <> [] -> exists m, max_item l = Ok m.
Proof. destruct l; [done|]. by eexists. Qed.

Lemma common_states_nonempty l : l <> [] -> common_states l <> [].
Proof.
  destruct l as [|x l]; [done|]. intros _ E. destruct (common_states_spec (x :: l)) as [_ H].
  specialize (H x (occurrences x (x :: l))). rewrite E in H. cbn in H.
  assert (Hc : (0 < occurrences x (x :: l))%Z).
  { apply occurrences_in. left. }
  by discriminate (proj2 H (conj eq_refl Hc)).
Qed.

Lemma most_common_spec l m n :
  max_item (common_states l) = Ok (m, n) ->
  m ∈ l /\ n = occurrences m l /\ forall x, (occurrences x l <= occurrences m l)%Z.
Proof.
  intros [Hin Hmax]%max_item_spec. destruct (common_states_spec l) as [Hwf Hget].
  apply (in_get _ _ _ Hwf) in Hin. apply Hget in Hin as [-> Hpos].
  split; [by apply occurrences_in|]. split; [done|]. intros x.
  destruct (Z.leb_spec (occurrences x l) 0) as [Hx|Hx].
  - pose proof (occurrences_nonneg m l). lia.
  - apply (Hmax (x, occurrences x l)). apply get_in. apply Hget. by split.
Qed.

(** A list that starts at [m] and walks up [parents]. *)
Inductive walk (parents : dict string string) : list string -> Prop :=
| walk_one m : walk parents [m]
| walk_up l m p : walk parents (l ++ [m]) -> get parents m = Some p -> walk parents (l ++ [m] ++ [p]).

Lemma py_last_snoc {A} (l : list A) x d : py_last (l ++ [x]) d = x.
Proof. revert d. induction l as [|y l IH]; intros d; cbn; [done | apply IH]. Qed.

Lemma ancestors_spec n ps l :
  l <> [] -> walk ps l -> exists tl, ancestors n ps l = (l ++ tl)%list /\ (length tl <= n)%nat /\ walk ps (l ++ tl).
Proof.
  revert l. induction n as [|n IH]; intros l Hne Hw; cbn [ancestors].
  { exists []. rewrite app_nil_r. split; [done|]. split; [cbn; lia | done]. }
  destruct (get ps (py_last l "")) as [p|] eqn:E.
  - assert (Hw' : walk ps (l ++ [p])%list).
    { destruct l as [|x l _] using rev_ind; [done|]. rewrite py_last_snoc in E.
      rewrite <- app_assoc. by apply walk_up. }
    destruct (IH (l ++ [p])%list) as (tl & E1 & Hl & Hw1); [by destruct l|done|].
    exists (p :: tl). rewrite E1, <- app_assoc. split; [done|]. split; [cbn; lia|].
    by rewrite <- app_assoc in Hw1.
  - destruct (IH l Hne Hw) as (tl & E1 & Hl & Hw1). exists tl. split; [done|]. split; [lia | done].
Qed.

Lemma best_states_spec valid_resps states :
  best_states valid_resps = Ok states ->
  let chains := map k_block_hashes_and_timestamps valid_resps in
  exists m tl, states = m :: tl /\ m ∈ latest_protocol_states chains
    /\ (forall x, (occurrences x (latest_protocol_states chains) <= occurrences m (latest_protocol_states chains))%Z)
    /\ (length tl <= 3)%nat /\ walk (parents_of chains) states.
Proof.
  intros H chains. unfold best_states in H. fold chains in H.
  apply bind_Ok_inv in H as ([m n] & Em & H). apply most_common_spec in Em as (Hm & _ & Hmax).
  destruct (ancestors_spec 3 (parents_of chains) [m]) as (tl & E & Hl & Hw); [done|constructor|].
  exists m, tl. rewrite E in H. injection H as <-. by split.
Qed.

Lemma best_states_error valid_resps e :
  best_states valid_resps = Err e ->
  (exists msg, e = ValueError msg) /\ latest_protocol_states (map k_block_hashes_and_timestamps valid_resps) = [].
Proof.
  unfold best_states. set (ls := latest_protocol_states _).
  destruct (decide (ls = [])) as [->|Hne].
  - cbn. intros [= <-]. split; [by eexists | done].
  - destruct (max_item_total (common_states ls)) as [[m n] ->]; [by apply common_states_nonempty|]. done.
Qed.

(** ** Merging the answers of the seeds *)
Lemma add_valid_get t r p :
  get (add_valid t r) p =
  match get t p with
  | Some v => Some v
  | None => if decide (p = (node_ip_addr r, node_peer_id r)) then Some r else None
  end.
Proof.
  unfold add_valid, mem. set (q := (node_ip_addr r, node_peer_id r)). destruct (get t q) eqn:E.
  - destruct (get t p) eqn:Ep; [done|]. case_decide; [congruence | done].
  - rewrite get_set. case_decide as D; [subst p; by rewrite E|]. by destruct (get t p).
Qed.

(** ** Properties *)

(** Every error response is counted in exactly one class: the value of each
    error gauge is the number of responses of its class, and the seven classes add
    up to the number of error responses. *)
Theorem errors_partition (l : list (option string)) :
  count_errors l = Counters (of_class l ContextDeadline) (of_class l NegotiateSecurityProtocol)
    (of_class l ConnectionRefused) (of_class l TimeOut) (of_class l SizeLimitExceeded)
    (of_class l StreamReset) (of_class l Others)
  /\ (of_class l ContextDeadline + of_class l NegotiateSecurityProtocol + of_class l ConnectionRefused
      + of_class l TimeOut + of_class l SizeLimitExceeded + of_class l StreamReset + of_class l Others
      = Z.of_nat (length l))%Z.
Proof. split; [apply count_errors_spec | apply classes_partition]. Qed.

(** C37: the outcomes of the metrics: without valid responses a ZeroDivisionError and
    no gauge is set; without a chain of 290 blocks a ValueError, and without a synced
    peer a ZeroDivisionError, after eleven gauges; otherwise all twelve are set, the
    last one to the number of synced peers near the best tip (at most the synced
    ones) over the number of synced peers, the best tip being a most common last
    block among the long chains and at most three of its ancestors. *)
Theorem set_metrics_outcome (resp_count : Z) (valid_resps : list valid_resp) (error_resps : list (option string)) :
  let '(gs, r) := set_metrics resp_count valid_resps error_resps [] in
  let latest := latest_protocol_states (map k_block_hashes_and_timestamps valid_resps) in
  match r with
  | Ok _ =>
      length gs = 12%nat /\ exists m tl num,
        m ∈ latest /\ (forall x, (occurrences x latest <= occurrences m latest)%Z) /\ (length tl <= 3)%nat
        /\ walk (parents_of (map k_block_hashes_and_timestamps valid_resps)) (m :: tl)
        /\ num = count (any_hash_in_last_n 3 (m :: tl)) (List.filter is_synced valid_resps)
        /\ (0 <= num <= count is_synced valid_resps)%Z /\ (0 < count is_synced valid_resps)%Z
        /\ py_last gs ("", (0, 0)%Z) = ("nodes_synced_near_best_tip", (num, count is_synced valid_resps))
  | Err ZeroDivisionError => (valid_resps = [] /\ gs = []) \/ (count is_synced valid_resps = 0%Z /\ length gs = 11%nat)
  | Err (ValueError _) => latest = [] /\ length gs = 11%nat
  | Err _ => False
  end.
Proof.
  unfold set_metrics. destruct valid_resps as [|v vs] eqn:Ev; [by left|]. rewrite <- Ev.
  assert (Hn : divide (count is_synced valid_resps) (Z.of_nat (length valid_resps))
               = Ok (count is_synced valid_resps, Z.of_nat (length valid_resps)))
    by (unfold divide; by rewrite Ev).
  rewrite Hn. clear Hn Ev. unfold bindM, lift, int_gauge, set_gauge, modify. cbn [app].
  destruct (best_states valid_resps) as [states|e] eqn:Eb.
  2: { apply best_states_error in Eb as [[msg ->] El]. by split. }
  apply best_states_spec in Eb as (m & tl & -> & Hm & Hmax & Hl & Hw).
  unfold divide. destruct (Z.eqb_spec (count is_synced valid_resps) 0) as [E0|E0].
  { right. by rewrite E0. }
  set (num := count (any_hash_in_last_n 3 (m :: tl)) (List.filter is_synced valid_resps)).
  cbn [app length]. split; [done|]. exists m, tl, num.
  pose proof (count_nonneg is_synced valid_resps).
  pose proof (count_nonneg (any_hash_in_last_n 3 (m :: tl)) (List.filter is_synced valid_resps)).
  pose proof (count_le (any_hash_in_last_n 3 (m :: tl)) (List.filter is_synced valid_resps)).
  fold (count is_synced valid_resps) in *. repeat split; try done; unfold num, count in *; lia.
Qed.

(** A chain of [n] blocks that ends in [h]. *)
Definition chain_to (h : string) (n : nat) : list (string * string) := repeat ("g", "0") n ++ [("p", "1"); (h, "2")].

Definition peer (h status : string) : valid_resp := Valid "1.2.3.4" h status h (chain_to h 300).

Example near_best_tip :
  py_last (fst (set_metrics 4 [peer "a" "Synced"; peer "a" "Synced"; peer "b" "Catchup"; peer "c" "Synced"] [] []))
    ("", (0, 0)%Z) = ("nodes_synced_near_best_tip", (3, 3)%Z).
Proof. vm_compute. reflexivity. Qed.
