(* ===== verification/Ledger.v ===== *)
(** * The genesis-ledger generator, [scripts/generate-local-network-ledger.py]

    The directories of keys and the contents of files are parameters; the
    result is what is written to the two JSON files.  The messages printed on the
    way are not part of the result. *)

From stdpp Require Import base list strings.
From Stdlib Require Import Ascii ZArith Lia.
From S2P Require Import Prelude Dict PyStr Csv.
Open Scope string_scope.

(** ** Amounts *)
Definition zeros (n : nat) : string := String.concat "" (repeat "0" n).

Definition encode_nanocodas (nanocodas : Z) : string :=
  let s := py_str nanocodas in
  if (9 <? String.length s)%nat then but_last_str 9 s +:+ "." +:+ last_str 9 s
  else "0." +:+ zeros (9 - String.length s) +:+ s.

(** The amount that a decimal numeral with nine decimals denotes. *)
Definition decode_nanocodas (s : string) : option Z :=
  match split "."%char s with
  | [a; b] =>
      match digits_value a 0, digits_value b 0 with
      | Some x, Some y => if (String.length b =? 9)%nat then Some (x * 10 ^ 9 + y)%Z else None
      | _, _ => None
      end
  | _ => None
  end.

Definition DEFAULT_SERVICES : dict string Z := [("faucet", 100000 * 10 ^ 9)%Z; ("echo", 100 * 10 ^ 9)%Z].

(** ** The ledger *)
Record service : Type := Service { s_public_key : string; s_service : string; s_balance : Z }.
Record staker : Type := Staker { nickname : string; public_key : string }.

(** An account; [sk] is always null.  [notes]: the fields that only the annotated
    ledger has. *)
Record account : Type := Account {
  pk : string;
  balance : string;
  delegate : option string;
  notes : list (string * string)
}.

Record wrapper : Type := Wrapper { w_name : string; num_accounts : Z; accounts : list account }.

(** [l[0:n]] *)
Definition take_z {A} (n : Z) (l : list A) : list A :=
  if (n <? 0)%Z then but_last_n (Z.to_nat (- n)) l else take (Z.to_nat n) l.

Definition not_enough (kind : string) (required present : Z) : exn :=
  RuntimeException ("There aren't enough " +:+ kind +:+ " Keys to populate the genesis ledger! Required "
                    +:+ py_str required +:+ ", Present " +:+ py_str present).

Section Generate.
(** [glob dir]: the [*.pub] files of a directory; [read_key f]: the first line of a
    file, stripped; [read_lines f]: the lines of a
    file. *)
Context (glob : string -> list string) (read_key : string -> result string)
        (read_lines : string -> result (list string)).

Record options : Type := Options {
  service_accounts_directory : string;
  num_whale_accounts : Z;
  online_whale_accounts_directory : string;
  offline_whale_accounts_directory : string;
  num_fish_accounts : Z;
  online_fish_accounts_directory : string;
  offline_fish_accounts_directory : string;
  staker_csv_file : option string
}.

Definition load_service (service_key_file : string) : result service :=
  let* service_name := py_nth (split "_"%char (basename service_key_file)) 0 in
  let* service_balance := get_item DEFAULT_SERVICES service_name in
  let* service_public_key := read_key service_key_file in
  Ok (Service service_public_key service_name service_balance).

(** A directory that must hold a number of keys, all of which are loaded. *)
Definition load_keys (kind dir : string) (required : Z) : result (list string) :=
  let key_files := glob dir in
  if (required <=? zlength key_files)%Z then mapM read_key key_files
  else Err (not_enough kind required (zlength key_files)).

Definition stakers_of_csv (n : Z) (rows : list (list string)) : result (list staker) :=
  if (n <? 0)%Z then Err (ValueError "Stop argument for islice() must be None or an integer: 0 <= x <= sys.maxsize.") else
  let* picked := mapM (fun row =>
    let* discord_username := py_nth row 1 in
    let* public_key := py_nth row 2 in
    Ok (if startswith "4vsRC" public_key then [Staker discord_username public_key] else []))
    (take (Z.to_nat n) rows) in
  Ok (concat picked).

(** Without a CSV file: the number compared is the number of OFFLINE fish keys. *)
Definition load_stakers (o : options) (num_offline_fish : Z) : result (list staker) :=
  match staker_csv_file o with
  | Some f => let* lines := read_lines f in let* rows := csv_reader "|" lines in stakers_of_csv (num_fish_accounts o) rows
  | None =>
      let online_fish_key_files := glob (online_fish_accounts_directory o) in
      if (num_fish_accounts o <=? num_offline_fish)%Z then
        mapM (fun f => let* k := read_key f in Ok (Staker (basename f) k))
          (take_z (num_fish_accounts o) online_fish_key_files)
      else Err (not_enough "Online Fish" (num_fish_accounts o) (zlength online_fish_key_files))
  end.

Definition service_account (s : service) : account :=
  Account (s_public_key s) (encode_nanocodas (s_balance s)) None [].
Definition annotated_service (s : service) : account :=
  Account (s_public_key s) (encode_nanocodas (s_balance s)) None [("nickname", s_service s)].

Definition fish_offline_balance : string := encode_nanocodas (65500 * 10 ^ 9).
Definition fish_online_balance : string := encode_nanocodas (500 * 10 ^ 9).
Definition whale_offline_balance : Z := 66000 * 175 * 10 ^ 9.

(** The loop over the offline fish keys; an IndexError breaks it before anything is
    appended. *)
Fixpoint fish_loop (index : nat) (fishes : list string) (stakers : list staker)
  (ledgers : list account * list account) : list account * list account :=
  match fishes with
  | [] => ledgers
  | fish :: fishes' =>
      match py_nth stakers (Z.of_nat index) with
      | Err _ => ledgers
      | Ok s =>
          let '(ledger, annotated_ledger) := ledgers in
          fish_loop (S index) fishes' stakers
            ((ledger ++ [Account fish fish_offline_balance (Some (public_key s)) [];
                         Account (public_key s) fish_online_balance None []])%list,
             (annotated_ledger ++
              [Account fish fish_offline_balance (Some (public_key s)) [("nickname", nickname s)];
               Account (public_key s) fish_online_balance None [("nickname", nickname s)]])%list)
      end
  end.

Fixpoint whale_loop (index : nat) (whales online_whale_keys : list string)
  (ledgers : list account * list account) : list account * list account :=
  match whales with
  | [] => ledgers
  | offline_whale :: whales' =>
      match py_nth online_whale_keys (Z.of_nat index) with
      | Err _ => ledgers
      | Ok online =>
          let '(ledger, annotated_ledger) := ledgers in
          let user := "CodaBP" +:+ py_str (Z.of_nat index) in
          whale_loop (S index) whales' online_whale_keys
            ((ledger ++ [Account offline_whale (encode_nanocodas whale_offline_balance) (Some online) [];
                         Account online (encode_nanocodas 0) None []])%list,
             (annotated_ledger ++
              [Account offline_whale (encode_nanocodas whale_offline_balance) (Some online)
                 [("delegate_discord_username", user)];
               Account online (encode_nanocodas 0) None [("discord_username", user)]])%list)
      end
  end.

(** What is written to [genesis_ledger.json] and [annotated_ledger.json]. *)
Definition generate_ledger (o : options) : result (wrapper * wrapper) :=
  let* service_keys := mapM load_service (glob (service_accounts_directory o)) in
  let* offline_whale_keys :=
    load_keys "Offline Whale" (offline_whale_accounts_directory o) (num_whale_accounts o) in
  let* online_whale_keys :=
    load_keys "Online Whale" (online_whale_accounts_directory o) (num_whale_accounts o) in
  let* offline_fish_keys :=
    load_keys "Offline Fish" (offline_fish_accounts_directory o) (num_fish_accounts o) in
  let* stakers := load_stakers o (zlength offline_fish_keys) in
  let ledgers := (map service_account service_keys, map annotated_service service_keys) in
  let ledgers := fish_loop 0 offline_fish_keys stakers ledgers in
  let '(ledger, annotated_ledger) := whale_loop 0 offline_whale_keys online_whale_keys ledgers in
  Ok (Wrapper "release" 250 ledger, Wrapper "annotated_release" 250 ledger).

(** ** Specification *)
Definition fish_accounts (fs : string * staker) : list account :=
  [Account (fst fs) fish_offline_balance (Some (public_key (snd fs))) [];
   Account (public_key (snd fs)) fish_online_balance None []].

Definition whale_accounts (ww : string * string) : list account :=
  [Account (fst ww) (encode_nanocodas whale_offline_balance) (Some (snd ww)) [];
   Account (snd ww) (encode_nanocodas 0) None []].

(** Keys are paired in order; what is left over on either side gets no account. *)
Definition expected_ledger (services : list service) (fishes : list string) (stakers : list staker)
  (offline_whales online_whales : list string) : list account :=
  (map service_account services ++ flat_map fish_accounts (combine fishes stakers)
   ++ flat_map whale_accounts (combine offline_whales online_whales))%list.

Lemma py_nth_drop {A} (l : list A) i :
  py_nth l (Z.of_nat i) = match drop i l with x :: _ => Ok x | [] => Err IndexError end.
Proof.
  rewrite py_nth_nonneg by lia. rewrite Nat2Z.id. revert i.
  induction l as [|x l IH]; intros [|i]; cbn; auto.
Qed.

Lemma drop_cons_S {A} (l l' : list A) x i : drop i l = x :: l' -> drop (S i) l = l'.
Proof. revert i. induction l as [|y l IH]; intros [|i]; cbn; try done; [by intros [= _ ->] | apply IH]. Qed.

Lemma fish_loop_spec fishes i stakers l al :
  fst (fish_loop i fishes stakers (l, al)) = (l ++ flat_map fish_accounts (combine fishes (drop i stakers)))%list.
Proof.
  revert i l al. induction fishes as [|f fishes IH]; intros i l al; cbn; [by rewrite app_nil_r|].
  rewrite py_nth_drop. destruct (drop i stakers) as [|s rest] eqn:E; [by rewrite app_nil_r|].
  rewrite IH, (drop_cons_S _ _ _ _ E). by rewrite <- app_assoc.
Qed.

Lemma whale_loop_spec whales i online l al :
  fst (whale_loop i whales online (l, al)) = (l ++ flat_map whale_accounts (combine whales (drop i online)))%list.
Proof.
  revert i l al. induction whales as [|f whales IH]; intros i l al; cbn; [by rewrite app_nil_r|].
  rewrite py_nth_drop. destruct (drop i online) as [|s rest] eqn:E; [by rewrite app_nil_r|].
  rewrite IH, (drop_cons_S _ _ _ _ E). by rewrite <- app_assoc.
Qed.

Lemma generate_ledger_inv o lw aw :
  generate_ledger o = Ok (lw, aw) ->
  exists services offline_whales online_whales fishes stakers,
    mapM load_service (glob (service_accounts_directory o)) = Ok services
    /\ mapM read_key (glob (offline_whale_accounts_directory o)) = Ok offline_whales
    /\ mapM read_key (glob (online_whale_accounts_directory o)) = Ok online_whales
    /\ mapM read_key (glob (offline_fish_accounts_directory o)) = Ok fishes
    /\ load_stakers o (zlength fishes) = Ok stakers
    /\ lw = Wrapper "release" 250 (expected_ledger services fishes stakers offline_whales online_whales)
    /\ aw = Wrapper "annotated_release" 250 (accounts lw).
Proof.
  assert (Hk : forall kind dir n ks, load_keys kind dir n = Ok ks -> mapM read_key (glob dir) = Ok ks).
  { intros kind dir n ks. unfold load_keys. by destruct (_ <=? _)%Z. }
  intros H. unfold generate_ledger in H.
  apply bind_Ok_inv in H as (services & E1 & H). apply bind_Ok_inv in H as (ofw & E2%Hk & H).
  apply bind_Ok_inv in H as (onw & E3%Hk & H). apply bind_Ok_inv in H as (fishes & E4%Hk & H).
  apply bind_Ok_inv in H as (stakers & E5 & H).
  destruct (fish_loop 0 fishes stakers _) as [l1 al1] eqn:Ef.
  destruct (whale_loop 0 ofw onw (l1, al1)) as [l2 al2] eqn:Ew. injection H as <- <-.
  exists services, ofw, onw, fishes, stakers. do 5 (split; [done|]).
  assert (El : l2 = expected_ledger services fishes stakers ofw onw).
  { pose proof (whale_loop_spec ofw 0 onw l1 al1) as H1. rewrite Ew in H1. cbn in H1.
    pose proof (fish_loop_spec fishes 0 stakers (map service_account services) (map annotated_service services)) as H2.
    rewrite Ef in H2. cbn in H2. rewrite H1, H2. unfold expected_ledger. by rewrite <- app_assoc. }
  by rewrite El.
Qed.

Lemma load_keys_enough kind dir n ks : load_keys kind dir n = Ok ks -> (n <= zlength (glob dir))%Z.
Proof. unfold load_keys. by destruct (Z.leb_spec n (zlength (glob dir))). Qed.

Lemma generate_ledger_enough o r : generate_ledger o = Ok r ->
  (num_whale_accounts o <= zlength (glob (offline_whale_accounts_directory o)))%Z /\
  (num_whale_accounts o <= zlength (glob (online_whale_accounts_directory o)))%Z /\
  (num_fish_accounts o <= zlength (glob (offline_fish_accounts_directory o)))%Z.
Proof.
  intros H. unfold generate_ledger in H. apply bind_Ok_inv in H as (services & _ & H).
  apply bind_Ok_inv in H as (ofw & E2%load_keys_enough & H). apply bind_Ok_inv in H as (onw & E3%load_keys_enough & H).
  by apply bind_Ok_inv in H as (fishes & E4%load_keys_enough & _).
Qed.

Lemma expected_length services fishes stakers ofw onw :
  length (expected_ledger services fishes stakers ofw onw)
  = (length services + 2 * (length fishes `min` length stakers) + 2 * (length ofw `min` length onw))%nat.
Proof.
  unfold expected_ledger. rewrite !length_app, length_map.
  assert (H : forall {A B} (f : A * B -> list account) l1 l2, (forall x, length (f x) = 2%nat) ->
    length (flat_map f (combine l1 l2)) = (2 * (length l1 `min` length l2))%nat).
  { intros A B f l1 l2 Hf. rewrite (flat_map_constant_length (c := 2%nat)), length_combine by (intros; apply Hf). lia. }
  rewrite !H by done. lia.
Qed.

(** Without a CSV file, the only counts that are checked are those of the whales and
    of the offline fish. *)
Lemma generate_ledger_total o services :
  staker_csv_file o = None -> (forall f, is_ok (read_key f) = true) ->
  mapM load_service (glob (service_accounts_directory o)) = Ok services ->
  (num_whale_accounts o <= zlength (glob (offline_whale_accounts_directory o)))%Z ->
  (num_whale_accounts o <= zlength (glob (online_whale_accounts_directory o)))%Z ->
  (num_fish_accounts o <= zlength (glob (offline_fish_accounts_directory o)))%Z ->
  is_ok (generate_ledger o) = true.
Proof.
  intros Hc Hr Hs H1 H2 H3. unfold generate_ledger. rewrite Hs. cbn [bind].
  assert (Hread : forall l, exists ks, mapM read_key l = Ok ks /\ length ks = length l).
  { intros l. destruct (mapM_total read_key l) as [ks E].
    - intros f _. specialize (Hr f). destruct (read_key f) as [k|]; [by exists k | done].
    - exists ks. split; [done | by eapply mapM_length]. }
  assert (Hk : forall kind dir n, (n <= zlength (glob dir))%Z ->
    exists ks, load_keys kind dir n = Ok ks /\ length ks = length (glob dir)).
  { intros kind dir n Hn. unfold load_keys. rewrite (proj2 (Z.leb_le _ _) Hn). apply Hread. }
  destruct (Hk "Offline Whale" _ _ H1) as (k1 & -> & _). destruct (Hk "Online Whale" _ _ H2) as (k2 & -> & _).
  destruct (Hk "Offline Fish" _ _ H3) as (k3 & -> & E3). cbn [bind].
  unfold load_stakers. rewrite Hc. unfold zlength at 1. rewrite E3. fold (zlength (glob (offline_fish_accounts_directory o))).
  rewrite (proj2 (Z.leb_le _ _) H3).
  destruct (mapM_total (fun f => let* k := read_key f in Ok (Staker (basename f) k))
    (take_z (num_fish_accounts o) (glob (online_fish_accounts_directory o)))) as [stakers ->].
  { intros f _. specialize (Hr f). destruct (read_key f) as [k|]; [by eexists | done]. }
  cbn [bind]. destruct (whale_loop _ _ _ _). reflexivity.
Qed.
End Generate.

(** ** Decimal numerals *)
Lemma digits_app s1 s2 acc :
  digits_value (s1 +:+ s2) acc =
  match digits_value s1 acc with Some v => digits_value s2 v | None => None end.
Proof.
  revert acc. induction s1 as [|a s1 IH]; intros acc; [done|]. rewrite app_cons_str. cbn.
  destruct (digit_value a); [apply IH | done].
Qed.

Lemma digits_acc s acc v :
  digits_value s acc = Some v ->
  exists u, digits_value s 0 = Some u /\ v = (acc * 10 ^ Z.of_nat (String.length s) + u)%Z.
Proof.
  revert acc v. induction s as [|a s IH]; intros acc v H.
  - cbn in H. injection H as <-. exists 0%Z. split; [done|]. cbn. lia.
  - cbn [digits_value] in *. destruct (digit_value a) as [d|]; [|done].
    destruct (IH _ _ H) as (u & Hu & ->). cbn [String.length]. rewrite Nat2Z.inj_succ, Z.pow_succ_r by lia.
    assert (H0 : exists v0, digits_value s (10 * 0 + d)%Z = Some v0).
    { clear -Hu. revert Hu. generalize (10 * 0 + d)%Z, u. generalize 0%Z. induction s as [|b s IHs]; intros z1 z2 u' Hu; [by eexists|].
      cbn in *. destruct (digit_value b); [by eapply IHs | done]. }
    destruct H0 as [v0 Hv0]. exists v0. split; [done|].
    destruct (IH _ _ Hv0) as (u' & Hu' & ->). rewrite Hu in Hu'. injection Hu' as <-. ring.
Qed.

Lemma digits_some_acc s acc1 acc2 v : digits_value s acc1 = Some v -> exists v', digits_value s acc2 = Some v'.
Proof.
  revert acc1 acc2 v. induction s as [|a s IH]; intros acc1 acc2 v H; cbn in *; [by eexists|].
  destruct (digit_value a); [by eapply IH | done].
Qed.

Lemma zeros_digits k s : digits_value (zeros k +:+ s) 0 = digits_value s 0.
Proof.
  unfold zeros. induction k as [|k IH]; [done|]. cbn [repeat String.concat].
  destruct k as [|k]; [done|]. cbn [repeat]. rewrite <- IH. done.
Qed.

Lemma zeros_length k : String.length (zeros k) = k.
Proof.
  unfold zeros. induction k as [|k IH]; [done|]. destruct k as [|k]; [done|].
  change (String.concat "" (repeat "0" (S (S k)))) with ("0" +:+ String.concat "" (repeat "0" (S k))).
  rewrite app_length_str, IH. done.
Qed.

Lemma substring_split s k : (k <= String.length s)%nat ->
  String.substring 0 k s +:+ String.substring k (String.length s - k) s = s
  /\ String.length (String.substring k (String.length s - k) s) = (String.length s - k)%nat.
Proof.
  revert k. induction s as [|a s IH]; intros [|k] Hk; cbn in Hk; try lia.
  - done.
  - cbn. assert (E : String.substring 0 (String.length s) s = s).
    { clear. induction s as [|b s IHs]; [done|]. cbn. by rewrite IHs. }
    rewrite E. split; [reflexivity | done].
  - destruct (IH k ltac:(lia)) as [H1 H2]. split; [|exact H2]. cbn. rewrite app_cons_str. by rewrite H1.
Qed.

Lemma encode_decode_nonneg n : (0 <= n)%Z -> decode_nanocodas (encode_nanocodas n) = Some n.
Proof.
  intros Hn. pose proof (py_str_digits n Hn) as Hd. unfold encode_nanocodas.
  set (s := py_str n) in *. clearbody s. destruct (Nat.ltb_spec 9 (String.length s)) as [Hl|Hl].
  - set (k := (String.length s - 9)%nat).
    assert (E1 : but_last_str 9 s = String.substring 0 k s) by done.
    assert (E2 : last_str 9 s = String.substring k (String.length s - k) s).
    { unfold last_str, drop_str. reflexivity. }
    destruct (substring_split s k ltac:(unfold k; lia)) as [Hs Hlen]. rewrite <- E1, <- E2 in Hs. rewrite <- E2 in Hlen.
    rewrite <- Hs, digits_app in Hd. destruct (digits_value (but_last_str 9 s) 0) as [x|] eqn:Ex; [|done].
    destruct (digits_acc _ _ _ Hd) as (y & Hy & ->).
    unfold decode_nanocodas. change ("." +:+ last_str 9 s) with (String "." (last_str 9 s)).
    rewrite split_two by (eapply digits_no_char; [done | eassumption]). rewrite Ex, Hy.
    assert (H9 : String.length (last_str 9 s) = 9%nat) by (unfold k in Hlen; lia).
    rewrite H9. cbn [Nat.eqb]. f_equal.
  - unfold decode_nanocodas. rewrite <- zeros_digits with (k := (9 - String.length s)%nat) in Hd.
    change ("0." +:+ zeros (9 - String.length s) +:+ s)
      with ("0" +:+ String "." (zeros (9 - String.length s) +:+ s)).
    rewrite split_two by (first [done | eapply digits_no_char; [done | eassumption]]). rewrite Hd. cbn [digits_value digit_value].
    rewrite app_length_str, zeros_length. replace (9 - String.length s + String.length s =? 9)%nat with true
      by (symmetry; apply Nat.eqb_eq; lia). done.
Qed.

(** ** Properties *)

(** the balance strings are exact: an amount of nanocodas written with nine
    decimals reads back as the same amount, for every non-negative amount. *)
Theorem nanocodas_roundtrip (n : Z) : (0 <= n)%Z -> decode_nanocodas (encode_nanocodas n) = Some n.
Proof. apply encode_decode_nonneg. Qed.

(** C38: a ledger that is generated holds the service accounts, then for each pair of
    an offline fish key and a staker two accounts, the first delegating to the
    second, then the same for the whales; keys left over on either side get no
    account; and the file of the annotated ledger holds the same accounts, without
    any annotation.  No ledger is generated with fewer keys of offline whales, online
    whales or offline fish than were asked for; without a CSV file and when every key
    can be read, one is generated as soon as these three counts and the services are right, however
    few keys of online fish there are. *)
Theorem ledger_accounts (glob : string -> list string) (read_key : string -> result string)
  (read_lines : string -> result (list string)) (o : options) :
  let enough := (num_whale_accounts o <= zlength (glob (offline_whale_accounts_directory o)))%Z /\
                (num_whale_accounts o <= zlength (glob (online_whale_accounts_directory o)))%Z /\
                (num_fish_accounts o <= zlength (glob (offline_fish_accounts_directory o)))%Z in
  (forall lw aw, generate_ledger glob read_key read_lines o = Ok (lw, aw) ->
     enough /\ accounts aw = accounts lw /\
     exists services offline_whales online_whales fishes stakers,
       mapM (load_service read_key) (glob (service_accounts_directory o)) = Ok services
       /\ mapM read_key (glob (offline_whale_accounts_directory o)) = Ok offline_whales
       /\ mapM read_key (glob (online_whale_accounts_directory o)) = Ok online_whales
       /\ mapM read_key (glob (offline_fish_accounts_directory o)) = Ok fishes
       /\ load_stakers glob read_key read_lines o (zlength fishes) = Ok stakers
       /\ accounts lw = expected_ledger services fishes stakers offline_whales online_whales
       /\ length (accounts lw) = (length services + 2 * (length fishes `min` length stakers)
                                  + 2 * (length offline_whales `min` length online_whales))%nat) /\
  (forall services, staker_csv_file o = None -> (forall f, is_ok (read_key f) = true) ->
     mapM (load_service read_key) (glob (service_accounts_directory o)) = Ok services -> enough ->
     exists lw aw, generate_ledger glob read_key read_lines o = Ok (lw, aw)).
Proof.
  intros enough. split.
  - intros lw aw H. split; [by eapply generate_ledger_enough|].
    destruct (generate_ledger_inv _ _ _ _ _ _ H) as (s & w1 & w2 & f & st & E1 & E2 & E3 & E4 & E5 & -> & ->).
    split; [done|]. exists s, w1, w2, f, st. do 5 (split; [done|]). split; [done|]. apply expected_length.
  - intros services Hc Hr Hs (H1 & H2 & H3).
    pose proof (generate_ledger_total _ _ read_lines _ _ Hc Hr Hs H1 H2 H3) as H.
    destruct (generate_ledger _ _ _ _) as [[lw aw]|]; [by exists lw, aw | done].
Qed.

(** Without a CSV file, a ledger is generated as soon as there are enough whale
    keys and enough offline fish keys, however few online fish keys there are: the
    check before loading the online fish counts the offline ones. *)
Theorem online_fish_unchecked (glob : string -> list string) (read_key : string -> result string)
  (read_lines : string -> result (list string)) (o : options) (services : list service) :
  staker_csv_file o = None -> (forall f, is_ok (read_key f) = true) ->
  mapM (load_service read_key) (glob (service_accounts_directory o)) = Ok services ->
  (num_whale_accounts o <= zlength (glob (offline_whale_accounts_directory o)))%Z ->
  (num_whale_accounts o <= zlength (glob (online_whale_accounts_directory o)))%Z ->
  (num_fish_accounts o <= zlength (glob (offline_fish_accounts_directory o)))%Z ->
  is_ok (generate_ledger glob read_key read_lines o) = true.
Proof. exact (generate_ledger_total glob read_key read_lines o services). Qed.

(** ** Witnesses *)
Definition glob0 (dir : string) : list string :=
  default [] (get [("services", ["services/echo_service.pub"]); ("online_whales", ["w1.pub"]);
                   ("offline_whales", ["w2.pub"]); ("offline_fish", ["f1.pub"; "f2.pub"])] dir).

Definition options0 : options :=
  Options "services" 1 "online_whales" "offline_whales" 2 "online_fish" "offline_fish" None.

Lemma nanocodas_roundtrip_witness :
  encode_nanocodas 1234567890123 = "1234.567890123" /\ decode_nanocodas (encode_nanocodas 1234567890123) = Some 1234567890123%Z.
Proof. split; [vm_compute; reflexivity | apply (nanocodas_roundtrip 1234567890123); lia]. Defined.

Lemma online_fish_unchecked_witness :
  is_ok (generate_ledger glob0 (fun f => Ok f) (fun _ => Ok []) options0) = true /\ glob0 "online_fish" = [].
Proof.
  split; [|reflexivity].
  apply (online_fish_unchecked glob0 (fun f => Ok f) (fun _ => Ok []) options0
    [Service "services/echo_service.pub" "echo" (100 * 10 ^ 9)]).
  - reflexivity.
  - reflexivity.
  - vm_compute. reflexivity.
  - vm_compute. discriminate.
  - vm_compute. discriminate.
  - vm_compute. discriminate.
Defined.

Lemma ledger_accounts_witness :
  exists lw aw, generate_ledger glob0 (fun f => Ok f) (fun _ => Ok []) options0 = Ok (lw, aw) /\
    accounts aw = accounts lw /\ length (accounts lw) = 3%nat.
Proof.
  destruct (ledger_accounts glob0 (fun f => Ok f) (fun _ => Ok []) options0) as [Hl Ht].
  destruct (Ht [Service "services/echo_service.pub" "echo" (100 * 10 ^ 9)]) as (lw & aw & E).
  - reflexivity.
  - reflexivity.
  - vm_compute. reflexivity.
  - split_and!; vm_compute; discriminate.
  - exists lw, aw. split; [exact E|]. split; [apply (Hl lw aw E)|].
    vm_compute in E. injection E as <- <-. reflexivity.
Defined.
