(* ===== verification/ForkTree.v ===== *)
(** * The block tree of the watchdog's report, [watchdog/make_report.py]

    Each peer reports its best chain, oldest block first.  [fork_tree] overlays the
    chains, [summarize] contracts the stretches every peer agrees on, [has_forks]
    decides from the contracted tree whether the network has forked, and
    [block_tree_graph] draws it.  A Python set of hashes is a list without
    duplicates: the order in which the code visits it changes only the order of the
    entries of the summary. *)

From stdpp Require Import base list strings.
From Stdlib Require Import Ascii ZArith Lia.
From S2P Require Import Prelude Dict PyStr PySet.
Open Scope string_scope.

Record fork_node : Type := ForkNode { children : list string; peers : Z }.

Definition tree : Type := dict string fork_node.

(** One turn of the inner loop: [setdefault], [update] and [+= 1]. *)
Definition add_link (t : tree) (link : string * list string) : tree :=
  let '(parent, child_or_none) := link in
  let nd := default (ForkNode [] 0) (get t parent) in
  set parent (ForkNode (set_update (children nd) child_or_none) (peers nd + 1)) t.

(** [zip(parents, children_or_none)] *)
Definition links_of (block_hashes : list string) : list (string * list string) :=
  combine block_hashes (map (fun c => [c]) (tl block_hashes) ++ [[]])%list.

Definition fork_tree (chains : list (list string)) : tree :=
  fold_left (fun t c => fold_left add_link (links_of c) t) chains [].

Definition roots (t : tree) : list string :=
  let cs := flat_map children (values t) in
  List.filter (fun k => negb (bool_decide (k ∈ cs))) (keys t).

(** ** The summary *)
Record summary_node : Type := SummaryNode {
  s_children : list string;
  s_peers : Z;
  intermediate_nodes : Z
}.

Definition summary : Type := dict string summary_node.

(** The [while] loop: step over an only child with as many peers, unless it is a tip. *)
Fixpoint skip (fuel : nat) (t : tree) (n_peers : Z) (cs : list string) (n : Z) : result (list string * Z) :=
  match fuel with
  | O => Err OutOfFuel
  | S fuel' =>
      match cs with
      | [c] =>
          let* nd := get_item t c in
          if (peers nd =? n_peers)%Z then
            match children nd with
            | [] => Ok (cs, n)
            | children_or_none => skip fuel' t n_peers children_or_none (n + 1)
            end
          else Ok (cs, n)
      | _ => Ok (cs, n)
      end
  end.

Fixpoint add_to_summarized_tree (fuel : nat) (t : tree) (s : summary) (parent : string) : result summary :=
  match fuel with
  | O => Err OutOfFuel
  | S fuel' =>
      let* nd := get_item t parent in
      let* (cs, n) := skip fuel t (peers nd) (children nd) 0 in
      foldM (add_to_summarized_tree fuel' t) cs (set parent (SummaryNode cs (peers nd) n) s)
  end.

Definition tree_fuel (t : tree) : nat := S (length t).

Definition summarized_fork_tree (t : tree) : result summary :=
  foldM (add_to_summarized_tree (tree_fuel t) t) (roots t) [].

(** ** Forks *)
Definition is_tip (v : summary_node) : bool := match s_children v with [] => true | _ => false end.

Definition has_forks (t : tree) (s : summary) : result bool :=
  let has_children root := let* nd := get_item t root in Ok (root, 0 <? zlength (children nd))%Z in
  let* rs := mapM has_children (roots t) in
  let roots_with_children := map fst (List.filter snd rs) in
  if (1 <? zlength roots_with_children)%Z then Ok true
  else if (zlength roots_with_children =? 0)%Z then Ok false
  else
    let tips := map fst (List.filter (fun '(_, v) => is_tip v) s) in
    let tip_parents := List.filter (fun '(_, v) => existsb (fun c => bool_decide (c ∈ tips)) (s_children v)) s in
    Ok (1 <? zlength tip_parents)%Z.

(** ** The drawing *)
Inductive gv : Type :=
| Attr (shape : string)
| Node (name label : string)
| Edge (a b : string).

Definition nl : string := String "010"%char EmptyString.

Definition draw_node (e : string * summary_node) : gv :=
  let '(block, v) := e in
  Node block ("block " +:+ last_str 6 block +:+ nl +:+ py_str (s_peers v) +:+ " nodes").

Definition draw_edges (e : string * summary_node) : list gv :=
  let '(block, v) := e in
  if (0 <? zlength (s_children v))%Z then
    if (0 <? intermediate_nodes v)%Z then
      let mid := block +:+ "_intermediate" in
      Node mid (py_str (intermediate_nodes v) +:+ " in common blocks") :: Edge block mid
        :: map (Edge mid) (s_children v)
    else map (Edge block) (s_children v)
  else [].

Definition make_block_tree_graph (s : summary) : list gv :=
  (Attr "circle" :: map draw_node s ++ Attr "rectangle" :: flat_map draw_edges s)%list.

(** ** The chains as a blockchain *)
Section Chains.
Context (chains : list (list string)).

(** [b] comes right after [a] in a chain. *)
Definition follows (a b : string) : Prop :=
  exists ch l1 l2, ch ∈ chains /\ ch = (l1 ++ a :: b :: l2)%list.

Definition known (x : string) : Prop := exists ch, ch ∈ chains /\ x ∈ ch.

Definition first_block (r : string) : Prop := known r /\ forall a, ~ follows a r.
Definition last_block (c : string) : Prop := known c /\ forall b, ~ follows c b.

(** A hash commits to one parent, and the height of a block is one more than its
    parent's. *)
Definition blockchain (parent : string -> string) (height : string -> nat) : Prop :=
  forall a b, follows a b -> parent b = a /\ height b = S (height a).

(** The number of times the chains name a block. *)
Definition mentions (x : string) : Z := Z.of_nat (length (List.filter (String.eqb x) (concat chains))).
End Chains.

(** ** What [fork_tree] computes *)
Definition child (t : tree) (p c : string) : Prop := exists nd, get t p = Some nd /\ c ∈ children nd.

(** The invariant of the two loops, [ls] being the links already seen. *)
Record built (ls : list (string * list string)) (t : tree) : Prop := Built {
  built_wf : wf t;
  built_keys : forall x, x ∈ keys t <-> exists cs, (x, cs) ∈ ls;
  built_children : forall p nd c, get t p = Some nd -> (c ∈ children nd <-> exists cs, (p, cs) ∈ ls /\ c ∈ cs);
  built_nodup : forall p nd, get t p = Some nd -> NoDup (children nd);
  built_peers : forall p nd, get t p = Some nd -> peers nd = Z.of_nat (length (List.filter (String.eqb p) (map fst ls)))
}.

Lemma built_add ls t link : built ls t -> built (ls ++ [link])%list (add_link t link).
Proof.
  destruct link as [p0 cs0]. intros [Hw Hk Hc Hn Hp]. unfold add_link.
  assert (Hnone : get t p0 = None -> forall cs, (p0, cs) ∉ ls).
  { intros E cs Hin. apply get_None in E. apply E, Hk. eauto. }
  split.
  - by apply wf_set.
  - intros x. rewrite elem_of_keys_set, Hk. setoid_rewrite elem_of_app. setoid_rewrite list_elem_of_singleton.
    split; [intros [->|[cs ?]]; eauto | intros [cs [?|[= -> ->]]]; eauto].
  - intros p nd c. rewrite get_set. setoid_rewrite elem_of_app. setoid_rewrite list_elem_of_singleton.
    case_decide as E; [subst p; intros [= <-]; cbn [children]|].
    + rewrite elem_of_set_update. destruct (get t p0) as [nd0|] eqn:E0; cbn.
      * rewrite (Hc _ _ _ E0). naive_solver.
      * specialize (Hnone eq_refl). rewrite elem_of_nil. naive_solver.
    + intros Hg. rewrite (Hc _ _ _ Hg). naive_solver.
  - intros p nd. rewrite get_set. case_decide as E; [|apply Hn]. intros [= <-]. apply NoDup_set_update.
    destruct (get t p0) as [nd0|] eqn:E0; cbn; [by apply (Hn _ _ E0) | constructor].
  - intros p nd. rewrite get_set, map_app, List.filter_app, length_app. cbn [map fst List.filter].
    case_decide as E; [subst p; intros [= <-]; cbn [peers]; rewrite String.eqb_refl|].
    + cbn [length]. destruct (get t p0) as [nd0|] eqn:E0; cbn [default peers].
      * cbn. rewrite (Hp _ _ E0). lia.
      * cbn. assert (En : List.filter (String.eqb p0) (map fst ls) = []); [|rewrite En; cbn; lia].
        destruct (List.filter _ _) as [|y l] eqn:Ef; [done|]. exfalso.
        assert (Hy : In y (List.filter (String.eqb p0) (map fst ls))) by (rewrite Ef; by left).
        apply filter_In in Hy as [Hy Heq]. apply String.eqb_eq in Heq as <-.
        apply in_map_iff in Hy as ([y cs] & Heq & Hin). cbn in Heq. subst y.
        apply (Hnone eq_refl cs). by apply list_elem_of_In.
    + intros Hg. rewrite (Hp _ _ Hg). destruct (String.eqb_spec p p0); [done|]. cbn. lia.
Qed.

Lemma built_all ls t l : built ls t -> built (ls ++ l)%list (fold_left add_link l t).
Proof.
  revert ls t. induction l as [|x l IH]; intros ls t H; cbn; [by rewrite app_nil_r|].
  rewrite cons_middle, app_assoc. by apply IH, built_add.
Qed.

Lemma fork_tree_built chains : built (flat_map links_of chains) (fork_tree chains).
Proof.
  unfold fork_tree.
  enough (G : forall t ls, built ls t -> built (ls ++ flat_map links_of chains)%list
             (fold_left (fun t c => fold_left add_link (links_of c) t) chains t)).
  { apply (G [] []). split; cbn; try done; [constructor|]. intros x. setoid_rewrite elem_of_nil. naive_solver. }
  induction chains as [|c cs IH]; intros t ls H; cbn; [by rewrite app_nil_r|].
  rewrite app_assoc. by apply IH, built_all.
Qed.

(** The links of a chain. *)
Lemma fst_links_of ch : map fst (links_of ch) = ch.
Proof.
  unfold links_of. assert (E : (length ch <= length (map (fun c => [c]) (tl ch) ++ [[]])%list)%nat).
  { rewrite length_app, length_map. destruct ch; cbn; lia. }
  revert E. generalize (map (fun c => [c]) (tl ch) ++ [[]])%list. induction ch as [|x ch IH]; intros [|y l] E; cbn in *; try done; [lia|].
  rewrite IH; [done | lia].
Qed.

Lemma links_of_cons a b l : links_of (a :: b :: l) = (a, [b]) :: links_of (b :: l).
Proof. done. Qed.

Lemma in_links_of ch a b : (exists cs, (a, cs) ∈ links_of ch /\ b ∈ cs) <-> exists l1 l2, ch = (l1 ++ a :: b :: l2)%list.
Proof.
  induction ch as [|x [|y ch] IH].
  - split; [intros (cs & H & _); by apply elem_of_nil in H | intros ([|] & l2 & H); done].
  - split.
    + intros (cs & H & Hb). apply list_elem_of_singleton in H as [= -> ->]. by apply elem_of_nil in Hb.
    + intros ([|? [|]] & l2 & H); done.
  - rewrite links_of_cons. setoid_rewrite elem_of_cons. split.
    + intros (cs & [[= -> ->]|H] & Hb).
      * apply list_elem_of_singleton in Hb as ->. by exists [], ch.
      * destruct (proj1 IH) as (l1 & l2 & ->); [by exists cs|]. by exists (x :: l1), l2.
    + intros ([|z l1] & l2 & E).
      * injection E as -> -> ->. exists [b]. split; [by left | by left].
      * injection E as -> E. destruct (proj2 IH) as (cs & H & Hb); [by exists l1, l2|]. exists cs. auto.
Qed.

Lemma in_flat_links chains x cs : (x, cs) ∈ flat_map links_of chains <-> exists ch, ch ∈ chains /\ (x, cs) ∈ links_of ch.
Proof. rewrite list_elem_of_In, in_flat_map. by setoid_rewrite list_elem_of_In. Qed.

Lemma child_fork_tree chains p c : child (fork_tree chains) p c <-> follows chains p c.
Proof.
  pose proof (fork_tree_built chains) as [Hw Hk Hc _ _]. split.
  - intros (nd & Hg & Hin). apply (Hc _ _ _ Hg) in Hin as (cs & Hin & Hb).
    apply in_flat_links in Hin as (ch & Hch & Hin).
    destruct (proj1 (in_links_of ch p c)) as (l1 & l2 & E); [by exists cs|]. by exists ch, l1, l2.
  - intros (ch & l1 & l2 & Hch & E). destruct (proj2 (in_links_of ch p c)) as (cs & Hin & Hb); [eauto|].
    assert (Hf : (p, cs) ∈ flat_map links_of chains) by (apply in_flat_links; eauto).
    destruct (get (fork_tree chains) p) as [nd|] eqn:E0.
    + exists nd. split; [done|]. apply (Hc _ _ _ E0). eauto.
    + apply get_None in E0. destruct E0. apply Hk. eauto.
Qed.

Lemma keys_fork_tree chains x : x ∈ keys (fork_tree chains) <-> known chains x.
Proof.
  rewrite (built_keys _ _ (fork_tree_built chains)). setoid_rewrite in_flat_links. split.
  - intros (cs & ch & Hch & Hin). exists ch. split; [done|]. rewrite <- (fst_links_of ch).
    apply list_elem_of_fmap. by exists (x, cs).
  - intros (ch & Hch & Hin). rewrite <- (fst_links_of ch) in Hin.
    apply list_elem_of_fmap in Hin as ([y cs] & -> & Hin). eauto.
Qed.

Lemma fst_flat_links chains : map fst (flat_map links_of chains) = concat chains.
Proof. induction chains as [|c cs IH]; cbn; [done|]. by rewrite map_app, fst_links_of, IH. Qed.

Lemma peers_fork_tree chains p nd : get (fork_tree chains) p = Some nd -> peers nd = mentions chains p.
Proof. intros H. rewrite (built_peers _ _ (fork_tree_built chains) _ _ H). by rewrite fst_flat_links. Qed.

(** ** The summary of a tree

    [well_founded_tree]: every child is in the tree, above its parent, and has no
    other parent. *)
Record forest (t : tree) (height : string -> nat) : Prop := Forest {
  forest_wf : wf t;
  forest_closed : forall p c, child t p c -> c ∈ keys t;
  forest_height : forall p c, child t p c -> (height p < height c)%nat;
  forest_parent : forall p q c, child t p c -> child t q c -> p = q
}.

(** [skips t n p q k]: [q] is [k] only children above [p], each with [n] peers and
    none a tip. *)
Inductive skips (t : tree) (n : Z) : string -> string -> nat -> Prop :=
| skips_here p : skips t n p p 0
| skips_step p c q k pnd cnd :
    get t p = Some pnd -> children pnd = [c] ->
    get t c = Some cnd -> peers cnd = n -> children cnd <> [] ->
    skips t n c q k -> skips t n p q (S k).

(** The stretch of [p] stops at [q]. *)
Definition stops (t : tree) (n : Z) (q : string) : Prop :=
  forall c qnd cnd, get t q = Some qnd -> children qnd = [c] -> get t c = Some cnd ->
  peers cnd = n -> children cnd = [].

(** The entry of [p] in the summary. *)
Definition summarizes (t : tree) (p : string) (v : summary_node) : Prop :=
  exists pnd q qnd k, get t p = Some pnd /\ skips t (peers pnd) p q k /\ stops t (peers pnd) q /\
  get t q = Some qnd /\ v = SummaryNode (children qnd) (peers pnd) (Z.of_nat k).

Section Summary.
Context (t : tree) (height : string -> nat) (Ht : forest t height).

Definition above (x : string) : nat := length (List.filter (fun y => height x <? height y)%nat (keys t)).

Lemma filter_sub {A} (f g : A -> bool) l : (forall x, f x = true -> g x = true) ->
  (length (List.filter f l) <= length (List.filter g l))%nat.
Proof.
  intros H. induction l as [|x l IH]; cbn; [lia|].
  destruct (f x) eqn:E; [rewrite (H _ E); cbn; lia|]. destruct (g x); cbn; lia.
Qed.

Lemma filter_lt {A} (f g : A -> bool) l x : (forall x, f x = true -> g x = true) -> x ∈ l -> f x = false -> g x = true ->
  (length (List.filter f l) < length (List.filter g l))%nat.
Proof.
  intros H Hin Hf Hg. induction l as [|y l IH]; [by apply elem_of_nil in Hin|].
  apply elem_of_cons in Hin as [<-|Hin]; cbn.
  - rewrite Hf, Hg. cbn. pose proof (filter_sub f g l H). lia.
  - specialize (IH Hin). destruct (f y) eqn:E; [rewrite (H _ E); cbn; lia|]. destruct (g y); cbn; lia.
Qed.

Lemma above_child p c : child t p c -> (above c < above p)%nat.
Proof.
  intros Hc. pose proof (forest_height _ _ Ht _ _ Hc) as Hh.
  apply (filter_lt _ _ _ c); [|by apply (forest_closed _ _ Ht p)|by apply Nat.ltb_irrefl|by apply Nat.ltb_lt].
  intros x. rewrite !Nat.ltb_lt. lia.
Qed.

Lemma above_fuel x : (above x < tree_fuel t)%nat.
Proof.
  unfold above, tree_fuel. pose proof (List.filter_length_le (fun y => height x <? height y)%nat (keys t)).
  rewrite length_keys in *. lia.
Qed.

Lemma get_key x : x ∈ keys t -> exists nd, get t x = Some nd.
Proof. intros H. destruct (get t x) as [nd|] eqn:E; [eauto|]. by apply get_None in E. Qed.

(** The loop stops within its fuel, at the end of the stretch. *)
Lemma skip_spec fuel p pnd n z : get t p = Some pnd -> (above p < fuel)%nat ->
  exists q qnd k, skip fuel t n (children pnd) z = Ok (children qnd, z + Z.of_nat k)%Z /\
    skips t n p q k /\ stops t n q /\ get t q = Some qnd.
Proof.
  revert p pnd z. induction fuel as [|fuel IH]; intros p pnd z Hp Hf; [lia|].
  assert (Here : stops t n p -> exists q qnd k, Ok (children pnd, z) = Ok (children qnd, z + Z.of_nat k)%Z /\
    skips t n p q k /\ stops t n q /\ get t q = Some qnd).
  { intros Hs. exists p, pnd, 0%nat. rewrite Z.add_0_r. split_and!; try done. constructor. }
  cbn [skip]. destruct (children pnd) as [|c [|c' cs]] eqn:Ec.
  - apply Here. intros c qnd cnd E. rewrite Hp in E. injection E as <-. by rewrite Ec.
  - assert (Hc : child t p c) by (exists pnd; rewrite Ec; split; [done | left]).
    destruct (get_key c) as [cnd Hcg]; [by apply (forest_closed _ _ Ht p)|].
    unfold get_item. rewrite Hcg. cbn [bind].
    destruct (Z.eqb_spec (peers cnd) n) as [En|En].
    + destruct (children cnd) as [|x xs] eqn:Ecc.
      * apply Here. intros c0 qnd cnd0 E E'. rewrite Hp in E. injection E as <-. rewrite Ec in E'.
        injection E' as <-. rewrite Hcg. congruence.
      * rewrite <- Ecc. pose proof (above_child _ _ Hc). destruct (IH c cnd (z + 1)%Z) as (q & qnd & k & E & Hs & Hst & Hq); [done|lia|].
        exists q, qnd, (S k). rewrite E. split_and!; try done; [f_equal; f_equal; lia|].
        eapply skips_step; eauto. by rewrite Ecc.
    + apply Here. intros c0 qnd cnd0 E E'. rewrite Hp in E. injection E as <-. rewrite Ec in E'.
      injection E' as <-. rewrite Hcg. congruence.
  - apply Here. intros c0 qnd cnd0 E E'. rewrite Hp in E. injection E as <-. by rewrite Ec in E'.
Qed.

Lemma skips_stops_det n p q1 q2 k1 k2 : skips t n p q1 k1 -> stops t n q1 -> skips t n p q2 k2 -> stops t n q2 ->
  q1 = q2 /\ k1 = k2.
Proof.
  intros H. revert q2 k2. induction H as [p|p c q1 k1 pnd cnd H1 H2 H3 H4 H5 H IH]; intros q2 k2 S1 H' S2;
    destruct H' as [p|p c' q2 k2 pnd' cnd' H1' H2' H3' H4' H5' H'].
  - done.
  - destruct H5'. by eapply S1.
  - destruct H5. by eapply S2.
  - assert (c' = c) as -> by congruence. by destruct (IH q2 k2 S1 H' S2) as [-> ->].
Qed.

Lemma summarizes_det p v1 v2 : summarizes t p v1 -> summarizes t p v2 -> v1 = v2.
Proof.
  intros (pnd & q1 & qnd1 & k1 & Hp & Hk1 & Hs1 & Hq1 & ->) (pnd' & q2 & qnd2 & k2 & Hp' & Hk2 & Hs2 & Hq2 & ->).
  assert (pnd' = pnd) as -> by congruence.
  destruct (skips_stops_det _ _ _ _ _ _ Hk1 Hs1 Hk2 Hs2) as [-> ->]. congruence.
Qed.

Lemma skips_above n p q k : skips t n p q k -> (above q <= above p)%nat.
Proof.
  induction 1 as [|p c q k pnd cnd H1 H2 _ _ _ _ IH]; [done|].
  assert (child t p c) by (exists pnd; rewrite H2; split; [done | left]). pose proof (above_child p c ltac:(done)). lia.
Qed.

(** The blocks that get an entry: roots, and children of the end of a stretch. *)
Definition entry (p : string) : Prop :=
  p ∈ roots t \/ exists e end_ q k, get t e = Some end_ /\ skips t (peers end_) e q k /\ stops t (peers end_) q /\ child t q p.

(** What the summary satisfies while [add_to_summarized_tree] runs: [new] entries
    have entries for their children. *)
Record summary_inv (s0 s : summary) (open : string -> Prop) : Prop := SummaryInv {
  si_wf : wf s;
  si_sub : forall k, k ∈ keys s0 -> k ∈ keys s;
  si_entry : forall k v, get s k = Some v -> summarizes t k v /\ entry k;
  si_closed : forall k v c, get s k = Some v -> c ∈ s_children v -> k ∈ keys s0 \/ open k \/ c ∈ keys s
}.

Lemma summary_inv_trans s0 s1 s2 open :
  summary_inv s0 s1 open -> summary_inv s1 s2 (fun _ => False) -> summary_inv s0 s2 open.
Proof.
  intros [W1 S1 E1 C1] [W2 S2 E2 C2]. split; try done; [by intros; apply S2, S1|].
  intros k v c G Hin. destruct (C2 _ _ _ G Hin) as [Hk|[[]|?]]; [|by right; right].
  destruct (get s1 k) as [v1|] eqn:G1; [|by apply get_None in G1].
  destruct (E1 _ _ G1) as [D1 _], (E2 _ _ G) as [D2 _]. rewrite <- (summarizes_det _ _ _ D1 D2) in Hin.
  destruct (C1 _ _ _ G1 Hin) as [?|[?|?]]; auto.
Qed.

Lemma summary_inv_start s0 s open : summary_inv s0 s open -> summary_inv s s (fun _ => False).
Proof.
  intros [W S E C]. split; try done. intros k v c G _. left. by apply get_is_key in G.
Qed.

(** What the recursive call on [c] from [s] does. *)
Definition call_spec (fuel : nat) (s : summary) (c : string) : Prop :=
  exists s', add_to_summarized_tree fuel t s c = Ok s' /\ summary_inv s s' (fun _ => False) /\ c ∈ keys s'.

Lemma calls_spec fuel l s0 s1 open :
  (forall c s, c ∈ l -> summary_inv s s (fun _ => False) -> call_spec fuel s c) ->
  summary_inv s0 s1 open ->
  exists s', foldM (add_to_summarized_tree fuel t) l s1 = Ok s' /\ summary_inv s0 s' open /\
    (forall c, c ∈ keys s1 -> c ∈ keys s') /\ forall c, c ∈ l -> c ∈ keys s'.
Proof.
  revert s1. induction l as [|c l IHl]; intros s1 Hl Hs1; cbn [foldM].
  { exists s1. split_and!; try done. intros c H. by apply elem_of_nil in H. }
  destruct (Hl c s1) as (s2 & -> & H2 & Hin2); [left | by eapply summary_inv_start|]. cbn [bind].
  destruct (IHl s2) as (s' & -> & H' & Hsub & Hl').
  - intros x s Hx. apply Hl. by right.
  - by eapply summary_inv_trans.
  - exists s'. split_and!; try done; [intros x Hx; by apply Hsub, (si_sub _ _ _ H2)|].
    intros x [->|Hx]%elem_of_cons; auto.
Qed.

Lemma add_to_summarized_tree_spec fuel s p :
  (above p < fuel)%nat -> p ∈ keys t -> entry p -> summary_inv s s (fun _ => False) -> call_spec fuel s p.
Proof.
  revert s p. induction fuel as [|fuel IH]; intros s p Hf Hp He Hs; [lia|].
  destruct (get_key _ Hp) as [pnd Hg]. unfold call_spec. cbn [add_to_summarized_tree]. unfold get_item. rewrite Hg. cbn [bind].
  destruct (skip_spec (S fuel) p pnd (peers pnd) 0 Hg Hf) as (q & qnd & k & E & Hk & Hst & Hq).
  rewrite E. cbn [bind]. set (v := SummaryNode (children qnd) (peers pnd) (0 + Z.of_nat k)).
  assert (Hsum : summarizes t p v) by (exists pnd, q, qnd, k; by split_and!).
  destruct (calls_spec fuel (children qnd) s (set p v s) (eq p)) as (s' & -> & H' & Hsub & Hall).
  - intros c s2 Hin Hs2. assert (Hc : child t q c) by (by exists qnd). apply IH; try done.
    + pose proof (above_child _ _ Hc). pose proof (skips_above _ _ _ _ Hk). lia.
    + by apply (forest_closed _ _ Ht q).
    + right. exists p, pnd, q, k. by split_and!.
  - destruct Hs as [W S E0 C]. split; [by apply wf_set|intros; rewrite elem_of_keys_set; by right| |].
    + intros k0 v0. rewrite get_set. case_decide as D; [subst k0; intros [= <-]; done | apply E0].
    + intros k0 v0 c0. rewrite get_set. case_decide as D; [subst; right; by left|]. intros G Hin.
      left. by apply get_is_key in G.
  - exists s'. split_and!; [done| |apply Hsub; rewrite elem_of_keys_set; by left].
    destruct H' as [W S E0 C]. split; try done. intros k0 v0 c0 G Hin.
    destruct (C _ _ _ G Hin) as [?|[<-|?]]; [by left| |by right; right].
    right. right. destruct (E0 _ _ G) as [D _]. rewrite <- (summarizes_det _ _ _ Hsum D) in Hin. by apply Hall.
Qed.

(** ** Roots *)
Lemma elem_of_roots r : r ∈ roots t <-> r ∈ keys t /\ forall p, ~ child t p r.
Proof.
  unfold roots. rewrite list_elem_of_In, filter_In, <- (list_elem_of_In (keys t) r).
  rewrite negb_true_iff, bool_decide_eq_false, (list_elem_of_In (flat_map _ _) r), in_flat_map.
  assert (Hv : (exists nd, In nd (values t) /\ In r (children nd)) <-> exists p, child t p r); [|rewrite Hv; naive_solver].
  split.
  - intros (nd & Hin & Hr). apply in_map_iff in Hin as ([p nd'] & <- & Hin).
    exists p, nd'. split; [|by apply list_elem_of_In]. apply in_get; [apply (forest_wf _ _ Ht) | by apply list_elem_of_In].
  - intros (p & nd & Hg & Hr). exists nd. apply get_in in Hg. split; [|by apply list_elem_of_In].
    apply in_map_iff. exists (p, nd). split; [done | by apply list_elem_of_In].
Qed.

Lemma root_or_child x : x ∈ keys t -> x ∈ roots t \/ exists p, child t p x.
Proof.
  intros Hx. destruct (existsb (fun nd => bool_decide (x ∈ children nd)) (values t)) eqn:E.
  - right. apply existsb_exists in E as (nd & Hin & Hr%bool_decide_eq_true).
    apply in_map_iff in Hin as ([p nd'] & <- & Hin). exists p, nd'. split; [|done].
    apply in_get; [apply (forest_wf _ _ Ht) | by apply list_elem_of_In].
  - left. apply elem_of_roots. split; [done|]. intros p (nd & Hg & Hr).
    assert (existsb (fun nd => bool_decide (x ∈ children nd)) (values t) = true); [|congruence].
    apply existsb_exists. exists nd. split; [|by apply bool_decide_eq_true].
    apply get_in in Hg. apply in_map_iff. exists (p, nd). split; [done | by apply list_elem_of_In].
Qed.

Lemma summarized_fork_tree_spec :
  exists s, summarized_fork_tree t = Ok s /\ summary_inv [] s (fun _ => False) /\ forall r, r ∈ roots t -> r ∈ keys s.
Proof.
  destruct (calls_spec (tree_fuel t) (roots t) [] [] (fun _ => False)) as (s & E & Hs & _ & Hr).
  - intros c s Hc. apply add_to_summarized_tree_spec; [apply above_fuel| |by left]. by apply elem_of_roots in Hc as [? _].
  - split; [constructor|done|done|done].
  - by exists s.
Qed.
(** ** Stretches *)
Lemma skips_snoc n p q k : skips t n p q (S k) ->
  exists r rnd qnd, skips t n p r k /\ get t r = Some rnd /\ children rnd = [q] /\
  get t q = Some qnd /\ peers qnd = n /\ children qnd <> [].
Proof.
  revert p. induction k as [|k IH]; intros p H; inversion H as [|? c ? ? pnd cnd H1 H2 H3 H4 H5 H6]; subst.
  - inversion H6; subst. exists p, pnd, cnd. split_and!; try done. constructor.
  - destruct (IH _ H6) as (r & rnd & qnd & Hs & ?). exists r, rnd, qnd. split; [|done].
    by eapply skips_step.
Qed.

Lemma skips_peers n p q k pnd qnd : skips t n p q k -> get t p = Some pnd -> peers pnd = n ->
  get t q = Some qnd -> peers qnd = n.
Proof.
  destruct k as [|k]; intros H Hp Hn Hq; [inversion H; subst; congruence|].
  destruct (skips_snoc _ _ _ _ H) as (r & rnd & qnd' & _ & _ & _ & Hq' & Hn' & _). congruence.
Qed.

(** The end of one stretch is the start of no other entry's. *)
Lemma entry_not_inside p n e end_ k : entry p -> get t e = Some end_ -> n = peers end_ -> ~ skips t n e p (S k).
Proof.
  intros Hp He Hn H. destruct (skips_snoc _ _ _ _ H) as (r & rnd & qnd & Hr & Hrg & Hrc & Hq & Hqn & Hne).
  assert (Hc : child t r p) by (exists rnd; rewrite Hrc; split; [done | left]).
  destruct Hp as [Hroot|(e' & end' & q' & k' & He' & Hs' & Hst' & Hc')].
  - apply elem_of_roots in Hroot as [_ Hroot]. by apply (Hroot r).
  - pose proof (forest_parent _ _ Ht _ _ _ Hc Hc'). subst q'.
    assert (peers rnd = n) by (by eapply skips_peers).
    assert (peers rnd = peers end') by (by eapply skips_peers).
    apply Hne. eapply (Hst' p rnd); congruence.
Qed.

Lemma stretch_inj e1 e2 n1 n2 d1 d2 q k1 k2 :
  entry e1 -> entry e2 -> get t e1 = Some d1 -> get t e2 = Some d2 -> peers d1 = n1 -> peers d2 = n2 ->
  skips t n1 e1 q k1 -> skips t n2 e2 q k2 -> e1 = e2.
Proof.
  intros E1 E2 G1 G2 <- <-. revert q k2. induction k1 as [|k1 IH]; intros q k2 H1 H2.
  - inversion H1; subst. destruct k2 as [|k2]; [by inversion H2; subst|].
    by destruct (entry_not_inside q (peers d2) e2 d2 k2).
  - destruct k2 as [|k2]; [inversion H2; subst; by destruct (entry_not_inside q (peers d1) e1 d1 k1)|].
    destruct (skips_snoc _ _ _ _ H1) as (r & rnd & ? & Hr & Hrg & Hrc & _).
    destruct (skips_snoc _ _ _ _ H2) as (r' & rnd' & ? & Hr' & Hrg' & Hrc' & _).
    assert (r' = r) as ->.
    { apply (forest_parent _ _ Ht r' r q); [exists rnd' | exists rnd]; (split; [done|]); rewrite ?Hrc, ?Hrc'; left. }
    by apply (IH r k2).
Qed.

(** Every block is on the stretch of an entry. *)
Definition covered (s : summary) (x : string) : Prop :=
  exists e v end_ k, get s e = Some v /\ get t e = Some end_ /\ skips t (peers end_) e x k.

Lemma skips_app n p q r k1 k2 : skips t n p q k1 -> skips t n q r k2 -> skips t n p r (k1 + k2).
Proof. induction 1; intros H'; cbn; [done|]. eapply skips_step; eauto. Qed.

(** A block of a stretch that is not its end is followed by a block of the stretch. *)
Lemma stretch_next n e p q k kq : skips t n e p k -> skips t n e q kq -> stops t n q -> p <> q ->
  exists k', skips t n p q (S k').
Proof.
  intros Hk. revert kq. induction Hk as [|a c q0 k0 pnd cnd H1 H2 H3 H4 H5 Hk IH]; intros kq Hkq Hst Hne.
  - destruct kq; [by inversion Hkq; subst | eauto].
  - inversion Hkq as [|? c' ? k' pnd' cnd' H1' H2' H3' H4' H5' H6']; subst.
    + destruct H5. by eapply Hst.
    + assert (c' = c) as -> by congruence. by eapply IH.
Qed.

Lemma has_entry (s : summary) e : e ∈ keys s -> exists v, get s e = Some v.
Proof. intros H. destruct (get s e) as [v|] eqn:E; [eauto|]. by apply get_None in E. Qed.

Lemma all_covered s : summary_inv [] s (fun _ => False) -> (forall r, r ∈ roots t -> r ∈ keys s) ->
  forall x, x ∈ keys t -> covered s x.
Proof.
  intros Hs Hr x. remember (height x) as h eqn:Eh. revert x Eh.
  induction h as [h IH] using lt_wf_ind. intros x -> Hx.
  assert (Start : x ∈ keys s -> covered s x).
  { intros H. destruct (has_entry _ _ H) as [v Hv], (get_key _ Hx) as [d Hd].
    exists x, v, d, 0%nat. split_and!; try done. constructor. }
  destruct (root_or_child x Hx) as [Hroot|(p & Hc)]; [by apply Start, Hr|].
  assert (Hp : p ∈ keys t) by (destruct Hc as (nd & Hg & _); by apply get_is_key in Hg).
  destruct (IH _ (forest_height _ _ Ht _ _ Hc) p eq_refl Hp) as (e & v & d & k & Hv & Hd & Hk).
  destruct (si_entry _ _ _ Hs _ _ Hv) as [(d' & q & qnd & kq & Hd' & Hkq & Hst & Hq & ->) _].
  assert (d' = d) as -> by congruence.
  destruct (decide (p = q)) as [->|Hne].
  - apply Start. destruct Hc as (nd & Hg & Hin).
    destruct (si_closed _ _ _ Hs e _ x Hv) as [H|[[]|?]]; [|by apply elem_of_nil in H|done]. cbn. congruence.
  - destruct (stretch_next _ _ _ _ _ _ Hk Hkq Hst Hne) as [k' Hstep]. inversion Hstep as [|? c ? ? pnd cnd H1 H2 H3 H4 H5 H6]; subst.
    assert (c = x) as ->.
    { destruct Hc as (nd & Hg & Hin). assert (nd = pnd) as -> by congruence. rewrite H2 in Hin.
      by apply list_elem_of_singleton in Hin. }
    exists e, (SummaryNode (children qnd) (peers d) (Z.of_nat kq)), d, (k + 1)%nat. split_and!; try done.
    eapply skips_app; [done|]. eapply skips_step; eauto. constructor.
Qed.

(** ** Tips *)
Definition leaf (c : string) : Prop := forall x, ~ child t c x.

Lemma summarizes_tip c v : summarizes t c v -> is_tip v = true <-> leaf c.
Proof.
  intros (d & q & qnd & k & Hd & Hk & Hst & Hq & ->). unfold is_tip. cbn.
  destruct k as [|k].
  - inversion Hk; subst. assert (qnd = d) as -> by congruence. split.
    + intros E x (nd & Hg & Hin). assert (nd = d) as -> by congruence. destruct (children d); [by apply elem_of_nil in Hin | done].
    + intros Hl. destruct (children d) as [|x l] eqn:E; [done|]. destruct (Hl x). exists d. rewrite E. split; [done | left].
  - destruct (skips_snoc _ _ _ _ Hk) as (r & rnd & qnd' & _ & _ & _ & Hq' & _ & Hne).
    assert (qnd' = qnd) as -> by congruence. split; [by destruct (children qnd)|]. intros Hl. exfalso.
    inversion Hk as [|? c' ? ? pnd cnd H1 H2]; subst. apply (Hl c'). exists pnd. rewrite H2. split; [done | left].
Qed.

Lemma leaf_in_keys s p c : summary_inv [] s (fun _ => False) -> (forall r, r ∈ roots t -> r ∈ keys s) ->
  child t p c -> leaf c -> exists e v d k, get s e = Some v /\ get t e = Some d /\ skips t (peers d) e p k /\
    c ∈ s_children v /\ c ∈ keys s.
Proof.
  intros Hs Hr Hc Hl. assert (Hp : p ∈ keys t) by (destruct Hc as (nd & Hg & _); by apply get_is_key in Hg).
  destruct (all_covered s Hs Hr p Hp) as (e & v & d & k & Hv & Hd & Hk).
  destruct (si_entry _ _ _ Hs _ _ Hv) as [Hsum _].
  assert (Hstop : stops t (peers d) p).
  { intros x qnd cnd Hg Hx Hxg _. destruct Hc as (nd & Hg' & Hin). assert (nd = qnd) as -> by congruence.
    rewrite Hx in Hin. apply list_elem_of_singleton in Hin as <-.
    destruct (children cnd) as [|y l] eqn:E; [done|]. destruct (Hl y). exists cnd. rewrite E. split; [done | left]. }
  destruct Hc as (nd & Hg & Hin).
  assert (v = SummaryNode (children nd) (peers d) (Z.of_nat k)) as ->.
  { eapply summarizes_det; [done|]. exists d, p, nd, k. by split_and!. }
  exists e, (SummaryNode (children nd) (peers d) (Z.of_nat k)), d, k. split_and!; try done.
  by destruct (si_closed _ _ _ Hs e _ c Hv) as [H|[[]|?]]; [|apply elem_of_nil in H|].
Qed.
End Summary.

(** ** [has_forks] on a tree *)
Section HasForks.
Context (t : tree) (height : string -> nat) (Ht : forest t height).

Definition has_child (r : string) : bool :=
  match get t r with Some nd => (0 <? zlength (children nd))%Z | None => false end.

Lemma has_child_spec r : has_child r = true <-> exists c, child t r c.
Proof.
  unfold has_child, child. destruct (get t r) as [nd|].
  - rewrite Z.ltb_lt. unfold zlength. destruct (children nd) as [|c l] eqn:E; cbn.
    + split; [lia|]. intros (c & nd' & [= <-] & Hc). rewrite E in Hc. by apply elem_of_nil in Hc.
    + split; [|lia]. intros _. exists c, nd. rewrite E. split; [done | left].
  - split; [done | by intros (c & nd & H & _)].
Qed.

Lemma roots_with_children_eq :
  mapM (fun root => let* nd := get_item t root in Ok (root, (0 <? zlength (children nd))%Z)) (roots t)
  = Ok (map (fun r => (r, has_child r)) (roots t)).
Proof.
  rewrite <- mapM_map. apply mapM_ext_in. intros r Hr.
  assert (Hk : r ∈ keys t) by (eapply elem_of_roots; [done | by apply list_elem_of_In]).
  destruct (get_key _ _ Hk) as [nd Hg]. unfold get_item, has_child. by rewrite Hg.
Qed.

(** A block that has a parent is above a root with children. *)
Lemma root_below p c : child t p c -> exists r, r ∈ roots t /\ has_child r = true.
Proof.
  remember (height p) as h eqn:Eh. revert p c Eh. induction h as [h IH] using lt_wf_ind. intros p c -> Hc.
  assert (Hp : p ∈ keys t) by (destruct Hc as (nd & Hg & _); by apply get_is_key in Hg).
  destruct (root_or_child t height Ht p Hp) as [Hr|(p' & Hp')].
  - exists p. split; [done|]. apply has_child_spec. eauto.
  - by eapply (IH (height p')); [apply (forest_height _ _ Ht)| |].
Qed.

(** Two blocks have a tip for child. *)
Definition two_tip_parents : Prop := exists p1 p2 c1 c2, p1 <> p2 /\ child t p1 c1 /\ child t p2 c2 /\ leaf t c1 /\ leaf t c2.

Definition tips_of (s : summary) : list string := map fst (List.filter (fun '(_, v) => is_tip v) s).

Definition tip_parents_of (s : summary) : summary :=
  List.filter (fun '(_, v) => existsb (fun c => bool_decide (c ∈ tips_of s)) (s_children v)) s.

Lemma elem_of_tips s c : summary_inv t [] s (fun _ => False) -> c ∈ tips_of s <-> c ∈ keys s /\ leaf t c.
Proof.
  intros Hs. unfold tips_of. split.
  - intros H. apply list_elem_of_fmap in H as ([k v] & -> & H). apply elem_of_filter_bool in H as [Hin Htip].
    pose proof (in_get _ _ _ (si_wf _ _ _ _ Hs) Hin) as Hg. destruct (si_entry _ _ _ _ Hs _ _ Hg) as [Hsum _].
    split; [by apply get_is_key in Hg | by apply (summarizes_tip t k v)].
  - intros [Hk Hl]. destruct (has_entry _ _ Hk) as [v Hv]. destruct (si_entry _ _ _ _ Hs _ _ Hv) as [Hsum _].
    apply list_elem_of_fmap. exists (c, v). split; [done|]. apply elem_of_filter_bool.
    split; [by apply get_in | by apply (summarizes_tip t c v)].
Qed.

Lemma elem_of_tip_parents s e v : summary_inv t [] s (fun _ => False) ->
  (e, v) ∈ tip_parents_of s <-> get s e = Some v /\ exists c, c ∈ s_children v /\ c ∈ keys s /\ leaf t c.
Proof.
  intros Hs. unfold tip_parents_of. rewrite elem_of_filter_bool, existsb_exists. split.
  - intros [Hin (c & Hc & Hd%bool_decide_eq_true)]. split; [by apply in_get; [apply (si_wf _ _ _ _ Hs)|]|].
    apply elem_of_tips in Hd; [|done]. exists c. by rewrite list_elem_of_In.
  - intros [Hg (c & Hc & Hd)]. split; [by apply get_in|]. exists c. split; [by apply list_elem_of_In|].
    by apply bool_decide_eq_true, elem_of_tips.
Qed.

Lemma tip_parents_spec s : summary_inv t [] s (fun _ => False) -> (forall r, r ∈ roots t -> r ∈ keys s) ->
  (1 <? zlength (tip_parents_of s))%Z = true <-> two_tip_parents.
Proof.
  intros Hs Hr. rewrite two_elements by apply NoDup_filter_bool, wf_NoDup, (si_wf _ _ _ _ Hs). split.
  - intros ([e1 v1] & [e2 v2] & H1 & H2 & Hne).
    apply elem_of_tip_parents in H1 as (G1 & c1 & Hc1 & _ & L1); [|done].
    apply elem_of_tip_parents in H2 as (G2 & c2 & Hc2 & _ & L2); [|done].
    destruct (si_entry _ _ _ _ Hs _ _ G1) as [(d1 & q1 & qd1 & k1 & D1 & K1 & _ & Q1 & ->) E1].
    destruct (si_entry _ _ _ _ Hs _ _ G2) as [(d2 & q2 & qd2 & k2 & D2 & K2 & _ & Q2 & ->) E2].
    exists q1, q2, c1, c2. split_and!; [|by exists qd1|by exists qd2|done|done].
    intros ->. assert (e1 = e2) as -> by by eapply (stretch_inj t height Ht). congruence.
  - intros (p1 & p2 & c1 & c2 & Hne & H1 & H2 & L1 & L2).
    destruct (leaf_in_keys t height Ht s p1 c1 Hs Hr H1 L1) as (e1 & v1 & d1 & k1 & G1 & D1 & K1 & C1 & I1).
    destruct (leaf_in_keys t height Ht s p2 c2 Hs Hr H2 L2) as (e2 & v2 & d2 & k2 & G2 & D2 & K2 & C2 & I2).
    exists (e1, v1), (e2, v2). rewrite !elem_of_tip_parents by done.
    split_and!; [done|by exists c1|done|by exists c2|]. intros [= -> ->].
    apply Hne.
    destruct (si_entry _ _ _ _ Hs _ _ G2) as [(d & q & qd & k & D & K & St & Q & ->) _]. cbn in C1, C2.
    assert (q = p1) as -> by (apply (forest_parent _ _ Ht _ _ c1); [by exists qd | done]).
    apply (forest_parent _ _ Ht _ _ c2); [by exists qd | done].
Qed.

Lemma has_forks_tree s : summary_inv t [] s (fun _ => False) -> (forall r, r ∈ roots t -> r ∈ keys s) ->
  exists b, has_forks t s = Ok b /\
    (b = true <-> (exists r1 r2 c1 c2, r1 <> r2 /\ r1 ∈ roots t /\ r2 ∈ roots t /\ child t r1 c1 /\ child t r2 c2)
                  \/ two_tip_parents).
Proof.
  intros Hs Hr. unfold has_forks. rewrite roots_with_children_eq. cbn [bind]. rewrite filter_snd.
  fold (tips_of s). fold (tip_parents_of s). set (rs := List.filter has_child (roots t)).
  assert (Hn : NoDup rs) by apply NoDup_filter_bool, NoDup_filter_bool, (forest_wf _ _ Ht).
  assert (Hrs : forall r, r ∈ rs <-> r ∈ roots t /\ exists c, child t r c)
    by (intros r; unfold rs; by rewrite elem_of_filter_bool, has_child_spec).
  assert (H2 : (1 <? zlength rs)%Z = true <->
    exists r1 r2 c1 c2, r1 <> r2 /\ r1 ∈ roots t /\ r2 ∈ roots t /\ child t r1 c1 /\ child t r2 c2).
  { rewrite two_elements by done. split.
    - intros (x & y & [Hx [c1 C1]]%Hrs & [Hy [c2 C2]]%Hrs & Hne). by exists x, y, c1, c2.
    - intros (x & y & c1 & c2 & Hne & Hx & Hy & C1 & C2). exists x, y. rewrite !Hrs. eauto 10. }
  destruct (1 <? zlength rs)%Z eqn:E; [exists true; split; [done|]; split; [left; by apply H2 | done]|].
  destruct (zlength rs =? 0)%Z eqn:E0.
  - exists false. split; [done|]. split; [done|]. intros [H|(p & _ & c & _ & _ & H & _)]; [by apply H2|].
    destruct (root_below p c H) as (r & Hin & Hc). apply has_child_spec in Hc. exfalso.
    assert (Hin' : r ∈ rs) by by apply Hrs. apply Z.eqb_eq in E0. unfold zlength in E0.
    destruct rs; [by apply elem_of_nil in Hin' | cbn in E0; lia].
  - exists (1 <? zlength (tip_parents_of s))%Z. split; [done|]. rewrite tip_parents_spec by done.
    split; [by right|]. intros [H|H]; [by apply H2 in H | done].
Qed.
End HasForks.

(** ** The properties *)
Lemma blockchain_forest chains parent height : blockchain chains parent height -> forest (fork_tree chains) height.
Proof.
  intros Hb. split.
  - apply (built_wf _ _ (fork_tree_built chains)).
  - intros p c H%child_fork_tree. apply keys_fork_tree. destruct H as (ch & l1 & l2 & Hch & ->).
    exists (l1 ++ p :: c :: l2)%list. split; [done|]. rewrite elem_of_app, !elem_of_cons. auto.
  - intros p c H%child_fork_tree. destruct (Hb _ _ H). lia.
  - intros p q c H1%child_fork_tree H2%child_fork_tree. destruct (Hb _ _ H1), (Hb _ _ H2). congruence.
Qed.

(** [b] is the one block that follows [a], is in as many chains as the block [e] of the
    entry, and is not a last block: the summary steps over it. *)
Definition agreed (chains : list (list string)) (e a b : string) : Prop :=
  follows chains a b /\ (forall c, follows chains a c -> c = b) /\
  mentions chains b = mentions chains e /\ exists c, follows chains b c.

Inductive agreed_path (chains : list (list string)) (e : string) : string -> list string -> string -> Prop :=
| agreed_here q : agreed_path chains e q [] q
| agreed_step a b l q : agreed chains e a b -> agreed_path chains e b l q -> agreed_path chains e a (b :: l) q.

(** The entry of [e]: [path] is the longest stretch of agreed blocks from [e], it ends
    in [q], and the children are the blocks that follow [q]. *)
Definition entry_spec (chains : list (list string)) (e : string) (v : summary_node) : Prop :=
  s_peers v = mentions chains e /\ NoDup (s_children v) /\
  exists (path : list string) (q : string),
    intermediate_nodes v = zlength path /\ agreed_path chains e e path q /\
    (forall b, ~ agreed chains e q b) /\ (forall c, c ∈ s_children v <-> follows chains q c).

Section OnChains.
Context (chains : list (list string)).
Notation t := (fork_tree chains).

Lemma only_child p nd c : get t p = Some nd ->
  children nd = [c] <-> follows chains p c /\ forall x, follows chains p x -> x = c.
Proof.
  intros Hg. split.
  - intros E. split; [apply child_fork_tree; exists nd; rewrite E; split; [done | left]|].
    intros x (nd' & Hg' & Hin)%child_fork_tree. assert (nd' = nd) as -> by congruence. rewrite E in Hin.
    by apply list_elem_of_singleton in Hin.
  - intros [(nd' & Hg' & Hin)%child_fork_tree Hu]. assert (nd' = nd) as -> by congruence.
    pose proof (built_nodup _ _ (fork_tree_built chains) _ _ Hg) as Hn.
    assert (Hall : forall x, x ∈ children nd -> x = c) by (intros x Hx; apply Hu, child_fork_tree; by exists nd).
    destruct (children nd) as [|x [|y l]]; [by apply elem_of_nil in Hin| |].
    + by rewrite (Hall x) by left.
    + exfalso. apply NoDup_cons in Hn as [Hn _]. apply Hn. rewrite (Hall x), (Hall y) by (try (right; left); left). left.
Qed.

Lemma has_followers c nd : get t c = Some nd -> children nd <> [] <-> exists x, follows chains c x.
Proof.
  intros Hg. split.
  - intros H. destruct (children nd) as [|x l] eqn:E; [done|]. exists x. apply child_fork_tree. exists nd. rewrite E. split; [done | left].
  - intros (x & (nd' & Hg' & Hin)%child_fork_tree) E. assert (nd' = nd) as -> by congruence.
    rewrite E in Hin. by apply elem_of_nil in Hin.
Qed.

Lemma skips_agreed e n p q k : n = mentions chains e -> skips t n p q k ->
  exists path, agreed_path chains e p path q /\ zlength path = Z.of_nat k.
Proof.
  intros -> H. remember (mentions chains e) as n eqn:En. induction H as [p|p c q k pnd cnd H1 H2 H3 H4 H5 H IH].
  - exists []. split; [constructor | done].
  - destruct IH as (path & Hp & Hl). exists (c :: path). split; [|unfold zlength in *; cbn; lia].
    apply agreed_step; [|done]. apply (only_child p pnd) in H2 as [Hf Hu]; [|done]. apply (has_followers c cnd) in H5; [|done].
    split_and!; try done. rewrite <- (peers_fork_tree _ _ _ H3). congruence.
Qed.

Lemma stops_agreed e n q : n = mentions chains e -> q ∈ keys t -> stops t n q -> forall b, ~ agreed chains e q b.
Proof.
  intros -> Hq Hst b (Hf & Hu & Hm & Hl). destruct (get_key _ _ Hq) as [qnd Hqg].
  assert (Hb : b ∈ keys t).
  { apply keys_fork_tree. destruct Hf as (ch & l1 & l2 & Hch & ->). eexists. split; [exact Hch|].
    rewrite elem_of_app, !elem_of_cons. auto. }
  destruct (get_key _ _ Hb) as [bnd Hbg]. apply (has_followers b bnd) in Hl; [|done]. apply Hl.
  eapply (Hst b qnd); [done| by apply (only_child q qnd) |done|]. by rewrite (peers_fork_tree _ _ _ Hbg).
Qed.

Lemma summarizes_entry_spec e v : summarizes t e v -> entry_spec chains e v.
Proof.
  intros (d & q & qnd & k & Hd & Hk & Hst & Hq & ->).
  assert (Hn : peers d = mentions chains e) by by apply peers_fork_tree.
  destruct (skips_agreed e _ _ _ _ Hn Hk) as (path & Hp & Hl).
  split; [done|]. split; [by apply (built_nodup _ _ (fork_tree_built chains) _ _ Hq)|].
  exists path, q. split_and!; [done|done| |].
  - apply (stops_agreed e (peers d)); [done|by apply get_is_key in Hq|done].
  - intros c. rewrite <- child_fork_tree. cbn. split; [intros H; by exists qnd|].
    intros (nd & Hg & Hin). assert (nd = qnd) as -> by congruence. done.
Qed.

Lemma leaf_last c : c ∈ keys t -> leaf t c <-> last_block chains c.
Proof.
  unfold leaf, last_block. rewrite keys_fork_tree. setoid_rewrite child_fork_tree. tauto.
Qed.

Lemma root_first r : r ∈ roots t <-> first_block chains r.
Proof.
  unfold roots. rewrite elem_of_filter_bool, negb_true_iff, bool_decide_eq_false, keys_fork_tree.
  assert (E : r ∈ flat_map children (values t) <-> exists a, follows chains a r); [|unfold first_block; naive_solver].
  rewrite list_elem_of_In, in_flat_map. setoid_rewrite <- child_fork_tree. split.
  - intros (nd & ([p nd'] & <- & Hin)%in_map_iff & Hr). exists p, nd'. split; [|by apply list_elem_of_In].
    apply in_get; [apply (built_wf _ _ (fork_tree_built chains)) | by apply list_elem_of_In].
  - intros (p & nd & Hg & Hr). exists nd. apply get_in in Hg. split; [|by apply list_elem_of_In].
    apply in_map_iff. exists (p, nd). split; [done | by apply list_elem_of_In].
Qed.

Lemma child_known p c : child t p c -> c ∈ keys t.
Proof.
  intros (ch & l1 & l2 & Hch & ->)%child_fork_tree. apply keys_fork_tree. eexists. split; [exact Hch|].
  rewrite elem_of_app, !elem_of_cons. auto.
Qed.
End OnChains.

(** C11: The block tree of a network report: overlaying the best chains of the peers, which are
    paths of one blockchain, and contracting what the peers agree on always ends with a summary
    that has an entry for every first block and for every child of an entry, and for nothing
    else but known blocks; the entry of a block counts the peers that report it, and its
    children are exactly the blocks that follow the end of the longest stretch of only
    followers, reported by as many peers and not tips, whose length it records. *)
Theorem block_tree_summary chains parent height :
  blockchain chains parent height ->
  exists s, summarized_fork_tree (fork_tree chains) = Ok s /\
    (forall r, first_block chains r -> r ∈ keys s) /\
    (forall e v, get s e = Some v ->
       known chains e /\ entry_spec chains e v /\ forall c, c ∈ s_children v -> c ∈ keys s).
Proof.
  intros Hb. pose proof (blockchain_forest _ _ _ Hb) as Ht.
  destruct (summarized_fork_tree_spec _ _ Ht) as (s & E & Hs & Hr). exists s. split_and!; [done| |].
  - intros r H. by apply Hr, root_first.
  - intros e v Hv. destruct (si_entry _ _ _ _ Hs _ _ Hv) as [Hsum _]. split_and!.
    + destruct Hsum as (d & _ & _ & _ & Hd & _). apply get_is_key in Hd. by apply keys_fork_tree.
    + by apply summarizes_entry_spec.
    + intros c Hc. by destruct (si_closed _ _ _ _ Hs _ _ _ Hv Hc) as [H|[[]|?]]; [apply elem_of_nil in H|].
Qed.

(** C3: The fork alarm is exact: on best chains that are paths of one blockchain, [has_forks]
    of the contracted tree answers, and it answers [True] exactly when two different first
    blocks both have successors (a fork longer than the window of blocks the peers report) or
    two different blocks are each followed by a tip (a fork longer than one block). *)
Theorem has_forks_exact chains parent height :
  blockchain chains parent height ->
  exists s b, summarized_fork_tree (fork_tree chains) = Ok s /\ has_forks (fork_tree chains) s = Ok b /\
    (b = true <->
     (exists r1 r2 c1 c2, r1 <> r2 /\ first_block chains r1 /\ first_block chains r2 /\
        follows chains r1 c1 /\ follows chains r2 c2) \/
     (exists p1 p2 c1 c2, p1 <> p2 /\ follows chains p1 c1 /\ follows chains p2 c2 /\
        last_block chains c1 /\ last_block chains c2)).
Proof.
  intros Hb. pose proof (blockchain_forest _ _ _ Hb) as Ht.
  destruct (summarized_fork_tree_spec _ _ Ht) as (s & E & Hs & Hr).
  destruct (has_forks_tree _ _ Ht s Hs Hr) as (b & Eb & Hspec). exists s, b. split_and!; [done|done|].
  rewrite Hspec. unfold two_tip_parents. setoid_rewrite root_first. setoid_rewrite <- (child_fork_tree chains).
  split; (intros [H|(p1 & p2 & c1 & c2 & Hne & H1 & H2 & L1 & L2)]; [by left|]; right; exists p1, p2, c1, c2;
    apply leaf_last in L1; [|by eapply child_known]; apply leaf_last in L2; [|by eapply child_known]; by split_and!).
Qed.

(** Three peers: two agree up to [b] and then disagree for two blocks. *)
Definition forked : list (list string) := [["r"; "a"; "b"; "c1"; "c2"]; ["r"; "a"; "b"; "d1"; "d2"]; ["r"; "a"; "b"; "c1"]].

Definition forked_parent (b : string) : string :=
  match b with "a" => "r" | "b" => "a" | "c1" => "b" | "d1" => "b" | "c2" => "c1" | "d2" => "d1" | _ => "" end.

Definition forked_height (b : string) : nat :=
  match b with "a" => 1 | "b" => 2 | "c1" => 3 | "d1" => 3 | "c2" => 4 | "d2" => 4 | _ => 0 end.

Lemma forked_blockchain : blockchain forked forked_parent forked_height.
Proof.
  intros a b (nd & Hg & Hc)%child_fork_tree. apply get_in in Hg. unfold forked in Hg. vm_compute in Hg.
  repeat (apply elem_of_cons in Hg as [[= -> ->]|Hg];
    [cbn in Hc; repeat (apply elem_of_cons in Hc as [->|Hc]; [by split|]); by apply elem_of_nil in Hc|]).
  by apply elem_of_nil in Hg.
Defined.

Lemma block_tree_summary_witness :
  exists s, summarized_fork_tree (fork_tree forked) = Ok s /\
    (forall r, first_block forked r -> r ∈ keys s) /\
    (forall e v, get s e = Some v ->
       known forked e /\ entry_spec forked e v /\ forall c, c ∈ s_children v -> c ∈ keys s).
Proof. apply (block_tree_summary forked forked_parent forked_height), forked_blockchain. Defined.

Lemma has_forks_exact_witness :
  (let* s := summarized_fork_tree (fork_tree forked) in has_forks (fork_tree forked) s) = Ok true /\
  exists s b, summarized_fork_tree (fork_tree forked) = Ok s /\ has_forks (fork_tree forked) s = Ok b /\
    (b = true <->
     (exists r1 r2 c1 c2, r1 <> r2 /\ first_block forked r1 /\ first_block forked r2 /\
        follows forked r1 c1 /\ follows forked r2 c2) \/
     (exists p1 p2 c1 c2, p1 <> p2 /\ follows forked p1 c1 /\ follows forked p2 c2 /\
        last_block forked c1 /\ last_block forked c2)).
Proof. split; [vm_compute; reflexivity | apply (has_forks_exact forked forked_parent forked_height), forked_blockchain]. Defined.
