(* ===== verification/PodExec.v ===== *)
(** * Commands on pods, [watchdog/util.py] and [exec_on_seed] of [watchdog/make_report.py]

    Kubernetes does not stream large outputs reliably: the output of a command goes
    to a file of the pod and comes back in segments.  Running a shell command in the
    container is a parameter; [ShellRuns] states what the shell does with the
    commands the code sends, for ASCII outputs. *)

From stdpp Require Import base list strings.
From Stdlib Require Import Ascii ZArith Lia.
From S2P Require Import Prelude Dict PyStr Effects.
Open Scope string_scope.

Definition dquote : string := String "034"%char EmptyString.

(** [math.ceil(a / b)] *)
Definition ceil_div (a b : Z) : Z := (- (- a / b))%Z.

Definition chunk_size : Z := 20000000.

Definition redirect (command tmp_file : string) : string := command +:+ " &> " +:+ tmp_file.
Definition stat_command (tmp_file : string) : string :=
  "stat --printf=" +:+ dquote +:+ "%s" +:+ dquote +:+ " " +:+ tmp_file.
Definition segment_command (tmp_file : string) (start size : Z) : string :=
  "cat " +:+ tmp_file +:+ " | head -c " +:+ py_str (start + size) +:+ " | tail -c " +:+ py_str size.
Definition rm_command (tmp_file : string) : string := "rm " +:+ tmp_file.

Section Exec.
Context {W : Type} (exec_cmd : string -> Z -> M W string) (uuid4 : M W string).

Definition read_segment (tmp_file : string) (start size : Z) : M W string :=
  exec_cmd (segment_command tmp_file start size) 240.

Definition read_chunk (tmp_file : string) (file_len i : Z) : M W string :=
  read_segment tmp_file (i * chunk_size) (Z.min ((i + 1) * chunk_size) file_len - i * chunk_size).

(** The result and whether the warning about its length is printed. *)
Definition exec_on_pod (command : string) (request_timeout_seconds : Z) : M W (string * bool) :=
  do id <- uuid4 in
  let tmp_file := "/tmp/cns_command." +:+ id +:+ ".out" in
  perform exec_cmd (redirect command tmp_file) request_timeout_seconds then
  do out <- exec_cmd (stat_command tmp_file) 10 in
  do file_len <- lift (py_int out) in
  let num_chunks := ceil_div file_len chunk_size in
  do chunks <- map_each (read_chunk tmp_file file_len) (range 0 num_chunks) in
  let result := join "" chunks in
  perform exec_cmd (rm_command tmp_file) 10 then
  ret (result, negb (file_len =? Z.of_nat (String.length result))%Z).

(** The same in [make_report.py], without the warning. *)
Definition exec_on_seed (command : string) : M W string :=
  do (result, _) <- exec_on_pod command 600 in ret result.

(** [run_periodically]: a turn of its endless loop, [seconds_between] later. The error
    counter counts the exceptions of [fn], which end here. *)
Definition run_periodically_turn (fn : M W unit) (inc : W -> W) (sleep : W -> W) : M W unit :=
  perform try_except fn (fun _ => Some (modify inc)) then modify sleep.

Fixpoint run_periodically (turns : nat) (fn : M W unit) (inc sleep : W -> W) : M W unit :=
  match turns with
  | O => ret tt
  | S n => perform run_periodically_turn fn inc sleep then run_periodically n fn inc sleep
  end.
End Exec.

(** ** What the shell does *)
Fixpoint is_ascii (s : string) : bool :=
  match s with
  | EmptyString => true
  | String a s' => (nat_of_ascii a <? 128)%nat && is_ascii s'
  end.

Class ShellRuns {W} (exec_cmd : string -> Z -> M W string) (file : W -> string -> option string)
  (command : string) (output : W -> string) := {
  shell_redirect w f t : no_char " " f = true ->
    exists r w', exec_cmd (redirect command f) t w = (w', Ok r) /\ file w' f = Some (output w);
  shell_stat w f c t : no_char " " f = true -> file w f = Some c ->
    exec_cmd (stat_command f) t w = (w, Ok (py_str (Z.of_nat (String.length c))));
  shell_segment w f c t start size : no_char " " f = true -> file w f = Some c -> is_ascii c = true ->
    (0 <= start)%Z -> (0 <= size)%Z ->
    exec_cmd (segment_command f start size) t w
    = (w, Ok (last_str (Z.to_nat size) (take_str (Z.to_nat (start + size)) c)));
  shell_rm w f c t : no_char " " f = true -> file w f = Some c ->
    exists r w', exec_cmd (rm_command f) t w = (w', Ok r) /\ file w' f = None
}.

(** ** Segments *)
Lemma substring_all s : String.substring 0 (String.length s) s = s.
Proof. induction s as [|a s IH]; [done|]. cbn. by rewrite IH. Qed.

Lemma substring_length n m s : (n + m <= String.length s)%nat -> String.length (String.substring n m s) = m.
Proof.
  revert n m. induction s as [|a s IH]; intros [|n] [|m] H; cbn in *; try lia.
  - rewrite IH; cbn; lia.
  - rewrite IH; lia.
  - rewrite IH; lia.
Qed.

Lemma substring_concat n m k s : (n + m + k <= String.length s)%nat ->
  String.substring n m s +:+ String.substring (n + m) k s = String.substring n (m + k) s.
Proof.
  revert n m k. induction s as [|a s IH]; intros [|n] [|m] k H; cbn in *; try done; try lia.
  - rewrite app_cons_str. f_equal. apply (IH 0%nat m k). lia.
  - apply (IH n 0%nat k). lia.
  - apply (IH n (S m) k). lia.
Qed.

Lemma substring_substring n m s : (n + m <= String.length s)%nat ->
  String.substring n m (String.substring 0 (n + m) s) = String.substring n m s.
Proof.
  revert n m. induction s as [|a s IH]; intros [|n] [|m] H; cbn in *; try done; try lia.
  - f_equal. apply (IH 0%nat m). lia.
  - apply (IH n 0%nat). lia.
  - apply (IH n (S m)). lia.
Qed.

(** The last [size] characters of the first [start + size]. *)
Lemma segment_substring start size s : (start + size <= String.length s)%nat ->
  last_str size (take_str (start + size) s) = String.substring start size s.
Proof.
  intros H. unfold last_str, drop_str, take_str. rewrite substring_length by lia.
  replace (start + size - size)%nat with start by lia.
  replace (start + size - start)%nat with size by lia. by apply substring_substring.
Qed.

Lemma join_empty_app x l : join "" (l ++ [x]) = join "" l +:+ x.
Proof.
  induction l as [|y [|z l] IH]; [done|done|]. cbn [app join] in *. rewrite IH. by rewrite app_assoc_str.
Qed.

(** ** Reading a file back *)
Section Correct.
Context {W : Type} (exec_cmd : string -> Z -> M W string) (file : W -> string -> option string)
  (command : string) (output : W -> string) {Hsh : ShellRuns exec_cmd file command output}.

Lemma map_each_pure {A B} (f : A -> M W B) (g : A -> B) l w :
  (forall x, x ∈ l -> f x w = (w, Ok (g x))) -> map_each f l w = (w, Ok (map g l)).
Proof.
  induction l as [|x l IH]; intros H; cbn [map_each map]; [done|].
  unfold bindM at 1. rewrite H by left. unfold bindM. rewrite IH; [done|]. intros y Hy. apply H. by right.
Qed.

(** What the shell answers for chunk [i]. *)
Definition chunk (c : string) (i : Z) : string :=
  let len := Z.of_nat (String.length c) in
  String.substring (Z.to_nat (i * chunk_size)) (Z.to_nat (Z.min ((i + 1) * chunk_size) len - i * chunk_size)) c.

Lemma join_chunks c (n : nat) :
  (Z.of_nat n * chunk_size < Z.of_nat (String.length c) + chunk_size)%Z ->
  join "" (map (chunk c) (range 0 (Z.of_nat n)))
  = String.substring 0 (Z.to_nat (Z.min (Z.of_nat n * chunk_size) (Z.of_nat (String.length c)))) c.
Proof.
  induction n as [|n IH]; intros H.
  - rewrite range_empty by lia. cbn [map join]. unfold chunk_size. replace (Z.to_nat _) with 0%nat by lia. by destruct c.
  - replace (Z.of_nat (S n)) with (Z.of_nat n + 1)%Z in * by lia.
    assert (Hn : (Z.of_nat n * chunk_size < Z.of_nat (String.length c))%Z) by lia.
    rewrite range_S, map_app by lia. cbn [map]. rewrite join_empty_app, IH by (unfold chunk_size in *; lia). unfold chunk.
    rewrite (Z.min_l (Z.of_nat n * chunk_size)) by lia.
    set (a := Z.to_nat (Z.of_nat n * chunk_size)).
    set (b := Z.to_nat (Z.min ((Z.of_nat n + 1) * chunk_size) (Z.of_nat (String.length c)) - Z.of_nat n * chunk_size)).
    assert (Hab : (a + b)%nat = Z.to_nat (Z.min ((Z.of_nat n + 1) * chunk_size) (Z.of_nat (String.length c)))).
    { unfold a, b, chunk_size in *. lia. }
    rewrite <- Hab. apply (substring_concat 0 a b). lia.
Qed.

Lemma ceil_div_bounds len : (0 <= len)%Z ->
  (0 <= ceil_div len chunk_size /\ len <= ceil_div len chunk_size * chunk_size < len + chunk_size)%Z.
Proof.
  intros H. unfold ceil_div. pose proof (Z.div_mod (- len) chunk_size ltac:(done)) as E.
  pose proof (Z.mod_pos_bound (- len) chunk_size ltac:(done)) as B. unfold chunk_size in *. lia.
Qed.

Lemma all_chunks c :
  join "" (map (chunk c) (range 0 (ceil_div (Z.of_nat (String.length c)) chunk_size))) = c.
Proof.
  destruct (ceil_div_bounds (Z.of_nat (String.length c))) as [H0 [H1 H2]]; [lia|].
  rewrite <- (Z2Nat.id (ceil_div _ _)) by done. rewrite join_chunks by (rewrite Z2Nat.id by done; lia).
  rewrite Z2Nat.id by done. rewrite Z.min_r by lia. rewrite Nat2Z.id. apply substring_all.
Qed.

Lemma read_chunk_spec w f c i : no_char " " f = true -> file w f = Some c -> is_ascii c = true ->
  i ∈ range 0 (ceil_div (Z.of_nat (String.length c)) chunk_size) ->
  read_chunk exec_cmd f (Z.of_nat (String.length c)) i w = (w, Ok (chunk c i)).
Proof.
  intros Hf Hc Ha Hi. apply list_elem_of_In, in_range in Hi.
  destruct (ceil_div_bounds (Z.of_nat (String.length c))) as [H0 [H1 H2]]; [lia|].
  unfold read_chunk, read_segment. rewrite (shell_segment w f c) by (try done; unfold chunk_size in *; lia).
  f_equal. f_equal. unfold chunk. rewrite Z2Nat.inj_add by (unfold chunk_size in *; lia).
  apply segment_substring. unfold chunk_size in *. lia.
Qed.
End Correct.

(** C14: [exec_on_pod] (and [exec_on_seed] of the report) returns exactly the output of the
    command, whatever its length: cutting the file of the output into segments of 20 MB, reading
    each with [head] and [tail] and joining them loses, repeats and reorders nothing, the length
    check never warns, and the file is removed from the pod at the end. *)
Theorem exec_on_pod_output {W} (exec_cmd : string -> Z -> M W string) (uuid4 : M W string) file command output
  {Hsh : ShellRuns exec_cmd file command output} w w1 id timeout :
  uuid4 w = (w1, Ok id) -> no_char " " id = true -> is_ascii (output w1) = true ->
  exists w', exec_on_pod exec_cmd uuid4 command timeout w = (w', Ok (output w1, false)) /\
    file w' ("/tmp/cns_command." +:+ id +:+ ".out") = None.
Proof.
  intros Hid Hsp Ha. unfold exec_on_pod. unfold bindM at 1. rewrite Hid.
  set (tmp := "/tmp/cns_command." +:+ id +:+ ".out").
  assert (Ht : no_char " " tmp = true).
  { unfold tmp. by rewrite !no_char_app, Hsp. }
  destruct (shell_redirect w1 tmp timeout Ht) as (r & w2 & E & Hfile).
  unfold bindM at 1. rewrite E. unfold bindM at 1. rewrite (shell_stat w2 tmp (output w1) 10 Ht Hfile).
  unfold bindM at 1, lift. rewrite py_int_py_str by lia. unfold bindM at 1.
  rewrite (map_each_pure _ (chunk (output w1))) by (intros i; by apply (read_chunk_spec exec_cmd file command output)).
  rewrite all_chunks. destruct (shell_rm w2 tmp (output w1) 10 Ht Hfile) as (r' & w3 & E' & Hrm).
  unfold bindM at 1. rewrite E'. exists w3. unfold ret. by rewrite Z.eqb_refl.
Qed.

(** ** A pod that runs [date] *)
Definition pod_files : Type := dict string string.

Definition word_args (cmd : string) : list string := split " " cmd.

Definition toy_exec (cmd : string) (timeout : Z) : M pod_files string := fun w =>
  match word_args cmd with
  | ["date"; "&>"; f] => (set f "Mon Jan  1 00:00:00 UTC 2024" w, Ok "")
  | ["stat"; _; f] =>
      match get w f with
      | Some c => (w, Ok (py_str (Z.of_nat (String.length c))))
      | None => (w, Ok "stat: cannot stat")
      end
  | ["cat"; f; "|"; "head"; "-c"; n; "|"; "tail"; "-c"; k] =>
      match get w f, py_int n, py_int k with
      | Some c, Ok n, Ok k => (w, Ok (last_str (Z.to_nat k) (take_str (Z.to_nat n) c)))
      | _, _, _ => (w, Ok "error")
      end
  | ["rm"; f] => (List.filter (fun e => negb (String.eqb (fst e) f)) w, Ok "")
  | _ => (w, Ok "command not found")
  end.

Lemma get_filter_out (w : pod_files) f : get (List.filter (fun e => negb (String.eqb (fst e) f)) w) f = None.
Proof.
  induction w as [|[k v] w IH]; [done|]. cbn. destruct (String.eqb_spec k f) as [->|]; cbn; [done|].
  by rewrite decide_False by congruence.
Qed.

#[export] Instance toy_shell : ShellRuns toy_exec (fun w f => get w f) "date" (fun _ => "Mon Jan  1 00:00:00 UTC 2024").
Proof.
  split.
  - intros w f t Hf. exists "", (set f "Mon Jan  1 00:00:00 UTC 2024" w). split; [|apply get_set_eq].
    unfold toy_exec, word_args, redirect. change ("date" +:+ " &> " +:+ f) with ("date" +:+ String " " ("&>" +:+ String " " f)).
    rewrite !split_app by done. by rewrite split_no_char.
  - intros w f c t Hf Hc. unfold toy_exec, word_args, stat_command.
    change ("stat --printf=" +:+ dquote +:+ "%s" +:+ dquote +:+ " " +:+ f)
      with ("stat" +:+ String " " (("--printf=" +:+ dquote +:+ "%s" +:+ dquote) +:+ String " " f)).
    rewrite !split_app by done. rewrite split_no_char by done. by rewrite Hc.
  - intros w f c t start size Hf Hc _ Hs Hz. unfold toy_exec, word_args, segment_command.
    assert (Hsp : forall z, (0 <= z)%Z -> no_char " " (py_str z) = true) by (intros; by apply py_str_no_char).
    assert (E : "cat " +:+ f +:+ " | head -c " +:+ py_str (start + size) +:+ " | tail -c " +:+ py_str size
      = "cat" +:+ String " " (f +:+ String " " ("|" +:+ String " " ("head" +:+ String " " ("-c" +:+ String " "
          (py_str (start + size) +:+ String " " ("|" +:+ String " " ("tail" +:+ String " " ("-c" +:+ String " " (py_str size)))))))))) by done.
    rewrite E, !split_app by (try done; apply Hsp; lia). rewrite split_no_char by by apply Hsp.
    by rewrite Hc, !py_int_py_str by lia.
  - intros w f c t Hf Hc. unfold toy_exec, word_args, rm_command.
    change ("rm " +:+ f) with ("rm" +:+ String " " f). rewrite split_app, split_no_char by done.
    exists "", (List.filter (fun e => negb (String.eqb (fst e) f)) w). split; [done | apply get_filter_out].
Defined.

Lemma exec_on_pod_output_witness :
  exists w', exec_on_pod toy_exec (ret "1b9d") "date" 600 [] = (w', Ok ("Mon Jan  1 00:00:00 UTC 2024", false)) /\
    get w' "/tmp/cns_command.1b9d.out" = None.
Proof.
  apply (exec_on_pod_output toy_exec (ret "1b9d") (fun w f => get w f) "date" (fun _ => "Mon Jan  1 00:00:00 UTC 2024") [] [] "1b9d" 600); reflexivity.
Defined.
