(* ===== verification/MakeReport.v ===== *)
(** * The network report, [watchdog/make_report.py]

    The pods, the commands run on them, the clock, Python's literal and float parsers,
    [json.dumps] of a table of peers, numpy's percentiles and the text of a float or a
    traceback are parameters; times and ratios are rational numbers.  The world is what
    the script leaves behind: its two globals, the reports in its directory, the drawing
    of the block tree and the messages posted to Discord. *)

From stdpp Require Import base list strings.
From Stdlib Require Import Ascii ZArith Lia QArith.
From S2P Require Import Prelude Dict Counter PyStr PySet Csv Effects NodeStatus ForkTree.
Open Scope string_scope.
Open Scope Z_scope.

(** ** Responses of the peers *)
Inductive lit : Type := LInt (z : Z) | LStr (s : string).

Definition int_of (l : lit) : result Z := match l with LInt z => Ok z | LStr s => py_int s end.

Record peer : Type := Peer {
  node_ip_addr : string;
  node_peer_id : string;
  uptime_minutes : lit;
  peer_peers : list string;
  block_producers : list string;
  protocol_state_hash : string;
  k_block_hashes : option (list string);
  k_block_hashes_and_timestamps : option (list (string * string));
  git_commit : option string
}.

(** An error response: [resp['error']['string']] if there is such a string, and
    [str(resp['error'])]. *)
Record error_resp : Type := ErrorResp { error_string : option string; error_repr : string }.

Inductive resp : Type :=
| RPeer (p : peer)
| RError (e : error_resp).

Inductive uptime_bucket : Type :=
| LessThan10Min | LessThan30Min | LessThan1Hour | LessThan6Hour | LessThan12Hour | LessThan24Hour | GreaterThan24Hour.

#[export] Instance uptime_eq : EqDecision uptime_bucket.
Proof. solve_decision. Defined.

Definition uptime_class (uptime : Z) : uptime_bucket :=
  if uptime <? 10 then LessThan10Min
  else if uptime <? 30 then LessThan30Min
  else if uptime <? 60 then LessThan1Hour
  else if uptime <? 3600 then LessThan6Hour
  else if uptime <? 7200 then LessThan12Hour
  else if uptime <? 14400 then LessThan24Hour
  else GreaterThan24Hour.

Inductive status_error : Type := Handshake | Heartbeat | TransportStopped | Libp2p | OtherError.

#[export] Instance status_error_eq : EqDecision status_error.
Proof. solve_decision. Defined.

Definition status_error_class (error : string) : status_error :=
  if contains "handshake error" error then Handshake
  else if contains "heartbeats" error then Heartbeat
  else if contains "transport stopped" error then TransportStopped
  else if contains "libp2p" error then Libp2p
  else OtherError.

(** The lists [node_status_..._errors] and [uptime_...] are one list each, with the name
    of the list an element was appended to. *)
Record tables : Type := Tables {
  peer_table : dict (string * string) peer;
  queried_peers : list string;
  node_status_errors : list (status_error * error_resp);
  uptimes : list (uptime_bucket * Z);
  printed_errors : list counters
}.

Definition no_tables : tables := Tables [] [] [] [] [].

Definition key_of (p : peer) : string * string := (node_ip_addr p, node_peer_id p).

Definition add_peer (t : dict (string * string) peer) (p : peer) : dict (string * string) peer :=
  if mem (key_of p) t then t else set (key_of p) p t.

Definition peers_of (resps : list resp) : list peer :=
  flat_map (fun r => match r with RPeer p => [p] | RError _ => [] end) resps.

Definition error_resps_of (resps : list resp) : list error_resp :=
  flat_map (fun r => match r with RPeer _ => [] | RError e => [e] end) resps.

(** [add_resp] from the parsed lines on. *)
Definition add_resps (t : tables) (resps : list resp) : result tables :=
  let peers := peers_of resps in
  let error_resps := error_resps_of resps in
  let* ups := mapM (fun p => let* u := int_of (uptime_minutes p) in Ok (uptime_class u, u)) peers in
  Ok (Tables (fold_left add_peer peers (peer_table t))
        (set_update (queried_peers t) (map node_peer_id peers))
        (node_status_errors t ++ map (fun e => (status_error_class (error_repr e), e)) error_resps)
        (uptimes t ++ ups)
        (printed_errors t ++ [count_errors (map error_string error_resps)]))%list.

(** ** [mina client status] *)
Definition get_status_value (seed_status key : string) : result string :=
  let* line := py_nth (List.filter (contains key) (split newline seed_status)) 0 in
  let* v := py_nth (split ":" line) 1 in
  Ok (strip v).

Record status : Type := Status { blocks : Z; epoch : Z; slot : Z; global_slot : Z }.

Definition after_equals (s : string) : result Z := let* v := py_nth (split "=" s) 1 in py_int v.

Definition parse_status (seed_status : string) : result status :=
  let* b := get_status_value seed_status "Max observed block height" in
  let* blocks := py_int b in
  let* slot_time := get_status_value seed_status "Consensus time now" in
  let* values := mapM after_equals (split "," slot_time) in
  match values with
  | [epoch; slot] =>
      let* n := get_status_value seed_status "Slots per epoch" in
      let* slots_per_epoch := py_int n in
      Ok (Status blocks epoch slot (epoch * slots_per_epoch + slot))
  | _ => Err (ValueError "values to unpack")
  end.

(** ** Chains and participants *)
Definition peer_to_k_block_hashes (t : dict (string * string) peer) : result (list (list string)) :=
  let timestamps v := let* l := need (k_block_hashes_and_timestamps v) in Ok (map fst l) in
  match values t with
  | v :: _ =>
      match k_block_hashes v with
      | Some _ => mapM (fun v => need (k_block_hashes v)) (values t)
      | None => mapM timestamps (values t)
      end
  | [] => Ok []
  end.

(** The quote character of the default dialect. *)
Definition quote : ascii := "034"%char.

Record participants : Type := Participants {
  discord_to_keys : dict string (list string);
  key_to_discord : dict string string
}.

Definition add_row (ps : participants) (r : list string) : result participants :=
  let* discord := py_nth r 0 in
  let* key := py_nth r 1 in
  Ok (if String.eqb key "" then ps
      else Participants (set discord (set_update (default [] (get (discord_to_keys ps) discord)) [key]) (discord_to_keys ps))
             (set key discord (key_to_discord ps))).

Definition has_participants (accounts_csv : option string) : bool :=
  match accounts_csv with
  | None => false
  | Some s => (0 <? Z.of_nat (String.length (strip s)))
  end.

Definition read_participants (accounts_csv : option string) : result participants :=
  match accounts_csv with
  | Some s =>
      if has_participants accounts_csv then
        let* rows := csv_reader quote (split newline (strip s)) in foldM add_row rows (Participants [] [])
      else Ok (Participants [] [])
  | None => Ok (Participants [] [])
  end.

Definition online_discord_counts (ps : participants) (producers : list string) : dict string Z :=
  map (fun e => (fst e, zlength (List.filter (fun k => bool_decide (k ∈ producers)) (snd e)))) (discord_to_keys ps).

Definition participants_online (counts : dict string Z) : list string :=
  map fst (List.filter (fun e => 0 <? snd e) counts).

Definition participants_offline (counts : dict string Z) : list string :=
  map fst (List.filter (fun e => snd e =? 0) counts).

(** [dict(Counter(...))] *)
Definition version_counts (t : dict (string * string) peer) : dict string Z :=
  fold_left bump (flat_map (fun v => match git_commit v with Some c => [c] | None => [] end) (values t)) [].

(** ** The responses of the last hours *)
Definition windows_in_hours : list Z := [1; 3; 6; 12; 24; 72; 24 * 7].

(** A line of the table written to disk. *)
Record table_row : Type := TableRow {
  row_block_producers : list string;
  row_protocol_state_hash : string;
  row_discords : list string
}.

(** [str(k)] for a pair of strings without quotes or backslashes. *)
Definition str_of_key (k : string * string) : string := "('" +:+ fst k +:+ "', '" +:+ snd k +:+ "')".

Definition peer_table_dict (ps : participants) (t : dict (string * string) peer) : dict string table_row :=
  fold_left (fun d e =>
    let v := snd e in
    set (str_of_key (fst e))
      (TableRow (block_producers v) (protocol_state_hash v)
        (map (fun key => default "" (get (key_to_discord ps) key)) (block_producers v))) d) t [].

Record windows : Type := Windows {
  oldest_report : Q;
  responding_peers_by_window : dict Z (list string);
  responding_ips_by_window : dict Z (list string);
  responding_discords_by_window : dict Z (list string)
}.

(** [setdefault(w, set())] and, if [young], [update(l)]. *)
Definition update_window (young : bool) (w : Z) (l : list string) (d : dict Z (list string)) : dict Z (list string) :=
  let s := default [] (get d w) in
  set w (if young then set_update s l else s) d.

(** The same for every window. *)
Definition update_windows (young : Z -> bool) (l : list string) (d : dict Z (list string)) : dict Z (list string) :=
  fold_left (fun d w => update_window (young w) w l d) windows_in_hours d.
Arguments update_windows : simpl never.

Definition is_table_file (fname : string) : bool :=
  negb (negb (contains "peer_table" fname) || startswith "." fname || negb (endswith "txt" fname)).

(** ['.'.join(fname.split('.')[1:-1])] *)
Definition timestamp_text (fname : string) : string := join "." (but_last_n 1 (tl (split "." fname))).

Definition young_enough (now file_timestamp : Q) (w : Z) : bool := Qle_bool (now - file_timestamp) (inject_Z (w * 3600)).

Record jreport : Type := JReport {
  r_namespace : string;
  r_status : status;
  r_tables : tables;
  r_fill_rate : Q;
  r_peer_percentiles : list (Z * string);
  r_summary : summary;
  r_has_forks : bool;
  r_has_participants : bool;
  r_online_counts : dict string Z;
  r_windows : windows;
  r_version_counts : dict string Z
}.

Inductive jval : Type := JStr (s : string) | JInt (z : Z) | JBool (b : bool) | JFloat (q : Q).

(** ** Text *)
Definition hex_digit (n : nat) : string := String.substring n 1 "0123456789abcdef".

(** The escapes of [json.dumps] for an ASCII character. *)
Definition json_char (c : ascii) : string :=
  let n := nat_of_ascii c in
  let esc s := String "\" s in
  if Ascii.eqb c quote then esc (String quote "")
  else if Ascii.eqb c "\" then esc "\"
  else if (n =? 10)%nat then esc "n"
  else if (n =? 13)%nat then esc "r"
  else if (n =? 9)%nat then esc "t"
  else if (n =? 8)%nat then esc "b"
  else if (n =? 12)%nat then esc "f"
  else if (n <? 32)%nat then esc ("u00" +:+ hex_digit (n / 16) +:+ hex_digit (n mod 16))
  else String c "".

Definition json_string (s : string) : string :=
  String quote (join "" (map json_char (String.list_ascii_of_string s)) +:+ String quote "").

Definition discord_char_limit : nat := 2000.

(** The truncation before both posts. *)
Definition truncate (msg : string) : string :=
  if (discord_char_limit - 5 <? String.length msg)%nat then take_str (discord_char_limit - 5) msg +:+ "..." else msg.

Definition uptime_field (c : uptime_bucket) : string :=
  match c with
  | LessThan10Min => "uptime_less_than_10_min"
  | LessThan30Min => "uptime_less_than_30_min"
  | LessThan1Hour => "uptime_less_than_1_hour"
  | LessThan6Hour => "uptime_less_than_6_hour"
  | LessThan12Hour => "uptime_less_than_12_hour"
  | LessThan24Hour => "uptime_less_than_24_hour"
  | GreaterThan24Hour => "uptime_greater_than_24_hour"
  end.

Definition error_field (c : status_error) : string :=
  match c with
  | Handshake => "node_status_handshake_errors"
  | Heartbeat => "node_status_heartbeat_errors"
  | TransportStopped => "node_status_transport_stopped_errors"
  | Libp2p => "node_status_libp2p_errors"
  | OtherError => "node_status_other_errors"
  end.

(** The length of one of the lists. *)
Definition uptime_count (t : tables) (c : uptime_bucket) : Z :=
  zlength (List.filter (fun e => bool_decide (fst e = c)) (uptimes t)).

Definition error_count (t : tables) (c : status_error) : Z :=
  zlength (List.filter (fun e => bool_decide (fst e = c)) (node_status_errors t)).

Definition format_responses_in_window (responding_in_window : dict Z (list string)) : string :=
  join " | " (map (fun e => py_str (fst e) +:+ " hours: " +:+ py_str (zlength (snd e))) responding_in_window).

Definition fill_rate_low (q : Q) : bool := negb (Qle_bool (13 # 20) q).

Record post : Type := Post { content : string; attachments : list (string * string) }.

Record world : Type := World {
  w_namespace : string;
  w_url : option string;
  w_dir : dict string string;
  w_drawn : list (list gv);
  w_posts : list post
}.

Definition has_url (w : world) : bool := match w_url w with Some u => (0 <? String.length u)%nat | None => false end.

Definition add_post (p : post) (w : world) : world :=
  World (w_namespace w) (w_url w) (w_dir w) (w_drawn w) (w_posts w ++ [p])%list.

Record arguments : Type := Arguments_ {
  a_namespace : option string;
  a_incluster : bool;
  a_url : option string;
  a_accounts : option string;
  a_local : bool;
  a_binary : string
}.

Section Report.
Context (load_config : result unit) (namespace_file : result string) (list_pods : result (list pod))
  (exec_on_seed : string -> result string) (popen : string -> string) (exec_on_pod : string -> string -> result string)
  (literal_eval : string -> result resp) (percentile : list Z -> Z -> string)
  (table_of_text : string -> result (dict string table_row)) (text_of_table : dict string table_row -> string)
  (ip_of_key : string -> result string) (py_float : string -> result Q)
  (time_str : string) (now : Q) (show : Q -> string) (show_list : list string -> string)
  (show_counts : dict string Z -> string) (block_tree_png : string) (format_exc : exn -> string).

(** The shell answers with the standard output of the command. *)
Definition exec_locally (binary command : string) : result string := Ok (popen (replace_str "mina" binary command)).

Definition exec_command (args : arguments) (command : string) : result string :=
  if a_local args then exec_locally (a_binary args) command else exec_on_seed command.

Definition add_resp (t : tables) (resp : string) : result tables :=
  let* resps := mapM literal_eval (List.filter (fun s => negb (String.eqb s "")) (split newline resp)) in
  add_resps t resps.

Definition query_seed (pods : list pod) (t : tables) (seed : string) : result tables :=
  let* port := seed_daemon_port pods seed in
  let* resp := exec_on_pod seed ("mina advanced node-status -daemon-port " +:+ port +:+ " -daemon-peers -show-errors") in
  add_resp t resp.

(** The turn of the loop over the files, for a file that holds a table. *)
Definition add_file (ws : windows) (file : string * string) : result windows :=
  let '(fname, contents) := file in
  if negb (is_table_file fname) then Ok ws else
  let* peers := table_of_text contents in
  let* file_timestamp := py_float (timestamp_text fname) in
  let ip_peer_ids := keys peers in
  let* ips := mapM ip_of_key ip_peer_ids in
  let discords := flat_map row_discords (values peers) in
  let update := update_windows (young_enough now file_timestamp) in
  Ok (Windows (if Qle_bool (oldest_report ws) file_timestamp then oldest_report ws else file_timestamp)
        (update ip_peer_ids (responding_peers_by_window ws))
        (update ips (responding_ips_by_window ws))
        (update discords (responding_discords_by_window ws))).

Definition read_windows (dir : dict string string) : result windows :=
  foldM add_file dir (Windows now [] [] []).

Definition peer_percentiles (t : dict (string * string) peer) : list (Z * string) :=
  let peer_numbers := map (fun v => zlength (peer_peers v)) (values t) in
  if 0 <? zlength peer_numbers
  then map (fun p => (p, percentile peer_numbers p)) [0; 5; 25; 50; 95; 100] else [].

(** [blocks / global_slot] *)
Definition fill_rate (s : status) : result Q :=
  if global_slot s =? 0 then Err ZeroDivisionError else Ok (inject_Z (blocks s) / inject_Z (global_slot s))%Q.

Definition json_report (r : jreport) : list (string * jval) :=
  let t := r_tables r in
  let s := r_status r in
  ([("namespace", JStr (r_namespace r));
    ("queried_nodes", JInt (zlength (queried_peers t)));
    ("responding_nodes", JInt (zlength (peer_table t)));
    ("epoch", JInt (epoch s)); ("epoch_slot", JInt (slot s)); ("global_slot", JInt (global_slot s));
    ("blocks", JInt (blocks s));
    ("block_fill_rate", if fill_rate_low (r_fill_rate r) then JStr (show (r_fill_rate r) +:+ " :warning:")
                        else JFloat (r_fill_rate r));
    ("has_forks", if r_has_forks r then JStr "True :warning:" else JBool false);
    ("has_participants", JBool (r_has_participants r))]
   ++ map (fun c => (error_field c, JInt (error_count t c))) [Handshake; Heartbeat; TransportStopped; Libp2p; OtherError]
   ++ map (fun c => (uptime_field c, JInt (uptime_count t c)))
        [LessThan10Min; LessThan30Min; LessThan1Hour; LessThan6Hour; LessThan12Hour; LessThan24Hour; GreaterThan24Hour]
   ++ [("participants_online", JInt (zlength (participants_online (r_online_counts r))));
       ("participants_offline", JInt (zlength (participants_offline (r_online_counts r))));
       ("number_of_peer_percentiles", JStr (join " | " (map (fun e => py_str (fst e) +:+ "%: " +:+ snd e) (r_peer_percentiles r))));
       ("oldest_responses_report", JStr (show ((now - oldest_report (r_windows r)) / inject_Z 3600)%Q +:+ " hours old"));
       ("unique_responding_peers_in_window", JStr (format_responses_in_window (responding_peers_by_window (r_windows r))));
       ("unique_responding_ips_in_window", JStr (format_responses_in_window (responding_ips_by_window (r_windows r))));
       ("unique_responding_discords_in_window", JStr (format_responses_in_window (responding_discords_by_window (r_windows r))))])%list.

Definition json_value (v : jval) : string :=
  match v with
  | JStr s => json_string s
  | JInt z => py_str z
  | JBool b => if b then "true" else "false"
  | JFloat q => show q
  end.

(** [json.dumps(d, indent=2)] of a flat dictionary that is not empty. *)
Definition json_dumps (d : list (string * jval)) : string :=
  "{" +:+ nl +:+ join ("," +:+ nl) (map (fun e => "  " +:+ json_string (fst e) +:+ ": " +:+ json_value (snd e)) d) +:+ nl +:+ "}".

(** From the status of the seed and the responses to the report. *)
Definition write_table (fname text : string) : M world unit :=
  modify (fun w => World (w_namespace w) (w_url w) (set fname text (w_dir w)) (w_drawn w) (w_posts w)).

Definition draw (g : list gv) : M world unit :=
  modify (fun w => World (w_namespace w) (w_url w) (w_dir w) (w_drawn w ++ [g])%list (w_posts w)).

Definition send_report (r : jreport) (ps : participants) : M world unit :=
  let formatted_report := json_dumps (json_report r) in
  do post_it <- gets has_url in
  when post_it
    (modify (add_post (Post (truncate formatted_report)
       [("block_tree.gv.png", block_tree_png);
        ("particpants_online.txt", show_list (participants_online (r_online_counts r)));
        ("participants_offline.txt", show_list (participants_offline (r_online_counts r)));
        ("online_discord_counts.txt", show_counts (r_online_counts r));
        ("peer_table.txt", text_of_table (peer_table_dict ps (peer_table (r_tables r))))]))).

Definition make_report (args : arguments) (namespace : string) (st : status) (t : tables) : M world unit :=
  do chains <- lift (peer_to_k_block_hashes (peer_table t)) in
  let tree := fork_tree chains in
  do s <- lift (summarized_fork_tree tree) in
  do ps <- lift (read_participants (a_accounts args)) in
  let producers := flat_map block_producers (values (peer_table t)) in
  let counts := online_discord_counts ps producers in
  perform write_table ("peer_table." +:+ time_str +:+ ".txt") (text_of_table (peer_table_dict ps (peer_table t))) then
  do dir <- gets w_dir in
  do ws <- lift (read_windows dir) in
  do rate <- lift (fill_rate st) in
  do forks <- lift (has_forks tree s) in
  let r := JReport namespace st t rate (peer_percentiles (peer_table t)) s forks
             (has_participants (a_accounts args)) counts ws (version_counts (peer_table t)) in
  perform draw (make_block_tree_graph s) then
  send_report r ps.

Definition set_globals (namespace : string) (url : option string) : M world unit :=
  modify (fun w => World namespace url (w_dir w) (w_drawn w) (w_posts w)).

(** The namespace: [assert(args.namespace == '')] fails when [-n] is absent, since the
    default is [None]. *)
Definition resolve_namespace (args : arguments) : result (option string) :=
  let* _ := load_config in
  if a_incluster args then
    if bool_decide (a_namespace args = Some "") then let* ns := namespace_file in Ok (Some ns) else Err AssertionError
  else Ok (a_namespace args).

Definition main (args : arguments) : M world unit :=
  do namespace_or_none <- lift (resolve_namespace args) in
  do namespace <- lift (match namespace_or_none with Some ns => Ok ns | None => Err AttributeError end) in
  do url <- gets w_url in
  perform set_globals namespace url then
  if startswith "integration-test-" namespace then ret tt else
  perform set_globals namespace (option_map strip (a_url args)) then
  do pods <- lift list_pods in
  let seeds := seeds_of pods in
  do seed <- lift (py_nth seeds (-1)) in
  do _ <- lift (seed_daemon_port pods seed) in
  do seed_status <- lift (exec_command args "mina client status") in
  perform when (String.eqb seed_status "") (raise (RuntimeException "unable to connect to seed node within 600 seconds")) then
  do st <- lift (parse_status seed_status) in
  do t <- lift (foldM (query_seed pods) seeds no_tables) in
  make_report args namespace st t.

(** [except Exception]: [SystemExit] is not an [Exception], and [OutOfFuel] stands for a
    loop that does not end. *)
Definition is_exception (e : exn) : bool := match e with SystemExit _ | OutOfFuel => false | _ => true end.

(** The script: an exception of [main] is posted. *)
Definition script (args : arguments) : M world unit :=
  try_except (main args) (fun e =>
    if is_exception e then Some (
      do namespace <- gets w_namespace in
      do post_it <- gets has_url in
      when post_it (modify (add_post (Post (truncate (namespace +:+ " exited with error: " +:+ format_exc e)) []))))
    else None).
End Report.

(** ** Posts *)
Lemma take_str_length k s : (k <= String.length s)%nat -> String.length (take_str k s) = k.
Proof.
  unfold take_str. revert k. induction s as [|a s IH]; intros [|k] H; cbn in *; try lia. rewrite IH; lia.
Qed.

Lemma truncate_length msg : (String.length (truncate msg) <= 1998)%nat.
Proof.
  unfold truncate, discord_char_limit. destruct (Nat.ltb_spec (2000 - 5) (String.length msg)); [|lia].
  rewrite app_length_str, take_str_length by lia. cbn. lia.
Qed.

(** Programs that post nothing and leave the globals alone. *)
Definition silent_on (url : option string) (posts : list post) (w : world) : Prop := w_url w = url /\ w_posts w = posts.

Definition posted_once (url : option string) (posts : list post) (w : world) : Prop :=
  w_url w = url /\ (w_posts w = posts \/
    has_url w = true /\ exists p, w_posts w = (posts ++ [p])%list /\ (String.length (content p) <= 1998)%nat).

Section Posts.
Context (load_config : result unit) (namespace_file : result string) (list_pods : result (list pod))
  (exec_on_seed : string -> result string) (popen : string -> string) (exec_on_pod : string -> string -> result string)
  (literal_eval : string -> result resp) (percentile : list Z -> Z -> string)
  (table_of_text : string -> result (dict string table_row)) (text_of_table : dict string table_row -> string)
  (ip_of_key : string -> result string) (py_float : string -> result Q)
  (time_str : string) (now : Q) (show : Q -> string) (show_list : list string -> string)
  (show_counts : dict string Z -> string) (block_tree_png : string) (format_exc : exn -> string).

Notation main := (main load_config namespace_file list_pods exec_on_seed popen exec_on_pod literal_eval percentile
  table_of_text text_of_table ip_of_key py_float time_str now show show_list show_counts block_tree_png).
Notation make_report := (make_report percentile table_of_text text_of_table ip_of_key py_float time_str now show
  show_list show_counts block_tree_png).

(** The steps that post nothing. *)
Ltac silent :=
  repeat match goal with
  | |- hoare _ (bindM _ _) _ _ => eapply (hoare_bind _ _ _ (fun _ => silent_on _ _)); [|intros ?]
  | |- hoare _ (lift ?r) _ _ => apply hoare_lift; intros ? ?; by destruct r
  | |- hoare _ (gets _) _ _ => by apply hoare_gets
  | |- hoare _ (write_table _ _) _ _ => apply hoare_modify; intros ? []; by split
  | |- hoare _ (draw _) _ _ => apply hoare_modify; intros ? []; by split
  end.

Lemma make_report_posts args namespace st t url posts :
  hoare (silent_on url posts) (make_report args namespace st t) (fun _ => posted_once url posts) (fun _ => silent_on url posts).
Proof.
  unfold make_report. silent.
  unfold send_report. eapply (hoare_bind _ _ _ (fun b w => silent_on url posts w /\ has_url w = b));
    [by apply hoare_gets|]. intros b. apply hoare_when.
  - intros ->. apply hoare_modify. intros w [[Hu Hp] Hh]. split; [done|]. right. split; [done|].
    eexists. split; [by cbn; rewrite Hp | apply truncate_length].
  - intros -> w [[Hu Hp] _]. by split; [|left].
Qed.

(** The address in use once the arguments are read. *)
Definition given_url (args : arguments) : option string := option_map strip (a_url args).

Lemma main_posts args w0 :
  hoare (fun w => w = w0) (main args)
    (fun _ w => w_posts w = w_posts w0 \/ posted_once (given_url args) (w_posts w0) w)
    (fun _ w => w_posts w = w_posts w0 /\ (w_url w = w_url w0 \/ w_url w = given_url args)).
Proof.
  unfold main. set (R := fun (_ : exn) w => w_posts w = w_posts w0 /\ (w_url w = w_url w0 \/ w_url w = given_url args)).
  assert (Hmono : forall A P (m : M world A) Q,
    hoare P m Q (fun _ => silent_on (given_url args) (w_posts w0)) -> hoare P m Q R).
  { intros A P m Q H. eapply hoare_conseq; [exact H|done|done|]. intros e w [Hu Hp]. split; [done | by right]. }
  eapply (hoare_bind _ _ _ (fun _ => silent_on (w_url w0) (w_posts w0))).
  { apply hoare_lift. intros w ->. destruct (resolve_namespace _ _ _); [done|]. split; [done | by left]. }
  intros o. eapply (hoare_bind _ _ _ (fun _ => silent_on (w_url w0) (w_posts w0))).
  { apply hoare_lift. intros w [Hu Hp]. destruct o; [done|]. split; [done | by left]. }
  intros ns. eapply (hoare_bind _ _ _ (fun u w => silent_on (w_url w0) (w_posts w0) w /\ u = w_url w0)).
  { apply hoare_gets. intros w [Hu Hp]. by split. }
  intros u. eapply (hoare_bind _ _ _ (fun _ => silent_on (w_url w0) (w_posts w0))).
  { apply hoare_modify. intros w [[Hu Hp] ->]. by split. }
  intros _. destruct (startswith _ ns); [apply hoare_ret; intros w [_ Hp]; by left|].
  eapply (hoare_bind _ _ _ (fun _ => silent_on (given_url args) (w_posts w0))).
  { apply hoare_modify. intros w [Hu Hp]. by split. }
  intros _. apply Hmono. eapply hoare_conseq;
    [|intros w H; exact H|intros ? w H; right; exact H|intros e w H; exact H].
  repeat (match goal with
  | |- hoare _ (bindM (when _ _) _) _ _ => eapply (hoare_bind _ _ _ (fun _ => silent_on _ _)); [|intros ?]
  | |- hoare _ (when _ (raise _)) _ _ => apply hoare_when; [intros ?; by apply hoare_raise | done]
  | |- hoare _ (bindM (lift _) _) _ _ => eapply (hoare_bind _ _ _ (fun _ => silent_on _ _)); [silent|intros ?]
  end). apply make_report_posts.
Qed.
End Posts.

(** ** Runs that end *)

(** The computation ends, with a value or with an exception. *)
Definition ends {A} (r : result A) : Prop := r <> Err OutOfFuel.

Create HintDb ends.

Lemma ends_bind {A B} (r : result A) (k : A -> result B) : ends r -> (forall a, ends (k a)) -> ends (bind r k).
Proof. unfold ends. destruct r as [a|e]; cbn [bind]; [by intros _ H | congruence]. Qed.

Lemma ends_Ok {A} (a : A) : ends (Ok a).
Proof. done. Qed.

Lemma ends_mapM {A B} (f : A -> result B) l : (forall x, ends (f x)) -> ends (mapM f l).
Proof.
  intros Hf. induction l as [|x l IH]; cbn [mapM]; [done|]. apply ends_bind; [done|]. intros y. by apply ends_bind.
Qed.

Lemma ends_foldM {A S} (f : S -> A -> result S) l s : (forall s x, ends (f s x)) -> ends (foldM f l s).
Proof. intros Hf. revert s. induction l as [|x l IH]; intros s; cbn [foldM]; [done|]. by apply ends_bind. Qed.

Lemma ends_py_nth {A} (l : list A) i : ends (py_nth l i).
Proof. unfold py_nth. by repeat case_match. Qed.

Lemma ends_need {A} (o : option A) : ends (need o).
Proof. by destruct o. Qed.

Lemma ends_get_item {K V} `{EqDecision K} (d : dict K V) k : ends (get_item d k).
Proof. unfold get_item. by destruct (get d k). Qed.

Lemma ends_py_int x : ends (py_int x).
Proof. unfold py_int. by repeat case_match. Qed.

#[export] Hint Resolve ends_Ok ends_py_nth ends_need ends_get_item ends_py_int : ends.

Ltac ends := repeat first [done | progress eauto with ends | apply ends_bind; intros | apply ends_mapM; intros | apply ends_foldM; intros | case_match].

Lemma ends_has_forks t s : ends (has_forks t s).
Proof. unfold has_forks. cbv zeta. ends. Qed.

Lemma ends_csv q lines : ends (csv_reader q lines).
Proof.
  unfold csv_reader. generalize (CsvAcc StartRecord "" []). induction lines as [|l lines IH]; intros a; cbn [csv_lines]; [by case_match|].
  apply ends_bind; [apply ends_foldM; intros a1 c; unfold csv_char; by repeat case_match|].
  intros a1. destruct (csv_end a1) as [a2 row]. apply ends_bind; [apply IH | done].
Qed.

Lemma ends_read_participants csv : ends (read_participants csv).
Proof. unfold read_participants, add_row. destruct csv; [|done]. case_match; [|done]. apply ends_bind; [apply ends_csv|]. intros rows. ends. Qed.

Lemma ends_parse_status x : ends (parse_status x).
Proof. unfold parse_status, get_status_value, after_equals. ends. Qed.

Lemma ends_chains t : ends (peer_to_k_block_hashes t).
Proof. unfold peer_to_k_block_hashes. ends. Qed.

Lemma ends_seed_daemon_port pods seed : ends (seed_daemon_port pods seed).
Proof. unfold seed_daemon_port. ends. Qed.

Lemma ends_add_resps t l : ends (add_resps t l).
Proof. unfold add_resps, int_of. ends. Qed.

Lemma ends_fill_rate st : ends (fill_rate st).
Proof. unfold fill_rate. ends. Qed.

Section Ends.
Context (load_config : result unit) (namespace_file : result string) (list_pods : result (list pod))
  (exec_on_seed : string -> result string) (popen : string -> string) (exec_on_pod : string -> string -> result string)
  (literal_eval : string -> result resp) (percentile : list Z -> Z -> string)
  (table_of_text : string -> result (dict string table_row)) (text_of_table : dict string table_row -> string)
  (ip_of_key : string -> result string) (py_float : string -> result Q)
  (time_str : string) (now : Q) (show : Q -> string) (show_list : list string -> string)
  (show_counts : dict string Z -> string) (block_tree_png : string).

(** The calls of the outside end. *)
Definition outside_ends : Prop :=
  ends load_config /\ ends namespace_file /\ ends list_pods /\ (forall c, ends (exec_on_seed c)) /\
  (forall s c, ends (exec_on_pod s c)) /\ (forall s, ends (literal_eval s)) /\ (forall s, ends (table_of_text s)) /\
  (forall k, ends (ip_of_key k)) /\ forall s, ends (py_float s).

(** The best chains that the peers report are paths of one blockchain. *)
Definition one_blockchain : Prop :=
  forall pods t chains, list_pods = Ok pods ->
    foldM (query_seed exec_on_pod literal_eval pods) (seeds_of pods) no_tables = Ok t ->
    peer_to_k_block_hashes (peer_table t) = Ok chains -> exists parent height, blockchain chains parent height.

Notation main := (main load_config namespace_file list_pods exec_on_seed popen exec_on_pod literal_eval percentile
  table_of_text text_of_table ip_of_key py_float time_str now show show_list show_counts block_tree_png).
Notation make_report := (make_report percentile table_of_text text_of_table ip_of_key py_float time_str now show
  show_list show_counts block_tree_png).
Notation halts m := (hoare (fun _ : world => True) m (fun _ _ => True) (fun e _ => e <> OutOfFuel)).

Context (Hout : outside_ends).

Lemma halts_then {A B} (r : result A) (k : A -> M world B) : ends r -> (forall a, r = Ok a -> halts (k a)) -> halts (bindM (lift r) k).
Proof.
  intros H Hk w _. unfold bindM, lift. unfold ends in H. destruct r as [a|e]; [by apply (Hk a eq_refl) | congruence].
Qed.

Lemma halts_bind {A B} (m : M world A) (k : A -> M world B) : halts m -> (forall a, halts (k a)) -> halts (bindM m k).
Proof. intros Hm Hk. by apply (hoare_bind _ _ _ (fun _ _ => True)). Qed.

Lemma halts_modify f : halts (modify f).
Proof. by apply hoare_modify. Qed.

Lemma ends_read_windows dir : ends (read_windows table_of_text ip_of_key py_float now dir).
Proof.
  destruct Hout as (_ & _ & _ & _ & _ & _ & H1 & H2 & H3). unfold read_windows. apply ends_foldM. intros ws [fname text].
  unfold add_file. case_match; [done|]. apply ends_bind; [apply H1|]. intros peers. apply ends_bind; [apply H3|]. intros ts.
  apply ends_bind; [by apply ends_mapM | done].
Qed.

Lemma ends_query_seed pods t seed : ends (query_seed exec_on_pod literal_eval pods t seed).
Proof.
  destruct Hout as (_ & _ & _ & _ & H1 & H2 & _). unfold query_seed, add_resp. apply ends_bind; [apply ends_seed_daemon_port|].
  intros port. apply ends_bind; [apply H1|]. intros r. apply ends_bind; [by apply ends_mapM|]. intros l. apply ends_add_resps.
Qed.

Lemma make_report_halts args ns st t :
  (forall chains, peer_to_k_block_hashes (peer_table t) = Ok chains -> exists parent height, blockchain chains parent height) ->
  halts (make_report args ns st t).
Proof.
  intros Hb. unfold make_report. apply halts_then; [apply ends_chains|]. intros chains Hc.
  destruct (Hb chains Hc) as (parent & height & Hf).
  destruct (summarized_fork_tree_spec _ _ (blockchain_forest _ _ _ Hf)) as (s & E & _).
  apply halts_then; [by rewrite E|]. intros s' _. apply halts_then; [apply ends_read_participants|]. intros ps _.
  apply halts_bind; [apply halts_modify|]. intros _. apply halts_bind; [by apply hoare_gets|]. intros dir.
  apply halts_then; [apply ends_read_windows|]. intros ws _. apply halts_then; [apply ends_fill_rate|]. intros rate _.
  apply halts_then; [apply ends_has_forks|]. intros forks _. apply halts_bind; [apply halts_modify|]. intros _.
  unfold send_report. apply halts_bind; [by apply hoare_gets|]. intros b. apply hoare_when; [intros _; apply halts_modify | done].
Qed.

Lemma main_halts args : one_blockchain -> halts (main args).
Proof.
  intros Hb. destruct Hout as (H1 & H2 & H3 & H4 & _). unfold main.
  apply halts_then; [unfold resolve_namespace; apply ends_bind; [done|]; intros _; repeat case_match; try done; by apply ends_bind|].
  intros o _. apply halts_then; [by destruct o|]. intros ns _. apply halts_bind; [by apply hoare_gets|]. intros url.
  apply halts_bind; [apply halts_modify|]. intros _. destruct (startswith _ ns); [by apply hoare_ret|].
  apply halts_bind; [apply halts_modify|]. intros _. apply halts_then; [done|]. intros pods Hpods. cbv zeta.
  apply halts_then; [apply ends_py_nth|]. intros seed _. apply halts_then; [apply ends_seed_daemon_port|]. intros port _.
  apply halts_then; [unfold exec_command; by destruct (a_local args)|]. intros answer _.
  apply halts_bind; [apply hoare_when; [intros _; by apply hoare_raise | done]|]. intros _.
  apply halts_then; [apply ends_parse_status|]. intros st _.
  apply halts_then; [apply ends_foldM; apply ends_query_seed|]. intros t Ht.
  apply make_report_halts. intros chains Hc. by eapply Hb.
Qed.
End Ends.

Definition initial (dir : dict string string) : world := World "" None dir [] [].

Lemma has_url_given w u : w_url w = u -> has_url w = true -> exists s, u = Some s /\ s <> "".
Proof.
  unfold has_url. intros <- H. destruct (w_url w) as [s|]; [|done]. exists s. split; [done|]. by intros ->.
Qed.


(** ** Windows *)
Lemma elem_of_update_window young w l d w' x :
  x ∈ default [] (get (update_window young w l d) w') <->
  x ∈ default [] (get d w') \/ (w' = w /\ young = true /\ x ∈ l).
Proof.
  unfold update_window. rewrite get_set. case_decide as E; [subst w'|naive_solver].
  cbn [default from_option]; unfold id. destruct young; [rewrite elem_of_set_update|]; naive_solver.
Qed.

Lemma elem_of_update_windows (young : Z -> bool) l d w' x :
  x ∈ default [] (get (update_windows young l d) w') <->
  x ∈ default [] (get d w') \/ (w' ∈ windows_in_hours /\ young w' = true /\ x ∈ l).
Proof.
  unfold update_windows. revert d. induction windows_in_hours as [|w ws IH]; intros d; cbn [fold_left].
  - setoid_rewrite elem_of_nil. tauto.
  - rewrite IH, elem_of_update_window, elem_of_cons. naive_solver.
Qed.

Lemma split_snoc c s1 s2 : no_char c s2 = true -> split c (s1 +:+ String c s2) = (split c s1 ++ [s2])%list.
Proof.
  intros H. induction s1 as [|a s1 IH].
  - change ("" +:+ String c s2) with (String c s2). cbn [split]. by rewrite Ascii.eqb_refl, split_no_char.
  - rewrite app_cons_str. cbn [split]. destruct (Ascii.eqb a c); [by rewrite IH|]. rewrite IH.
    pose proof (split_nonempty c s1). by destruct (split c s1).
Qed.

Definition table_file_name (time_str : string) : string := "peer_table." +:+ time_str +:+ ".txt".

Lemma endswith_txt s : endswith "txt" (s +:+ "txt") = true.
Proof.
  induction s as [|a s IH]; [done|]. rewrite app_cons_str. cbn [endswith]. rewrite IH. by destruct (String.eqb _ _).
Qed.

Lemma table_file_name_read time_str :
  is_table_file (table_file_name time_str) = true /\ timestamp_text (table_file_name time_str) = time_str.
Proof.
  unfold table_file_name. split.
  - unfold is_table_file. assert (E : endswith "txt" ("peer_table." +:+ time_str +:+ ".txt") = true).
    { change ".txt" with ("." +:+ "txt"). rewrite <- !app_assoc_str. apply endswith_txt. }
    rewrite E. done.
  - unfold timestamp_text. change ("peer_table." +:+ time_str +:+ ".txt") with ("peer_table" +:+ String "." (time_str +:+ String "." "txt")).
    rewrite split_app, split_snoc by done. cbn [tl]. unfold but_last_n. rewrite length_app. cbn [length].
    rewrite Nat.add_sub, firstn_app, Nat.sub_diag, firstn_all. cbn [firstn]. rewrite app_nil_r. apply (join_split ".").
Qed.

Section Windows.
Context (table_of_text : string -> result (dict string table_row)) (ip_of_key : string -> result string)
  (py_float : string -> result Q) (now : Q).
Notation read_windows := (read_windows table_of_text ip_of_key py_float now).
Notation add_file := (add_file table_of_text ip_of_key py_float now).

(** [tbl] was reported by a file of the directory that is at most [w] hours old. *)
Definition reported (files : list (string * string)) (w : Z) (tbl : dict string table_row) : Prop :=
  exists fname text ts, (fname, text) ∈ files /\ is_table_file fname = true /\ table_of_text text = Ok tbl /\
    py_float (timestamp_text fname) = Ok ts /\ (now - ts <= inject_Z (w * 3600))%Q.

(** The tables of the files are told apart by what [f] collects from them. *)
Definition collects {A} (files : list (string * string)) (f : dict string table_row -> A -> Prop) (d : Z -> A -> Prop) : Prop :=
  forall w, w ∈ windows_in_hours -> forall x, d w x <-> exists tbl, reported files w tbl /\ f tbl x.

Definition has_ip (tbl : dict string table_row) (ip : string) : Prop := exists id, id ∈ keys tbl /\ ip_of_key id = Ok ip.
Definition has_discord (tbl : dict string table_row) (d : string) : Prop := exists row, row ∈ values tbl /\ d ∈ row_discords row.

Definition exact (files : list (string * string)) (ws : windows) : Prop :=
  collects files (fun tbl id => id ∈ keys tbl) (fun w id => id ∈ default [] (get (responding_peers_by_window ws) w)) /\
  collects files has_ip (fun w ip => ip ∈ default [] (get (responding_ips_by_window ws) w)) /\
  collects files has_discord (fun w d => d ∈ default [] (get (responding_discords_by_window ws) w)).

Lemma reported_snoc files fname text w tbl :
  reported (files ++ [(fname, text)]) w tbl <-> reported files w tbl \/ reported [(fname, text)] w tbl.
Proof.
  unfold reported. setoid_rewrite elem_of_app. split.
  - intros (f & t & ts & [H|H] & ?); [left|right]; eauto 10.
  - intros [(f & t & ts & H & ?)|(f & t & ts & H & ?)]; exists f, t, ts; auto.
Qed.

Lemma collects_snoc {A} files fname text (f : dict string table_row -> A -> Prop) d d' :
  collects files f d ->
  (forall w, w ∈ windows_in_hours -> forall x,
     d' w x <-> d w x \/ exists tbl, reported [(fname, text)] w tbl /\ f tbl x) ->
  collects (files ++ [(fname, text)]) f d'.
Proof.
  intros Hd Hd' w Hw x. rewrite (Hd' w Hw x), (Hd w Hw x). setoid_rewrite reported_snoc. naive_solver.
Qed.

Lemma reported_one fname text tbl ts : is_table_file fname = true -> table_of_text text = Ok tbl ->
  py_float (timestamp_text fname) = Ok ts ->
  forall w t, reported [(fname, text)] w t <-> young_enough now ts w = true /\ t = tbl.
Proof.
  intros Hf Ht Hts w t. unfold young_enough. rewrite Qle_bool_iff. split.
  - intros (f & x & ts' & [= -> ->]%list_elem_of_singleton & _ & Ht' & Hts' & Hle). split; congruence.
  - intros [Hy ->]. exists fname, text, ts. rewrite list_elem_of_singleton. by split_and!.
Qed.

Lemma add_file_exact files fname text ws ws' :
  exact files ws -> add_file ws (fname, text) = Ok ws' -> exact (files ++ [(fname, text)]) ws'.
Proof.
  intros (Hp & Hi & Hd) H. unfold add_file in H. destruct (is_table_file fname) eqn:Ef; cbn [negb] in H.
  - ok_inv. rename v into tbl, v0 into ts, v1 into ips. apply mapM_Forall2 in E1.
    pose proof (reported_one _ _ _ _ Ef E E0) as Hone.
    split_and!; (eapply collects_snoc; [done|]); intros w Hw x; cbn [responding_peers_by_window responding_ips_by_window responding_discords_by_window];
      rewrite elem_of_update_windows; setoid_rewrite Hone.
    + naive_solver.
    + assert (Hx : x ∈ ips <-> has_ip tbl x); [|naive_solver]. unfold has_ip. split.
      * intros (id & Hid & Hip)%(Forall2_elem_of_r _ _ _ _ E1). eauto.
      * intros (id & Hid & Hip). destruct (Forall2_elem_of_l _ _ _ _ E1 Hid) as (y & Hy & Hyp). congruence.
    + assert (Hx : x ∈ flat_map row_discords (values tbl) <-> has_discord tbl x); [|naive_solver].
      unfold has_discord. rewrite list_elem_of_In, in_flat_map. by setoid_rewrite list_elem_of_In.
  - injection H as <-. assert (Hno : forall w t, ~ reported [(fname, text)] w t).
    { intros w t (f & x & ts & [= -> ->]%list_elem_of_singleton & Hf & _). congruence. }
    split_and!; (eapply collects_snoc; [done|]); intros w Hw x; (split; [by left|intros [?|(tbl & H & _)]; [done|by apply Hno in H]]).
Qed.

Lemma read_windows_exact dir ws : read_windows dir = Ok ws -> exact dir ws.
Proof.
  enough (G : forall l files ws0, exact files ws0 -> foldM add_file l ws0 = Ok ws -> exact (files ++ l) ws).
  { apply (G dir []). split_and!; intros w Hw x; cbn; (split; [intros H; by apply elem_of_nil in H|]);
      intros (tbl & (f & t & ts & H & _) & _); by apply elem_of_nil in H. }
  induction l as [|[fname text] l IH]; intros files ws0 H0 H; cbn [foldM] in H.
  - injection H as ->. by rewrite app_nil_r.
  - apply bind_Ok_inv in H as (ws1 & H1 & H). rewrite cons_middle, app_assoc.
    eapply IH; [|done]. by eapply add_file_exact.
Qed.

(** A [peer_table] file whose table, time and addresses can be read. *)
Definition readable (file : string * string) : Prop :=
  is_table_file (fst file) = true -> exists tbl ts ips, table_of_text (snd file) = Ok tbl /\
    py_float (timestamp_text (fst file)) = Ok ts /\ mapM ip_of_key (keys tbl) = Ok ips.

Lemma add_file_readable ws file : (exists ws', add_file ws file = Ok ws') <-> readable file.
Proof.
  destruct file as [fname text]. unfold add_file, readable. cbn [fst snd]. destruct (is_table_file fname); cbn [negb].
  - split.
    + intros [ws' H] _. apply bind_Ok_inv in H as (tbl & Ht & H). apply bind_Ok_inv in H as (ts & Hts & H).
      apply bind_Ok_inv in H as (ips & Hi & _). by exists tbl, ts, ips.
    + intros (tbl & ts & ips & -> & -> & Hi); [done|]. cbn [bind]. rewrite Hi. by eexists.
  - by split; [|eexists].
Qed.

Lemma read_windows_readable dir : (exists ws, read_windows dir = Ok ws) <-> Forall readable dir.
Proof.
  unfold read_windows. generalize (Windows now [] [] []). induction dir as [|file dir IH]; intros ws; cbn [foldM].
  - split; [by constructor | by eexists].
  - rewrite Forall_cons. split.
    + intros [ws' H]. apply bind_Ok_inv in H as (ws1 & H1 & H). split; [by eapply add_file_readable; eexists | by eapply IH; eexists].
    + intros [Hf Hd]. apply (add_file_readable ws) in Hf as [ws1 ->]. by apply IH.
Qed.

(** C18: The long-running counts of the report are exact: they are made just when every [peer_table]
    file of the directory can be read; then for each of the windows, the peers, the
    addresses and the Discord names counted are those of the [peer_table] files of the directory
    that are at most as many hours old as the window, and no others; and the file that the run
    itself has just written is one of those the loop reads, with the time it was written, so that
    when its text parses back, every peer of the current table is counted in every window. *)
Theorem windows_exact dir :
  ((exists ws, read_windows dir = Ok ws) <-> Forall readable dir) /\
  forall ws, read_windows dir = Ok ws ->
    exact dir ws /\
    forall time_str tbl text ts, (table_file_name time_str, text) ∈ dir -> table_of_text text = Ok tbl ->
      py_float time_str = Ok ts -> (now - ts <= inject_Z 3600)%Q ->
      forall w, w ∈ windows_in_hours -> forall id, id ∈ keys tbl -> id ∈ default [] (get (responding_peers_by_window ws) w).
Proof.
  split; [apply read_windows_readable|].
  intros ws H. apply read_windows_exact in H as He. split; [done|]. intros time_str tbl text ts Hin Ht Hts Hage w Hw id Hid.
  destruct (table_file_name_read time_str) as [Hf Htime]. apply (proj1 He w Hw). exists tbl. split; [|done].
  exists (table_file_name time_str), text, ts. rewrite Htime. split_and!; try done.
  eapply Qle_trans; [exact Hage|]. rewrite <- Zle_Qle. unfold windows_in_hours in Hw.
  repeat (apply elem_of_cons in Hw as [->|Hw]; [lia|]). by apply elem_of_nil in Hw.
Qed.
End Windows.

(** Two reports, one of an hour ago and one of ten hours ago, and another file. *)
Definition toy_table (text : string) : result (dict string table_row) :=
  if String.eqb text "A" then Ok [("('1.2.3.4', 'p1')", TableRow ["k1"] "s" ["d1"])]
  else if String.eqb text "B" then Ok [("('1.2.3.4', 'p1')", TableRow ["k1"] "s" ["d1"]); ("('5.6.7.8', 'p2')", TableRow ["k2"] "s" ["d2"])]
  else Err (ValueError "malformed node or string").

Definition toy_ip (key : string) : result string := py_nth (split "'" key) 1.

Definition toy_float (s : string) : result Q := let* z := py_int s in Ok (inject_Z z).

Definition toy_dir : dict string string :=
  [("peer_table.96400.txt", "A"); ("notes.txt", "C"); ("peer_table.64000.txt", "B")].

Lemma windows_exact_witness :
  (let* ws := read_windows toy_table toy_ip toy_float (inject_Z 100000) toy_dir in
   Ok (map (fun e => zlength (snd e)) (responding_peers_by_window ws))) = Ok [1; 1; 1; 2; 2; 2; 2] /\
  exists ws, read_windows toy_table toy_ip toy_float (inject_Z 100000) toy_dir = Ok ws /\
  exact toy_table toy_ip toy_float (inject_Z 100000) toy_dir ws /\
  forall time_str tbl text ts, (table_file_name time_str, text) ∈ toy_dir -> toy_table text = Ok tbl ->
    toy_float time_str = Ok ts -> (inject_Z 100000 - ts <= inject_Z 3600)%Q ->
    forall w, w ∈ windows_in_hours -> forall id, id ∈ keys tbl -> id ∈ default [] (get (responding_peers_by_window ws) w).
Proof.
  split; [vm_compute; reflexivity|].
  destruct (read_windows toy_table toy_ip toy_float (inject_Z 100000) toy_dir) as [ws|e] eqn:E.
  - exists ws. split; [done|]. by apply (windows_exact toy_table toy_ip toy_float (inject_Z 100000) toy_dir).
  - vm_compute in E. discriminate E.
Defined.

(** ** Counting the responses *)
Definition classed_uptime (p : peer) : result (uptime_bucket * Z) :=
  let* u := int_of (uptime_minutes p) in Ok (uptime_class u, u).

Lemma mapM_app {A B} (f : A -> result B) l1 l2 :
  mapM f (l1 ++ l2) = let* y1 := mapM f l1 in let* y2 := mapM f l2 in Ok (y1 ++ y2)%list.
Proof.
  induction l1 as [|x l1 IH]; cbn [mapM app bind]; [by destruct (mapM f l2)|].
  destruct (f x); cbn [bind]; [|done]. rewrite IH. destruct (mapM f l1); cbn [bind]; [|done]. by destruct (mapM f l2).
Qed.

(** The tables after all the batches of responses. *)
Lemma all_batches batches t : foldM add_resps batches t =
  let* ups := mapM classed_uptime (peers_of (concat batches)) in
  Ok (Tables (fold_left add_peer (peers_of (concat batches)) (peer_table t))
        (set_update (queried_peers t) (map node_peer_id (peers_of (concat batches))))
        (node_status_errors t ++ map (fun e => (status_error_class (error_repr e), e)) (error_resps_of (concat batches)))
        (uptimes t ++ ups)
        (printed_errors t ++ map (fun b => count_errors (map error_string (error_resps_of b))) batches))%list.
Proof.
  revert t. induction batches as [|b bs IH]; intros t.
  - cbn. rewrite !app_nil_r. by destruct t.
  - cbn [foldM concat map]. unfold peers_of, error_resps_of in *. rewrite !flat_map_app, mapM_app.
    unfold add_resps at 1. fold (peers_of b) (error_resps_of b). fold classed_uptime.
    destruct (mapM classed_uptime (peers_of b)) as [u1|e]; cbn [bind]; [|done].
    rewrite IH. destruct (mapM classed_uptime _) as [u2|e]; cbn [bind]; [|done].
    cbn [peer_table queried_peers node_status_errors uptimes printed_errors].
    rewrite fold_left_app, !map_app, !app_assoc. unfold set_update. rewrite fold_left_app, <- !app_assoc. done.
Qed.

Definition in_uptime (c : uptime_bucket) (u : Z) : bool :=
  match c with
  | LessThan10Min => u <? 10
  | LessThan30Min => (10 <=? u) && (u <? 30)
  | LessThan1Hour => (30 <=? u) && (u <? 60)
  | LessThan6Hour => (60 <=? u) && (u <? 3600)
  | LessThan12Hour => (3600 <=? u) && (u <? 7200)
  | LessThan24Hour => (7200 <=? u) && (u <? 14400)
  | GreaterThan24Hour => 14400 <=? u
  end.

Definition uptime_is (f : Z -> bool) (p : peer) : bool := match int_of (uptime_minutes p) with Ok u => f u | Err _ => false end.

Lemma uptime_is_ok f p u : int_of (uptime_minutes p) = Ok u -> uptime_is f p = f u.
Proof. unfold uptime_is. by intros ->. Qed.

Lemma uptime_class_spec u c : bool_decide (uptime_class u = c) = in_uptime c u.
Proof.
  unfold uptime_class. destruct (Z.ltb_spec u 10), (Z.ltb_spec u 30), (Z.ltb_spec u 60), (Z.ltb_spec u 3600),
    (Z.ltb_spec u 7200), (Z.ltb_spec u 14400), c; cbn [in_uptime]; try lia;
  repeat match goal with
  | |- context [?a <=? ?b] => destruct (Z.leb_spec a b); try lia
  | |- context [?a <? ?b] => destruct (Z.ltb_spec a b); try lia
  end; (case_bool_decide as E; [done || discriminate E | done || by destruct E]).
Qed.

Lemma uptime_counts ps ups c : mapM classed_uptime ps = Ok ups ->
  zlength (List.filter (fun e => bool_decide (fst e = c)) ups) = count (uptime_is (in_uptime c)) ps.
Proof.
  intros H. apply mapM_Forall2 in H. induction H as [|p e ps ups Hp _ IH]; [done|].
  rewrite count_cons. unfold classed_uptime in Hp. unfold uptime_is at 1. destruct (int_of (uptime_minutes p)) as [u|]; [|done].
  cbn [bind] in Hp. injection Hp as <-. cbn [List.filter fst]. rewrite uptime_class_spec.
  unfold zlength in *. destruct (in_uptime c u); cbn [length]; lia.
Qed.

Lemma error_counts es c :
  zlength (List.filter (fun e => bool_decide (fst e = c)) (map (fun e => (status_error_class (error_repr e), e)) es))
  = count (fun e => bool_decide (status_error_class (error_repr e) = c)) es.
Proof.
  induction es as [|e es IH]; [done|]. rewrite count_cons. cbn [map List.filter fst].
  unfold zlength in *. case_bool_decide; cbn [length]; lia.
Qed.

(** The first response of each peer is kept. *)
Definition first_response (ps : list peer) (k : string * string) : option peer :=
  List.find (fun p => bool_decide (key_of p = k)) ps.

Lemma add_peers_spec ps t : wf t ->
  wf (fold_left add_peer ps t) /\
  forall k, get (fold_left add_peer ps t) k = match get t k with Some p => Some p | None => first_response ps k end.
Proof.
  revert t. induction ps as [|p ps IH]; intros t Ht; cbn [fold_left].
  - split; [done|]. intros k. by destruct (get t k).
  - destruct (IH (add_peer t p)) as [Hw Hg]; [unfold add_peer; destruct (mem _ t); [done | by apply wf_set]|].
    split; [done|]. intros k. rewrite Hg. unfold add_peer, mem, first_response. cbn [List.find].
    destruct (get t (key_of p)) as [q|] eqn:E.
    + destruct (get t k) eqn:Ek; [done|]. rewrite bool_decide_eq_false_2 by (intros D; congruence). done.
    + rewrite get_set. case_decide as D; [subst k; rewrite E, bool_decide_eq_true_2 by done; done|].
      destruct (get t k); [done|]. by rewrite bool_decide_eq_false_2 by congruence.
Qed.

Lemma peer_table_length ps t : (length (fold_left add_peer ps t) <= length t + length ps)%nat.
Proof.
  revert t. induction ps as [|p ps IH]; intros t; cbn [fold_left length]; [lia|].
  pose proof (IH (add_peer t p)) as H. unfold add_peer in *. destruct (mem (key_of p) t) eqn:E; [lia|].
  assert (Hf : get t (key_of p) = None) by (unfold mem in E; by destruct (get t (key_of p))).
  rewrite (set_fresh _ _ _ Hf), length_app in H. rewrite (set_fresh _ _ _ Hf). cbn in H. lia.
Qed.

(** C22: The counts of the report, over all the answers of the seeds: the table keeps the first
    response of each address and peer id, and [responding_nodes] is the number of them, while
    the seven uptime counts and the five error counts count every response, a peer that several
    seeds report several times; each valid response is in exactly one uptime count and each
    error in exactly one error count, and the limits of the uptime counts named after 6, 12 and
    24 hours are 3,600, 7,200 and 14,400 minutes. The report fails exactly when the uptime of
    some response is not an integer. *)
Theorem report_counts batches :
  let ps := peers_of (concat batches) in
  let es := error_resps_of (concat batches) in
  match foldM add_resps batches no_tables with
  | Ok t =>
      (wf (peer_table t) /\ forall k, get (peer_table t) k = first_response ps k) /\
      zlength (peer_table t) <= zlength ps /\
      (forall id, id ∈ queried_peers t <-> exists p, p ∈ ps /\ node_peer_id p = id) /\
      (forall c, uptime_count t c = count (uptime_is (in_uptime c)) ps) /\
      foldr Z.add 0 (map (uptime_count t) [LessThan10Min; LessThan30Min; LessThan1Hour; LessThan6Hour;
        LessThan12Hour; LessThan24Hour; GreaterThan24Hour]) = zlength ps /\
      (forall c, error_count t c = count (fun e => bool_decide (status_error_class (error_repr e) = c)) es) /\
      foldr Z.add 0 (map (error_count t) [Handshake; Heartbeat; TransportStopped; Libp2p; OtherError]) = zlength es
  | Err e => exists p, p ∈ ps /\ int_of (uptime_minutes p) = Err e
  end.
Proof.
  cbn zeta. rewrite all_batches. set (ps := peers_of (concat batches)). set (es := error_resps_of (concat batches)).
  destruct (mapM classed_uptime ps) as [ups|e] eqn:E; cbn [bind].
  - cbn [peer_table queried_peers node_status_errors uptimes no_tables app]. unfold uptime_count, error_count.
    cbn [node_status_errors uptimes map]. rewrite !(uptime_counts ps ups _ E), !error_counts.
    assert (Hw := add_peers_spec ps [] wf_nil). split_and!.
    + apply Hw.
    + apply Hw.
    + unfold zlength. pose proof (peer_table_length ps []) as Hl. cbn in Hl. lia.
    + intros id. rewrite elem_of_set_update, list_elem_of_fmap. rewrite elem_of_nil. naive_solver.
    + intros c. by apply uptime_counts.
    + cbn [foldr]. clear Hw. apply mapM_Forall2 in E. induction E as [|p e l ups' Hp _ IH]; [done|].
      rewrite !count_cons. unfold zlength in *. cbn [length].
      unfold classed_uptime in Hp. destruct (int_of (uptime_minutes p)) as [u|] eqn:Eu; [|done].
      rewrite !(uptime_is_ok _ _ _ Eu), <- !uptime_class_spec. destruct (uptime_class u); repeat (case_bool_decide; [try discriminate|try congruence]); lia.
    + intros c. apply error_counts.
    + cbn [foldr]. unfold zlength. induction es as [|e' es IH]; [done|]. rewrite !count_cons. cbn [length].
      destruct (status_error_class _); repeat (case_bool_decide; [try discriminate|try congruence]); lia.
  - clear -E. revert E. induction ps as [|p ps IH]; cbn [mapM]; [done|]. unfold classed_uptime at 1.
    destruct (int_of (uptime_minutes p)) as [u|e'] eqn:Eu; cbn [bind].
    + intros E. destruct IH as (q & Hq & Hi); [by destruct (mapM classed_uptime ps); [|injection E as ->]|].
      exists q. split; [by right | done].
    + intros E. injection E as ->. exists p. split; [left | done].
Qed.
