(* ===== verification/Watchdog.v ===== *)
(** * The watchdog: [watchdog/metrics.py] and [watchdog/watchdog.py]

    Five collectors run for ever, each at its own pace, in one thread; an exception
    ends a turn of its collector and is counted.  What a turn observes (pods, logs,
    blobs, commands) is an argument; times are in microseconds.  As in [NodeStatus],
    the gauges are the history of the values set. *)

From stdpp Require Import base list strings.
From Stdlib Require Import Ascii ZArith Lia.
From S2P Require Import Prelude Dict Counter PyStr Effects NodeStatus PodExec.
Open Scope string_scope.
Open Scope Z_scope.

Record container_status : Type := ContainerStatus {
  c_name : string;
  restart_count : Z;
  last_terminated : option Z      (* ['last_state']['terminated']['started_at'] *)
}.

(** The containers of a running pod are a list; the code looks at no other pod's. *)
Record pod_status : Type := PodStatus { p_name : string; p_phase : string; container_statuses : list container_status }.

Definition running (p : pod_status) : bool := String.eqb (p_phase p) "Running".

(** [name in [...]] *)
Definition named (names : list string) (c : container_status) : bool := bool_decide (c_name c ∈ names).

(** ** [collect_cluster_crashes] *)
Definition restarted_recently (now : Z) (c : container_status) : bool :=
  if restart_count c =? 0 then false
  else match last_terminated c with
       | None => false
       | Some restart_time => now - restart_time <=? 30 * 60 * 1000000
       end.

Definition mina_containers (pods : list pod_status) : list container_status :=
  List.filter (named ["coda"; "seed"; "coordinator"; "archive"]) (flat_map container_statuses (List.filter running pods)).

Definition collect_cluster_crashes (pods : list pod_status) (now : Z) : M (list gauge) unit :=
  let cs := mina_containers pods in
  do fraction_recently_restarted <- lift (divide (count (restarted_recently now) cs) (zlength cs)) in
  set_gauge "cluster_crashes" fraction_recently_restarted.

(** ** [pods_with_no_new_logs] *)
Section Logs.
(** [read_namespaced_pod_log] of the last hour. *)
Context (read_log : string -> string -> result string).

Definition count_pod (counts : Z * Z) (p : pod_status) : result (Z * Z) :=
  let '(count, total_running_pods) := counts in
  if running p then
    match List.filter (named ["coda"; "seed"; "coordinator"]) (container_statuses p) with
    | [] => Ok (count, total_running_pods + 1)
    | c :: _ =>
        let* recent_logs := read_log (p_name p) (c_name c) in
        Ok (if (String.length recent_logs =? 0)%nat then count + 1 else count, total_running_pods + 1)
    end
  else Ok (count, total_running_pods).

Definition pods_with_no_new_logs (pods : list pod_status) : M (list gauge) unit :=
  do (count, total_running_pods) <- lift (foldM count_pod pods (0, 0)) in
  do fraction_no_new_logs <- lift (divide count total_running_pods) in
  set_gauge "nodes_with_no_new_logs" fraction_no_new_logs.
End Logs.

(** ** [check_google_storage_bucket], the generation of a blob being its time *)
Definition check_google_storage_bucket (now : Z) (generations : list Z) : M (list gauge) unit :=
  do newest_age <- lift (match map (fun g => now - g) generations with
                         | [] => Err (ValueError "min() arg is an empty sequence")
                         | a :: ages => Ok (fold_left Z.min ages a)
                         end) in
  set_gauge "recent_google_bucket_blocks" (newest_age, 1000000).

(** ** [check_seed_list_up] *)
Definition daemon_containers (pods : list pod_status) : list (string * string) :=
  flat_map (fun p => map (fun c => (p_name p, c_name c)) (List.filter (named ["coda"; "mina"; "seed"]) (container_statuses p)))
    (List.filter running pods).

Section Seeds.
(** [exec_on_pod]; the ['chain_id'] of a Python literal; the shell; [json.loads]. *)
Context (exec_on_pod : string -> string -> string -> result string) (chain_id_of : string -> result string)
  (shell : string -> string) (json_loads : string -> result (dict string bool)).

(** The body of the [try] after the command: the value of [resp] and the chain id. *)
Definition chain_id_of_resp (resp : string) : string * result string :=
  let resp := strip resp in
  match resp with
  | EmptyString => (resp, Err IndexError)
  | String a _ =>
      if Ascii.eqb a "{" then (resp, chain_id_of (strip resp))
      else match split newline resp with
           | _ :: (_ :: _) as rest => let resp := join (String newline "") (tl rest) in (resp, chain_id_of (strip resp))
           | _ => (resp, Err IndexError)
           end
  end.

(** The loop of [get_chain_id]; [resp] is unbound until a command has answered, and the
    handler of the [except] prints it. *)
Fixpoint chain_id_loop (containers : list (string * string)) (resp : option string) : result (option string) :=
  match containers with
  | [] => Ok None
  | (pod_name, container_name) :: containers' =>
      match exec_on_pod pod_name container_name "mina client status --json" with
      | Ok out =>
          match chain_id_of_resp out with
          | (_, Ok chain_id) => Ok (Some chain_id)
          | (resp, Err _) => chain_id_loop containers' (Some resp)
          end
      | Err _ =>
          match resp with
          | None => Err UnboundLocalError
          | Some resp => chain_id_loop containers' (Some resp)
          end
      end
  end.

Definition get_chain_id (pods : list pod_status) : result (option string) := chain_id_loop (daemon_containers pods) None.

Definition check_seed_list_up (pods : list pod_status) (seed_list : result string) : M (list gauge) unit :=
  do contents <- lift seed_list in
  let seeds := join " " (split newline contents) in
  do chain_id <- lift (get_chain_id pods) in
  match chain_id with
  | None => ret tt
  | Some chain_id =>
      do res <- lift (json_loads (shell ("stdbuf -o0 check_libp2p/check_libp2p " +:+ chain_id +:+ " " +:+ seeds))) in
      do fraction_up <- lift (divide (count (fun b => b) (values res)) (zlength res)) in
      set_gauge "seeds_reachable" fraction_up
  end.
End Seeds.

(** ** The scheduler of [watchdog.py] *)
Record watchdog : Type := Watchdog { gauges : list gauge; error_counter : Z }.

(** A collector, and the seconds between two of its turns. *)
Definition collector : Type := M (list gauge) unit.

(** What the turns of the five collectors observe. *)
Record observation : Type := Observation {
  o_pods : list pod_status;
  o_now : Z;
  o_read_log : string -> string -> result string;
  o_status_pods : list pod;
  o_exec : string -> string -> result string;
  o_literal_eval : string -> result resp;
  o_exec_on_pod : string -> string -> string -> result string;
  o_chain_id_of : string -> result string;
  o_shell : string -> string;
  o_json_loads : string -> result (dict string bool);
  o_seed_list : result string;
  o_generations : list Z
}.

Definition fns (check_bucket : bool) : list ((observation -> collector) * Z) :=
  ([(fun o => collect_cluster_crashes (o_pods o) (o_now o), 30 * 60);
    (fun o => collect_node_status_metrics (o_exec o) (o_literal_eval o) (o_status_pods o), 10 * 60);
    (fun o => check_seed_list_up (o_exec_on_pod o) (o_chain_id_of o) (o_shell o) (o_json_loads o) (o_pods o) (o_seed_list o), 60 * 60);
    (fun o => pods_with_no_new_logs (o_read_log o) (o_pods o), 60 * 10)]
   ++ (if check_bucket then [(fun o => check_google_storage_bucket (o_now o) (o_generations o), 30 * 60)] else []))%list.

(** A collector works on the gauges of the process. *)
Definition on_gauges (c : collector) : M watchdog unit := fun w =>
  let '(g, r) := c (gauges w) in (Watchdog g (error_counter w), r).

Definition inc (w : watchdog) : watchdog := Watchdog (gauges w) (error_counter w + 1).

(** The turns of the collectors in the order the event loop runs them. *)
Definition run_turns (check_bucket : bool) (turns : list (nat * observation)) : M watchdog unit :=
  for_each turns (fun t =>
    match fns check_bucket !! fst t with
    | Some (fn, _) => run_periodically_turn (on_gauges (fn (snd t))) inc (fun w => w)
    | None => ret tt
    end).

(** ** [main] and [util.get_kubernetes] *)

(** The metrics that [main] makes: the parameter of the collector that sets each, and the
    name it is exposed under. *)
Definition registered : dict string string :=
  map (fun e => (fst e, "Coda_watchdog_" +:+ snd e))
  [("cluster_crashes", "cluster_crashes"); ("error_counter", "errors");
   ("nodes_synced_near_best_tip", "nodes_synced_near_best_tip"); ("nodes_synced", "nodes_synced");
   ("nodes_responded", "nodes_responded"); ("prover_errors", "prover_errors");
   ("nodes_with_no_new_logs", "pods_with_no_new_logs"); ("nodes_queried", "nodes_queried");
   ("seed_nodes_responded", "nodes_responded_to_seed"); ("seed_nodes_queried", "nodes_queried_by_seed");
   ("context_deadline_exceeded", "deadline_exceeded"); ("failed_security_protocol_negotiation", "failed_negotiation");
   ("connection_refused_errors", "connection_refused"); ("size_limit_exceeded_errors", "size_limit_exceeded");
   ("timed_out_errors", "timed_out"); ("stream_reset_errors", "stream_reset");
   ("other_connection_errors", "node_status_other_errors"); ("nodes_errored", "node_status_errors");
   ("recent_google_bucket_blocks", "recent_google_bucket_blocks"); ("seeds_reachable", "seeds_reachable")].

Section Main.
Context (environ : string -> option string) (load_kube_config load_incluster_config : result unit)
  (namespace_file : result string).

(** The namespace; outside of the cluster it may be [None]. *)
Definition get_kubernetes : result (option string) :=
  match environ "LOCAL_KUBERNETES" with
  | Some _ => let* _ := load_kube_config in Ok (environ "KUBERNETES_NAMESPACE")
  | None => let* _ := load_incluster_config in let* namespace := namespace_file in Ok (Some namespace)
  end.

(** [int(os.environ['METRICS_PORT'])] *)
Definition metrics_port : result Z :=
  match environ "METRICS_PORT" with Some port => py_int port | None => Err KeyError end.

Definition check_bucket_wanted : bool := match environ "CHECK_GCLOUD_STORAGE_BUCKET" with Some _ => true | None => false end.

(** The process, as far as the turns that the event loop has run; the collectors get the
    namespace in what they observe. *)
Definition main (turns : option string -> list (nat * observation)) : M watchdog unit :=
  do _ <- lift metrics_port in
  do namespace <- lift get_kubernetes in
  run_turns check_bucket_wanted (turns namespace).
End Main.

(** ** Turns are independent *)
Definition appends (c : collector) : Prop := forall g, c g = (g ++ fst (c []), snd (c []))%list.

Definition appendsM {A} (c : M (list gauge) A) : Prop := forall g, c g = (g ++ fst (c []), snd (c []))%list.

Lemma appends_lift {A} (r : result A) : appendsM (lift r).
Proof. intros g. unfold lift. cbn. by rewrite app_nil_r. Qed.

Lemma appends_ret {A} (a : A) : appendsM (ret a).
Proof. intros g. unfold ret. cbn. by rewrite app_nil_r. Qed.

Lemma appends_gauge name v : appendsM (set_gauge name v).
Proof. intros g. done. Qed.

Lemma appends_int_gauge name z : appendsM (int_gauge name z).
Proof. apply appends_gauge. Qed.

Lemma appends_bind {A B} (m : M (list gauge) A) (k : A -> M (list gauge) B) :
  appendsM m -> (forall a, appendsM (k a)) -> appendsM (bindM m k).
Proof.
  intros Hm Hk g. unfold bindM. rewrite (Hm g), (Hm []). destruct (m []) as [g0 [a|e]]; cbn [fst snd app].
  - rewrite (Hk a (g ++ g0)%list), (Hk a g0). cbn [fst snd]. by rewrite app_assoc.
  - done.
Qed.

Create HintDb appends.
#[export] Hint Resolve appends_lift appends_ret appends_gauge appends_int_gauge : appends.

Ltac appends_step :=
  match goal with
  | |- appendsM (bindM _ _) => apply appends_bind; [|intros ?]
  | |- appendsM (match ?x with _ => _ end) => destruct x
  | |- appendsM (let '(_, _) := ?x in _) => destruct x
  | _ => by auto with appends
  end.

Lemma fns_append check_bucket i fn period o : fns check_bucket !! i = Some (fn, period) -> appendsM (fn o).
Proof.
  unfold fns. intros H. apply list_elem_of_lookup_2 in H. apply elem_of_app in H as [H|H].
  - repeat (apply elem_of_cons in H as [[= -> _]|H]); [..|by apply elem_of_nil in H].
    + unfold collect_cluster_crashes. repeat appends_step.
    + unfold collect_node_status_metrics, set_metrics. repeat appends_step.
    + unfold check_seed_list_up. repeat appends_step.
    + unfold pods_with_no_new_logs. repeat appends_step.
  - destruct check_bucket; [|by apply elem_of_nil in H]. apply list_elem_of_singleton in H as [= -> _].
    unfold check_google_storage_bucket. repeat appends_step.
Qed.

(** What the turn of a collector does, seen alone. *)
Definition turn_alone (check_bucket : bool) (t : nat * observation) : list gauge * result unit :=
  match fns check_bucket !! fst t with
  | Some (fn, _) => fn (snd t) []
  | None => ([], Ok tt)
  end.

(** The collectors set metrics of [main] only. *)
Definition known_gauge (g : gauge) : Prop := fst g ∈ keys registered.

Lemma set_known name v : bool_decide (name ∈ keys registered) = true -> keeps (Forall known_gauge) (set_gauge name v).
Proof.
  intros H%bool_decide_eq_true. apply hoare_modify. intros g Hg. apply Forall_app. split; [done|]. by constructor.
Qed.

Ltac known_step := first [done | progress hoare_step | by apply set_known | progress (unfold int_gauge) | progress (cbv zeta)].

Lemma fns_known check_bucket i fn period o : fns check_bucket !! i = Some (fn, period) -> keeps (Forall known_gauge) (fn o).
Proof.
  unfold fns. intros H. apply list_elem_of_lookup_2 in H. apply elem_of_app in H as [H|H].
  - repeat (apply elem_of_cons in H as [[= -> _]|H]); [..|by apply elem_of_nil in H].
    + unfold collect_cluster_crashes. repeat known_step.
    + unfold collect_node_status_metrics, set_metrics. repeat known_step.
    + unfold check_seed_list_up. repeat known_step.
    + unfold pods_with_no_new_logs. repeat known_step.
  - destruct check_bucket; [|by apply elem_of_nil in H]. apply list_elem_of_singleton in H as [= -> _].
    unfold check_google_storage_bucket. repeat known_step.
Qed.

Lemma turn_known check_bucket t : Forall known_gauge (fst (turn_alone check_bucket t)).
Proof.
  unfold turn_alone. destruct (fns check_bucket !! fst t) as [[fn period]|] eqn:E; [|constructor].
  pose proof (fns_known _ _ _ _ (snd t) E [] ltac:(constructor)) as H. by destruct (fn (snd t) []) as [g [[]|e]].
Qed.

Lemma run_turns_alone check_bucket turns w :
  run_turns check_bucket turns w =
  (Watchdog (gauges w ++ flat_map (fun t => fst (turn_alone check_bucket t)) turns)
     (error_counter w + count (fun t => negb (is_ok (snd (turn_alone check_bucket t)))) turns), Ok tt).
Proof.
  unfold run_turns. revert w. induction turns as [|[i o] turns IH]; intros w; cbn [for_each flat_map].
  - unfold ret, count. cbn. rewrite app_nil_r, Z.add_0_r. by destruct w.
  - rewrite count_cons. unfold bindM at 1. unfold turn_alone at 1 3. cbn [fst snd].
    destruct (fns check_bucket !! i) as [[fn period]|] eqn:E.
    + pose proof (fns_append _ _ _ _ o E (gauges w)) as Hf.
      unfold run_periodically_turn, bindM, try_except, on_gauges. rewrite Hf. destruct (fn o []) as [g [[]|e]]; cbn;
        rewrite IH; cbn; rewrite app_assoc; unfold count; f_equal; f_equal; lia.
    + cbn. by rewrite IH.
Qed.


(** ** The chain id *)
Section ChainId.
Context (exec_on_pod : string -> string -> string -> result string) (chain_id_of : string -> result string).

Definition answer (c : string * string) : result string :=
  let* out := exec_on_pod (fst c) (snd c) "mina client status --json" in snd (chain_id_of_resp chain_id_of out).

Definition first_answer (cs : list (string * string)) : option string :=
  head (flat_map (fun c => match answer c with Ok i => [i] | Err _ => [] end) cs).

Lemma chain_id_loop_bound cs resp :
  chain_id_loop exec_on_pod chain_id_of cs (Some resp) = Ok (first_answer cs).
Proof.
  unfold first_answer. revert resp. induction cs as [|[p c] cs IH]; intros resp; cbn [chain_id_loop flat_map]; [done|].
  unfold answer at 1. cbn [fst snd]. destruct (exec_on_pod p c _) as [out|e]; cbn [bind]; [|apply IH].
  destruct (chain_id_of_resp chain_id_of out) as [r [i|e]]; cbn [snd]; [done | apply IH].
Qed.

(** [get_chain_id] answers the chain id of the first daemon container whose status holds
    one, trying them in turn, and [None] when none does, provided that the command runs on the
    first container; when it does not, the handler of the exception reads a variable that is not
    yet bound, and [UnboundLocalError] leaves the function although later containers would have
    answered. *)
Theorem get_chain_id_outcome pods :
  get_chain_id exec_on_pod chain_id_of pods =
  match daemon_containers pods with
  | [] => Ok None
  | (p, c) :: _ =>
      if is_ok (exec_on_pod p c "mina client status --json") then Ok (first_answer (daemon_containers pods))
      else Err UnboundLocalError
  end.
Proof.
  unfold get_chain_id. destruct (daemon_containers pods) as [|[p c] cs]; [done|]. cbn [chain_id_loop].
  unfold first_answer. cbn [flat_map]. unfold answer at 1. cbn [fst snd].
  destruct (exec_on_pod p c _) as [out|e]; cbn [bind is_ok]; [|done].
  destruct (chain_id_of_resp chain_id_of out) as [r [i|e]]; cbn [snd]; [done | apply chain_id_loop_bound].
Qed.
End ChainId.
