(* ===== verification/Networkx.v ===== *)
(** * Directed graphs as the visualizers use them

    [networkx] is outside the repository.  The class [Networkx] has the operations of a
    [DiGraph] that the visualizers call, for edges that carry a weight and may have a colour;
    [NetworkxLaws] states what their graphs rely on: nodes and edges that are added are there,
    [add_edge] adds its ends, and the last weight of an edge counts.  Graphs made of two
    dictionaries are an instance. *)

From stdpp Require Import base list strings.
From Stdlib Require Import Lia.
From S2P Require Import Prelude Dict.

(** The attributes of a node. *)
Record attrs : Type := Attrs { color : option string; label : option string }.

Class Networkx (W : Type) : Type := {
  digraph : Type;
  DiGraph : digraph;
  add_node : string -> attrs -> digraph -> digraph;
  add_edge : string -> string -> option string -> W -> digraph -> digraph;
  has_node : digraph -> string -> bool;                  (* [n in graph] *)
  edge_weight : digraph -> string -> string -> option W; (* [graph[u][v]['weight']] *)
  nodes_data : digraph -> list (string * attrs);         (* [graph.nodes(data=True)] *)
  edges_data : digraph -> list (string * string * W)     (* [graph.edges(data=True)] *)
}.

Class NetworkxLaws (W : Type) `{NX : Networkx W} : Prop := {
  has_node_empty : forall n, has_node DiGraph n = false;
  has_node_add_node : forall n a g m, has_node (add_node n a g) m = true <-> m = n \/ has_node g m = true;
  has_node_add_edge : forall u v c w g m, has_node (add_edge u v c w g) m = true <-> m = u \/ m = v \/ has_node g m = true;
  weight_empty : forall u v, edge_weight DiGraph u v = None;
  weight_add_node : forall n a g u v, edge_weight (add_node n a g) u v = edge_weight g u v;
  weight_add_edge : forall u v c w g x y,
    edge_weight (add_edge u v c w g) x y = if decide ((x, y) = (u, v)) then Some w else edge_weight g x y
}.

(** ** Two dictionaries *)
Section Dicts.
Context {W : Type}.

Record edge_attrs : Type := EdgeAttrs { e_color : option string; e_weight : W }.

Record graph : Type := Graph { nodes : dict string attrs; edges : dict (string * string) edge_attrs }.

(** Attributes that are not given stay. *)
Definition first {A} (x y : option A) : option A := match x with Some _ => x | None => y end.

Definition put_node (n : string) (a : attrs) (g : graph) : graph :=
  let a0 := default (Attrs None None) (get (nodes g) n) in
  Graph (set n (Attrs (first (color a) (color a0)) (first (label a) (label a0))) (nodes g)) (edges g).

Definition ensure_node (n : string) (g : graph) : graph :=
  if mem n (nodes g) then g else Graph (set n (Attrs None None) (nodes g)) (edges g).

Definition put_edge (u v : string) (c : option string) (w : W) (g : graph) : graph :=
  let g := ensure_node v (ensure_node u g) in
  let c0 := match get (edges g) (u, v) with Some a => e_color a | None => None end in
  Graph (nodes g) (set (u, v) (EdgeAttrs (first c c0) w) (edges g)).

Definition weight_at (g : graph) (u v : string) : option W :=
  match get (edges g) (u, v) with Some a => Some (e_weight a) | None => None end.

#[export] Instance dict_networkx : Networkx W := {|
  digraph := graph;
  DiGraph := Graph [] [];
  add_node := put_node;
  add_edge := put_edge;
  has_node g n := mem n (nodes g);
  edge_weight := weight_at;
  nodes_data := nodes;
  edges_data g := map (fun e => (fst e, e_weight (snd e))) (edges g)
|}.

Lemma mem_ensure_node n g m : mem m (nodes (ensure_node n g)) = true <-> m = n \/ mem m (nodes g) = true.
Proof.
  unfold ensure_node. destruct (mem n (nodes g)) eqn:E; [naive_solver|].
  cbn [nodes]. by rewrite !mem_true, elem_of_keys_set.
Qed.

Lemma edges_ensure_node n g : edges (ensure_node n g) = edges g.
Proof. unfold ensure_node. by destruct (mem n (nodes g)). Qed.

#[export] Instance dict_networkx_laws : NetworkxLaws W.
Proof.
  split; try done; cbn.
  - intros n a g m. unfold put_node. cbn [nodes]. by rewrite !mem_true, elem_of_keys_set.
  - intros u v c w g m. unfold put_edge. cbn [nodes]. rewrite !mem_ensure_node. tauto.
  - intros u v c w g x y. unfold weight_at, put_edge. cbn [edges]. rewrite !edges_ensure_node, get_set. by case_decide.
Qed.
End Dicts.

Arguments edge_attrs : clear implicits.
Arguments graph : clear implicits.
