(* ===== verification/Gossip.v ===== *)
(** * The gossip visualizer, [testnet-validation/rebroadcasted_blocks_vis.py]

    Log entries are sorted by the kind of their message and the block they are about;
    each block that was rebroadcast gets the directed graph of the peers that received
    it.  A log has the fields that the code reads ([None]: the key is missing), its time
    is in microseconds, and a merged log has the label [k8s-pod/app] beside them; labels
    do not override the fields of the payload.  The graphs are those of the
    interface Networkx. *)

From stdpp Require Import base list strings.
From Stdlib Require Import Ascii ZArith Lia.
From S2P Require Import Prelude Dict PyStr PySet Networkx.
Open Scope string_scope.
Open Scope Z_scope.

Record payload : Type := Payload {
  message : string;
  state_hash : option string;
  peer_id : option string;
  host : option string;
  sender : option string;      (* ['sender']['Remote']['peer_id'] *)
  timestamp : Z
}.

Record log : Type := Log { pay : payload; app : option string }.

Record entry : Type := Entry { json_payload : payload; labels : option (dict string string) }.

(** ** Sorting the entries *)
Record sorted : Type := Sorted {
  broadcasting_block_logs : dict string (list log);
  received_block_logs : dict string (list log);
  rebroadcasting_block_logs : dict string (list log)
}.

Definition append_log (h : string) (l : log) (d : dict string (list log)) : dict string (list log) :=
  match get d h with
  | Some logs => set h (logs ++ [l])%list d
  | None => set h [l] d
  end.

Definition sort_entry (s : sorted) (e : entry) : sorted :=
  match state_hash (json_payload e), labels e with
  | Some h, Some labels =>
      let l := Log (json_payload e) (get labels "k8s-pod/app") in
      let m := message (json_payload e) in
      let b := if contains "Broadcasting new state" m then append_log h l (broadcasting_block_logs s)
               else broadcasting_block_logs s in
      if contains "Received" m then Sorted b (append_log h l (received_block_logs s)) (rebroadcasting_block_logs s)
      else if contains "Rebroadcasting" m then
        Sorted b (received_block_logs s) (append_log h l (rebroadcasting_block_logs s))
      else Sorted b (received_block_logs s) (rebroadcasting_block_logs s)
  | _, _ => s
  end.

(** The loop over the log, left before the entry number [max_entries]. *)
Fixpoint sort_entries (max_entries nBlocks : Z) (es : list entry) (s : sorted) : sorted :=
  match es with
  | [] => s
  | e :: es' => if nBlocks + 1 =? max_entries then s else sort_entries max_entries (nBlocks + 1) es' (sort_entry s e)
  end.

(** ** Graphs *)
Inductive weight : Type :=
| NoSenderLog                (* -1 *)
| Microseconds (z : Z).      (* z / 1000 *)

(** [retrieve_log(logs, 'peer_id', value)] *)
Fixpoint retrieve_log (logs : list log) (value : string) : result (option log) :=
  match logs with
  | [] => Ok None
  | l :: logs' =>
      let* p := need (peer_id (pay l)) in
      if String.eqb p value then Ok (Some l) else retrieve_log logs' value
  end.

Definition app_label (l : log) : result string :=
  let* a := need (app l) in Ok (replace_str "-block-producer-" "-" a).

(** [timedelta.microseconds] *)
Definition delta_microseconds (t1 t2 : Z) : Z := (t1 - t2) mod 1000000.

Section Graphs.
Context `{NX : Networkx weight}.

(** A turn of the loop over the received logs of a block. *)
Definition add_received (rebroadcasts : list log) (g : digraph) (receive_log : log) : result digraph :=
  let* sender := need (sender (pay receive_log)) in
  let* _ := need (host (pay receive_log)) in
  let* receiver := need (peer_id (pay receive_log)) in
  let* rebroadcast_log := retrieve_log rebroadcasts sender in
  match rebroadcast_log with
  | None =>
      let g := if has_node g sender then g
               else add_node sender (Attrs (Some "white") (Some (take_str 12 sender))) g in
      let* g := if has_node g receiver then Ok g
                else let* a := app_label receive_log in Ok (add_node receiver (Attrs None (Some a)) g) in
      Ok (add_edge sender receiver None NoSenderLog g)
  | Some l =>
      let weight := Microseconds (delta_microseconds (timestamp (pay receive_log)) (timestamp (pay l))) in
      let* a := app_label receive_log in
      Ok (add_edge sender receiver None weight (add_node receiver (Attrs None (Some a)) g))
  end.

Definition block_graph (received rebroadcasts : list log) : result digraph :=
  foldM (add_received rebroadcasts) received DiGraph.

(** ** The lists made of a graph before it is drawn *)

(** [weight > 2] *)
Definition above_2 (w : weight) : bool := match w with NoSenderLog => false | Microseconds z => 2000 <? z end.

Definition stored_weight (g : digraph) (e : string * string) : result weight := need (edge_weight g (fst e) (snd e)).

Definition edgelist (g : digraph) : result (list (string * string)) :=
  foldM (fun l e => let* w := stored_weight g e in Ok (if above_2 w then l ++ [e] else l)%list) (map fst (edges_data g)) [].

Definition color_map (g : digraph) : list string := map (fun node => default "blue" (color (snd node))) (nodes_data g).

Definition weights (g : digraph) : result (list weight) := let* l := edgelist g in mapM (stored_weight g) l.

Definition insert_node (label : string) (g : digraph) : digraph :=
  if has_node g label then g else add_node label (Attrs None None) g.

(** The graphs drawn: one for each block that was rebroadcast. *)
Definition rebroadcast_graphs (s : sorted) : result (list (string * digraph)) :=
  mapM (fun '(key, rebroadcasts) =>
    let* g := block_graph (default [] (get (received_block_logs s) key)) rebroadcasts in Ok (key, g))
    (rebroadcasting_block_logs s).

Definition _process_log_iterator (max_entries : Z) (log_iterator : list entry) : result (list (string * digraph)) :=
  rebroadcast_graphs (sort_entries max_entries 0 log_iterator (Sorted [] [] [])).
End Graphs.

(** The edges listed, when every edge has a weight, are those above 2 ms. *)
Lemma edgelist_above `{NX : Networkx weight} g : (forall e, e ∈ map fst (edges_data g) -> exists w, stored_weight g e = Ok w) ->
  edgelist g = Ok (List.filter (fun e => match stored_weight g e with Ok w => above_2 w | Err _ => false end) (map fst (edges_data g))).
Proof.
  intros H. unfold edgelist. assert (G : forall es acc, (forall e, e ∈ es -> exists w, stored_weight g e = Ok w) ->
    foldM (fun l e => let* w := stored_weight g e in Ok (if above_2 w then l ++ [e] else l)%list) es acc
    = Ok (acc ++ List.filter (fun e => match stored_weight g e with Ok w => above_2 w | Err _ => false end) es)%list).
  { induction es as [|e es IH]; intros acc He; cbn [foldM List.filter]; [by rewrite app_nil_r|].
    destruct (He e) as [w Hw]; [left|]. rewrite Hw. cbn [bind]. rewrite IH by (intros e' Hin; apply He; by right).
    destruct (above_2 w); [|done]. by rewrite <- app_assoc. }
  by rewrite (G _ [] H).
Qed.

(** ** What is sorted where *)
Definition about (h : string) (kind : string -> bool) (e : entry) : bool :=
  match state_hash (json_payload e), labels e with
  | Some h', Some _ => String.eqb h' h && kind (message (json_payload e))
  | _, _ => false
  end.

Definition merged (e : entry) : log :=
  Log (json_payload e) (match labels e with Some l => get l "k8s-pod/app" | None => None end).

Definition is_broadcast (m : string) : bool := contains "Broadcasting new state" m.
Definition is_received (m : string) : bool := contains "Received" m.
Definition is_rebroadcast (m : string) : bool := negb (contains "Received" m) && contains "Rebroadcasting" m.

Definition logs_about (h : string) (kind : string -> bool) (es : list entry) : list log :=
  map merged (List.filter (about h kind) es).

(** The dictionary holds the logs of that kind. *)
Definition holds (kind : string -> bool) (es : list entry) (d : dict string (list log)) : Prop :=
  wf d /\ forall h, get d h = match logs_about h kind es with [] => None | l => Some l end.

Lemma wf_append_log h l d : wf d -> wf (append_log h l d).
Proof. unfold append_log. destruct (get d h); auto with py. Qed.

Lemma get_append_log h l d h' :
  get (append_log h l d) h' = if decide (h' = h) then Some (default [] (get d h) ++ [l])%list else get d h'.
Proof. unfold append_log. destruct (get d h) eqn:E; rewrite get_set; case_decide; done. Qed.

Lemma logs_about_snoc h kind es e :
  logs_about h kind (es ++ [e]) = (logs_about h kind es ++ if about h kind e then [merged e] else [])%list.
Proof.
  unfold logs_about. rewrite List.filter_app, map_app. cbn [List.filter]. by destruct (about h kind e).
Qed.

Lemma holds_add (kind : string -> bool) es e d hh l : holds kind es d ->
  state_hash (json_payload e) = Some hh -> labels e = Some l ->
  holds kind (es ++ [e]) (if kind (message (json_payload e)) then append_log hh (merged e) d else d).
Proof.
  intros [Hw Hd] Hh Hl. split; [destruct (kind _); [by apply wf_append_log | done]|]. intros h.
  rewrite logs_about_snoc. unfold about. rewrite Hh, Hl. destruct (kind (message (json_payload e))) eqn:Ek.
  - rewrite get_append_log, andb_true_r, !Hd. destruct (String.eqb_spec hh h) as [->|Hne].
    + rewrite decide_True by done. by destruct (logs_about h kind es).
    + rewrite decide_False by congruence. by rewrite app_nil_r.
  - by rewrite andb_false_r, app_nil_r, Hd.
Qed.

Lemma holds_skip (kind : string -> bool) es e d : holds kind es d ->
  state_hash (json_payload e) = None \/ labels e = None -> holds kind (es ++ [e]) d.
Proof.
  intros [Hw Hd] He. split; [done|]. intros h. rewrite logs_about_snoc, Hd. unfold about.
  destruct (state_hash (json_payload e)), (labels e); rewrite ?app_nil_r; try done. by destruct He.
Qed.

Definition sorted_from (es : list entry) (s : sorted) : Prop :=
  holds is_broadcast es (broadcasting_block_logs s) /\ holds is_received es (received_block_logs s) /\
  holds is_rebroadcast es (rebroadcasting_block_logs s).

Lemma sort_entry_spec es e s : sorted_from es s -> sorted_from (es ++ [e]) (sort_entry s e).
Proof.
  intros (Hb & Hr & Hrb). unfold sort_entry.
  destruct (state_hash (json_payload e)) as [h|] eqn:Eh; [|split_and!; apply holds_skip; auto].
  destruct (labels e) as [l|] eqn:El; [|split_and!; apply holds_skip; auto].
  pose proof (holds_add _ _ _ _ _ _ Hb Eh El) as Hb'. pose proof (holds_add _ _ _ _ _ _ Hr Eh El) as Hr'.
  pose proof (holds_add _ _ _ _ _ _ Hrb Eh El) as Hrb'. unfold merged in Hb', Hr', Hrb'. rewrite El in Hb', Hr', Hrb'.
  unfold is_broadcast, is_received, is_rebroadcast in *.
  destruct (contains "Received" _), (contains "Rebroadcasting" _); split_and!; done.
Qed.

Lemma sort_entries_spec max_entries n es done_ s : sorted_from done_ s ->
  sorted_from (done_ ++ (if (n <? max_entries)%Z then take (Z.to_nat (max_entries - n - 1)) es else es))
    (sort_entries max_entries n es s).
Proof.
  revert n done_ s. induction es as [|e es IH]; intros n done_ s H; cbn [sort_entries].
  - rewrite take_nil. destruct (n <? max_entries)%Z; by rewrite app_nil_r.
  - specialize (IH (n + 1) (done_ ++ [e])%list (sort_entry s e) (sort_entry_spec _ _ _ H)).
    destruct (Z.eqb_spec (n + 1) max_entries) as [E|E].
    + destruct (Z.ltb_spec n max_entries); [|lia]. replace (Z.to_nat _) with 0%nat by lia. cbn. by rewrite app_nil_r.
    + rewrite <- app_assoc in IH. destruct (Z.ltb_spec n max_entries), (Z.ltb_spec (n + 1) max_entries); try lia; [|done].
      replace (Z.to_nat (max_entries - n - 1)) with (S (Z.to_nat (max_entries - (n + 1) - 1))) by lia. done.
Qed.

(** ** The graph of a block *)
Definition link (u v : string) (l : log) : bool :=
  bool_decide (sender (pay l) = Some u) && bool_decide (peer_id (pay l) = Some v).

Definition weight_of (rebroadcasts : list log) (u : string) (l : log) : weight :=
  match retrieve_log rebroadcasts u with
  | Ok (Some r) => Microseconds (delta_microseconds (timestamp (pay l)) (timestamp (pay r)))
  | _ => NoSenderLog
  end.

Section Correct.
Context `{NX : Networkx weight} `{NL : !NetworkxLaws weight}.

(** The graph of the logs of a block: an edge for every pair of a sender and a receiver,
    with the weight of their last log, and the nodes they name. *)
Definition graph_of (rebroadcasts received : list log) (g : digraph) : Prop :=
  (forall u v, edge_weight g u v = last (map (weight_of rebroadcasts u) (List.filter (link u v) received))) /\
  (forall n, has_node g n = true <-> exists l, l ∈ received /\ (sender (pay l) = Some n \/ peer_id (pay l) = Some n)).

(** Adding a node that may be there already. *)
Lemma has_node_ensured (c : bool) n a g m :
  m = n \/ has_node (if c then g else add_node n a g) m = true <-> m = n \/ has_node g m = true.
Proof. destruct c; [done|]. rewrite has_node_add_node. tauto. Qed.

Lemma weight_ensured (c : bool) n a g u v : edge_weight (if c then g else add_node n a g) u v = edge_weight g u v.
Proof. destruct c; [done|]. apply weight_add_node. Qed.

Lemma add_received_spec rebroadcasts g l g' : add_received rebroadcasts g l = Ok g' ->
  exists u v, sender (pay l) = Some u /\ peer_id (pay l) = Some v /\
    (forall x y, edge_weight g' x y = if decide ((x, y) = (u, v)) then Some (weight_of rebroadcasts u l) else edge_weight g x y) /\
    (forall x, has_node g' x = true <-> x = u \/ x = v \/ has_node g x = true).
Proof.
  unfold add_received. intros H. apply bind_Ok_inv in H as (u & Hu & H). apply bind_Ok_inv in H as (h & _ & H).
  apply bind_Ok_inv in H as (v & Hv & H). apply bind_Ok_inv in H as (r & Hr & H).
  exists u, v. unfold weight_of. rewrite Hr.
  destruct (sender (pay l)) as [u'|]; [|done]. destruct (peer_id (pay l)) as [v'|]; [|done].
  injection Hu as ->. injection Hv as ->. do 2 (split; [done|]). destruct r as [r|].
  - apply bind_Ok_inv in H as (a & _ & H). injection H as <-. split.
    + intros x y. by rewrite weight_add_edge, weight_add_node.
    + intros x. rewrite has_node_add_edge, has_node_add_node. tauto.
  - apply bind_Ok_inv in H as (g2 & H2 & H). injection H as <-.
    assert (H2' : exists a, g2 = if has_node (if has_node g u then g else add_node u (Attrs (Some "white") (Some (take_str 12 u))) g) v
      then if has_node g u then g else add_node u (Attrs (Some "white") (Some (take_str 12 u))) g
      else add_node v a (if has_node g u then g else add_node u (Attrs (Some "white") (Some (take_str 12 u))) g)).
    { destruct (has_node _ v); [exists (Attrs None None); by injection H2|]. apply bind_Ok_inv in H2 as (a & _ & H2).
      injection H2 as <-. by eexists. }
    destruct H2' as [a ->]. split.
    + intros x y. by rewrite weight_add_edge, !weight_ensured.
    + intros x. rewrite has_node_add_edge, has_node_ensured.
      pose proof (has_node_ensured (has_node g u) u (Attrs (Some "white") (Some (take_str 12 u))) g x). tauto.
Qed.

Lemma block_graph_spec rebroadcasts received g : block_graph received rebroadcasts = Ok g -> graph_of rebroadcasts received g.
Proof.
  enough (G : forall l done_ g0, graph_of rebroadcasts done_ g0 -> foldM (add_received rebroadcasts) l g0 = Ok g ->
             graph_of rebroadcasts (done_ ++ l) g).
  { apply (G received [] DiGraph). split; [intros u v; by rewrite weight_empty|].
    intros n. rewrite has_node_empty. setoid_rewrite elem_of_nil. naive_solver. }
  induction l as [|l ls IH]; intros done_ g0 H0 H; cbn [foldM] in H; [injection H as <-; by rewrite app_nil_r|].
  apply bind_Ok_inv in H as (g1 & H1 & H). rewrite cons_middle, app_assoc. eapply IH; [|done].
  destruct (add_received_spec _ _ _ _ H1) as (u & v & Hu & Hv & He & Hn). destruct H0 as [He0 Hn0]. split.
  - intros u' v'. rewrite He, List.filter_app, map_app. cbn [List.filter]. unfold link at 2. rewrite Hu, Hv.
    case_decide as D; [injection D as -> ->; rewrite !bool_decide_eq_true_2 by done; cbn; by rewrite last_snoc|].
    assert (E : bool_decide (Some u = Some u') && bool_decide (Some v = Some v') = false).
    { apply andb_false_iff. destruct (decide (u = u')) as [->|]; [right|left]; apply bool_decide_eq_false; congruence. }
    rewrite E. cbn [map]. by rewrite app_nil_r.
  - intros n. rewrite Hn, Hn0. setoid_rewrite elem_of_app. setoid_rewrite list_elem_of_singleton. naive_solver.
Qed.

Lemma rebroadcast_graphs_spec seen s graphs : sorted_from seen s -> rebroadcast_graphs s = Ok graphs ->
  NoDup (map fst graphs) /\
  (forall h, h ∈ map fst graphs <-> logs_about h is_rebroadcast seen <> []) /\
  (forall h g, (h, g) ∈ graphs -> graph_of (logs_about h is_rebroadcast seen) (logs_about h is_received seen) g).
Proof.
  intros (_ & [_ Hr] & [Hw Hrb]) H. unfold rebroadcast_graphs in H. apply mapM_Forall2 in H.
  assert (Hk : map fst graphs = keys (rebroadcasting_block_logs s)).
  { unfold keys. clear -H. induction H as [|[k l] [k' g] d gs Hh _ IH]; [done|]. cbn. rewrite IH. f_equal.
    apply bind_Ok_inv in Hh as (g' & _ & Hg). by injection Hg as ->. }
  rewrite Hk. split_and!; [done| |].
  - intros h. rewrite <- mem_true. unfold mem. rewrite Hrb. destruct (logs_about h is_rebroadcast seen) as [|x l]; [split; [done | intros X; by destruct X] | by split].
  - intros h g Hin. destruct (Forall2_elem_of_r _ _ _ _ H Hin) as ([k l] & Hl & Hg).
    apply bind_Ok_inv in Hg as (g' & Hg' & E). injection E as -> ->.
    apply (in_get _ _ _ Hw) in Hl. rewrite Hrb in Hl. rewrite Hr in Hg'. apply block_graph_spec in Hg'.
    destruct (logs_about h is_rebroadcast seen); [done|]. injection Hl as ->.
    by destruct (logs_about h is_received seen).
Qed.

(** ** When no key is missing *)
Definition given {A} (o : option A) : bool := match o with Some _ => true | None => false end.

Definition complete_received (l : log) : bool :=
  given (sender (pay l)) && given (host (pay l)) && given (peer_id (pay l)) && given (app l).

Definition complete_sent (l : log) : bool := given (peer_id (pay l)).

Lemma given_need {A} (o : option A) : given o = true -> exists a, o = Some a /\ need o = Ok a.
Proof. destruct o as [a|]; [|done]. by exists a. Qed.

Lemma app_label_total l : given (app l) = true -> exists a, app_label l = Ok a.
Proof. intros (a & _ & E)%given_need. unfold app_label. rewrite E. by eexists. Qed.

Lemma retrieve_log_total logs v : forallb complete_sent logs = true -> exists r, retrieve_log logs v = Ok r.
Proof.
  induction logs as [|l ls IH]; cbn [forallb retrieve_log]; [by exists None|]. intros [(p & _ & E)%given_need H]%andb_true_iff.
  rewrite E. cbn [bind]. destruct (String.eqb p v); [by eexists | by apply IH].
Qed.

Lemma add_received_total rebroadcasts g l : forallb complete_sent rebroadcasts = true -> complete_received l = true ->
  exists g', add_received rebroadcasts g l = Ok g'.
Proof.
  unfold complete_received. rewrite !andb_true_iff. intros Hrb (((Hs & Hh) & Hp) & Ha).
  destruct (given_need _ Hs) as (u & _ & Eu), (given_need _ Hh) as (h & _ & Eh), (given_need _ Hp) as (v & _ & Ev).
  destruct (app_label_total l Ha) as [a Ea], (retrieve_log_total rebroadcasts u Hrb) as [r Er].
  unfold add_received. rewrite Eu, Eh, Ev. cbn [bind]. rewrite Er. cbn [bind]. rewrite Ea. cbn [bind].
  destruct r; [by eexists|]. destruct (has_node _ v); by eexists.
Qed.

Lemma block_graph_total received rebroadcasts :
  forallb complete_sent rebroadcasts = true -> forallb complete_received received = true ->
  exists g, block_graph received rebroadcasts = Ok g.
Proof.
  intros Hrb Hr. unfold block_graph. generalize DiGraph as g.
  induction received as [|l ls IH]; intros g; [by exists g|]. cbn [forallb] in Hr. apply andb_true_iff in Hr as [Hl Hr].
  cbn [foldM]. destruct (add_received_total rebroadcasts g l Hrb Hl) as [g' ->]. cbn [bind]. by apply IH.
Qed.

(** No graph needs a key that an entry lacks. *)
Definition complete (es : list entry) : Prop :=
  forall h, forallb complete_sent (logs_about h is_rebroadcast es) = true /\
            forallb complete_received (logs_about h is_received es) = true.

Lemma rebroadcast_graphs_total es s : sorted_from es s -> complete es -> exists graphs, rebroadcast_graphs s = Ok graphs.
Proof.
  intros (_ & [_ Hr] & [Hw Hrb]) Hc. unfold rebroadcast_graphs.
  assert (H : forall k l, (k, l) ∈ rebroadcasting_block_logs s -> exists g, block_graph (default [] (get (received_block_logs s) k)) l = Ok g).
  { intros k l Hin. apply (in_get _ _ _ Hw) in Hin. rewrite Hrb in Hin. rewrite Hr. destruct (Hc k) as [H1 H2].
    apply block_graph_total; [by destruct (logs_about k is_rebroadcast es); [done|injection Hin as <-]|].
    by destruct (logs_about k is_received es). }
  clear -H. induction (rebroadcasting_block_logs s) as [|[k l] d IH]; [by exists []|]. cbn [mapM].
  destruct (H k l ltac:(left)) as [g ->]. cbn [bind]. destruct IH as [gs ->]; [|by eexists].
  intros k' l' Hin. apply H. by right.
Qed.
End Correct.


(** A block that [a] rebroadcasts and [b] receives from [a] and from [c]. *)
Definition toy_labels : option (dict string string) := Some [("k8s-pod/app", "fish-block-producer-1")].

Definition toy_entries : list entry :=
  [Entry (Payload "Rebroadcasting $state_hash" (Some "H") (Some "a") (Some "1.1.1.1") None 5000000) toy_labels;
   Entry (Payload "Received a block $block from $sender" (Some "H") (Some "b") (Some "2.2.2.2") (Some "a") 8250000) toy_labels;
   Entry (Payload "Received a block $block from $sender" (Some "H") (Some "b") (Some "2.2.2.2") (Some "c") 9000000) toy_labels].

Definition toy_graph : graph weight :=
  Graph [("b", Attrs None (Some "fish-1")); ("a", Attrs None None); ("c", Attrs (Some "white") (Some "c"))]
    [(("a", "b"), EdgeAttrs None (Microseconds 250000)); (("c", "b"), EdgeAttrs None NoSenderLog)].

