(* ===== verification/Notebook.v ===== *)
(** * The gossip notebook, [testnet-validation/Network-Visualization.ipynb]

    An earlier form of the gossip visualizer, cell by cell: three cells sort the logs that
    three queries fetched, and the last one draws, for each block that was rebroadcast, the
    graph of the peers from the block's creator on.  Logs and nodes are those of Gossip; an
    edge has a weight and may have a colour; the graphs are those of the interface Networkx.  The height of a block, read from its first
    broadcast log, and the text of a weight in milliseconds are parameters, as are layout
    and drawing. *)

From stdpp Require Import base list strings.
From Stdlib Require Import Ascii ZArith Lia.
From S2P Require Import Prelude Dict PyStr PySet Networkx Gossip.
Open Scope string_scope.
Open Scope Z_scope.

(** ** The three sorting cells *)
Definition sort_one (sub : string) (d : dict string (list log)) (e : entry) : dict string (list log) :=
  match state_hash (json_payload e), labels e with
  | Some h, Some labels =>
      if contains sub (message (json_payload e))
      then append_log h (Log (json_payload e) (get labels "k8s-pod/app")) d else d
  | _, _ => d
  end.

Definition rebroadcast_cell (rebroadcast_logs : list entry) : dict string (list log) :=
  fold_left (sort_one "Rebroadcasting") rebroadcast_logs [].

Fixpoint broadcast_loop (max_entries nBlocks : Z) (broadcast_logs : list entry) (d : dict string (list log)) : dict string (list log) :=
  match broadcast_logs with
  | [] => d
  | e :: rest =>
      if nBlocks + 1 =? max_entries then d
      else broadcast_loop max_entries (nBlocks + 1) rest (sort_one "Broadcasting new state" d e)
  end.

Definition broadcast_cell (max_entries : Z) (broadcast_logs : list entry) : dict string (list log) :=
  broadcast_loop max_entries 0 broadcast_logs [].

Definition received_cell (received_logs : list entry) : dict string (list log) :=
  fold_left (sort_one "Received") received_logs [].

(** The cell that prints the numbers of blocks. *)
Definition counts_cell (b rb r : dict string (list log)) : list string :=
  map (fun d => py_str (zlength (keys d))) [b; rb; r].

(** ** The graph cell *)
Inductive cell_weight : Type :=
| One                          (* 1 *)
| Milliseconds (us : Z).       (* us / 1000 *)

Section Graphs.
Context `{NX : Networkx cell_weight}.

(** The loop over the broadcasts of a block: the creators, the last of which is [root_node]. *)
Definition add_creator (st : digraph * option string) (e : log) : result (digraph * option string) :=
  let* p := need (peer_id (pay e)) in
  let* l := app_label e in
  Ok (add_node p (Attrs (Some "orange") (Some l)) (fst st), Some p).

(** [add_edge(root_node, ...)]: [None] cannot be a node. *)
Definition need_root (root_node : option string) : result string :=
  match root_node with Some r => Ok r | None => Err (ValueError "None cannot be a node") end.

Definition cell_add_received (broadcasts rebroadcasts : list log) (root_node : option string) (g : digraph) (receive_log : log)
  : result digraph :=
  let* sender := need (sender (pay receive_log)) in
  let* _ := need (host (pay receive_log)) in
  let* receiver := need (peer_id (pay receive_log)) in
  let* broadcast_log := retrieve_log broadcasts sender in
  let* rebroadcast_log := retrieve_log rebroadcasts sender in
  match (match broadcast_log with Some l => Some l | None => rebroadcast_log end) with
  | None =>
      let* g := if has_node g sender then Ok g else
                let* r := need_root root_node in
                Ok (add_edge r sender (Some "orange") One (add_node sender (Attrs (Some "white") (Some (last_str 8 sender))) g)) in
      let* g := if has_node g receiver then Ok g else
                let* a := app_label receive_log in Ok (add_node receiver (Attrs (Some "gray") (Some a)) g) in
      Ok (add_edge sender receiver None One g)
  | Some l =>
      let weight := Milliseconds (delta_microseconds (timestamp (pay receive_log)) (timestamp (pay l))) in
      let* a := app_label receive_log in
      Ok (add_edge sender receiver None weight (add_node receiver (Attrs (Some "#D3D3D3") (Some a)) g))
  end.

Record figure : Type := Figure {
  f_key : string;
  f_title : string;
  f_graph : digraph;
  f_colors : list string;
  f_labels : dict string string;
  f_edge_labels : dict (string * string) string
}.

Section Figures.
Context (blockchain_length : log -> result string) (show_ms : Z -> string).
Context (broadcasting rebroadcasting received : dict string (list log)).

Definition color_map (g : digraph) : list string := map (fun na => default "blue" (color (snd na))) (nodes_data g).

(** [nx.get_node_attributes(g, 'label')] *)
Definition node_labels (g : digraph) : dict string string :=
  flat_map (fun na => match label (snd na) with Some l => [(fst na, l)] | None => [] end) (nodes_data g).

Definition show_weight (w : cell_weight) : string :=
  match w with One => "1" | Milliseconds us => show_ms us end.

Definition edge_labels (g : digraph) : dict (string * string) string :=
  map (fun ea => (fst ea, show_weight (snd ea) +:+ " ms")) (edges_data g).

(** A turn of the loop; [None] is a block that is skipped. *)
Definition draw_block (key : string) (rebroadcasts : list log) : result (option figure) :=
  match get broadcasting key with
  | None => Ok None
  | Some broadcasts =>
      let* gr := foldM add_creator broadcasts (DiGraph, None) in
      match get received key with
      | None => Ok None
      | Some receives =>
          let* g := foldM (cell_add_received broadcasts rebroadcasts (snd gr)) receives (fst gr) in
          let* first := py_nth broadcasts 0 in
          let* height := blockchain_length first in
          Ok (Some (Figure key ("Block: " +:+ take_str 8 key +:+ ", Height: " +:+ height) g
                      (color_map g) (node_labels g) (edge_labels g)))
      end
  end.

(** The loop, left after thirty figures. *)
Fixpoint draw_loop (nFigs : Z) (blocks : dict string (list log)) : result (list figure) :=
  match blocks with
  | [] => Ok []
  | (key, rebroadcasts) :: rest =>
      let* f := draw_block key rebroadcasts in
      match f with
      | None => draw_loop nFigs rest
      | Some f =>
          if nFigs + 1 =? 30 then Ok [f] else
          let* fs := draw_loop (nFigs + 1) rest in Ok (f :: fs)
      end
  end.

Definition graph_cell : result (list figure) := draw_loop 0 rebroadcasting.
End Figures.

(** The notebook, run from top to bottom. *)
Definition notebook (blockchain_length : log -> result string) (show_ms : Z -> string) (max_entries : Z)
  (rebroadcast_logs received_logs broadcast_logs : list entry) : result (list figure) :=
  graph_cell blockchain_length show_ms (broadcast_cell max_entries broadcast_logs) (rebroadcast_cell rebroadcast_logs)
    (received_cell received_logs).

End Graphs.

(** ** What the sorting cells hold *)
Lemma sort_one_holds sub es d e : holds (contains sub) es d -> holds (contains sub) (es ++ [e]) (sort_one sub d e).
Proof.
  intros H. unfold sort_one. destruct (state_hash (json_payload e)) as [h|] eqn:Eh; [|apply holds_skip; auto].
  destruct (labels e) as [l|] eqn:El; [|apply holds_skip; auto].
  pose proof (holds_add (contains sub) es e d h l H Eh El) as H'. unfold merged in H'. by rewrite El in H'.
Qed.

Lemma holds_nil kind : holds kind [] [].
Proof. by split; [apply wf_nil|]. Qed.

Lemma sort_all_holds sub es d done_ : holds (contains sub) done_ d ->
  holds (contains sub) (done_ ++ es) (fold_left (sort_one sub) es d).
Proof.
  revert d done_. induction es as [|e es IH]; intros d done_ H; cbn [fold_left]; [by rewrite app_nil_r|].
  rewrite cons_middle, app_assoc. by apply IH, sort_one_holds.
Qed.

Lemma broadcast_loop_holds max_entries n es d done_ : 0 <= n < max_entries -> holds (contains "Broadcasting new state") done_ d ->
  holds (contains "Broadcasting new state") (done_ ++ take (Z.to_nat (max_entries - n - 1)) es) (broadcast_loop max_entries n es d).
Proof.
  revert n d done_. induction es as [|e es IH]; intros n d done_ Hn H; cbn [broadcast_loop]; [by rewrite take_nil, app_nil_r|].
  destruct (Z.eqb_spec (n + 1) max_entries) as [E|E].
  - replace (Z.to_nat (max_entries - n - 1)) with 0%nat by lia. cbn. by rewrite app_nil_r.
  - replace (Z.to_nat (max_entries - n - 1)) with (S (Z.to_nat (max_entries - (n + 1) - 1))) by lia.
    rewrite firstn_cons, cons_middle, app_assoc. apply IH; [lia|]. by apply sort_one_holds.
Qed.

(** ** The graph of a block *)
Section Correct.
Context `{NX : Networkx cell_weight} `{NL : !NetworkxLaws cell_weight}.

(** The weight of an edge. *)
Definition weight_at (g : digraph) (p : string * string) : option cell_weight := edge_weight g (fst p) (snd p).

Lemma weight_put_edge u v c w g p : weight_at (add_edge u v c w g) p = if decide (p = (u, v)) then Some w else weight_at g p.
Proof. destruct p as [x y]. apply weight_add_edge. Qed.

Lemma weight_put_node n a g p : weight_at (add_node n a g) p = weight_at g p.
Proof. apply weight_add_node. Qed.

(** The log that a sender wrote of the block: a broadcast before a rebroadcast. *)
Definition sender_log (broadcasts rebroadcasts : list log) (u : string) : option log :=
  match retrieve_log broadcasts u with
  | Ok (Some l) => Some l
  | _ => match retrieve_log rebroadcasts u with Ok r => r | Err _ => None end
  end.

Definition weight_for (broadcasts rebroadcasts : list log) (u : string) (l : log) : cell_weight :=
  match sender_log broadcasts rebroadcasts u with
  | Some r => Milliseconds (delta_microseconds (timestamp (pay l)) (timestamp (pay r)))
  | None => One
  end.

Lemma cell_add_received_spec broadcasts rebroadcasts root g l g' :
  cell_add_received broadcasts rebroadcasts root g l = Ok g' ->
  exists u v, sender (pay l) = Some u /\ peer_id (pay l) = Some v /\
    ((sender_log broadcasts rebroadcasts u <> None \/ has_node g u = true) /\
       (forall x, has_node g' x = true <-> x = u \/ x = v \/ has_node g x = true) /\
       (forall p, weight_at g' p = if decide (p = (u, v)) then Some (weight_for broadcasts rebroadcasts u l) else weight_at g p)
     \/ exists r, root = Some r /\ sender_log broadcasts rebroadcasts u = None /\ has_node g u = false /\
       (forall x, has_node g' x = true <-> x = r \/ x = u \/ x = v \/ has_node g x = true) /\
       (forall p, weight_at g' p = if decide (p = (u, v)) then Some One else if decide (p = (r, u)) then Some One else weight_at g p)).
Proof.
  unfold cell_add_received. intros H. apply bind_Ok_inv in H as (u & Hu & H). apply bind_Ok_inv in H as (h & _ & H).
  apply bind_Ok_inv in H as (v & Hv & H). apply bind_Ok_inv in H as (b & Hb & H). apply bind_Ok_inv in H as (rb & Hrb & H).
  exists u, v. destruct (sender (pay l)) as [u'|]; [|done]. destruct (peer_id (pay l)) as [v'|]; [|done].
  injection Hu as ->. injection Hv as ->. do 2 (split; [done|]).
  assert (Hs : sender_log broadcasts rebroadcasts u = match b with Some l0 => Some l0 | None => rb end)
    by (unfold sender_log; rewrite Hb, Hrb; by destruct b).
  unfold weight_for. rewrite Hs.
  assert (Hlast : forall c g1 g2, (if has_node g1 v then Ok g1 else let* a := app_label l in Ok (add_node v (Attrs c (Some a)) g1)) = Ok g2 ->
    (forall x, x = v \/ has_node g2 x = true <-> x = v \/ has_node g1 x = true) /\ forall p, weight_at g2 p = weight_at g1 p).
  { intros c g1 g2 E. destruct (has_node g1 v); [by injection E as <-|]. apply bind_Ok_inv in E as (a & _ & E).
    injection E as <-. split; [|intros p; by rewrite weight_put_node]. intros x. rewrite has_node_add_node. tauto. }
  destruct (match b with Some l0 => Some l0 | None => rb end) as [r|] eqn:Er.
  - left. apply bind_Ok_inv in H as (a & _ & H). injection H as <-. split; [by left|]. split.
    + intros x. rewrite has_node_add_edge, has_node_add_node. tauto.
    + intros p. by rewrite weight_put_edge, weight_put_node.
  - destruct b as [?|]; [done|]. subst rb. apply bind_Ok_inv in H as (g1 & H1 & H). apply bind_Ok_inv in H as (g2 & H2 & H).
    injection H as <-. destruct (Hlast _ _ _ H2) as [Hn2 Hw2]. destruct (has_node g u) eqn:Em.
    + injection H1 as <-. left. split; [by right|]. split.
      * intros x. rewrite has_node_add_edge. specialize (Hn2 x). tauto.
      * intros p. by rewrite weight_put_edge, Hw2.
    + apply bind_Ok_inv in H1 as (r & Hr & H1). destruct root as [r'|]; [|done]. injection Hr as ->. injection H1 as <-.
      right. exists r. split_and!; try done.
      * intros x. rewrite has_node_add_edge. specialize (Hn2 x). rewrite has_node_add_edge, has_node_add_node in Hn2. tauto.
      * intros p. by rewrite weight_put_edge, Hw2, weight_put_edge, weight_put_node.
Qed.

Lemma add_creators_spec broadcasts g root g' root' : foldM add_creator broadcasts (g, root) = Ok (g', root') ->
  (forall p, weight_at g' p = weight_at g p) /\
  (forall x, has_node g' x = true <-> has_node g x = true \/ exists l, l ∈ broadcasts /\ peer_id (pay l) = Some x) /\
  root' = match last broadcasts with Some l => peer_id (pay l) | None => root end.
Proof.
  revert g root. induction broadcasts as [|l ls IH]; intros g root H; cbn [foldM] in H.
  - injection H as <- <-. setoid_rewrite elem_of_nil. naive_solver.
  - apply bind_Ok_inv in H as ([g1 r1] & H1 & H). unfold add_creator in H1. apply bind_Ok_inv in H1 as (p & Hp & H1).
    apply bind_Ok_inv in H1 as (a & _ & H1). injection H1 as <- <-. destruct (peer_id (pay l)) as [p'|] eqn:Ep; [|done]. injection Hp as ->.
    apply IH in H as (H1 & H2 & ->). split; [intros q; by rewrite H1; cbn [fst]; rewrite weight_put_node|]. split.
    + intros x. cbn [fst] in H2. rewrite H2, has_node_add_node. setoid_rewrite elem_of_cons. naive_solver.
    + destruct ls as [|l' ls]; [done|]. rewrite last_cons_cons. by destruct (last (l' :: ls)) eqn:E; [|by apply last_None in E].
Qed.

(** The figure of a block says who created it and who sent it to whom. *)
Definition figure_of (broadcasts rebroadcasts received : list log) (g : digraph) : Prop :=
  (forall n, has_node g n = true <-> (exists l, l ∈ broadcasts /\ peer_id (pay l) = Some n) \/
     exists l, l ∈ received /\ (sender (pay l) = Some n \/ peer_id (pay l) = Some n)) /\
  (forall u v, match last (List.filter (link u v) received) with
   | Some l => weight_at g (u, v) = Some (weight_for broadcasts rebroadcasts u l)
   | None => weight_at g (u, v) <> None -> weight_at g (u, v) = Some One /\
       (exists l, last broadcasts = Some l /\ peer_id (pay l) = Some u) /\
       sender_log broadcasts rebroadcasts v = None /\ exists l, l ∈ received /\ sender (pay l) = Some v
   end).

Lemma link_true u v l : link u v l = true <-> sender (pay l) = Some u /\ peer_id (pay l) = Some v.
Proof. unfold link. by rewrite andb_true_iff, !bool_decide_eq_true. Qed.

Lemma figure_step broadcasts rebroadcasts root done_ g l g' :
  root = match last broadcasts with Some l => peer_id (pay l) | None => None end ->
  figure_of broadcasts rebroadcasts done_ g -> (forall u v, weight_at g (u, v) <> None -> has_node g v = true) ->
  cell_add_received broadcasts rebroadcasts root g l = Ok g' ->
  figure_of broadcasts rebroadcasts (done_ ++ [l]) g' /\ (forall u v, weight_at g' (u, v) <> None -> has_node g' v = true).
Proof.
  intros Hroot [Hn Hw] Hend H. apply cell_add_received_spec in H as (u & v & Hu & Hv & [(Hlog & Hk & Hwt)|(r & -> & Hlog & Hfresh & Hk & Hwt)]).
  - split; [split|].
    + intros n. rewrite Hk, Hn. setoid_rewrite elem_of_app. setoid_rewrite list_elem_of_singleton. naive_solver.
    + intros u' v'. rewrite List.filter_app. cbn [List.filter]. rewrite Hwt. destruct (link u' v' l) eqn:El.
      * apply link_true in El as [E1 E2]. rewrite last_snoc, decide_True by congruence. congruence.
      * rewrite app_nil_r. rewrite decide_False; [|intros [= -> ->]; by rewrite (proj2 (link_true u v l)) in El].
        specialize (Hw u' v'). destruct (last (List.filter _ _)); [done|]. intros Hne. destruct (Hw Hne) as (? & ? & ? & l0 & ? & ?).
        split_and!; try done. exists l0. rewrite elem_of_app. auto.
    + intros u' v'. rewrite Hwt, Hk. case_decide as D; [injection D as -> ->; auto|]. intros Hne. right. right. by eapply Hend.
  - assert (Hr : has_node g r = true).
    { apply Hn. left. destruct (last broadcasts) as [b|] eqn:E; [|done]. exists b. split; [|done]. by apply last_Some_elem_of. }
    split; [split|].
    + intros n. pose proof (proj1 (Hn r) Hr) as Hr'. rewrite Hk, Hn. clear -Hr' Hu Hv.
      setoid_rewrite elem_of_app. setoid_rewrite list_elem_of_singleton.
      split; [intros [->|[->|[->|[H|H]]]]; naive_solver | intros [H|(l0 & [H| ->] & Hs)]; [auto | eauto 8 |]].
      rewrite Hu, Hv in Hs. destruct Hs as [[= ->]|[= ->]]; auto.
    + intros u' v'. rewrite List.filter_app. cbn [List.filter]. rewrite Hwt. destruct (link u' v' l) eqn:El.
      * apply link_true in El as [E1 E2]. rewrite last_snoc, decide_True by congruence. unfold weight_for.
        assert (u' = u) as -> by congruence. by rewrite Hlog.
      * rewrite app_nil_r. rewrite decide_False; [|intros [= -> ->]; by rewrite (proj2 (link_true u v l)) in El].
        specialize (Hw u' v'). case_decide as D.
        -- injection D as -> ->. destruct (last (List.filter _ _)) eqn:E.
           ++ exfalso. assert (has_node g u = true) by (apply (Hend r); by rewrite Hw). congruence.
           ++ intros _. split; [done|]. split; [revert Hroot; destruct (last broadcasts) as [b|]; [intros Hroot; by exists b | done]|]. split; [done|].
              exists l. rewrite elem_of_app, list_elem_of_singleton. auto.
        -- destruct (last (List.filter _ _)); [done|]. intros Hne. destruct (Hw Hne) as (? & ? & ? & l0 & ? & ?).
           split_and!; try done. exists l0. rewrite elem_of_app. auto.
    + intros u' v'. rewrite Hwt, Hk. repeat case_decide; [naive_solver..|]. intros Hne. do 3 right. by eapply Hend.
Qed.

Lemma figure_graph broadcasts rebroadcasts received gr g :
  foldM add_creator broadcasts (DiGraph, None) = Ok gr ->
  foldM (cell_add_received broadcasts rebroadcasts (snd gr)) received (fst gr) = Ok g ->
  figure_of broadcasts rebroadcasts received g.
Proof.
  destruct gr as [g0 root]. cbn [fst snd]. intros H0 H. apply add_creators_spec in H0 as (He & Hk & Hroot).
  assert (HI : figure_of broadcasts rebroadcasts [] g0 /\ (forall u v, weight_at g0 (u, v) <> None -> has_node g0 v = true)).
  { assert (Hw : forall p, weight_at g0 p = None) by (intros p; rewrite He; apply weight_empty). split; [split|].
    - intros n. rewrite Hk, has_node_empty. setoid_rewrite elem_of_nil. naive_solver.
    - intros u v. cbn. by rewrite Hw.
    - intros u v. by rewrite Hw. }
  enough (G : forall l done_ g1, figure_of broadcasts rebroadcasts done_ g1 /\ (forall u v, weight_at g1 (u, v) <> None -> has_node g1 v = true) ->
    foldM (cell_add_received broadcasts rebroadcasts root) l g1 = Ok g -> figure_of broadcasts rebroadcasts (done_ ++ l) g)
    by (by apply (G received [] g0)).
  induction l as [|l ls IH]; intros done_ g1 [H1 H2] Hl; cbn [foldM] in Hl; [injection Hl as <-; by rewrite app_nil_r|].
  apply bind_Ok_inv in Hl as (g2 & H3 & Hl). rewrite cons_middle, app_assoc. eapply IH; [|exact Hl].
  eapply figure_step; [exact Hroot | done | done | exact H3].
Qed.

(** ** The figures *)
Section Drawn.
Context (blockchain_length : log -> result string) (show_ms : Z -> string).
Context (broadcasting rebroadcasting received : dict string (list log)).

Definition drawable (key : string) : bool := mem key broadcasting && mem key received.

Lemma draw_block_spec key rebroadcasts f :
  draw_block blockchain_length show_ms broadcasting received key rebroadcasts = Ok f ->
  match f with
  | None => drawable key = false
  | Some f => drawable key = true /\ f_key f = key /\
      figure_of (default [] (get broadcasting key)) rebroadcasts (default [] (get received key)) (f_graph f)
  end.
Proof.
  unfold draw_block, drawable, mem. intros H. destruct (get broadcasting key) as [b|] eqn:Eb; [|by injection H as <-].
  apply bind_Ok_inv in H as (gr & Hgr & H). destruct (get received key) as [r|] eqn:Er; [|by injection H as <-].
  apply bind_Ok_inv in H as (g & Hg & H). apply bind_Ok_inv in H as (first & _ & H). apply bind_Ok_inv in H as (height & _ & H).
  injection H as <-. split_and!; [done..|]. cbn [f_graph default]. by eapply figure_graph.
Qed.

Lemma draw_loop_spec nFigs blocks figs : 0 <= nFigs < 30 ->
  draw_loop blockchain_length show_ms broadcasting received nFigs blocks = Ok figs ->
  map f_key figs = take (Z.to_nat (30 - nFigs)) (List.filter drawable (keys blocks)) /\
  forall f, f ∈ figs -> exists rb, (f_key f, rb) ∈ blocks /\
    figure_of (default [] (get broadcasting (f_key f))) rb (default [] (get received (f_key f))) (f_graph f).
Proof.
  revert nFigs figs. induction blocks as [|[key rb] rest IH]; intros nFigs figs Hn H; cbn [draw_loop] in H.
  { injection H as <-. cbn. rewrite take_nil. split; [done|]. by intros f ?%elem_of_nil. }
  apply bind_Ok_inv in H as (f & Hf & H). apply draw_block_spec in Hf. unfold keys. cbn [map fst List.filter]. fold (keys rest).
  replace (Z.to_nat (30 - nFigs)) with (S (Z.to_nat (30 - (nFigs + 1)))) by lia.
  destruct f as [f|].
  - destruct Hf as (-> & Hk & Hf). rewrite firstn_cons. destruct (Z.eqb_spec (nFigs + 1) 30) as [E|E].
    + injection H as <-. rewrite E. cbn. split; [by f_equal|]. intros f' ->%list_elem_of_singleton.
      exists rb. rewrite Hk. split; [apply elem_of_cons; by left | done].
    + apply bind_Ok_inv in H as (fs & H & Hfs). injection Hfs as <-. destruct (IH (nFigs + 1) fs ltac:(lia) H) as [IHk IHf].
      cbn [map]. split; [congruence|]. intros f' [->|Hin]%elem_of_cons.
      * exists rb. rewrite Hk. split; [apply elem_of_cons; by left | done].
      * destruct (IHf f' Hin) as (rb' & Hin' & ?). exists rb'. split; [apply elem_of_cons; by right | done].
  - rewrite Hf. destruct (IH nFigs figs Hn H) as [IHk IHf]. split.
    + rewrite IHk. f_equal. lia.
    + intros f' Hin. destruct (IHf f' Hin) as (rb' & Hin' & ?). exists rb'. split; [apply elem_of_cons; by right | done].
Qed.
End Drawn.

(** ** When no key is missing *)
Definition complete_creator (l : log) : bool := given (peer_id (pay l)) && given (app l).

Lemma add_creators_total broadcasts g root : forallb complete_creator broadcasts = true -> (broadcasts <> [] \/ is_Some root) ->
  exists g' root', foldM add_creator broadcasts (g, root) = Ok (g', Some root').
Proof.
  revert g root. induction broadcasts as [|l ls IH]; intros g root Hc Hr; cbn [foldM].
  - destruct Hr as [?|[r ->]]; [done|]. by exists g, r.
  - cbn [forallb] in Hc. apply andb_true_iff in Hc as [[Hp Ha]%andb_true_iff Hc].
    destruct (given_need _ Hp) as (p & _ & Ep), (app_label_total l Ha) as [a Ea].
    unfold add_creator at 1. rewrite Ep. cbn [bind]. rewrite Ea. cbn [bind fst]. apply IH; [done|]. right. by eexists.
Qed.

Lemma cell_add_received_total broadcasts rebroadcasts root g l :
  forallb complete_sent broadcasts = true -> forallb complete_sent rebroadcasts = true -> complete_received l = true ->
  exists g', cell_add_received broadcasts rebroadcasts (Some root) g l = Ok g'.
Proof.
  unfold complete_received. rewrite !andb_true_iff. intros Hb Hrb (((Hs & Hh) & Hp) & Ha).
  destruct (given_need _ Hs) as (u & _ & Eu), (given_need _ Hh) as (h & _ & Eh), (given_need _ Hp) as (v & _ & Ev).
  destruct (app_label_total l Ha) as [a Ea], (retrieve_log_total broadcasts u Hb) as [b Eb], (retrieve_log_total rebroadcasts u Hrb) as [r Er].
  unfold cell_add_received. rewrite Eu, Eh, Ev. cbn [bind]. rewrite Eb, Er. cbn [bind need_root]. rewrite Ea. cbn [bind].
  destruct b; [by eexists|]. destruct r; [by eexists|]. destruct (has_node g u); cbn [bind]; destruct (has_node _ v); by eexists.
Qed.

Lemma cell_add_all_total broadcasts rebroadcasts root receives g :
  forallb complete_sent broadcasts = true -> forallb complete_sent rebroadcasts = true -> forallb complete_received receives = true ->
  exists g', foldM (cell_add_received broadcasts rebroadcasts (Some root)) receives g = Ok g'.
Proof.
  intros Hb Hrb. revert g. induction receives as [|l ls IH]; intros g Hr; cbn [foldM]; [by exists g|].
  cbn [forallb] in Hr. apply andb_true_iff in Hr as [Hl Hr].
  destruct (cell_add_received_total broadcasts rebroadcasts root g l Hb Hrb Hl) as [g' ->]. cbn [bind]. by apply IH.
Qed.

Lemma creators_sent bs : forallb complete_creator bs = true -> forallb complete_sent bs = true.
Proof.
  rewrite !forallb_forall. intros H l Hl. apply H in Hl. unfold complete_creator in Hl. by apply andb_true_iff in Hl as [Hp _].
Qed.

Section Complete.
Context (blockchain_length : log -> result string) (show_ms : Z -> string).
Context (broadcasting received : dict string (list log)).

(** No figure needs a key that a log lacks. *)
Definition complete_block (h : string) (rebroadcasts : list log) : Prop :=
  (forall bs, get broadcasting h = Some bs -> bs <> [] /\ forallb complete_creator bs = true /\
     forall l, l ∈ bs -> exists n, blockchain_length l = Ok n) /\
  (forall rs, get received h = Some rs -> forallb complete_received rs = true) /\
  forallb complete_sent rebroadcasts = true.

Lemma draw_block_total h rebroadcasts : complete_block h rebroadcasts ->
  exists f, draw_block blockchain_length show_ms broadcasting received h rebroadcasts = Ok f.
Proof.
  intros (Hb & Hr & Hrb). unfold draw_block. destruct (get broadcasting h) as [bs|]; [|by eexists].
  destruct (Hb bs eq_refl) as (Hne & Hc & Hlen). destruct (add_creators_total bs DiGraph None Hc (or_introl Hne)) as (g & root & ->).
  cbn [bind fst snd]. destruct (get received h) as [rs|]; [|by eexists].
  destruct (cell_add_all_total bs rebroadcasts root rs g (creators_sent _ Hc) Hrb (Hr rs eq_refl)) as [g' ->]. cbn [bind].
  destruct bs as [|b bs]; [done|]. destruct (Hlen b ltac:(left)) as [n En]. change (py_nth (b :: bs) 0) with (Ok b). cbn [bind]. rewrite En. by eexists.
Qed.

Lemma draw_loop_total nFigs blocks : (forall h rb, (h, rb) ∈ blocks -> complete_block h rb) ->
  exists figs, draw_loop blockchain_length show_ms broadcasting received nFigs blocks = Ok figs.
Proof.
  revert nFigs. induction blocks as [|[h rb] rest IH]; intros nFigs Hc; cbn [draw_loop]; [by eexists|].
  destruct (draw_block_total h rb (Hc h rb ltac:(left))) as [f ->]. cbn [bind].
  assert (Hrest : forall h rb, (h, rb) ∈ rest -> complete_block h rb) by (intros ? ? ?; apply Hc; by right).
  destruct f as [f|]; [|by apply IH]. destruct (nFigs + 1 =? 30); [by eexists|].
  destruct (IH (nFigs + 1) Hrest) as [fs ->]. by eexists.
Qed.
End Complete.
End Correct.

Lemma holds_mem kind es d h : holds kind es d -> mem h d = true <-> logs_about h kind es <> [].
Proof. intros [_ Hd]. unfold mem. rewrite Hd. by destruct (logs_about h kind es). Qed.

Lemma holds_default kind es d h : holds kind es d -> default [] (get d h) = logs_about h kind es.
Proof. intros [_ Hd]. rewrite Hd. by destruct (logs_about h kind es). Qed.

Definition nb_broadcasts max_entries (broadcast_logs : list entry) (h : string) : list log :=
  logs_about h (contains "Broadcasting new state") (take (Z.to_nat (max_entries - 1)) broadcast_logs).
Definition nb_rebroadcasts (rebroadcast_logs : list entry) (h : string) : list log := logs_about h (contains "Rebroadcasting") rebroadcast_logs.
Definition nb_receives (received_logs : list entry) (h : string) : list log := logs_about h (contains "Received") received_logs.

Lemma holds_complete `{NX : Networkx cell_weight} blockchain_length b rb r bd rbd rd :
  holds (contains "Broadcasting new state") b bd -> holds (contains "Rebroadcasting") rb rbd -> holds (contains "Received") r rd ->
  (forall h, forallb complete_creator (logs_about h (contains "Broadcasting new state") b) = true /\
     forallb complete_sent (logs_about h (contains "Rebroadcasting") rb) = true /\
     forallb complete_received (logs_about h (contains "Received") r) = true /\
     forall l, l ∈ logs_about h (contains "Broadcasting new state") b -> exists n, blockchain_length l = Ok n) ->
  forall h l, (h, l) ∈ rbd -> complete_block blockchain_length bd rd h l.
Proof.
  intros [_ Hb] [Hw Hrb] [_ Hr] Hc h l Hin. destruct (Hc h) as (H1 & H2 & H3 & H4). split_and!.
  - intros bs. rewrite Hb. destruct (logs_about h _ b) eqn:E; [done|]. intros [= <-]. done.
  - intros rs. rewrite Hr. destruct (logs_about h _ r) eqn:E; [done|]. by intros [= <-].
  - apply (in_get _ _ _ Hw) in Hin. rewrite Hrb in Hin. destruct (logs_about h _ rb); [done|]. by injection Hin as <-.
Qed.


(** A block that [a] creates, [b] receives from [a] and [c] from [d], which wrote no log of it. *)
Definition nb_payload (m peer : string) (from : option string) (t : Z) : payload :=
  Payload m (Some "H") (Some peer) (Some "1.1.1.1") from t.

Definition nb_labels : option (dict string string) := Some [("k8s-pod/app", "fish-block-producer-1")].

Definition nb_rebroadcast : list entry := [Entry (nb_payload "Rebroadcasting $state_hash" "a" None 5000000) nb_labels].
Definition nb_received : list entry :=
  [Entry (nb_payload "Received a block" "b" (Some "a") 8250000) nb_labels; Entry (nb_payload "Received a block" "c" (Some "d") 9000000) nb_labels].
Definition nb_broadcast : list entry := [Entry (nb_payload "Broadcasting new state over gossip net" "a" None 4000000) nb_labels].

Definition nb_figures : list (figure (NX := dict_networkx)) :=
  Eval vm_compute in
  match notebook (NX := dict_networkx) (fun _ => Ok "7") (fun _ => "250") 1000 nb_rebroadcast nb_received nb_broadcast with Ok f => f | Err _ => [] end.

Example nb_edges : map (fun f => edges (f_graph f : graph cell_weight)) nb_figures =
  [[(("a", "b"), EdgeAttrs None (Milliseconds 250000)); (("a", "d"), EdgeAttrs (Some "orange") One); (("d", "c"), EdgeAttrs None One)]].
Proof. reflexivity. Qed.

