(* ===== verification/BestTip.v ===== *)
(** * Drawing the best tips, [compare_best_tip.py] and [visualize_blockchain]

    [testnet-validation/compare_best_tip.py] asks the pods of a network for their best
    chains, inserts them in a trie and draws it; [visualize_blockchain] of
    [rebroadcasted_blocks_vis.py] does the same with the links that the logs of the
    rebroadcasts give, and the best chains on top.  A [graphviz] graph is its body, a list of
    statements; [line] is the source line that the library keeps for a statement.  The two
    [render_fork] differ in the colours only, so [draw] has them as parameters. *)

From stdpp Require Import base list strings.
From Stdlib Require Import Ascii Lia ZArith.
From S2P Require Import Prelude Dict PyStr PySet Trie TrieView.
Open Scope string_scope.
Open Scope nat_scope.

Definition attrs : Type := list (string * string).

Inductive stmt : Type :=
| NodeStmt (name label : string) (a : attrs)
| EdgeStmt (tail head : string) (a : attrs).

(** A string where the code needs one: [None[-8:]], or [None] as a name. *)
Definition need_str (h : hash_t) : result string := match h with Some s => Ok s | None => Err TypeError end.

Definition blue : attrs := [("color", "blue")].

(** [graph.node(label, label); graph.edge(label, root.hash)] *)
Definition add_label (h : hash_t) (body : list stmt) (label : hash_t) : result (list stmt) :=
  let* l := need_str label in
  let* h := need_str h in
  Ok (body ++ [NodeStmt l l blue; EdgeStmt l h blue])%list.

(** [root.hash = "root"] *)
Definition rename (s : list block) (l : nat) : list block :=
  let b := block_at s l in <[l := Block (Some "root") (labels b) (value b) (children b)]> s.

Section Draw.
Context (line : stmt -> string).
Context (own : block -> string -> list stmt) (kid : block -> string -> block -> string -> list stmt).

(** ["\t"+root.hash in graph.body] *)
Definition in_body (h : string) (body : list stmt) : bool :=
  existsb (fun s => String.eqb (line s) (String "009"%char h)) body.

(** A turn of the loop over the children; [rec] is the recursive call. *)
Definition draw_child (rec : list block * list stmt -> nat -> result (list block * list stmt)) (l : nat)
  (st : list block * list stmt) (c : nat) : result (list block * list stmt) :=
  let root := block_at (fst st) l in
  let child := block_at (fst st) c in
  let* h := need_str (hash child) in
  let* n := need_str (hash root) in
  rec (fst st, snd st ++ kid root n child h ++ [EdgeStmt n h []])%list c.

Fixpoint draw (fuel : nat) (st : list block * list stmt) (l : nat) : result (list block * list stmt) :=
  match fuel with
  | O => Err OutOfFuel
  | S fuel' =>
      let root := block_at (fst st) l in
      let* body := foldM (add_label (hash root)) (labels root) (snd st) in
      let st := match hash root with
                | None => (rename (fst st) l, body)
                | Some h => (fst st, if in_body h body then body else body ++ own root h)%list
                end in
      foldM (draw_child (draw fuel') l) (values (children root)) st
  end.
End Draw.

(** ** [render_fork] of [compare_best_tip.py] *)
Definition fork_color (root : block) : string := if 0 <? length (labels root) then "blue" else "white".

Definition compare_own (root : block) (h : string) : list stmt :=
  [NodeStmt h (last_str 8 h) [("color", fork_color root)]].

Definition compare_kid (root : block) (n : string) (child : block) (h : string) : list stmt :=
  [NodeStmt h (last_str 8 h) [("color", fork_color root)]].

Definition render_fork (line : stmt -> string) := draw line compare_own compare_kid.

(** ** [render_fork] of [rebroadcasted_blocks_vis.py]: [colors] is a range of 200 colours. *)
Section Vis.
Context (colors : list string).

Definition filled (color : string) : attrs := [("color", color); ("shape", "ellipse"); ("style", "filled")].

Definition last_color : string := List.last colors "".

Definition vis_own (root : block) (h : string) : list stmt :=
  match nth_error colors (length (value root)) with
  | Some c => [NodeStmt h (last_str 8 h) (filled c)]
  | None => [NodeStmt h (last_str 8 h) (filled last_color)]
  end.

(** A child with more values than there are colours has its parent drawn again. *)
Definition vis_kid (root : block) (n : string) (child : block) (h : string) : list stmt :=
  match nth_error colors (length (value child)) with
  | Some c => [NodeStmt h (last_str 8 h) (filled c)]
  | None => [NodeStmt n (last_str 8 n) (filled last_color)]
  end.

Definition vis_render_fork (line : stmt -> string) := draw line vis_own vis_kid.
End Vis.

(** ** The best chains of the pods *)
Record pod : Type := Pod { pod_name : string; pod_namespace : string }.

(** What [_send_query] gives after the retries: a best chain ([None] is null), a connection
    error, or another exception. *)
Inductive answer : Type :=
| BestChain (c : option (list string))
| ConnectionFailed
| Raised (e : exn).

Section Pods.
Context (get_best_chain : pod -> Z -> answer) (stops_in_time : pod -> bool).

(** [logger] is not defined at the top of the file. *)
Definition terminate_process (p : pod) : result unit := if stops_in_time p then Ok tt else Err NameError.

(** [try: return get_best_chain(...) finally: terminate_process(...)] *)
Definition doit (p : pod) (local_port : Z) : answer :=
  match terminate_process p with
  | Err e => Raised e
  | Ok _ => get_best_chain p local_port
  end.

Definition process_pod (wanted : string -> bool) (namespace : string) (remote_graphql_port : Z) (ip : Z * pod)
  : result (option (list string * pod)) :=
  let '(i, p) := ip in
  if String.eqb (pod_namespace p) namespace && wanted (pod_name p) then
    match doit p (remote_graphql_port + i + 1)%Z with
    | ConnectionFailed => Ok None
    | Raised e => Err e
    | BestChain None => Ok None
    | BestChain (Some chain) => Ok (Some (chain, p))
    end
  else Ok None.

Definition enumerate {A} (l : list A) : list (Z * A) := combine (range 0 (zlength l)) l.

(** A turn of the loop over the results of the pool. *)
Definition add_chain (t : trie) (r : option (list string * pod)) : result trie :=
  match r with
  | Some (chain, p) => insert t (map Some chain) (Some (but_last_str 16 (pod_name p)))
  | None => Ok t
  end.

Definition load_best_tips (wanted : string -> bool) (namespace : string) (remote_graphql_port : Z) (items : list pod) (t : trie)
  : result trie :=
  foldM (fun t ip => let* r := process_pod wanted namespace remote_graphql_port ip in add_chain t r) (enumerate items) t.
End Pods.

(** [[hash[-8:] for hash in key]] *)
Definition short_keys (t : trie) : result (list (list string)) :=
  let* its := Trie.items t in
  mapM (fun kl => mapM (fun h => let* s := need_str h in Ok (last_str 8 s)) (fst kl)) its.

Definition root_node : stmt := NodeStmt "root" "root" [("color", "black")].

(** [check], after the pods have been listed and shuffled into [items]. *)
Definition compare_wanted (name : string) : bool := contains "block-producer" name || contains "snark-coordinator" name.

Definition check (line : stmt -> string) get_best_chain stops_in_time (namespace : string) (remote_graphql_port : Z) (items : list pod)
  : result (list stmt) :=
  let* t := load_best_tips get_best_chain stops_in_time compare_wanted namespace remote_graphql_port items empty_trie in
  let* _ := forks t in
  let* _ := short_keys t in
  let* _ := prefix t in
  let* st := render_fork line (length (store t)) (store t, [root_node]) root in
  let* h := need_str (hash (block_at (fst st) root)) in
  Ok (snd st ++ [EdgeStmt "root" h []])%list.

(** [visualize_blockchain]: the entries are the links of the logs, with the application that
    wrote them. *)
Record link_entry : Type := LinkEntry { state_hash : string; previous_state_hash : string; app : string }.

Definition add_entry (t : trie) (e : link_entry) : result trie :=
  insertLink t (Some (previous_state_hash e)) (Some (state_hash e)) (Some (app e)).

Section VisualizeBlockchain.
Context (line : stmt -> string) (colors : list string) (get_best_chain : pod -> Z -> answer) (stops_in_time : pod -> bool).
Context (count_best_tips : bool) (namespace : string) (remote_graphql_port : Z) (pods : list pod).

(** From the trie of the logs to the drawing. *)
Definition draw_blockchain (t : trie) : result (list stmt) :=
  let* t := if count_best_tips
            then load_best_tips get_best_chain stops_in_time (contains "block-producer") namespace remote_graphql_port (take 50 pods) t
            else Ok t in
  let* _ := short_keys t in
  let* _ := forks t in
  let* _ := prefix t in
  let* st := vis_render_fork colors line (length (store t)) (store t, [root_node]) root in
  Ok (snd st).

Definition visualize_blockchain (log_iterator : list link_entry) : result (list stmt) :=
  let* t := foldM add_entry log_iterator empty_trie in draw_blockchain t.
End VisualizeBlockchain.

(** ** What a body draws *)
Definition mentions (s : stmt) (n : string) : Prop :=
  match s with
  | NodeStmt m _ _ => n = m
  | EdgeStmt a b _ => n = a \/ n = b
  end.

(** The nodes and the edges of the graph; an edge makes its ends. *)
Definition node_in (body : list stmt) (n : string) : Prop := exists s, s ∈ body /\ mentions s n.
Definition edge_in (body : list stmt) (a b : string) : Prop := exists at_, EdgeStmt a b at_ ∈ body.

Definition adds (P : string -> Prop) (Q : string -> string -> Prop) (body body' : list stmt) : Prop :=
  (forall n, node_in body' n <-> node_in body n \/ P n) /\ (forall a b, edge_in body' a b <-> edge_in body a b \/ Q a b).

Lemma adds_refl body : adds (fun _ => False) (fun _ _ => False) body body.
Proof. split; intros; tauto. Qed.

Lemma adds_trans P1 Q1 P2 Q2 b b1 b2 : adds P1 Q1 b b1 -> adds P2 Q2 b1 b2 -> adds (fun n => P1 n \/ P2 n) (fun x y => Q1 x y \/ Q2 x y) b b2.
Proof. intros [N1 E1] [N2 E2]. split; intros; [rewrite N2, N1 | rewrite E2, E1]; tauto. Qed.

Lemma adds_iff P Q P' Q' b b' : adds P Q b b' -> (forall n, P n <-> P' n) -> (forall x y, Q x y <-> Q' x y) -> adds P' Q' b b'.
Proof. intros [N E] HP HQ. split; intros; [by rewrite N, HP | by rewrite E, HQ]. Qed.

Lemma adds_app b l : adds (node_in l) (edge_in l) b (b ++ l).
Proof.
  split; intros; unfold node_in, edge_in; setoid_rewrite elem_of_app; [|naive_solver].
  split; [intros (s & [H|H] & M); [left | right]; by exists s | intros [(s & H & M)|(s & H & M)]; exists s; auto].
Qed.

Lemma adds_known P Q b b' : adds P Q b b' -> forall n, node_in b n -> node_in b' n.
Proof. intros [N _] n Hn. apply N. by left. Qed.

Section DrawSpec.
Context (line : stmt -> string) (own : block -> string -> list stmt) (kid : block -> string -> block -> string -> list stmt).
Context (own_ok : forall b h s, s ∈ own b h -> exists l a, s = NodeStmt h l a).
Context (kid_ok : forall b n c h s, s ∈ kid b n c h -> exists l a, s = NodeStmt n l a \/ s = NodeStmt h l a).

(** A tree whose blocks all have a hash and whose labels are strings. *)
Context (t : trie) (HF : forest t).
Let s : list block := store t.
Context (Hhash : forall m, m < length s -> is_Some (hash (block_at s m))).
Context (Hlabels : forall m l, l ∈ labels (block_at s m) -> is_Some l).

Definition nm (m : nat) : string := default "root" (hash (block_at s m)).

(** What is drawn at the block [m]: its labels, and the edges to its children. *)
Definition at_block (m : nat) (n : string) : Prop := n = nm m \/ Some n ∈ labels (block_at s m).

Definition from_block (m : nat) (a b : string) : Prop :=
  (Some a ∈ labels (block_at s m) /\ b = nm m) \/ (exists k c, edge s m k c /\ a = nm m /\ b = nm c).

Definition below_nodes (l : nat) (n : string) : Prop := exists ks m, path s l ks m /\ at_block m n.
Definition below_edges (l : nat) (a b : string) : Prop := exists ks m, path s l ks m /\ from_block m a b.

Lemma hash_nm m : m < length s -> hash (block_at s m) = Some (nm m).
Proof. intros Hm. unfold nm. by destruct (Hhash m Hm) as [h ->]. Qed.

Lemma add_labels_spec h ls body : Forall (fun l : hash_t => is_Some l) ls -> node_in body h ->
  exists body', foldM (add_label (Some h)) ls body = Ok body' /\
    adds (fun n => Some n ∈ ls) (fun a b => Some a ∈ ls /\ b = h) body body'.
Proof.
  intros H. revert body. induction H as [|l ls [x ->] _ IH]; intros body Hh.
  - exists body. split; [done|]. eapply adds_iff; [apply adds_refl | |]; intros; rewrite elem_of_nil; tauto.
  - cbn [foldM add_label need_str bind]. pose proof (adds_app body [NodeStmt x x blue; EdgeStmt x h blue]) as H1.
    destruct (IH (body ++ [NodeStmt x x blue; EdgeStmt x h blue])%list (adds_known _ _ _ _ H1 _ Hh)) as (body' & E & H2).
    exists body'. split; [exact E|]. destruct H1 as [N1 E1], H2 as [N2 E2]. split; intros.
    + rewrite N2, N1, elem_of_cons. unfold node_in. setoid_rewrite elem_of_cons. setoid_rewrite list_elem_of_singleton.
      split.
      * intros [[H|(st & [->| ->] & M)]|H]; [by left | cbn in M; subst; auto | cbn in M; destruct M as [->| ->]; auto | auto].
      * intros [H|[[= ->]|H]]; [auto | left; right; eexists; split; [by left | done] | auto].
    + rewrite E2, E1, elem_of_cons. unfold edge_in. setoid_rewrite elem_of_cons. setoid_rewrite list_elem_of_singleton.
      split.
      * intros [[H|(at_ & [?|[= -> -> _]])]|H]; [by left | done | auto | naive_solver].
      * intros [H|[[[= ->]|H] ->]]; [auto | left; right; eexists; by right | auto].
Qed.

Lemma adds_kid root n child h body :
  adds (fun x => x = n \/ x = h) (fun a b => a = n /\ b = h) body (body ++ kid root n child h ++ [EdgeStmt n h []]).
Proof.
  eapply adds_iff; [apply adds_app | |].
  - intros x. unfold node_in. setoid_rewrite elem_of_app. setoid_rewrite list_elem_of_singleton. split.
    + intros (st & [H| ->] & M); [|exact M]. apply kid_ok in H as (l & a & [->| ->]); cbn in M; auto.
    + intros Hx. exists (EdgeStmt n h []). by split; [right|].
  - intros a b. unfold edge_in. setoid_rewrite elem_of_app. setoid_rewrite list_elem_of_singleton. split.
    + intros (at_ & [H|[= -> -> _]]); [|done]. by apply kid_ok in H as (l & x & [H|H]).
    + intros [-> ->]. exists []. by right.
Qed.

Lemma below_split l : forall n, below_nodes l n <-> at_block l n \/ exists k c, edge s l k c /\ below_nodes c n.
Proof.
  intros n. unfold below_nodes. split.
  - intros (ks & m & [[-> ->]|(k & c & ks' & -> & E & Hp)]%path_inv & H); [by left|]. right. exists k, c. split; [done|]. by exists ks', m.
  - intros [H|(k & c & E & ks & m & Hp & H)]; [exists [], l; split; [constructor | done]|].
    exists (k :: ks), m. split; [by eapply path_cons | done].
Qed.

Lemma below_edges_split l : forall a b, below_edges l a b <-> from_block l a b \/ exists k c, edge s l k c /\ below_edges c a b.
Proof.
  intros a b. unfold below_edges. split.
  - intros (ks & m & [[-> ->]|(k & c & ks' & -> & E & Hp)]%path_inv & H); [by left|]. right. exists k, c. split; [done|]. by exists ks', m.
  - intros [H|(k & c & E & ks & m & Hp & H)]; [exists [], l; split; [constructor | done]|].
    exists (k :: ks), m. split; [by eapply path_cons | done].
Qed.

(** The loop over some children of [l], if the recursive calls draw what is below them. *)
Lemma draw_children_spec rec l cs body : l < length s -> (forall c, c ∈ cs -> c < length s) ->
  (forall c body, c ∈ cs -> node_in body (nm c) -> exists body', rec (s, body) c = Ok (s, body') /\ adds (below_nodes c) (below_edges c) body body') ->
  node_in body (nm l) ->
  exists body', foldM (draw_child kid rec l) cs (s, body) = Ok (s, body') /\
    adds (fun n => exists c, c ∈ cs /\ below_nodes c n) (fun a b => exists c, c ∈ cs /\ ((a = nm l /\ b = nm c) \/ below_edges c a b)) body body'.
Proof.
  intros Hl. revert body. induction cs as [|c cs IH]; intros body Hlt Hrec Hb; cbn [foldM].
  - exists body. split; [done|]. eapply adds_iff; [apply adds_refl | |]; intros; setoid_rewrite elem_of_nil; naive_solver.
  - unfold draw_child at 1. cbn [fst snd]. rewrite (hash_nm c), (hash_nm l) by (done || (apply Hlt; left)). cbn [need_str bind].
    pose proof (adds_kid (block_at s l) (nm l) (block_at s c) (nm c) body) as H1.
    destruct (Hrec c _ ltac:(left) (proj2 (proj1 H1 (nm c)) (or_intror (or_intror eq_refl)))) as (b1 & E1 & H2).
    rewrite E1. cbn [bind].
    destruct (IH b1) as (b2 & E2 & H3).
    + intros d Hd. apply Hlt. by right.
    + intros d body0 Hd. apply Hrec. by right.
    + eapply adds_known; [exact H2|]. by eapply adds_known.
    + exists b2. split; [exact E2|]. destruct H1 as [N1 Q1], H2 as [N2 Q2], H3 as [N3 Q3].
      assert (Hc : below_nodes c (nm c)) by (apply below_split; left; by left).
      split; intros; setoid_rewrite elem_of_cons.
      * rewrite N3, N2, N1. split; [|naive_solver].
        intros [[[H|[->| ->]]|H]|(d & Hd & H)]; [by left | by left | right; exists c; auto | right; exists c; auto | right; exists d; auto].
      * rewrite Q3, Q2, Q1. naive_solver.
Qed.

Lemma children_lt l k c : edge s l k c -> c < length s.
Proof. intros H. apply (t_edge _ _ _ (f_tree t HF)) in H. fold s in H. lia. Qed.

Lemma in_values l c : c ∈ values (children (block_at s l)) <-> exists k, edge s l k c.
Proof.
  unfold values. rewrite list_elem_of_fmap. split.
  - intros ([k c'] & -> & H). exists k. by apply (children_edge t HF).
  - intros [k H]. exists (k, c). split; [done|]. by apply (children_edge t HF).
Qed.

Lemma draw_spec (rank : nat -> nat) fuel l anc body :
  (forall n k c, edge s n k c -> rank n < rank c) ->
  NoDup (l :: anc) -> (forall a, a ∈ l :: anc -> a < length s) ->
  (forall a, a ∈ anc -> rank a < rank l) -> length s <= length anc + fuel -> node_in body (nm l) ->
  exists body', draw line own kid fuel (s, body) l = Ok (s, body') /\ adds (below_nodes l) (below_edges l) body body'.
Proof.
  intros Hr. revert l anc body. induction fuel as [|fuel IH]; intros l anc body Hd Hlt Hanc Hf Hb;
    destruct (descend_fuel t HF rank l anc Hr Hd Hlt Hanc) as [Hlen Hdown]; fold s in Hlen; [lia|]. cbn [draw fst snd].
  assert (Hl : l < length s) by (apply Hlt; left). rewrite (hash_nm l Hl).
  destruct (add_labels_spec (nm l) (labels (block_at s l)) body) as (b1 & -> & H1);
    [apply Forall_forall; intros x Hx; by eapply Hlabels | done |]. cbn [bind].
  set (b2 := if in_body line (nm l) b1 then b1 else (b1 ++ own (block_at s l) (nm l))%list).
  assert (H2 : adds (fun _ => False) (fun _ _ => False) b1 b2).
  { unfold b2. destruct (in_body line (nm l) b1); [apply adds_refl|]. destruct (adds_app b1 (own (block_at s l) (nm l))) as [N E]. split.
    - intros n. rewrite N. split; [|tauto]. intros [H|(st & H & M)]; [by left|]. apply own_ok in H as (x & a & ->). cbn in M. subst n.
      left. eapply adds_known; [exact H1 | done].
    - intros a b. rewrite E. split; [|tauto]. intros [H|(at_ & H)]; [by left|]. by apply own_ok in H as (x & y & H). }
  clearbody b2. cbn [fst snd].
  assert (Hb2 : node_in b2 (nm l)) by (eapply adds_known; [exact H2 | eapply adds_known; [exact H1 | done]]).
  destruct (draw_children_spec (draw line own kid fuel) l (values (children (block_at s l))) b2) as (b3 & E3 & H3).
  - done.
  - intros c [k Hc]%in_values. by eapply children_lt.
  - intros c body0 [k Hc]%in_values Hb0. destruct (Hdown k c Hc) as (X1 & X2 & X3). apply (IH _ (l :: anc)); try done. cbn. lia.
  - done.
  - exists b3. split; [exact E3|]. destruct H1 as [N1 Q1], H2 as [N2 Q2], H3 as [N3 Q3]. split; intros.
    + rewrite N3, N2, N1, below_split. setoid_rewrite in_values. unfold at_block. split; [naive_solver|].
      intros [H|[[->|H]|(k & c & Hc & H)]]; [auto | by left; left; left | auto | right; exists c; eauto].
    + rewrite Q3, Q2, Q1, below_edges_split. setoid_rewrite in_values. unfold from_block. naive_solver.
Qed.
End DrawSpec.

(** ** Drawing a trie from its root *)
Section Root.
Context (t : trie) (sp : spec) (V : view t sp).
Context (Htips : forall l a, (l, a) ∈ tips sp -> is_Some l).

Definition named : trie := Trie (rename (store t) root) (blocks t).

Lemma named_at m : block_at (store named) m =
  if decide (m = root) then Block (Some "root") (labels (block_at (store t) m)) (value (block_at (store t) m)) (children (block_at (store t) m))
  else block_at (store t) m.
Proof.
  pose proof (t_root _ _ _ (f_tree t (v_forest _ _ V))) as H0. cbn [store named]. unfold rename. rewrite block_at_upd.
  case_decide as D.
  - destruct D as [-> _]. by rewrite decide_True.
  - destruct (decide (m = root)) as [->|]; [by destruct D | done].
Qed.

Lemma named_length : length (store named) = length (store t).
Proof. cbn [store named]. unfold rename. by rewrite length_insert. Qed.

Lemma named_children m : children (block_at (store named) m) = children (block_at (store t) m).
Proof. rewrite named_at. by case_decide; subst. Qed.

Lemma named_labels m : labels (block_at (store named) m) = labels (block_at (store t) m).
Proof. rewrite named_at. by case_decide; subst. Qed.

Lemma named_hash m : 0 < m -> hash (block_at (store named) m) = hash (block_at (store t) m).
Proof. intros Hm. rewrite named_at, decide_False; [done | unfold root; lia]. Qed.

Lemma named_edge m k c : edge (store named) m k c <-> edge (store t) m k c.
Proof. unfold edge. by rewrite named_children. Qed.

Lemma forest_named : forest named.
Proof.
  destruct (v_forest _ _ V) as [[H0 He Hu Hp Hr] Hw Hb Hk]. split.
  - rewrite named_length. split.
    + done.
    + intros n k c E%named_edge. destruct (He _ _ _ E) as (? & ? & ?). split_and!; try done; try lia. by rewrite named_hash by lia.
    + intros n1 n2 k1 k2 c E1%named_edge E2%named_edge. eauto.
    + intros c Hc. destruct (Hp c Hc) as (n & k & E). exists n, k. by apply named_edge.
    + destruct Hr as [rank Hr]. exists rank. intros n k c E%named_edge. eauto.
  - intros n. rewrite named_children. apply Hw.
  - intros k l H. rewrite named_length. apply Hb in H as [Hl Hh]. split; [done|]. by rewrite named_hash by lia.
  - intros l. rewrite named_length. intros Hl. rewrite named_hash by lia. by apply Hk.
Qed.

Lemma named_some m : m < length (store named) -> is_Some (hash (block_at (store named) m)).
Proof.
  rewrite named_length. intros Hm. destruct (decide (m = root)) as [->|Hr]; [by rewrite named_at, decide_True|].
  rewrite named_hash by (unfold root in *; lia). apply (v_some _ _ V). unfold root in *. lia.
Qed.

Lemma nm_named m : m < length (store t) -> nm named m = default "root" (hash (block_at (store t) m)).
Proof.
  intros Hm. unfold nm. destruct (decide (m = root)) as [->|Hr].
  - by rewrite named_at, decide_True, (v_root _ _ V).
  - by rewrite named_hash by (unfold root in *; lia).
Qed.

Lemma labels_some m l : l ∈ labels (block_at (store named) m) -> is_Some l.
Proof. rewrite named_labels. intros H. apply (Htips l (hash (block_at (store t) m))). apply (v_tips _ _ V). by exists m. Qed.

Lemma from_named a b : (exists m, m < length (store t) /\ from_block named m a b) <->
  (exists x, (x, Some b) ∈ links sp /\ a = default "root" x) \/ (Some a, Some b) ∈ tips sp.
Proof.
  unfold from_block. setoid_rewrite named_labels. setoid_rewrite named_edge. setoid_rewrite (v_links _ _ V). rewrite (v_tips _ _ V).
  unfold named_link, tip_of. split.
  - intros (m & Hm & [[Hl ->]|(k & c & E & -> & ->)]); rewrite (nm_named m) by done.
    + right. exists m. split; [done|]. destruct (decide (m = root)) as [->|Hr]; [rewrite (v_root_labels _ _ V) in Hl; by apply elem_of_nil in Hl|].
      destruct (v_some _ _ V m) as [h Hh]; [unfold root in *; lia|]. by rewrite Hh.
    + left. exists (hash (block_at (store t) m)). split; [|done].
      destruct (t_edge _ _ _ (f_tree t (v_forest _ _ V)) _ _ _ E) as (_ & Hc & Hk). rewrite nm_named by lia.
      destruct (v_some _ _ V c Hc) as [h Hh]. rewrite Hh in *. subst k. by exists m, c.
  - intros [(x & (m & c & E & <-) & ->)|(m & Hl & Hh)].
    + destruct (t_edge _ _ _ (f_tree t (v_forest _ _ V)) _ _ _ E) as (Hm & Hc & Hk). exists m. split; [done|]. right.
      exists (Some b), c. rewrite !nm_named by lia. by rewrite Hk.
    + assert (Hm : m < length (store t)).
      { destruct (decide (m < length (store t))); [done|]. rewrite block_at_ge in Hl by lia. by apply elem_of_nil in Hl. }
      exists m. split; [done|]. left. rewrite nm_named by done. by rewrite Hh.
Qed.

Lemma nodes_named n : (exists m, m < length (store t) /\ at_block named m n) <->
  n = "root" \/ Some n ∈ known sp \/ exists a, (Some n, a) ∈ tips sp.
Proof.
  unfold at_block. setoid_rewrite named_labels. rewrite (v_known _ _ V). setoid_rewrite (v_tips _ _ V). unfold tip_of. split.
  - intros (m & Hm & [->|Hl]); [|right; right; by exists (hash (block_at (store t) m)), m].
    rewrite nm_named by done. destruct (decide (m = root)) as [->|Hr]; [left; by rewrite (v_root _ _ V)|].
    assert (Hm' : 0 < m < length (store t)) by (unfold root in *; lia). destruct (v_some _ _ V m Hm') as [h Hh].
    right. left. pose proof (f_known t (v_forest _ _ V) m Hm') as Hk. by rewrite Hh in *.
  - pose proof (t_root _ _ _ (f_tree t (v_forest _ _ V))) as H0. intros [->|[[l Hl]|(a & m & Hm & Ha)]].
    + exists root. split; [done|]. left. rewrite nm_named by done. by rewrite (v_root _ _ V).
    + apply (f_blocks t (v_forest _ _ V)) in Hl as [Hl Hh]. exists l. split; [lia|]. left. rewrite nm_named by lia. by rewrite Hh.
    + exists m. split; [|by right]. destruct (decide (m < length (store t))); [done|]. rewrite block_at_ge in Hm by lia. by apply elem_of_nil in Hm.
Qed.

Lemma draw_root line own kid body :
  (forall b h s, s ∈ own b h -> exists l a, s = NodeStmt h l a) ->
  (forall b n c h s, s ∈ kid b n c h -> exists l a, s = NodeStmt n l a \/ s = NodeStmt h l a) ->
  node_in body "root" ->
  exists body', draw line own kid (length (store t)) (store t, body) root = Ok (rename (store t) root, body') /\
    adds (fun n => n = "root" \/ Some n ∈ known sp \/ exists a, (Some n, a) ∈ tips sp)
      (fun a b => (exists x, (x, Some b) ∈ links sp /\ a = default "root" x) \/ (Some a, Some b) ∈ tips sp) body body'.
Proof.
  intros Hown Hkid Hb. pose proof forest_named as HF. pose proof (t_root _ _ _ (f_tree t (v_forest _ _ V))) as H0.
  destruct (t_rank _ _ _ (f_tree named HF)) as [rank Hr]. pose proof named_length as Hlen.
  destruct (length (store t)) as [|fuel] eqn:El; [lia|]. cbn [draw fst snd].
  rewrite (v_root_labels _ _ V), (v_root _ _ V). cbn [foldM bind].
  assert (Hnm : nm named root = "root") by (rewrite nm_named by (unfold root; lia); by rewrite (v_root _ _ V)).
  destruct (singleton_root named HF) as (S1 & S2 & S3).
  destruct (descend_fuel named HF rank root [] Hr S1 S2 (S3 rank)) as [_ Hdown].
  rewrite <- (named_children root).
  destruct (draw_children_spec kid Hkid named named_some (draw line own kid fuel) root (values (children (block_at (store named) root))) body)
    as (b' & E & N & Q).
  - rewrite named_length, El. unfold root. lia.
  - intros c [k Hc]%(in_values named HF). by eapply (children_lt named HF).
  - intros c body0 [k Hc]%(in_values named HF) Hb0. destruct (Hdown k c Hc) as (X1 & X2 & X3).
    apply (draw_spec line own kid Hown Hkid named HF named_some labels_some rank fuel c [root]); try done. cbn [length]. rewrite named_length, El. lia.
  - by rewrite Hnm.
  - exists b'. split; [exact E|]. split.
    + intros n. rewrite N, <- nodes_named, El. setoid_rewrite (in_values named HF).
      assert (Hin : node_in body (nm named root)) by (by rewrite Hnm). split.
      * intros [H|(c & [k Hc] & ks & m & Hp & Hat)]; [by left|]. right. exists m. split; [|done]. rewrite <- El, <- named_length.
        apply (path_lt named HF (k :: ks)). by eapply path_cons.
      * intros [H|(m & Hm & Hat)]; [by left|]. destruct (path_exists named HF m) as [ks Hp]; [rewrite named_length; lia|].
        destruct (path_inv _ _ _ _ Hp) as [[-> ->]|(k & c & ks' & -> & Ec & Hp')].
        -- destruct Hat as [->|Hl]; [by left|]. rewrite named_labels, (v_root_labels _ _ V) in Hl. by apply elem_of_nil in Hl.
        -- right. exists c. split; [by exists k|]. by exists ks', m.
    + intros a b. rewrite Q, <- from_named, El. setoid_rewrite (in_values named HF).
      assert (Hbe : (exists m, m < S fuel /\ from_block named m a b) <-> below_edges named root a b).
      { unfold below_edges. split.
        - intros (m & Hm & H). destruct (path_exists named HF m) as [ks Hp]; [rewrite named_length; lia|]. by exists ks, m.
        - intros (ks & m & Hp & H). exists m. split; [|done]. apply (path_lt named HF) in Hp. rewrite named_length in Hp. lia. }
      rewrite Hbe, below_edges_split. unfold from_block. rewrite named_labels, (v_root_labels _ _ V). setoid_rewrite elem_of_nil.
      naive_solver.
Qed.
End Root.

(** ** The scripts *)
Lemma compare_own_ok b h s : s ∈ compare_own b h -> exists l a, s = NodeStmt h l a.
Proof. intros ->%list_elem_of_singleton. by eexists _, _. Qed.

Lemma compare_kid_ok b n c h s : s ∈ compare_kid b n c h -> exists l a, s = NodeStmt n l a \/ s = NodeStmt h l a.
Proof. intros ->%list_elem_of_singleton. eexists _, _. by right. Qed.

Lemma vis_own_ok colors b h s : s ∈ vis_own colors b h -> exists l a, s = NodeStmt h l a.
Proof. unfold vis_own. destruct (nth_error _ _); intros ->%list_elem_of_singleton; by eexists _, _. Qed.

Lemma vis_kid_ok colors b n c h s : s ∈ vis_kid colors b n c h -> exists l a, s = NodeStmt n l a \/ s = NodeStmt h l a.
Proof. unfold vis_kid. destruct (nth_error _ _); intros ->%list_elem_of_singleton; eexists _, _; [by right | by left]. Qed.

Definition labels_ok (sp : spec) : Prop := forall l a, (l, a) ∈ tips sp -> is_Some l.

Lemma mapM_Ok_all {A B} (f : A -> result B) l : (forall x, x ∈ l -> exists y, f x = Ok y) -> exists ys, mapM f l = Ok ys.
Proof. intros H. apply mapM_total. intros x Hx. by apply H, list_elem_of_In. Qed.

(** The traversals before the drawing all return. *)
Lemma traversals_ok t sp : view t sp ->
  (exists fs, forks t = Ok fs) /\ (exists ks, short_keys t = Ok ks) /\ (exists p, prefix t = Ok p).
Proof.
  intros V. destruct (all_nodes_spec t (v_forest _ _ V)) as (ns & E & _ & _ & Hn). split_and!.
  - unfold forks. rewrite E. by eexists.
  - unfold short_keys, Trie.items. rewrite E. cbn [bind]. apply mapM_Ok_all. intros [key l] [H _]%elem_of_filter_bool.
    cbn [fst]. apply mapM_Ok_all. intros h Hh. apply Hn in H. enough (is_Some h) as [x ->] by (by eexists).
    clear -V H Hh. induction H as [|ks m k c Hp IH He]; [by apply elem_of_nil in Hh|].
    apply elem_of_app in Hh as [Hh| ->%list_elem_of_singleton]; [by apply IH|].
    destruct (t_edge _ _ _ (f_tree t (v_forest _ _ V)) _ _ _ He) as (_ & Hc & <-). by apply (v_some _ _ V).
  - destruct (prefix_spec t (v_forest _ _ V)) as (p & Ep & _). by exists p.
Qed.

(** What the pods' chains make. *)
Definition spec_result (sp : spec) (r : option (list string * pod)) : spec :=
  match r with
  | Some (chain, p) => spec_insert sp (map Some chain) (Some (but_last_str 16 (pod_name p)))
  | None => sp
  end.

Definition spec_results (rs : list (option (list string * pod))) (sp : spec) : spec := fold_left spec_result rs sp.

Definition chains_ok (rs : list (option (list string * pod))) : Prop := forall chain p, Some (chain, p) ∈ rs -> chain <> [].

Lemma add_chain_view t sp r t' : view t sp -> add_chain t r = Ok t' -> view t' (spec_result sp r).
Proof.
  intros V H. destruct r as [[chain p]|]; cbn in H; [|by injection H as <-]. eapply view_insert; [done| |done].
  apply Forall_forall. intros h Hh. apply list_elem_of_fmap in Hh as (x & -> & _). by eexists.
Qed.

Lemma load_view gbc sit wanted ns port items (t : trie) sp rs :
  mapM (process_pod gbc sit wanted ns port) (enumerate items) = Ok rs -> chains_ok rs -> view t sp ->
  exists t', load_best_tips gbc sit wanted ns port items t = Ok t' /\ view t' (spec_results rs sp).
Proof.
  unfold load_best_tips. generalize (enumerate items). intros l. revert t sp rs.
  induction l as [|ip l IH]; intros t sp rs H Hc V; cbn [mapM] in H.
  - injection H as <-. by exists t.
  - apply bind_Ok_inv in H as (r & Hr & H). apply bind_Ok_inv in H as (rs' & Hrs & H). injection H as <-.
    cbn [foldM]. rewrite Hr. cbn [bind].
    assert (exists t1, add_chain t r = Ok t1) as [t1 E1].
    { destruct r as [[chain p]|]; [|by eexists]. cbn. destruct (insert_eq t (map Some chain) (Some (but_last_str 16 (pod_name p)))) as (k & _ & ->).
      - assert (chain <> []) by (apply (Hc _ p); left). by destruct chain.
      - by destruct (fold_left insert_part (map Some chain) (t, start t k)); eexists. }
    rewrite E1. cbn [bind]. destruct (IH t1 (spec_result sp r) rs') as (t' & E & V'); [done| | |].
    + intros chain p Hin. apply (Hc _ p). by right.
    + by eapply add_chain_view.
    + by exists t'.
Qed.

Lemma spec_results_facts rs sp : chains_ok rs -> labels_ok sp -> let sp' := spec_results rs sp in
  labels_ok sp' /\
  (forall k, k ∈ known sp' <-> k ∈ known sp \/ exists chain p, Some (chain, p) ∈ rs /\ k ∈ map Some chain) /\
  (forall l a, (l, a) ∈ tips sp' <-> (l, a) ∈ tips sp \/
     exists chain p, Some (chain, p) ∈ rs /\ l = Some (but_last_str 16 (pod_name p)) /\ a = last chain) /\
  (forall l, l ∈ links sp -> l ∈ links sp').
Proof.
  cbv zeta. unfold spec_results. revert sp. induction rs as [|r rs IH]; intros sp Hc Hl; cbn [fold_left].
  - setoid_rewrite elem_of_nil. naive_solver.
  - assert (Hc' : chains_ok rs) by (intros chain p H; apply (Hc _ p); by right).
    destruct r as [[chain p]|]; cbn [spec_result].
    + destruct (spec_insert_facts sp (map Some chain) (Some (but_last_str 16 (pod_name p)))) as (H1 & H2 & H3 & _).
      assert (Hne : chain <> []) by (apply (Hc _ p); left).
      assert (Hne' : map Some chain <> []) by (by destruct chain). specialize (H1 Hne').
      set (sp1 := spec_insert _ _ _) in *. clearbody sp1.
      assert (Hl1 : labels_ok sp1) by (intros l a; rewrite H1, elem_of_cons; intros [[= -> _]|H]; [by eexists | by eapply Hl]).
      destruct (IH sp1 Hc' Hl1) as (G1 & G2 & G3 & G4). split_and!; [done|..].
      * intros k. rewrite G2, H2. setoid_rewrite elem_of_cons. naive_solver.
      * intros l a. rewrite G3, H1. setoid_rewrite elem_of_cons.
        assert (E : default (None : hash_t) (@last hash_t (map Some chain)) = last chain).
        { change (map Some chain) with (Some <$> chain). rewrite fmap_last. destruct chain as [|x c] using rev_ind; [done|].
          by rewrite last_snoc. }
        split.
        -- intros [[Heq|H]|(c & p' & H & -> & ->)]; [|by left | right; exists c, p'; auto].
           injection Heq as -> Ha. right. exists chain, p. split_and!; [by left | done | exact (eq_trans Ha E)].
        -- intros [H|(c & p' & [Hin|Hin] & -> & ->)]; [by left; right | | right; by exists c, p'].
           injection Hin as -> ->. left. left. exact (f_equal2 pair eq_refl (eq_sym E)).
      * intros l Hin. by apply G4, H3.
    + destruct (IH sp Hc' Hl) as (G1 & G2 & G3 & G4). split_and!; [done|..|done].
      * intros k. rewrite G2. setoid_rewrite elem_of_cons. naive_solver.
      * intros l a. rewrite G3. setoid_rewrite elem_of_cons. naive_solver.
Qed.

(** A hash on the chains of two results is its own parent. *)
Lemma shared_block rs1 rs2 rs3 c1 p1 c2 p2 k sp :
  let rs := (rs1 ++ Some (c1, p1) :: rs2 ++ Some (c2, p2) :: rs3)%list in
  chains_ok rs -> labels_ok sp -> k ∈ c1 -> k ∈ c2 -> (Some k, Some k) ∈ links (spec_results rs sp).
Proof.
  intros rs Hc Hl H1 H2. unfold rs, spec_results. rewrite fold_left_app. cbn [fold_left]. rewrite fold_left_app. cbn [fold_left].
  assert (Hsub : forall l, (forall x, x ∈ l -> x ∈ rs) -> chains_ok l) by (intros l Hx chain p Hin; apply (Hc _ p); by apply Hx).
  change (fold_left spec_result rs1 sp) with (spec_results rs1 sp).
  destruct (spec_results_facts rs1 sp) as (L1 & _); [apply Hsub; intros x Hx; unfold rs; rewrite !elem_of_app; tauto | done |].
  set (sp1 := spec_results rs1 sp) in *. clearbody sp1.
  change (spec_result sp1 (Some (c1, p1))) with (spec_results [Some (c1, p1)] sp1).
  destruct (spec_results_facts [Some (c1, p1)] sp1) as (L2 & K2 & _).
  { apply Hsub. intros x ->%list_elem_of_singleton. unfold rs. rewrite elem_of_app, elem_of_cons. tauto. } { done. }
  assert (Hk2 : Some k ∈ known (spec_results [Some (c1, p1)] sp1)).
  { apply K2. right. exists c1, p1. split; [left|]. apply list_elem_of_fmap. by exists k. }
  set (sp2 := spec_results [Some (c1, p1)] sp1) in *. clearbody sp2.
  change (fold_left spec_result rs2 sp2) with (spec_results rs2 sp2).
  destruct (spec_results_facts rs2 sp2) as (L3 & K3 & _).
  { apply Hsub. intros x Hx. unfold rs. rewrite elem_of_app, elem_of_cons, elem_of_app. tauto. } { done. }
  assert (Hk3 : Some k ∈ known (spec_results rs2 sp2)) by (apply K3; by left).
  set (sp3 := spec_results rs2 sp2) in *. clearbody sp3. cbn [spec_result].
  destruct (spec_insert_facts sp3 (map Some c2) (Some (but_last_str 16 (pod_name p2)))) as (T4 & _ & _ & H4).
  assert (Hin : Some k ∈ map Some c2) by (apply list_elem_of_fmap; by exists k).
  specialize (H4 (Some k) Hk3 Hin). assert (Hne : map Some c2 <> []) by (intros E; rewrite E in Hin; by apply elem_of_nil in Hin).
  specialize (T4 Hne). set (sp4 := spec_insert _ _ _) in *. clearbody sp4.
  apply (spec_results_facts rs3 sp4); [| |done].
  - apply Hsub. intros x Hx. unfold rs. rewrite elem_of_app, elem_of_cons, elem_of_app, elem_of_cons. tauto.
  - intros l a. rewrite T4, elem_of_cons. intros [[= -> _]|H]; [by eexists | by eapply L3].
Qed.

(** C5: The best-tip graph refines the chains it is made from: when every pod answers with a chain
    or not at all, the script draws exactly the root, the blocks of the chains and the pods'
    labels; each label points at the last block of its pod's chain; the other edges are those that
    the abstract insertion of the chains gives, together with one from the root to itself; and a
    block that two pods have on their chains is drawn as its own parent, so the graph of a healthy
    network is full of loops. *)
Theorem best_tips_drawn (line : stmt -> string) (gbc : pod -> Z -> answer) (sit : pod -> bool) (ns : string) (port : Z)
  (items : list pod) (rs : list (option (list string * pod))) :
  mapM (process_pod gbc sit compare_wanted ns port) (enumerate items) = Ok rs -> chains_ok rs ->
  exists body, check line gbc sit ns port items = Ok body /\
    (forall n, node_in body n <-> n = "root" \/ (exists chain p, Some (chain, p) ∈ rs /\ (n ∈ chain \/ n = but_last_str 16 (pod_name p)))) /\
    (forall a b, edge_in body a b <->
       (a = "root" /\ b = "root") \/
       (exists x, (x, Some b) ∈ links (spec_results rs (Spec [] [] [])) /\ a = default "root" x) \/
       (exists chain p, Some (chain, p) ∈ rs /\ a = but_last_str 16 (pod_name p) /\ last chain = Some b)) /\
    (forall rs1 rs2 rs3 c1 p1 c2 p2 k, rs = (rs1 ++ Some (c1, p1) :: rs2 ++ Some (c2, p2) :: rs3)%list ->
       k ∈ c1 -> k ∈ c2 -> edge_in body k k).
Proof.
  intros Hrs Hc. destruct (load_view gbc sit compare_wanted ns port items empty_trie _ rs Hrs Hc view_empty) as (t & Et & V).
  assert (L0 : labels_ok (Spec [] [] [])) by (intros l a H; by apply elem_of_nil in H).
  destruct (spec_results_facts rs _ Hc L0) as (Hl & Hk & Ht & _). set (sp := spec_results rs _) in *.
  destruct (traversals_ok t sp V) as ([fs E1] & [ks E2] & [p E3]).
  destruct (draw_root t sp V Hl line compare_own compare_kid [root_node] compare_own_ok compare_kid_ok) as (b0 & E4 & N & Q).
  { exists root_node. split; [left | done]. }
  exists (b0 ++ [EdgeStmt "root" "root" []])%list. split.
  { unfold check. rewrite Et. cbn [bind]. rewrite E1. cbn [bind]. rewrite E2. cbn [bind]. rewrite E3. cbn [bind].
    unfold render_fork. rewrite E4. cbn [bind fst snd].
    pose proof (named_at t sp V root) as Hroot. rewrite decide_True in Hroot by done. cbn [store named] in Hroot. by rewrite Hroot. }
  destruct (adds_app b0 [EdgeStmt "root" "root" []]) as [N2 Q2].
  assert (Hedges : forall a b, edge_in (b0 ++ [EdgeStmt "root" "root" []]) a b <-> (a = "root" /\ b = "root") \/
       (exists x, (x, Some b) ∈ links sp /\ a = default "root" x) \/
       (exists chain p, Some (chain, p) ∈ rs /\ a = but_last_str 16 (pod_name p) /\ last chain = Some b)).
  { intros a b. rewrite Q2, Q, Ht. unfold edge_in. setoid_rewrite list_elem_of_singleton. setoid_rewrite elem_of_nil. naive_solver. }
  split_and!; [|exact Hedges|].
  - intros n. rewrite N2, N, Hk. setoid_rewrite Ht. unfold node_in. setoid_rewrite list_elem_of_singleton. setoid_rewrite elem_of_nil.
    split.
    + intros [[(s & -> & M)|[->|[[[]|(c & q & Hin & (x & [= ->] & Hx)%list_elem_of_fmap)]|(a & [[]|(c & q & Hin & [= ->] & ->)])]]]|(s & -> & M)].
      * left. exact M.
      * by left.
      * right. exists c, q. auto.
      * right. exists c, q. auto.
      * left. by destruct M.
    + intros [->|(c & q & Hin & [Hx| ->])].
      * left. right. by left.
      * left. right. right. left. right. exists c, q. split; [done|]. apply list_elem_of_fmap. by exists n.
      * left. right. right. right. exists (last c). right. by exists c, q.
  - intros rs1 rs2 rs3 c1 p1 c2 p2 k -> H1 H2. apply Hedges. right. left. exists (Some k). split; [|done]. by apply shared_block.
Qed.

Lemma spec_link_tips sp p k v l a : (l, a) ∈ tips (spec_link sp p k v) -> (l, a) ∈ tips sp \/ (l = v /\ a = k).
Proof.
  unfold spec_link. case_bool_decide; [by left|]. case_bool_decide; [by left|].
  destruct (spec_insert_facts sp [p; k] v) as (H1 & _). rewrite H1 by done. rewrite elem_of_cons. cbn. intros [[= -> ->]|Hin]; auto.
Qed.

Definition link_of (e : link_entry) (a b : string) : Prop := a = previous_state_hash e /\ b = state_hash e.

Lemma add_entries_view es t sp : view t sp -> labels_ok sp ->
  match foldM add_entry es t with
  | Ok t' => exists sp', view t' sp' /\ labels_ok sp' /\
      (forall a b : string, (Some a, Some b) ∈ links sp' <-> (Some a, Some b) ∈ links sp \/ exists e, e ∈ es /\ link_of e a b) /\
      (forall l a, (l, a) ∈ tips sp' -> (l, a) ∈ tips sp \/ exists e, e ∈ es /\ l = Some (app e) /\ a = Some (state_hash e))
  | Err e => e = KeyError
  end.
Proof.
  revert t sp. induction es as [|e es IH]; intros t sp V L; cbn [foldM].
  - exists sp. setoid_rewrite elem_of_nil. naive_solver.
  - unfold add_entry at 1. pose proof (insertLink_edge t (Some (previous_state_hash e)) (Some (state_hash e)) (Some (app e)) (v_forest _ _ V)) as HE.
    destruct (insertLink t _ _ _) as [t1|e1] eqn:E; cbn [bind]; [|by destruct HE].
    pose proof (view_insertLink _ _ _ _ _ _ V ltac:(by eexists) ltac:(by eexists) E) as V1.
    assert (L1 : labels_ok (spec_link sp (Some (previous_state_hash e)) (Some (state_hash e)) (Some (app e)))).
    { intros l a [H|[-> _]]%spec_link_tips; [by eapply L | by eexists]. }
    specialize (IH t1 _ V1 L1). destruct (foldM add_entry es t1) as [t2|]; [|done].
    destruct IH as (sp' & V2 & L2 & Hl & Ht). exists sp'. split; [done|]. split; [done|]. split.
    + intros a b. rewrite Hl, spec_link_links. setoid_rewrite elem_of_cons. unfold link_of. naive_solver.
    + intros l a H. apply Ht in H as [H|(e' & He & H)]; [|right; exists e'; by rewrite elem_of_cons; auto].
      apply spec_link_tips in H as [H|[-> ->]]; [by left | right; exists e; rewrite elem_of_cons; auto].
Qed.


(** ** Two pods on one chain *)
Definition toy_pods : list pod :=
  [Pod "whale-block-producer-1-abcdefghij-12345" "net"; Pod "fish-block-producer-2-abcdefghij-12345" "net"; Pod "seed" "net"].

Definition toy_chain (p : pod) (_ : Z) : answer := BestChain (Some ["a"; "b"]).

Definition toy_line (s : stmt) : string := match s with NodeStmt n _ _ => n | EdgeStmt a b _ => a +:+ " -> " +:+ b end.

Definition toy_results : list (option (list string * pod)) :=
  [Some (["a"; "b"], Pod "whale-block-producer-1-abcdefghij-12345" "net");
   Some (["a"; "b"], Pod "fish-block-producer-2-abcdefghij-12345" "net"); None].

Lemma best_tips_drawn_witness :
  exists body, check toy_line toy_chain (fun _ => true) "net" 3085 toy_pods = Ok body /\ edge_in body "a" "a" /\
    edge_in body "whale-block-producer-1-" "b" /\ node_in body "b".
Proof.
  destruct (best_tips_drawn toy_line toy_chain (fun _ => true) "net" 3085 toy_pods toy_results) as (body & E & N & Q & Hs).
  - vm_compute. reflexivity.
  - intros chain p H. repeat (apply elem_of_cons in H as [[= -> ->]|H]; [done|]). apply list_elem_of_singleton in H. done.
  - exists body. split; [exact E|]. split; [|split].
    + apply (Hs [] [] [None] ["a"; "b"] (Pod "whale-block-producer-1-abcdefghij-12345" "net") ["a"; "b"]
        (Pod "fish-block-producer-2-abcdefghij-12345" "net")); [reflexivity | left | left].
    + apply Q. right. right. eexists _, _. split; [left|]. split; reflexivity.
    + apply N. right. eexists _, _. split; [left|]. left. right. left.
Defined.
