(* ===== verification/Logs.v ===== *)
(** * Reading the logs of a test network

    [testnet-validation/logs.py] and [testnet-validation/check_logs.py].  The logging service
    is a parameter: [list_entries] is the list of the entries that a filter selects.  An entry
    has its labels and the metadata of its payload, as far as the scripts read them; the text
    of the earliest time is a parameter. *)

From stdpp Require Import base list strings.
From Stdlib Require Import Ascii ZArith Lia.
From S2P Require Import Prelude Dict Counter PyStr PyText PySet Effects.
Open Scope string_scope.
Open Scope Z_scope.

Record entry : Type := Entry {
  labels : option (dict string string);    (* [entry[1]] *)
  proof_count : option string;             (* [entry[-1]['metadata']['proof_count']] *)
  txn_count : option string
}.

Definition q (s : string) : string := String "034"%char (s +:+ String "034"%char "").

(** The filter that every query starts with; the lines are indented by [margin]. *)
Definition filter_common (margin earliest namespace : string) : string :=
  nl +:+ margin +:+ "timestamp >= " +:+ q earliest +:+
  nl +:+ margin +:+ "resource.type=" +:+ q "k8s_container" +:+
  nl +:+ margin +:+ "resource.labels.namespace_name=" +:+ q namespace +:+
  nl +:+ margin.

(** ** [fetch_logs] *)
Fixpoint fetch_loop {A} (max_entries index : Z) (log_iterator logs : list A) : result (list A) :=
  match log_iterator with
  | [] => Ok logs
  | log :: rest =>
      let logs := (logs ++ [log])%list in
      if max_entries =? 0 then Err ZeroDivisionError
      else if (index + 1) mod max_entries =? 0 then Ok logs
      else fetch_loop max_entries (index + 1) rest logs
  end.

Definition fetch_logs {A} (list_entries : string -> list A) (earliest namespace log_filter : string) (max_entries : Z)
  : result (list A) :=
  fetch_loop max_entries 0 (list_entries (filter_common "  " earliest namespace +:+ log_filter)) [].

(** ** [check] *)
Record report : Type := Report {
  nCrashes : option Z;
  proofs : option (Z * dict string Z * dict string Z);   (* nProofLogs and the two Counters *)
  snark_work : option (Z * dict string Z)
}.

Definition CRASH_FILTER : string := " " +:+ q "Unhandled top-level exception:".
Definition PROOFS_FILTER : string := " " +:+ q "Number of proofs ready for purchase:".
Definition SNARK_WORK_FILTER : string := " " +:+ q "Submitted completed SNARK work to $address".

(** [labels["k8s-pod/app"]] *)
Definition pod_app (e : entry) : result string :=
  match labels e with
  | Some l => get_item l "k8s-pod/app"
  | None => Err TypeError
  end.

(** [str((proof_count, txn_count))] *)
Definition availability (e : entry) : result string :=
  let* p := need (proof_count e) in
  let* t := need (txn_count e) in
  Ok ("(" +:+ p +:+ ", " +:+ t +:+ ")").

Definition count_proof (st : Z * dict string Z * dict string Z) (e : entry) : result (Z * dict string Z * dict string Z) :=
  let '(nProofLogs, available_proof_counter, block_producer_counter) := st in
  let* a := availability e in
  let* p := pod_app e in
  Ok (nProofLogs + 1, bump available_proof_counter a, bump block_producer_counter p).

Definition count_snark (st : Z * dict string Z) (e : entry) : result (Z * dict string Z) :=
  let* p := pod_app e in Ok (fst st + 1, bump (snd st) p).

Section Check.
Context (list_entries : string -> list entry).

Definition check (earliest namespace : string) (skip_crashes skip_proofs skip_snark_work : bool) : M report unit :=
  let common := filter_common "    " earliest namespace in
  perform when (negb skip_crashes) (modify (fun r =>
    Report (Some (fold_left (fun n _ => n + 1) (list_entries (common +:+ CRASH_FILTER)) 0)) (proofs r) (snark_work r))) then
  perform when (negb skip_proofs)
    (do p <- lift (foldM count_proof (list_entries (common +:+ PROOFS_FILTER)) (0, [], [])) in
     modify (fun r => Report (nCrashes r) (Some p) (snark_work r))) then
  perform when (negb skip_snark_work)
    (do s <- lift (foldM count_snark (list_entries (common +:+ SNARK_WORK_FILTER)) (0, [])) in
     modify (fun r => Report (nCrashes r) (proofs r) (Some s))) then
  do n <- gets nCrashes in
  when (negb skip_crashes) (when (0 <? default 0 n) (raise (SystemExit 1))).
End Check.

(** ** Lemmas *)
Lemma mod_below n m : 0 < n < Z.abs m -> n mod m <> 0.
Proof.
  intros Hn E. apply Z.mod_divide in E; [|lia]. apply Z.divide_abs_l in E.
  pose proof (Z.divide_pos_le (Z.abs m) n ltac:(lia) E). lia.
Qed.

Lemma fetch_loop_spec {A} max_entries index (l logs : list A) :
  max_entries <> 0 -> 0 <= index < Z.abs max_entries ->
  fetch_loop max_entries index l logs = Ok (logs ++ take (Z.to_nat (Z.abs max_entries - index)) l)%list.
Proof.
  intros Hm. revert index logs. induction l as [|x l IH]; intros index logs Hi; cbn [fetch_loop].
  - by rewrite take_nil, app_nil_r.
  - destruct (Z.eqb_spec max_entries 0) as [?|_]; [done|].
    replace (Z.to_nat (Z.abs max_entries - index)) with (S (Z.to_nat (Z.abs max_entries - (index + 1)))) by lia.
    rewrite firstn_cons. destruct (Z.eq_dec (index + 1) (Z.abs max_entries)) as [E|E].
    + assert (M0 : (index + 1) mod max_entries = 0).
      { rewrite E. apply Z.mod_divide; [done|]. apply Z.divide_abs_r, Z.divide_refl. }
      rewrite M0, E, Z.sub_diag. done.
    + rewrite (proj2 (Z.eqb_neq _ _)) by (apply mod_below; lia). rewrite IH by lia. by rewrite <- app_assoc.
Qed.

Lemma fetch_logs_all {A} (list_entries : string -> list A) earliest namespace log_filter max_entries : max_entries <> 0 ->
  fetch_logs list_entries earliest namespace log_filter max_entries =
  Ok (take (Z.to_nat (Z.abs max_entries)) (list_entries (filter_common "  " earliest namespace +:+ log_filter))).
Proof. intros Hm. unfold fetch_logs. rewrite fetch_loop_spec by lia. by rewrite Z.sub_0_r. Qed.

(** [fetch_logs] returns the first [max_entries] entries that the filter selects, or all of
    them when there are fewer (a negative maximum counts as its absolute value), in their order;
    with a maximum of zero it divides by zero as soon as there is an entry. *)
Theorem fetch_logs_first {A} (list_entries : string -> list A) (earliest namespace log_filter : string) (max_entries : Z) :
  let found := list_entries (filter_common "  " earliest namespace +:+ log_filter) in
  fetch_logs list_entries earliest namespace log_filter max_entries =
  if decide (max_entries = 0 /\ found <> []) then Err ZeroDivisionError else Ok (take (Z.to_nat (Z.abs max_entries)) found).
Proof.
  cbv zeta. case_decide as D.
  - destruct D as [-> D]. unfold fetch_logs. destruct (list_entries _); [done | reflexivity].
  - destruct (Z.eq_dec max_entries 0) as [->|Hm].
    + unfold fetch_logs. destruct (list_entries _); [reflexivity|]. destruct D. by split.
    + by apply fetch_logs_all.
Qed.

Lemma count_all {A} (l : list A) n : fold_left (fun n _ => n + 1) l n = n + zlength l.
Proof.
  revert n. induction l as [|x l IH]; intros n; cbn [fold_left]; [unfold zlength; cbn; lia|].
  rewrite IH. unfold zlength. cbn [length]. lia.
Qed.

Lemma count_proofs_spec es avs apps n d1 d2 :
  mapM availability es = Ok avs -> mapM pod_app es = Ok apps ->
  foldM count_proof es (n, d1, d2) = Ok (n + zlength es, fold_left bump avs d1, fold_left bump apps d2).
Proof.
  revert avs apps n d1 d2. induction es as [|e es IH]; intros avs apps n d1 d2 H1 H2; cbn [mapM] in H1, H2.
  - injection H1 as <-. injection H2 as <-. cbn. do 3 f_equal. unfold zlength. cbn. lia.
  - apply bind_Ok_inv in H1 as (a & Ha & H1). apply bind_Ok_inv in H1 as (avs' & H1 & E1).
    apply bind_Ok_inv in H2 as (p & Hp & H2). apply bind_Ok_inv in H2 as (apps' & H2 & E2).
    injection E1 as <-. injection E2 as <-. cbn [foldM]. unfold count_proof at 1. rewrite Ha. cbn [bind]. rewrite Hp. cbn [bind].
    rewrite (IH avs' apps') by done. cbn [fold_left]. do 3 f_equal. unfold zlength. cbn [length]. lia.
Qed.

Lemma count_snarks_spec es apps n d :
  mapM pod_app es = Ok apps -> foldM count_snark es (n, d) = Ok (n + zlength es, fold_left bump apps d).
Proof.
  revert apps n d. induction es as [|e es IH]; intros apps n d H; cbn [mapM] in H.
  - injection H as <-. cbn. do 2 f_equal. unfold zlength. cbn. lia.
  - apply bind_Ok_inv in H as (p & Hp & H). apply bind_Ok_inv in H as (apps' & H & E). injection E as <-.
    cbn [foldM]. unfold count_snark at 1. rewrite Hp. cbn [bind fst snd]. rewrite (IH apps') by done.
    cbn [fold_left]. do 2 f_equal. unfold zlength. cbn [length]. lia.
Qed.

(** The log checker counts every entry and fails on crashes only: when the entries about
    proofs and SNARK work have their labels and metadata, the checks that are not skipped report
    the number of crash entries, the number of proof entries with how often each availability and
    each producer occurs, and the number of SNARK entries with how often each worker occurs; the
    process exits with code 1 just when crashes are checked for and there is one, whatever the
    other counts are. *)
Theorem check_logs_outcome (list_entries : string -> list entry) (earliest namespace : string)
  (skip_crashes skip_proofs skip_snark_work : bool) (avs producers workers : list string) :
  let found filter := list_entries (filter_common "    " earliest namespace +:+ filter) in
  mapM availability (found PROOFS_FILTER) = Ok avs -> mapM pod_app (found PROOFS_FILTER) = Ok producers ->
  mapM pod_app (found SNARK_WORK_FILTER) = Ok workers ->
  check list_entries earliest namespace skip_crashes skip_proofs skip_snark_work (Report None None None) =
  (Report (if skip_crashes then None else Some (zlength (found CRASH_FILTER)))
     (if skip_proofs then None else Some (zlength (found PROOFS_FILTER), counter avs, counter producers))
     (if skip_snark_work then None else Some (zlength (found SNARK_WORK_FILTER), counter workers)),
   if negb skip_crashes && negb (bool_decide (found CRASH_FILTER = [])) then Err (SystemExit 1) else Ok tt).
Proof.
  cbv zeta. intros H1 H2 H3. unfold check. cbv zeta.
  rewrite (count_proofs_spec _ avs producers), (count_snarks_spec _ workers), count_all by done. rewrite !Z.add_0_l.
  fold (counter avs) (counter producers) (counter workers).
  destruct (list_entries (filter_common "    " earliest namespace +:+ CRASH_FILTER)) as [|c cs].
  - by destruct skip_crashes, skip_proofs, skip_snark_work.
  - by destruct skip_crashes, skip_proofs, skip_snark_work.
Qed.

(** One crash, and one entry of each other kind. *)
Definition toy_entries (filter : string) : list entry :=
  [Entry (Some [("k8s-pod/app", "whale-1")]) (Some "3") (Some "0")].

Lemma check_logs_outcome_witness :
  check toy_entries "2020-01-01T00:00:00Z" "regeneration" false true false (Report None None None) =
  (Report (Some 1) None (Some (1, [("whale-1", 1)])), Err (SystemExit 1)).
Proof.
  apply (check_logs_outcome toy_entries "2020-01-01T00:00:00Z" "regeneration" false true false ["(3, 0)"] ["whale-1"] ["whale-1"]);
    vm_compute; reflexivity.
Defined.
