(* ===== verification/VisCommands.v ===== *)
(** * The commands of the log visualizers

    [visualize_gossip_net] and [visualize_blockchain] of
    [testnet-validation/rebroadcasted_blocks_vis.py], from the options to what is drawn: the
    logs come from the logging service (Logs) or from a file of an earlier run, and may be
    written to a cache file; the graphs are those of Gossip, the blockchain that of BestTip.
    The two notebooks, from their queries on, are here too.

    The files are a dictionary of their contents; what is written is there when the command
    ends.  The JSON text of an entry is a parameter, as are the text of the earliest time and
    the entries that a filter selects. *)

From stdpp Require Import base list strings.
From Stdlib Require Import Ascii ZArith Lia.
From S2P Require Import Prelude Dict PyStr PyText PySet Effects Networkx Trie.
From S2P Require Gossip Notebook BestTip Logs.
Open Scope string_scope.
Open Scope Z_scope.

(** ** Files of lines *)
Definition files : Type := dict string string.

Definition open_w (path : string) : M files unit := modify (set path "").

Definition write (path text : string) : M files unit :=
  modify (fun w => set path (default "" (get w path) +:+ text) w).

Definition carriage_return : ascii := "013"%char.

(** A file is read as text: CR LF and CR are read as LF. *)
Fixpoint universal (after_cr : bool) (s : string) : string :=
  match s with
  | EmptyString => ""
  | String a s' =>
      if Ascii.eqb a newline then (if after_cr then universal false s' else String a (universal false s'))
      else if Ascii.eqb a carriage_return then String newline (universal true s')
      else String a (universal false s')
  end.

(** The lines of a text, with their ends. *)
Fixpoint lines_from (cur s : string) : list string :=
  match s with
  | EmptyString => flush cur []
  | String a s' => if Ascii.eqb a newline then (cur +:+ nl) :: lines_from "" s' else lines_from (cur +:+ String a "") s'
  end.

Definition readlines (path : string) : M files (list string) :=
  do w <- gets id in
  match get w path with
  | Some text => ret (lines_from "" (universal false text))
  | None => raise (FileNotFoundError path)
  end.

(** ** Options and log sources *)
Inductive hours : Type :=
| Text (s : string)
| Number (z : Z).

Definition int_of (h : hours) : result Z := match h with Text s => py_int s | Number z => Ok z end.

Record ctx : Type := Ctx {
  namespace : string;
  hours_ago : hours;
  cache_logs : bool;
  cache_file : string;
  in_file : option string;
  max_entries : Z
}.

(** Entries are cached only when they do not come from a file. *)
Definition caching (c : ctx) : bool := cache_logs c && bool_decide (in_file c = None).

Section Source.
Context {E : Type} (dumps : E -> string) (loads : string -> result E).
Context (earliest_of : Z -> string) (list_entries : string -> list E).

Definition fetch (c : ctx) (log_filter : string) (limit : Z) : result (list E) :=
  let* h := int_of (hours_ago c) in
  Logs.fetch_logs list_entries (earliest_of h) (namespace c) log_filter limit.

(** The iterator over the entries: a line of a file is parsed when it is its turn. *)
Definition log_source (c : ctx) (log_filter : string) (limit : Z) : M files (list (result E)) :=
  match in_file c with
  | None => do logs <- lift (fetch c log_filter limit) in ret (map Ok logs)
  | Some f => do lines <- readlines f in ret (map loads lines)
  end.

(** The loop over the iterator: an entry is written to the cache, counted and taken in. *)
Fixpoint read_loop {S} (c : ctx) (stop : Z -> bool) (step : S -> E -> result S) (nBlocks : Z)
  (log_iterator : list (result E)) (s : S) : M files S :=
  match log_iterator with
  | [] => ret s
  | next :: rest =>
      do entry <- lift next in
      perform when (caching c) (write (cache_file c) (dumps entry +:+ nl)) then
      if stop (nBlocks + 1) then ret s else
      do s' <- lift (step s entry) in
      read_loop c stop step (nBlocks + 1) rest s'
  end.

(** What both commands do: open the cache file, find the entries, and read them. *)
Definition read_logs {S} (c : ctx) (reopen : bool) (log_filter : string) (limit : Z) (stop : Z -> bool)
  (step : S -> E -> result S) (s : S) : M files S :=
  perform when (cache_logs c) (open_w (cache_file c)) then
  do log_iterator <- log_source c log_filter limit in
  perform when (reopen && cache_logs c) (open_w (cache_file c)) then
  read_loop c stop step 0 log_iterator s.
End Source.

(** ** [visualize_gossip_net] *)
Definition BLOCK_LOG_FILTER : string :=
  " " +:+ Logs.q "Broadcasting new state over gossip net" +:+ " OR " +:+ Logs.q "Rebroadcasting $state_hash" +:+
  " OR " +:+ Logs.q "Received a block $block from $sender" +:+
  " AND jsonPayload.metadata.state_hash:" +:+ Logs.q "" +:+ " AND jsonPayload.metadata.state_hash:" +:+ Logs.q "".

Section GossipNet.
Context `{NX : Networkx Gossip.weight}.
Context (dumps : Gossip.entry -> string) (loads : string -> result Gossip.entry).
Context (earliest_of : Z -> string) (list_entries : string -> list Gossip.entry).

(** [_process_log_iterator] opens the cache file again; the query has the limit 1000. *)
Definition visualize_gossip_net (c : ctx) : M files (list (string * digraph)) :=
  do s <- read_logs dumps loads earliest_of list_entries c true BLOCK_LOG_FILTER 1000
            (fun nBlocks => nBlocks =? max_entries c) (fun s e => Ok (Gossip.sort_entry s e)) (Gossip.Sorted [] [] []) in
  lift (Gossip.rebroadcast_graphs s).
End GossipNet.

(** ** [visualize_blockchain] *)
Record block_entry : Type := BlockEntry {
  b_state_hash : option string;          (* [entry[-1]['metadata']['state_hash']] *)
  b_previous : option string;            (* [...]['external_transition']...['previous_state_hash'] *)
  b_labels : option (dict string string) (* [entry[1]] *)
}.

Definition link_of_entry (e : block_entry) : result BestTip.link_entry :=
  let* state_hash := need (b_state_hash e) in
  let* parent_hash := need (b_previous e) in
  let* app := match b_labels e with Some labels => get_item labels "k8s-pod/app" | None => Err TypeError end in
  Ok (BestTip.LinkEntry state_hash parent_hash app).

Definition add_block (t : trie) (e : block_entry) : result trie :=
  let* l := link_of_entry e in BestTip.add_entry t l.

Definition REBROADCAST_FILTER : string := " " +:+ Logs.q "Rebroadcasting $state_hash".

Section Blockchain.
Context (dumps : block_entry -> string) (loads : string -> result block_entry).
Context (earliest_of : Z -> string) (list_entries : string -> list block_entry).

(** [draw] is [draw_blockchain] of BestTip, with its colours, pods and answers. *)
Definition visualize_blockchain {D} (draw : trie -> result D) (c : ctx) : M files D :=
  do t <- read_logs dumps loads earliest_of list_entries c false REBROADCAST_FILTER (max_entries c)
            (fun _ => false) add_block empty_trie in
  lift (draw t).
End Blockchain.

(** ** The notebooks
    Each has two cells of settings; run from top to bottom the second one holds. *)
Section NotebookRun.
Context `{NX : Networkx Notebook.cell_weight}.
Context (earliest_of : Z -> string) (list_entries : string -> list Gossip.entry).
Context (blockchain_length : Gossip.log -> result string) (show_ms : Z -> string).

Definition nb_params : ctx := Ctx "bugspray" (Number 1) false "../../cached-logs.json" (Some "../../cached-logs.json") 150.

Definition REBROADCAST_LOG_FILTER : string :=
  " " +:+ Logs.q "Rebroadcasting $state_hash" +:+ " AND jsonPayload.metadata.state_hash:" +:+ Logs.q "".
Definition RECEIVED_BLOCK_LOG_FILTER : string :=
  " " +:+ Logs.q "Received a block from $sender" +:+ " AND jsonPayload.metadata.state_hash:" +:+ Logs.q "".
Definition BROADCAST_LOG_FILTER : string :=
  " " +:+ Logs.q "Broadcasting new state over gossip net" +:+ " AND jsonPayload.metadata.state_hash:" +:+ Logs.q "".

(** A query asks the service even when the settings name a file. *)
Definition query_cell (c : ctx) (log_filter : string) : result (list Gossip.entry) :=
  fetch earliest_of list_entries c log_filter (max_entries c).

(** The numbers that the notebook prints and its figures. *)
Definition notebook_run : result (list string * list (Notebook.figure (NX := NX))) :=
  let* rebroadcast_logs := query_cell nb_params REBROADCAST_LOG_FILTER in
  let* received_logs := query_cell nb_params RECEIVED_BLOCK_LOG_FILTER in
  let* broadcast_logs := query_cell nb_params BROADCAST_LOG_FILTER in
  let counts := Notebook.counts_cell (Notebook.broadcast_cell (max_entries nb_params) broadcast_logs)
                  (Notebook.rebroadcast_cell rebroadcast_logs) (Notebook.received_cell received_logs) in
  let* figures := Notebook.notebook blockchain_length show_ms (max_entries nb_params) rebroadcast_logs received_logs broadcast_logs in
  Ok (counts, figures).

(** The copy under [.ipynb_checkpoints] has another filter for the messages received, and a
    parenthesis is missing in its last cell, which does not run: the state is what it printed. *)
Definition CHECKPOINT_RECEIVED_FILTER : string :=
  "  " +:+ Logs.q "Received a block $block from $sender" +:+ " AND jsonPayload.metadata.state_hash:" +:+ Logs.q "".

Definition checkpoint_run : M (list string) unit :=
  do rebroadcast_logs <- lift (query_cell nb_params REBROADCAST_LOG_FILTER) in
  do received_logs <- lift (query_cell nb_params CHECKPOINT_RECEIVED_FILTER) in
  do broadcast_logs <- lift (query_cell nb_params BROADCAST_LOG_FILTER) in
  perform modify (fun printed => printed ++
    Notebook.counts_cell (Notebook.broadcast_cell (max_entries nb_params) broadcast_logs)
      (Notebook.rebroadcast_cell rebroadcast_logs) (Notebook.received_cell received_logs))%list then
  raise SyntaxError.
End NotebookRun.

(** ** Files of lines are read back *)
Definition is_line (s : string) : bool := all_chars (fun a => negb (Ascii.eqb a newline || Ascii.eqb a carriage_return)) s.

(** The text of some lines. *)
Definition text_of (ls : list string) : string := foldr (fun l t => l +:+ nl +:+ t) "" ls.

Lemma text_of_app l1 l2 : text_of (l1 ++ l2) = text_of l1 +:+ text_of l2.
Proof. induction l1 as [|l l1 IH]; [done|]. cbn [app text_of foldr]. unfold text_of in IH. by rewrite IH, !app_assoc_str. Qed.

Lemma universal_app s t : is_line s = true -> universal false (s +:+ nl +:+ t) = s +:+ nl +:+ universal false t.
Proof.
  unfold is_line. induction s as [|a s IH]; intros H.
  - change ("" +:+ ?x) with x. reflexivity.
  - cbn [all_chars] in H. apply andb_true_iff in H as [Ha Hs]. apply negb_true_iff, orb_false_iff in Ha as [H1 H2].
    rewrite !app_cons_str. cbn [universal]. rewrite H1, H2. by rewrite IH.
Qed.

Lemma universal_text ls : forallb is_line ls = true -> universal false (text_of ls) = text_of ls.
Proof.
  induction ls as [|l ls IH]; [done|]. cbn [forallb]. intros [Hl Hls]%andb_true_iff. cbn [text_of foldr].
  rewrite universal_app by done. unfold text_of in IH. by rewrite IH.
Qed.

Lemma lines_from_app cur s t : is_line s = true -> lines_from cur (s +:+ nl +:+ t) = (cur +:+ s +:+ nl) :: lines_from "" t.
Proof.
  unfold is_line. revert cur. induction s as [|a s IH]; intros cur H.
  - reflexivity.
  - cbn [all_chars] in H. apply andb_true_iff in H as [Ha Hs]. apply negb_true_iff, orb_false_iff in Ha as [H1 _].
    rewrite app_cons_str. cbn [lines_from]. rewrite H1, IH by done. by rewrite app_assoc_str.
Qed.

Lemma readlines_text ls path w : forallb is_line ls = true -> get w path = Some (text_of ls) ->
  readlines path w = (w, Ok (map (fun l => l +:+ nl) ls)).
Proof.
  intros Hl Hw. unfold readlines, bindM, gets, id. rewrite Hw, universal_text by done. unfold ret. do 2 f_equal.
  clear Hw. induction ls as [|l ls IH]; [done|]. cbn [forallb] in Hl. apply andb_true_iff in Hl as [Hl Hls].
  cbn [text_of foldr map]. rewrite lines_from_app by done. unfold text_of in IH. by rewrite IH.
Qed.

(** ** Reading the cache again *)
Section Cached.
Context {E S : Type} (dumps : E -> string) (loads : string -> result E).
Context (stop : Z -> bool) (step : S -> E -> result S).

(** The JSON text of an entry is one line, from which it is read back. *)
Definition printable (e : E) : Prop := is_line (dumps e) = true /\ loads (dumps e +:+ nl) = Ok e.

(** Without caching the files are not touched. *)
Lemma read_loop_reads c n es s w : caching c = false -> fst (read_loop dumps c stop step n es s w) = w.
Proof.
  intros Hc. revert n s. induction es as [|r es IH]; intros n s; [done|]. cbn [read_loop]. rewrite Hc. cbn [when].
  unfold bindM, lift, ret. destruct r as [e|]; [|done]. destruct (stop (n + 1)); [done|]. destruct (step s e); [apply IH | done].
Qed.

(** What the loop answers does not depend on the cache. *)
Lemma read_loop_result c c' n es s w w' : snd (read_loop dumps c stop step n es s w) = snd (read_loop dumps c' stop step n es s w').
Proof.
  revert n s w w'. induction es as [|r es IH]; intros n s w w'; [done|]. cbn [read_loop]. unfold bindM, lift, ret, write, modify, when.
  destruct r as [e|]; [|done].
  destruct (caching c), (caching c'); (destruct (stop (n + 1)); [done|]; destruct (step s e); [apply IH | done]).
Qed.

(** The loop leaves in the cache the entries that it has read, and from them it runs the same. *)
Lemma read_loop_cached c n es s w text : caching c = true -> get w (cache_file c) = Some text ->
  exists es' rest, es = (es' ++ rest)%list /\
    get (fst (read_loop dumps c stop step n (map Ok es) s w)) (cache_file c) = Some (text +:+ text_of (map dumps es')) /\
    (forall p, p <> cache_file c -> get (fst (read_loop dumps c stop step n (map Ok es) s w)) p = get w p) /\
    forall c' w', snd (read_loop dumps c' stop step n (map Ok es') s w') = snd (read_loop dumps c stop step n (map Ok es) s w).
Proof.
  intros Hc. revert n s w text. induction es as [|e es IH]; intros n s w text Hw.
  { exists [], []. cbn. rewrite app_nil_r_str. done. }
  set (w1 := set (cache_file c) (text +:+ dumps e +:+ nl) w).
  assert (Hw1 : get w1 (cache_file c) = Some (text +:+ dumps e +:+ nl)) by apply get_set_eq.
  assert (Hframe : forall p, p <> cache_file c -> get w1 p = get w p) by (intros p Hp; by apply get_set_ne).
  assert (Hstep : read_loop dumps c stop step n (map Ok (e :: es)) s w =
    (if stop (n + 1) then ret s else do s' <- lift (step s e) in read_loop dumps c stop step (n + 1) (map Ok es) s') w1).
  { cbn [map read_loop]. unfold bindM, lift at 1. rewrite Hc. cbn [when]. unfold write, modify. by rewrite Hw. }
  rewrite Hstep. clear Hstep. unfold bindM, lift, ret.
  destruct (stop (n + 1)) eqn:Es; [|destruct (step s e) as [s'|x] eqn:Et].
  - exists [e], es. split; [done|]. cbn [fst snd map text_of foldr]. rewrite app_nil_r_str. split_and!; [done..|].
    intros c' w'. cbn [read_loop]. unfold bindM, lift, ret. rewrite Es. by destruct (caching c').
  - destruct (IH (n + 1) s' w1 _ Hw1) as (es' & rest & -> & H1 & H2 & H3). exists (e :: es'), rest. split; [done|].
    cbn [map text_of foldr]. split_and!.
    + rewrite H1. unfold text_of. by rewrite !app_assoc_str.
    + intros p Hp. by rewrite H2, Hframe.
    + intros c' w'. cbn [read_loop]. unfold bindM, lift, ret, write, modify, when. rewrite Es, Et. destruct (caching c'); apply H3.
  - exists [e], es. split; [done|]. cbn [fst snd map text_of foldr]. rewrite app_nil_r_str. split_and!; [done..|].
    intros c' w'. cbn [read_loop]. unfold bindM, lift, ret, write, modify, when. rewrite Es, Et. by destruct (caching c').
Qed.
End Cached.

(** The options of a run that reads the cache of an earlier one. *)
Definition reread (c : ctx) : ctx := Ctx (namespace c) (hours_ago c) false (cache_file c) (Some (cache_file c)) (max_entries c).

Section Commands.
Context {E S : Type} (dumps : E -> string) (loads : string -> result E).
Context (earliest_of : Z -> string) (list_entries : string -> list E).
Context (reopen : bool) (log_filter : string) (limit : Z) (stop : Z -> bool) (step : S -> E -> result S) (s0 : S).

Abbreviation run c := (read_logs dumps loads earliest_of list_entries c reopen log_filter limit stop step s0).

(** The entries that a query finds. *)
Definition found (c : ctx) (h : Z) : list E :=
  list_entries (Logs.filter_common "  " (earliest_of h) (namespace c) +:+ log_filter).

Lemma fetch_found c h : int_of (hours_ago c) = Ok h -> limit <> 0 ->
  fetch earliest_of list_entries c log_filter limit = Ok (take (Z.to_nat (Z.abs limit)) (found c h)).
Proof.
  intros Hh Hl. unfold fetch. rewrite Hh. cbn [bind]. rewrite Logs.fetch_logs_all by done. reflexivity.
Qed.

Lemma read_logs_live c h w : int_of (hours_ago c) = Ok h -> limit <> 0 -> cache_logs c = true -> in_file c = None ->
  run c w = read_loop dumps c stop step 0 (map Ok (take (Z.to_nat (Z.abs limit)) (found c h))) s0 (set (cache_file c) "" w).
Proof.
  intros Hh Hl Hc Hi. unfold read_logs, log_source. rewrite Hi, Hc, (fetch_found c h) by done.
  unfold bindM, lift, when, open_w, modify, ret. destruct reopen; [|done]. cbn [andb]. by rewrite set_set.
Qed.

Lemma caching_live c : cache_logs c = true -> in_file c = None -> caching c = true.
Proof. intros H1 H2. unfold caching. by rewrite H1, H2. Qed.

Lemma read_logs_rerun c ls w : Forall (printable dumps loads) ls -> get w (cache_file c) = Some (text_of (map dumps ls)) ->
  run (reread c) w = (w, snd (read_loop dumps (reread c) stop step 0 (map Ok ls) s0 w)).
Proof.
  intros Hp Hw. unfold read_logs, log_source, reread. cbn [cache_logs in_file cache_file when andb].
  assert (Hlines : forallb is_line (map dumps ls) = true).
  { apply forallb_forall. intros x (e & <- & He)%in_map_iff. rewrite Forall_forall in Hp. by apply Hp, list_elem_of_In. }
  rewrite andb_false_r. cbn [when]. unfold bindM, ret. rewrite (readlines_text (map dumps ls)) by done.
  assert (El : map loads (map (fun l => l +:+ nl) (map dumps ls)) = map Ok ls).
  { clear Hw Hlines. induction Hp as [|e ls [_ He] _ IH]; [done|]. cbn [map]. by rewrite He, IH. }
  rewrite El. match goal with |- ?m w = (w, snd (?m w)) => pose proof (read_loop_reads dumps stop step (reread c) 0 (map Ok ls) s0 w eq_refl) as Hw' end.
  destruct (read_loop _ _ _ _ _ _ _ w) as [w' r]. cbn in Hw'. by subst.
Qed.

(** A run that caches its logs leaves a file from which it runs again with the same answer. *)
Lemma read_logs_cached c h w : int_of (hours_ago c) = Ok h -> limit <> 0 -> cache_logs c = true -> in_file c = None ->
  Forall (printable dumps loads) (take (Z.to_nat (Z.abs limit)) (found c h)) ->
  let '(w1, r) := run c w in
  r = snd (read_loop dumps c stop step 0 (map Ok (take (Z.to_nat (Z.abs limit)) (found c h))) s0 w) /\
  (forall p, p <> cache_file c -> get w1 p = get w p) /\ run (reread c) w1 = (w1, r).
Proof.
  intros Hh Hl Hc Hi Hp. rewrite (read_logs_live c h) by done. set (es := take _ _) in *.
  destruct (read_loop_cached dumps stop step c 0 es s0 (set (cache_file c) "" w) "" (caching_live c Hc Hi) (get_set_eq _ _ _))
    as (es' & rest & Hes & H1 & H2 & H3). change ("" +:+ ?x) with x in H1.
  destruct (read_loop dumps c stop step 0 (map Ok es) s0 (set (cache_file c) "" w)) as [w1 r] eqn:Er. cbn [fst snd] in H1, H2, H3.
  split; [|split].
  - rewrite (read_loop_result dumps stop step c c 0 _ s0 w (set (cache_file c) "" w)). by rewrite Er.
  - intros p Hne. rewrite H2 by done. by apply get_set_ne.
  - rewrite Hes in Hp. apply Forall_app in Hp as [Hp _]. rewrite (read_logs_rerun c es') by done. by rewrite H3.
Qed.

(** A run that has an input file and is told to cache empties the cache file. *)
Lemma read_logs_emptied c f w : cache_logs c = true -> in_file c = Some f ->
  let w0 := set (cache_file c) "" w in
  run c w = match get w0 f with
            | Some text => (w0, snd (read_loop dumps c stop step 0 (map loads (lines_from "" (universal false text))) s0 w0))
            | None => (w0, Err (FileNotFoundError f))
            end.
Proof.
  intros Hc Hi w0. unfold read_logs, log_source, readlines. rewrite Hc, Hi. cbn [when]. unfold bindM at 1, open_w, modify. fold w0.
  unfold bindM, gets, id. destruct (get w0 f) as [text|]; [|done]. unfold ret, when.
  assert (Ew : set (cache_file c) "" w0 = w0) by (unfold w0; apply set_set).
  assert (Hca : caching c = false) by (unfold caching; rewrite Hi, andb_comm; by rewrite bool_decide_eq_false_2).
  pose proof (read_loop_reads dumps stop step c 0 (map loads (lines_from "" (universal false text))) s0 w0 Hca) as Hw'.
  destruct reopen; cbn [andb]; unfold ret; cbv beta iota; rewrite ?Ew; destruct (read_loop _ _ _ _ _ _ _ w0) as [w' r]; cbn in Hw'; by rewrite Hw'.
Qed.
End Commands.

(** What the loops compute. *)
Lemma read_loop_sorts dumps c n es s w :
  snd (read_loop dumps c (fun nBlocks => nBlocks =? max_entries c) (fun s e => Ok (Gossip.sort_entry s e)) n (map Ok es) s w) =
  Ok (Gossip.sort_entries (max_entries c) n es s).
Proof.
  revert n s w. induction es as [|e es IH]; intros n s w; [done|]. cbn [map read_loop Gossip.sort_entries].
  unfold bindM, lift, ret, when, write, modify. destruct (caching c), (n + 1 =? max_entries c); done || apply IH.
Qed.

Lemma read_loop_folds {E S} (dumps : E -> string) c (step : S -> E -> result S) n es s w :
  snd (read_loop dumps c (fun _ => false) step n (map Ok es) s w) = foldM step es s.
Proof.
  revert n s w. induction es as [|e es IH]; intros n s w; [done|]. cbn [map read_loop foldM].
  unfold bindM, lift, ret, when, write, modify. destruct (caching c), (step s e) as [s'|x]; cbn [bind]; done || apply IH.
Qed.

Lemma add_blocks_links es ls t : mapM link_of_entry es = Ok ls -> foldM add_block es t = foldM BestTip.add_entry ls t.
Proof.
  revert ls t. induction es as [|e es IH]; intros ls t H; cbn [mapM] in H; [by injection H as <-|].
  apply bind_Ok_inv in H as (l & Hl & H). apply bind_Ok_inv in H as (ls' & Hls & H). injection H as <-.
  cbn [foldM]. unfold add_block at 1. rewrite Hl. cbn [bind]. destruct (BestTip.add_entry t l); [by apply IH | done].
Qed.

(** A value that both runs of a command go on from. *)
Lemma bindM_lift {W A B} (m : M W A) (f : A -> result B) w : (do a <- m in lift (f a)) w = (fst (m w), bind (snd (m w)) f).
Proof. unfold bindM, lift. by destruct (m w) as [w' [a|e]]. Qed.

(** C28: The gossip graphs of the logging service can be drawn again from the cache: a run that
    caches its logs and has no input file draws the graphs of the first thousand entries that its
    query finds (of those before the one numbered [max_entries]), changes no file but the cache
    file, and a run that reads this file draws the same, or fails the same, and changes no file.
    More than a thousand entries are never fetched, whatever [max_entries] is. *)
Theorem gossip_net_cached `{NX : Networkx Gossip.weight} dumps loads earliest_of list_entries c h w :
  let es := take 1000 (found earliest_of list_entries BLOCK_LOG_FILTER c h) in
  let run := visualize_gossip_net dumps loads earliest_of list_entries in
  int_of (hours_ago c) = Ok h -> cache_logs c = true -> in_file c = None -> Forall (printable dumps loads) es ->
  let '(w1, r) := run c w in
  r = Gossip._process_log_iterator (max_entries c) es /\ (forall p, p <> cache_file c -> get w1 p = get w p) /\
  run (reread c) w1 = (w1, r).
Proof.
  intros es run Hh Hc Hi Hp. unfold run, visualize_gossip_net. rewrite !bindM_lift.
  pose proof (read_logs_cached dumps loads earliest_of list_entries true BLOCK_LOG_FILTER 1000 (fun n => n =? max_entries c)
    (fun s e => Ok (Gossip.sort_entry s e)) (Gossip.Sorted [] [] []) c h w Hh ltac:(lia) Hc Hi Hp) as H.
  change (max_entries (reread c)) with (max_entries c). destruct (read_logs _ _ _ _ c _ _ _ _ _ _ w) as [w1 r].
  destruct H as (Hr & Hf & Hrr). cbn [fst snd]. rewrite Hrr. cbn [fst snd]. rewrite Hr, read_loop_sorts. done.
Qed.

(** The blockchain of the logs can be drawn again from the cache: a run of visualize-blockchain
    that caches its logs and has no input file inserts the links of the first [max_entries] entries
    that its query finds and draws them, or fails at the first entry without its keys or whose link
    the trie refuses; it changes no file but the cache file, from which a second run draws or fails
    the same, and changes no file. *)
Theorem blockchain_cached {D} dumps loads earliest_of list_entries (draw : trie -> result D) c h w :
  let es := take (Z.to_nat (Z.abs (max_entries c))) (found earliest_of list_entries REBROADCAST_FILTER c h) in
  let run := visualize_blockchain dumps loads earliest_of list_entries draw in
  int_of (hours_ago c) = Ok h -> max_entries c <> 0 -> cache_logs c = true -> in_file c = None -> Forall (printable dumps loads) es ->
  let '(w1, r) := run c w in
  r = (let* t := foldM add_block es empty_trie in draw t) /\
  (forall ls, mapM link_of_entry es = Ok ls -> r = let* t := foldM BestTip.add_entry ls empty_trie in draw t) /\
  (forall p, p <> cache_file c -> get w1 p = get w p) /\ run (reread c) w1 = (w1, r).
Proof.
  intros es run Hh Hm Hc Hi Hp. unfold run, visualize_blockchain. rewrite !bindM_lift.
  pose proof (read_logs_cached dumps loads earliest_of list_entries false REBROADCAST_FILTER (max_entries c) (fun _ => false)
    add_block empty_trie c h w Hh Hm Hc Hi Hp) as H.
  change (max_entries (reread c)) with (max_entries c). destruct (read_logs _ _ _ _ c _ _ _ _ _ _ w) as [w1 r].
  destruct H as (Hr & Hf & Hrr). cbn [fst snd]. rewrite Hrr. cbn [fst snd]. rewrite Hr, read_loop_folds.
  split; [done|]. split; [|done]. intros ls Hls. by rewrite (add_blocks_links _ _ _ Hls).
Qed.

(** Told to cache the logs that it reads from a file, the gossip command empties the cache file
    and caches nothing; when the input file is the cache file itself, its logs are lost and no
    graph is drawn.  The other files do not change. *)
Theorem gossip_net_empties_cache `{NX : Networkx Gossip.weight} dumps loads earliest_of list_entries c f w :
  cache_logs c = true -> in_file c = Some f ->
  let '(w1, r) := visualize_gossip_net dumps loads earliest_of list_entries c w in
  get w1 (cache_file c) = Some "" /\ (forall p, p <> cache_file c -> get w1 p = get w p) /\
  (f = cache_file c -> r = Ok []).
Proof.
  intros Hc Hi. unfold visualize_gossip_net. rewrite bindM_lift, (read_logs_emptied _ _ _ _ _ _ _ _ _ _ c f) by done.
  cbv zeta. set (w0 := set (cache_file c) "" w). assert (H0 : get w0 (cache_file c) = Some "") by apply get_set_eq.
  assert (Hne : forall p, p <> cache_file c -> get w0 p = get w p) by (intros p Hp; by apply get_set_ne).
  destruct (decide (f = cache_file c)) as [->|Hf]; [rewrite H0; by split_and!|].
  destruct (get w0 f); cbn [fst snd]; by split_and!.
Qed.

(** The notebook draws from what its queries find: at most 150 entries each, and one less of
    the broadcasts. *)
Lemma notebook_run_spec `{NX : Networkx Notebook.cell_weight} earliest_of list_entries blockchain_length show_ms :
  let es filter := take 150 (found earliest_of list_entries filter nb_params 1) in
  notebook_run earliest_of list_entries blockchain_length show_ms =
  let* figures := Notebook.notebook blockchain_length show_ms 150 (es REBROADCAST_LOG_FILTER) (es RECEIVED_BLOCK_LOG_FILTER) (es BROADCAST_LOG_FILTER) in
  Ok (Notebook.counts_cell (Notebook.broadcast_cell 150 (es BROADCAST_LOG_FILTER)) (Notebook.rebroadcast_cell (es REBROADCAST_LOG_FILTER))
        (Notebook.received_cell (es RECEIVED_BLOCK_LOG_FILTER)), figures).
Proof.
  intros es. unfold notebook_run, query_cell.
  rewrite !(fetch_found earliest_of list_entries _ 150 nb_params 1) by done. reflexivity.
Qed.

(** The checkpoint copy prints three numbers and draws nothing. *)
Lemma checkpoint_run_spec earliest_of list_entries printed :
  exists a b c, checkpoint_run earliest_of list_entries printed = ((printed ++ [a; b; c])%list, Err SyntaxError).
Proof.
  unfold checkpoint_run, query_cell. rewrite !(fetch_found earliest_of list_entries _ 150 nb_params 1) by done.
  by eexists _, _, _.
Qed.

(** ** Three entries, cached and read again *)
Definition toy_ctx : ctx := Ctx "net" (Text "1") true "./cached-logs.json" None 1000.

Definition toy_dumps (e : Gossip.entry) : string := default "0" (Gossip.sender (Gossip.json_payload e)).

Definition toy_loads (l : string) : result Gossip.entry :=
  match List.find (fun e => String.eqb l (toy_dumps e +:+ nl)) Gossip.toy_entries with
  | Some e => Ok e
  | None => Err JSONDecodeError
  end.

Definition toy_net : ctx -> M files (list (string * Networkx.graph Gossip.weight)) :=
  visualize_gossip_net (NX := dict_networkx) toy_dumps toy_loads (fun _ => "2020-01-01T00:00:00Z") (fun _ => Gossip.toy_entries).

Definition toy_cache : files := [("./cached-logs.json", text_of ["0"; "a"; "c"])].

Lemma gossip_net_cached_witness :
  toy_net toy_ctx [] = (toy_cache, Ok [("H", Gossip.toy_graph)]) /\ toy_net (reread toy_ctx) toy_cache = (toy_cache, Ok [("H", Gossip.toy_graph)]).
Proof.
  assert (E : toy_net toy_ctx [] = (toy_cache, Ok [("H", Gossip.toy_graph)])) by (vm_compute; reflexivity).
  assert (P : Forall (printable toy_dumps toy_loads) Gossip.toy_entries) by (repeat constructor).
  pose proof (gossip_net_cached (NX := dict_networkx) toy_dumps toy_loads (fun _ => "2020-01-01T00:00:00Z") (fun _ => Gossip.toy_entries)
    toy_ctx 1 [] eq_refl eq_refl eq_refl P) as H. cbv zeta in H. fold toy_net in H. rewrite E in H.
  exact (conj E (proj2 (proj2 H))).
Defined.

(** A link and an entry without its labels. *)
Definition toy_blocks : list block_entry :=
  [BlockEntry (Some "b") (Some "a") (Some [("k8s-pod/app", "whale-1")]); BlockEntry (Some "c") (Some "b") None].

Definition toy_block_dumps (e : block_entry) : string := default "" (b_state_hash e).

Definition toy_block_loads (l : string) : result block_entry :=
  match List.find (fun e => String.eqb l (toy_block_dumps e +:+ nl)) toy_blocks with
  | Some e => Ok e
  | None => Err JSONDecodeError
  end.

Definition toy_chain : ctx -> M files trie :=
  visualize_blockchain toy_block_dumps toy_block_loads (fun _ => "2020-01-01T00:00:00Z") (fun _ => toy_blocks) Ok.

Lemma blockchain_cached_witness :
  toy_chain toy_ctx [] = ([("./cached-logs.json", text_of ["b"; "c"])], Err TypeError) /\
  toy_chain (reread toy_ctx) [("./cached-logs.json", text_of ["b"; "c"])] = ([("./cached-logs.json", text_of ["b"; "c"])], Err TypeError).
Proof.
  assert (E : toy_chain toy_ctx [] = ([("./cached-logs.json", text_of ["b"; "c"])], Err TypeError)) by (vm_compute; reflexivity).
  assert (P : Forall (printable toy_block_dumps toy_block_loads) toy_blocks) by (repeat constructor).
  pose proof (blockchain_cached toy_block_dumps toy_block_loads (fun _ => "2020-01-01T00:00:00Z") (fun _ => toy_blocks) Ok
    toy_ctx 1 [] eq_refl ltac:(discriminate) eq_refl eq_refl P) as H. cbv zeta in H. fold toy_chain in H. rewrite E in H.
  exact (conj E (proj2 (proj2 (proj2 H)))).
Defined.

Lemma gossip_net_empties_cache_witness :
  let c := Ctx "net" (Text "1") true "./cached-logs.json" (Some "./cached-logs.json") 1000 in
  toy_net c toy_cache = ([("./cached-logs.json", "")], Ok []).
Proof.
  intros c. pose proof (gossip_net_empties_cache (NX := dict_networkx) toy_dumps toy_loads (fun _ => "2020-01-01T00:00:00Z")
    (fun _ => Gossip.toy_entries) c "./cached-logs.json" toy_cache eq_refl eq_refl) as H. fold toy_net in H.
  assert (E : fst (toy_net c toy_cache) = [("./cached-logs.json", "")]) by (vm_compute; reflexivity).
  destruct (toy_net c toy_cache) as [w1 r]. cbn in E. rewrite E. destruct H as (_ & _ & Hr). by rewrite (Hr eq_refl).
Defined.
