(* ===== verification/PeerConfig.v ===== *)
(** * Joining a running test network

    [testnet-validation/local_daemon.py] (a daemon in a local container) and
    [testnet-validation/helm_deploy.py] (an archive node installed with helm).  Both find
    three peers by reading the output of [mina client status] on pods.  [kubectl], [helm],
    docker, YAML and the random choices are parameters; [stdout] is what a command prints
    (standard error is not captured, so the scripts never see any). *)

From stdpp Require Import base list strings.
From Stdlib Require Import Ascii ZArith Lia.
From S2P Require Import Prelude Dict PyStr PyText PySet Regex Effects.
Open Scope string_scope.
Open Scope Z_scope.

Inductive yaml : Type :=
| Scalar (s : string)
| Items (l : list yaml)
| Mapping (d : list (string * yaml)).

(** [v[k]] *)
Definition yaml_item (v : yaml) (k : string) : result yaml :=
  match v with
  | Mapping d => get_item d k
  | _ => Err TypeError
  end.

Record config_map : Type := ConfigMap { cm_name : string; cm_data : dict string string }.

(** [dClient.containers.run(...)] *)
Record container : Type := Container { image : string; command : string; port : Z; volume : string }.

Record world : Type := World {
  commands : list (list string);
  files : dict string string;
  containers : list container
}.

Definition write_file (path text : string) : M world unit :=
  modify (fun w => World (commands w) (set path text (files w)) (containers w)).

(** ** Reading the status of a daemon *)
Definition spaces1 : re := Rep (Chr is_space) 1 None.
Definition digits13 : re := Rep (Chr digit) 1 (Some 3%nat).

Definition IP_Pattern : re :=
  Seq (lit "External IP:") (Seq spaces1
    (Group (Seq Bound (Seq (Rep (Seq digits13 (Chr (Ascii.eqb "."))) 3 (Some 3%nat)) (Seq digits13 Bound))))).

Definition gossip_port_pattern : re :=
  Seq (lit "Libp2p port:") (Seq spaces1 (Group (Seq Bound (Seq (Rep (Chr digit) 1 None) Bound)))).

Definition libp2p_peerid_pattern : re :=
  Seq (lit "Libp2p PeerID:") (Seq spaces1 (Group (Seq Bound (Seq (Rep (Chr is_word) 1 None) Bound)))).

(** [m.groups()[0]] *)
Definition groups0 (m : option pos) : result string :=
  match m with
  | None => Err AttributeError
  | Some p => match group p with Some g => Ok g | None => Err IndexError end
  end.

(** [try: ... except IndexError: sys.exit(1)] *)
Definition peer_address (status_output : string) : result string :=
  let ip_matches := search IP_Pattern status_output in
  let port_matches := search gossip_port_pattern status_output in
  let peerid_matches := search libp2p_peerid_pattern status_output in
  match (let* ip_address := groups0 ip_matches in
         let* gossip_port := groups0 port_matches in
         let* peerid := groups0 peerid_matches in
         Ok ("/ip4/" +:+ ip_address +:+ "/tcp/" +:+ gossip_port +:+ "/ipfs/" +:+ peerid)) with
  | Err IndexError => Err (SystemExit 1)
  | r => r
  end.

Section Scripts.
Context (stdout : list string -> string) (list_pods : string -> list string).

(** [Popen(command.split(), ...).communicate()] *)
Definition popen (command : string) : M world string :=
  perform modify (fun w => World (commands w ++ [words command])%list (files w) (containers w)) then
  ret (stdout (words command)).

Definition status_command (namespace pod : string) : string :=
  "kubectl exec --namespace=" +:+ namespace +:+ " -c coda " +:+ pod +:+ " mina client status".

(** ** [local_daemon.py] *)
Context (shuffle : list string -> list string) (list_config_maps : string -> list config_map)
  (docker_run : container -> result string) (cwd script_dir : string).

(** The loop over the peers; [status_output] keeps the value of the turn before when a
    command prints nothing. *)
Fixpoint local_peers (namespace : string) (status_output : option string) (pods : list string) : M world (list string) :=
  match pods with
  | [] => ret []
  | pod :: pods' =>
      do output <- popen (status_command namespace pod) in
      let status_output := if String.eqb output "" then status_output else Some output in
      do text <- lift match status_output with Some t => Ok t | None => Err UnboundLocalError end in
      do address <- lift (peer_address text) in
      do rest <- local_peers namespace status_output pods' in
      ret (address :: rest)
  end.

Definition local_fetch_peers (namespace : string) : M world (list string) :=
  local_peers namespace None (take 3 (shuffle (list_pods namespace))).

Definition absolute (path : string) : string := if startswith "/" path then path else path_join cwd path.

(** The file is truncated before the data is looked up. *)
Definition fetch_daemon_json (working_directory namespace : string) : M world unit :=
  for_each (list_config_maps namespace) (fun config =>
    when (String.eqb (cm_name config) "seed-node-daemon-config")
      (let outpath := absolute (path_join working_directory "daemon.json") in
       perform write_file outpath "" then
       do text <- lift (get_item (cm_data config) "daemon.json") in
       write_file outpath text)).

Definition docker_command (gossip_port : Z) (p0 p1 p2 : string) : string :=
  nl +:+ "daemon   -external-port " +:+ py_str gossip_port +:+ "   -generate-genesis-proof true" +:+
  "   -config-dir /root/.mina-config   -config-file /tmp/daemon.json" +:+
  "   -peer " +:+ p0 +:+ "   -peer " +:+ p2 +:+ "   -peer " +:+ p1 +:+ nl +:+ "  ".

Definition run_docker (daemon_image : string) (gossip_port : Z) (working_directory : string) (peers : list string) : M world unit :=
  do p0 <- lift (py_nth peers 0) in
  do p2 <- lift (py_nth peers 2) in
  do p1 <- lift (py_nth peers 1) in
  let c := Container daemon_image (docker_command gossip_port p0 p1 p2) gossip_port (absolute working_directory) in
  perform modify (fun w => World (commands w) (files w) (containers w ++ [c])%list) then
  do _ <- lift (docker_run c) in
  ret tt.

Definition local_run (namespace : string) (gossip_port : Z) (docker_image working_directory : string) : M world unit :=
  let working_directory := if String.eqb working_directory "." then script_dir else working_directory in
  do addresses <- local_fetch_peers namespace in
  perform fetch_daemon_json working_directory namespace then
  run_docker docker_image gossip_port working_directory addresses.

(** ** [helm_deploy.py] *)
Context (sample3 : list string -> list string) (safe_load : string -> result yaml) (dump : yaml -> string).

Definition random_sample3 (l : list string) : result (list string) :=
  if zlength l <? 3 then Err (ValueError "Sample larger than population or is negative") else Ok (sample3 l).

Fixpoint helm_peers (namespace : string) (pods : list string) : M world (list string) :=
  match pods with
  | [] => ret []
  | pod :: pods' =>
      do output <- popen (status_command namespace pod) in
      perform when (String.eqb output "") (raise (RuntimeException "No Status Output...")) then
      do address <- lift (peer_address output) in
      do rest <- helm_peers namespace pods' in
      ret (address :: rest)
  end.

Definition helm_fetch_peers (namespace : string) : M world (list string) :=
  do peers <- lift (random_sample3 (List.filter (contains "block-producer") (list_pods namespace))) in
  helm_peers namespace peers.

(** A copy of the function of [local_daemon.py], which [helm_deploy.py] does not call. *)
Definition helm_fetch_daemon_json (working_directory namespace : string) : M world unit :=
  for_each (list_config_maps namespace) (fun config =>
    when (String.eqb (cm_name config) "seed-node-daemon-config")
      (let outpath := absolute (path_join working_directory "daemon.json") in
       perform write_file outpath "" then
       do text <- lift (get_item (cm_data config) "daemon.json") in
       write_file outpath text)).

Definition no_text (s : option string) : bool := match s with None => true | Some s => String.eqb s "" end.

Definition values_command (namespace release_name : string) : string :=
  "helm get values --namespace " +:+ namespace +:+ " " +:+ release_name.

Definition fetch_helm_values (namespace : string) (release_name : option string) : M world yaml :=
  if no_text release_name then raise (RuntimeException "Please pass a release name.") else
  do output <- popen (values_command namespace (default "" release_name)) in
  if String.eqb output "" then raise (RuntimeException "No values retrieved, something is wrong!")
  else lift (safe_load output).

Definition install_command (overrides_file chart_path release_name : string) : string :=
  "helm install --values " +:+ overrides_file +:+ " " +:+ release_name +:+ " " +:+ chart_path.

Definition helm_install (namespace overrides_file chart_path release_name : string) : M world string :=
  do output <- popen (install_command overrides_file chart_path release_name) in
  if String.eqb output "" then raise (RuntimeException "No Command Output... Something is wrong.") else ret output.

Definition chart_path : string := "/Users/connerswann/code/coda-automation/helm/archive-node".

Definition overrides_of (runtimeConfig : yaml) (addresses : list string) : yaml :=
  Mapping [("coda", Mapping [("runtimeConfig", runtimeConfig); ("seedPeers", Items (map Scalar addresses))])].

Definition helm_run (namespace : string) (release_name : option string) (working_directory : string) : M world unit :=
  let working_directory := if String.eqb working_directory "." then script_dir else working_directory in
  perform when (no_text release_name) (raise (RuntimeException "Please enter a release name when invoking this script.")) then
  do addresses <- helm_fetch_peers namespace in
  do values <- fetch_helm_values namespace release_name in
  do coda <- lift (yaml_item values "coda") in
  do runtimeConfig <- lift (yaml_item coda "runtimeConfig") in
  let overrides_file := path_join working_directory "overrides.yaml" in
  perform write_file overrides_file (dump (overrides_of runtimeConfig addresses)) then
  do _ <- helm_install namespace (absolute overrides_file) chart_path "test-archive" in
  ret tt.
End Scripts.

(** ** What the patterns find *)

(** [text] has [label], white space, and then [g]. *)
Definition labelled (label g text : string) : Prop :=
  exists s1 ws s3, text = s1 +:+ label +:+ ws +:+ g +:+ s3 /\ ws <> "" /\ all_chars is_space ws = true.

Definition short_number (s : string) : Prop := (1 <= String.length s <= 3)%nat /\ all_chars digit s = true.

Definition dotted_quad (g : string) : Prop :=
  exists a b c d, g = a +:+ "." +:+ b +:+ "." +:+ c +:+ "." +:+ d /\
    short_number a /\ short_number b /\ short_number c /\ short_number d.

(** The pattern matches at no position of the text. *)
Definition absent (r : re) (text : string) : Prop :=
  forall s1 s2 p, text = s1 +:+ s2 -> ~ matches r (Pos (last_char None s1) s2 None) p.

Lemma lang_lit s w : lang (lit s) w -> w = s.
Proof.
  revert w. induction s as [|a s IH]; intros w H; cbn [lit lang] in H; [done|].
  destruct H as (w1 & w2 & -> & (c & -> & Hc) & Hw). apply Ascii.eqb_eq in Hc as <-. by rewrite (IH _ Hw).
Qed.

Lemma lang_chars f lo hi w : lang (Rep (Chr f) lo hi) w -> all_chars f w = true /\ within (String.length w) lo hi.
Proof.
  cbn [lang]. intros (ws & Hn & Hf & ->).
  enough (all_chars f (concat_all ws) = true /\ String.length (concat_all ws) = length ws) as [? ->] by done.
  clear Hn. induction Hf as [|w ws (a & -> & Ha) _ [IH1 IH2]]; [done|].
  unfold concat_all in *. cbn [foldr all_chars String.length length]. rewrite app_cons_str. cbn [all_chars String.length].
  change ("" +:+ ?s) with s. by rewrite Ha, IH1, IH2.
Qed.

Lemma search_labelled label a text : regular a = true ->
  let r := Seq (lit label) (Seq spaces1 (Group a)) in
  match search r text with
  | Some p => exists g, group p = Some g /\ lang a g /\ labelled label g text
  | None => absent r text
  end.
Proof.
  intros Ha r. assert (Hr : regular r = true).
  { unfold r. cbn. rewrite Ha. enough (regular (lit label) = true) as -> by done. clear. by induction label. }
  pose proof (search_from_spec r None text Hr) as H. unfold search. destruct (search_from r None text) as [p|]; [|exact H].
  destruct H as (s1 & s2 & -> & (q1 & M1 & q2 & M2 & q3 & M3 & ->) & _).
  apply matches_lang in M1 as (w1 & E1 & L1). apply lang_lit in L1 as ->. cbn [rest] in E1.
  apply matches_lang in M2 as (w2 & E2 & L2). apply lang_chars in L2 as [L2 [N2 _]].
  apply group_text in M3 as (g & Hg & Lg & E3). exists g. split; [exact Hg|]. split; [exact Lg|].
  exists s1, w2, (rest q3). split; [by rewrite E1, E2, E3|]. split; [|exact L2]. intros ->. cbn in N2. lia.
Qed.

Lemma lang_short s : lang digits13 s -> short_number s.
Proof. intros H. apply lang_chars in H as [H [H1 H2]]. by split. Qed.

Lemma lang_quad g :
  lang (Seq Bound (Seq (Rep (Seq digits13 (Chr (Ascii.eqb "."))) 3 (Some 3%nat)) (Seq digits13 Bound))) g -> dotted_quad g.
Proof.
  intros (w0 & w & -> & -> & w1 & w2 & -> & (ws & [N1 N2] & Hf & ->) & w3 & w4 & -> & L3 & ->).
  destruct ws as [|x1 [|x2 [|x3 [|]]]]; cbn in N1, N2; try lia.
  apply Forall_cons in Hf as [H1 Hf]. apply Forall_cons in Hf as [H2 Hf]. apply Forall_cons in Hf as [H3 _].
  destruct H1 as (a & d1 & -> & A & c1 & -> & D1). destruct H2 as (b & d2 & -> & B & c2 & -> & D2).
  destruct H3 as (c & d3 & -> & C & c3 & -> & D3). apply Ascii.eqb_eq in D1 as <-, D2 as <-, D3 as <-.
  exists a, b, c, w3. split; [|by split_and!; apply lang_short].
  unfold concat_all. cbn [foldr]. rewrite !app_nil_r_str. change ("" +:+ ?s) with s. by rewrite !app_assoc_str.
Qed.

(** Between word boundaries. *)
Lemma lang_bounded f g : lang (Seq Bound (Seq (Rep (Chr f) 1 None) Bound)) g -> g <> "" /\ all_chars f g = true.
Proof.
  intros (w0 & w & -> & -> & w1 & w2 & -> & L & ->). change ("" +:+ ?s) with s. rewrite app_nil_r_str.
  apply lang_chars in L as [L [N _]]. split; [|done]. intros ->. cbn in N. lia.
Qed.

(** The address of a peer is read off the status text exactly: if it is found, it is
    [/ip4/ip/tcp/port/ipfs/id] where the text has "External IP:", white space and a dotted quad
    [ip], "Libp2p port:", white space and a number [port], and "Libp2p PeerID:", white space and a
    word [id]; if it is not, some pattern matches nowhere in the text and the exception is an
    AttributeError, never the IndexError that the code catches to say that the output cannot be
    parsed. *)
Theorem peer_address_outcome (status_output : string) :
  match peer_address status_output with
  | Ok address => exists ip port id,
      address = "/ip4/" +:+ ip +:+ "/tcp/" +:+ port +:+ "/ipfs/" +:+ id /\
      labelled "External IP:" ip status_output /\ dotted_quad ip /\
      labelled "Libp2p port:" port status_output /\ port <> "" /\ all_chars digit port = true /\
      labelled "Libp2p PeerID:" id status_output /\ id <> "" /\ all_chars is_word id = true
  | Err e => e = AttributeError /\
      (absent IP_Pattern status_output \/ absent gossip_port_pattern status_output \/ absent libp2p_peerid_pattern status_output)
  end.
Proof.
  unfold peer_address.
  pose proof (search_labelled "External IP:" _ status_output
    (eq_refl : regular (Seq Bound (Seq (Rep (Seq digits13 (Chr (Ascii.eqb "."))) 3 (Some 3%nat)) (Seq digits13 Bound))) = true)) as H1.
  pose proof (search_labelled "Libp2p port:" _ status_output (eq_refl : regular (Seq Bound (Seq (Rep (Chr digit) 1 None) Bound)) = true)) as H2.
  pose proof (search_labelled "Libp2p PeerID:" _ status_output (eq_refl : regular (Seq Bound (Seq (Rep (Chr is_word) 1 None) Bound)) = true)) as H3.
  cbv zeta in *. fold IP_Pattern in H1. fold gossip_port_pattern in H2. fold libp2p_peerid_pattern in H3.
  destruct (search IP_Pattern status_output) as [p1|]; [|by split; [|left]]. destruct H1 as (ip & G1 & L1 & P1).
  destruct (search gossip_port_pattern status_output) as [p2|]; cbn [groups0]; rewrite G1; cbn [bind]; [|by split; [|right; left]].
  destruct H2 as (port & G2 & L2 & P2). apply lang_bounded in L2 as [N2 D2].
  destruct (search libp2p_peerid_pattern status_output) as [p3|]; cbn [groups0]; rewrite G2; cbn [bind]; [|by split; [|right; right]].
  destruct H3 as (id & G3 & L3 & P3). apply lang_bounded in L3 as [N3 D3]. rewrite G3. cbn [bind].
  exists ip, port, id. apply lang_quad in L1. by split_and!.
Qed.

(** ** The two scripts *)
Section Runs.
Context (stdout : list string -> string) (list_pods : string -> list string).

Definition ran (w : world) (cs : list (list string)) : world := World (commands w ++ cs) (files w) (containers w).

Lemma ran_nil w : ran w [] = w.
Proof. destruct w. unfold ran. cbn. by rewrite app_nil_r. Qed.

Lemma ran_ran w cs1 cs2 : ran (ran w cs1) cs2 = ran w (cs1 ++ cs2).
Proof. unfold ran. cbn. by rewrite app_assoc. Qed.

Lemma popen_Ok c w w' o : popen stdout c w = (w', Ok o) -> w' = ran w [words c] /\ o = stdout (words c).
Proof. intros H. apply bindM_Ok_inv in H as ([] & w1 & H1 & H). apply modify_Ok in H1 as ->. by apply ret_Ok in H. Qed.

Definition status_words (namespace pod : string) : list string := words (status_command namespace pod).

(** The text that the local script parses for each pod: its own, or when it is empty that of the
    last pod before it that printed something. *)
Fixpoint local_texts (namespace : string) (last : option string) (pods : list string) : list (option string) :=
  match pods with
  | [] => []
  | pod :: pods' =>
      let o := stdout (status_words namespace pod) in
      let t := if String.eqb o "" then last else Some o in
      t :: local_texts namespace t pods'
  end.

Definition address_of (t : option string) (address : string) : Prop := exists s, t = Some s /\ peer_address s = Ok address.

Lemma local_peers_Ok namespace last pods w w' addresses :
  local_peers stdout namespace last pods w = (w', Ok addresses) ->
  w' = ran w (map (status_words namespace) pods) /\ Forall2 address_of (local_texts namespace last pods) addresses.
Proof.
  revert last w w' addresses. induction pods as [|pod pods IH]; intros last w w' addresses H; cbn [local_peers] in H.
  - apply ret_Ok in H as [-> ->]. by rewrite ran_nil.
  - apply bindM_Ok_inv in H as (o & w1 & H1 & H). apply popen_Ok in H1 as [-> ->].
    apply bindM_Ok_inv in H as (t & w1 & H1 & H). apply lift_Ok in H1 as [-> Ht].
    apply bindM_Ok_inv in H as (a & w1 & H1 & H). apply lift_Ok in H1 as [-> Ha].
    apply bindM_Ok_inv in H as (rest & w1 & H1 & H). apply IH in H1 as [-> Hr]. apply ret_Ok in H as [-> ->].
    rewrite ran_ran. split; [done|]. cbn [local_texts]. constructor; [|done].
    exists t. split; [|done]. unfold status_words. by destruct (if String.eqb _ _ then _ else _) as [t'|]; [injection Ht as ->|].
Qed.

Lemma helm_peers_Ok namespace pods w w' addresses :
  helm_peers stdout namespace pods w = (w', Ok addresses) ->
  w' = ran w (map (status_words namespace) pods) /\
  Forall2 (fun pod address => peer_address (stdout (status_words namespace pod)) = Ok address) pods addresses.
Proof.
  revert w w' addresses. induction pods as [|pod pods IH]; intros w w' addresses H; cbn [helm_peers] in H.
  - apply ret_Ok in H as [-> ->]. by rewrite ran_nil.
  - apply bindM_Ok_inv in H as (o & w1 & H1 & H). apply popen_Ok in H1 as [-> ->].
    apply bindM_Ok_inv in H as ([] & w1 & H1 & H). apply when_raise_Ok in H1 as [_ ->].
    apply bindM_Ok_inv in H as (a & w1 & H1 & H). apply lift_Ok in H1 as [-> Ha].
    apply bindM_Ok_inv in H as (rest & w1 & H1 & H). apply IH in H1 as [-> Hr]. apply ret_Ok in H as [-> ->].
    rewrite ran_ran. split; [done|]. by constructor.
Qed.

Lemma popen_run c w : popen stdout c w = (ran w [words c], Ok (stdout (words c))).
Proof. done. Qed.

Lemma helm_peers_run namespace pods w addresses :
  Forall2 (fun pod address => peer_address (stdout (status_words namespace pod)) = Ok address) pods addresses ->
  helm_peers stdout namespace pods w = (ran w (map (status_words namespace) pods), Ok addresses).
Proof.
  intros H. revert w. induction H as [|pod address pods addresses Ha _ IH]; intros w; cbn [helm_peers]; [by rewrite ran_nil|].
  assert (Hn : stdout (words (status_command namespace pod)) <> "").
  { fold (status_words namespace pod). intros E. rewrite E in Ha. vm_compute in Ha. discriminate Ha. }
  unfold bindM at 1. rewrite popen_run. unfold when. rewrite (proj2 (String.eqb_neq _ _) Hn).
  unfold bindM, ret, lift. fold (status_words namespace pod). rewrite Ha, IH. by rewrite ran_ran.
Qed.
End Runs.

Lemma fetch_daemon_json_containers list_config_maps cwd dir namespace w :
  containers (fst (fetch_daemon_json list_config_maps cwd dir namespace w)) = containers w.
Proof.
  unfold fetch_daemon_json. revert w. induction (list_config_maps namespace) as [|c cs IH]; intros w; [done|].
  cbn [for_each]. unfold when. destruct (String.eqb (cm_name c) _).
  - unfold bindM, lift, write_file, modify, get_item. destruct (get (cm_data c) "daemon.json"); [|done].
    cbn [containers commands files]. by rewrite IH.
  - unfold bindM at 1, ret. apply IH.
Qed.

(** The local daemon gets three peers: a run that ends without an exception has read the
    status of three pods and started exactly one container, whose command lists as peers the
    addresses of the first, the third and the second; a pod that prints nothing gets the address of
    the pod before it, silently. *)
Theorem local_run_peers stdout list_pods shuffle list_config_maps docker_run cwd script_dir
  (namespace docker_image working_directory : string) (gossip_port : Z) (w' : world) :
  local_run stdout list_pods shuffle list_config_maps docker_run cwd script_dir namespace gossip_port docker_image
    working_directory (World [] [] []) = (w', Ok tt) ->
  exists p0 p1 p2 a0 a1 a2,
    take 3 (shuffle (list_pods namespace)) = [p0; p1; p2] /\
    Forall2 address_of (local_texts stdout namespace None [p0; p1; p2]) [a0; a1; a2] /\
    containers w' = [Container docker_image (docker_command gossip_port a0 a1 a2) gossip_port
                       (absolute cwd (if String.eqb working_directory "." then script_dir else working_directory))].
Proof.
  unfold local_run. intros H. apply bindM_Ok_inv in H as (as_ & w1 & H1 & H). apply local_peers_Ok in H1 as [-> Ha].
  apply bindM_Ok_inv in H as ([] & w1 & H1 & H).
  pose proof (fetch_daemon_json_containers list_config_maps cwd (if String.eqb working_directory "." then script_dir else working_directory)
    namespace (ran (World [] [] []) (map (status_words namespace) (take 3 (shuffle (list_pods namespace)))))) as Hc.
  rewrite H1 in Hc. cbn [fst ran containers] in Hc.
  apply bindM_Ok_inv in H as (a0 & w2 & H2 & H). apply lift_Ok in H2 as [-> A0].
  apply bindM_Ok_inv in H as (a2 & w2 & H2 & H). apply lift_Ok in H2 as [-> A2].
  apply bindM_Ok_inv in H as (a1 & w2 & H2 & H). apply lift_Ok in H2 as [-> A1].
  apply bindM_Ok_inv in H as ([] & w2 & H2 & H). apply modify_Ok in H2 as ->.
  apply bindM_Ok_inv in H as (o & w2 & H2 & H). apply lift_Ok in H2 as [-> _]. apply ret_Ok in H as [-> _].
  cbn [containers]. rewrite Hc. cbn [app].
  apply py_nth_inv in A0; [|lia]. apply py_nth_inv in A1; [|lia]. apply py_nth_inv in A2; [|lia].
  pose proof (firstn_le_length 3 (shuffle (list_pods namespace))) as Hle.
  set (ps := take 3 (shuffle (list_pods namespace))) in *. clearbody ps.
  destruct ps as [|p0 [|p1 [|p2 [|]]]]; cbn [local_texts] in Ha; try (cbn in Hle; lia).
  all: pose proof (Forall2_length _ _ _ Ha) as Hl; destruct as_ as [|b0 [|b1 [|b2 [|]]]]; try done.
  cbn in A0, A1, A2. injection A0 as <-. injection A1 as <-. injection A2 as <-. by exists p0, p1, p2, b0, b1, b2.
Qed.


(** ** A network of three producers *)
Definition toy_status (ip : string) : string :=
  "Mina daemon status" +:+ nl +:+ "External IP:   " +:+ ip +:+ nl +:+ "Libp2p port:  8302" +:+ nl +:+ "Libp2p PeerID:  12D3KooW" +:+ nl.

Definition toy_stdout (c : list string) : string :=
  if decide (c = status_words "net" "b-block-producer") then ""
  else if decide (c = status_words "net" "c-block-producer") then toy_status "10.0.0.3" else toy_status "10.0.0.1".

Definition toy_pods (_ : string) : list string := ["a-block-producer"; "b-block-producer"; "c-block-producer"].

Example toy_address : peer_address (toy_status "10.0.0.1") = Ok "/ip4/10.0.0.1/tcp/8302/ipfs/12D3KooW".
Proof. vm_compute. reflexivity. Qed.

Lemma local_run_peers_witness :
  exists w', local_run toy_stdout toy_pods id (fun _ => []) (fun _ => Ok "") "/home" "/scripts" "net" 10000 "mina" "." (World [] [] []) = (w', Ok tt) /\
    exists a0 a1 a2, Forall2 address_of (local_texts toy_stdout "net" None (toy_pods "net")) [a0; a1; a2] /\
      containers w' = [Container "mina" (docker_command 10000 a0 a1 a2) 10000 "/scripts"].
Proof.
  eexists. split; [vm_compute; reflexivity|].
  destruct (local_run_peers toy_stdout toy_pods id (fun _ => []) (fun _ => Ok "") "/home" "/scripts" "net" "mina" "." 10000 _
    ltac:(vm_compute; reflexivity)) as (p0 & p1 & p2 & a0 & a1 & a2 & E & Ha & Hc).
  injection E as <- <- <-. exists a0, a1, a2. split; [exact Ha | exact Hc].
Defined.

Definition toy_helm (c : list string) : string :=
  if decide (c = words (values_command "net" "seed")) then "coda:" else if decide (c = status_words "net" "b-block-producer")
  then toy_status "10.0.0.2" else toy_status "10.0.0.1".

Definition toy_values (_ : string) : result yaml := Ok (Mapping [("coda", Mapping [("runtimeConfig", Scalar "{}")])]).

