(* ===== verification/Crawl.v ===== *)
(** * The crawl of node statuses, [scripts/node-status-crawl.py]

    The node's executable and [json.loads] are parameters: [check_output] is what a command
    line prints, [loads] the status that a line is the JSON of.  A status has the fields
    that the script reads ([None]: the key is missing, or the value is not of the right
    type) and its [str]. *)

From stdpp Require Import base list strings.
From Stdlib Require Import Ascii ZArith Lia.
From S2P Require Import Prelude Dict PyStr PyText PySet Effects.
Open Scope string_scope.
Open Scope Z_scope.

Record peer : Type := Peer { host : option string; libp2p_port : option Z; peer_id : option string }.

Record status : Type := Status {
  node_peer_id : option string;
  peers : option (list peer);
  shown : string     (* [str(status)] *)
}.

(** The globals [node_statuses] and [seen_peer_ids]. *)
Record known : Type := Known { node_statuses : dict string status; seen_peer_ids : list string }.

(** What the script did: the commands it ran, and the lines it printed. *)
Record world : Type := World { commands : list (list string); printed : list string }.

Definition print (line : string) : M world unit := modify (fun w => World (commands w) (printed w ++ [line])%list).

(** The inner loop over [status['peers']], left by an exception at a peer without an id. *)
Fixpoint add_peers (ps : list peer) (seen : list string) (peers_to_query : dict string peer)
  : list string * dict string peer * bool :=
  match ps with
  | [] => (seen, peers_to_query, true)
  | p :: ps' =>
      match peer_id p with
      | None => (seen, peers_to_query, false)
      | Some id => add_peers ps' (set_update seen [id]) (set id p peers_to_query)
      end
  end.

(** The [try] block for a status: the new state, and whether no exception was caught. *)
Definition add_status (k : known) (peers_to_query : dict string peer) (s : status) : known * dict string peer * bool :=
  match node_peer_id s with
  | None => (k, peers_to_query, false)
  | Some id =>
      let k := Known (set id s (node_statuses k)) (seen_peer_ids k) in
      match peers s with
      | None => (k, peers_to_query, false)
      | Some ps =>
          let '(seen, q, ok) := add_peers ps (seen_peer_ids k) peers_to_query in
          (Known (node_statuses k) seen, q, ok)
      end
  end.

(** Single quotes become double quotes. *)
Definition requote (s : string) : string := replace "'" (String "034"%char "") s.

Definition daemon_query (prog daemon_port : string) : list string :=
  [prog; "advanced"; "node-status"; "-daemon-peers"; "-daemon-port"; daemon_port].

Definition peers_query (prog daemon_port formatted_peers : string) : list string :=
  [prog; "advanced"; "node-status"; "-peers"; formatted_peers; "-daemon-port"; daemon_port].

Definition peer_to_multiaddr (p : peer) : result string :=
  let* h := need (host p) in
  let* port := need (libp2p_port p) in
  let* id := need (peer_id p) in
  Ok ("/ip4/" +:+ h +:+ "/tcp/" +:+ py_str port +:+ "/p2p/" +:+ id).

Section Crawl.
Context (loads : string -> result status) (check_output : list string -> result string) (prog daemon_port : string).

(** The loop over the lines of an answer.  The exception of [loads] is not caught. *)
Fixpoint add_lines (lines : list string) (k : known) (peers_to_query : dict string peer) : M world (known * dict string peer) :=
  match lines with
  | [] => ret (k, peers_to_query)
  | line :: lines' =>
      if String.eqb line "" then add_lines lines' k peers_to_query else
      do s <- lift (loads line) in
      let '(k, q, ok) := add_status k peers_to_query s in
      perform when (negb ok) (print ("Error in node status response: " +:+ line)) then
      add_lines lines' k q
  end.

Definition add_node_statuses (output : string) (k : known) : M world (known * dict string peer) :=
  add_lines (split newline output) k [].

Definition run (command : list string) : M world string :=
  perform modify (fun w => World (commands w ++ [command])%list (printed w)) then
  lift (check_output command).

(** A turn of the loop over [peers_to_query]; [peer_id_count] is not defined anywhere. *)
Definition format_peer (seen : list string) (done_ : bool) (item : string * peer) : result bool :=
  let* _ := peer_to_multiaddr (snd item) in
  if bool_decide (fst item ∈ seen) then Ok done_ else Err NameError.

(** [while not done]; a turn that finds a new peer would query it. *)
Fixpoint crawl (fuel : nat) (k : known) (peers_to_query : dict string peer) : M world known :=
  match fuel with
  | O => raise OutOfFuel
  | S fuel' =>
      do done_ <- lift (foldM (format_peer (seen_peer_ids k)) peers_to_query true) in
      if done_ then ret k else
      do output <- run (peers_query prog daemon_port "") in
      do kq <- add_node_statuses output k in
      crawl fuel' (fst kq) (snd kq)
  end.

(** The last loop, with its counter. *)
Fixpoint print_statuses (num count : Z) (ss : list status) : M world unit :=
  match ss with
  | [] => ret tt
  | s :: ss' =>
      perform print ("  " +:+ requote (shown s) +:+ (if count <? num - 1 then "," else "")) then
      print_statuses num (count + 1) ss'
  end.

Definition print_all (k : known) : M world unit :=
  perform print ("{ " +:+ requote "'peer_ids_queried': " +:+ py_str (zlength (seen_peer_ids k)) +:+ ",") then
  perform print (requote "  'node_statuses': [") then
  perform print_statuses (zlength (node_statuses k)) 0 (values (node_statuses k)) then
  print "  ]}".

Definition script (fuel : nat) : M world unit :=
  do output <- run (daemon_query prog daemon_port) in
  do kq <- add_node_statuses output (Known [] []) in
  do k <- crawl fuel (fst kq) (snd kq) in
  print_all k.
End Crawl.

(** ** What one answer says *)
Definition lines_of (output : string) : list string := List.filter (fun l => negb (String.eqb l "")) (split newline output).

(** The ids of the peers of a status, up to the first peer without one. *)
Fixpoint named (ps : list peer) : list string :=
  match ps with
  | [] => []
  | p :: ps' => match peer_id p with Some id => id :: named ps' | None => [] end
  end.

Definition names (s : status) : list string :=
  match node_peer_id s, peers s with
  | Some _, Some ps => named ps
  | _, _ => []
  end.

Definition of_node (id : string) (s : status) : bool := bool_decide (node_peer_id s = Some id).

(** The JSON array of the statuses: a comma after each but the last. *)
Fixpoint listing (l : list string) : list string :=
  match l with
  | [] => []
  | [x] => ["  " +:+ x]
  | x :: l' => ("  " +:+ x +:+ ",") :: listing l'
  end.

Definition json_of (k : known) : list string :=
  ["{ " +:+ requote "'peer_ids_queried': " +:+ py_str (zlength (seen_peer_ids k)) +:+ ","; requote "  'node_statuses': ["] ++
  listing (map (fun s => requote (shown s)) (values (node_statuses k))) ++ ["  ]}"].

Definition addressed (p : peer) : Prop := is_Some (host p) /\ is_Some (libp2p_port p).

(** What is known after the statuses [ss]. *)
Definition knows (ss : list status) (k : known) (q : dict string peer) : Prop :=
  wf (node_statuses k) /\ NoDup (seen_peer_ids k) /\
  (forall id, get (node_statuses k) id = last (List.filter (of_node id) ss)) /\
  (forall id, id ∈ seen_peer_ids k <-> exists s, s ∈ ss /\ id ∈ names s) /\
  (forall id p, (id, p) ∈ q -> id ∈ seen_peer_ids k /\ peer_id p = Some id /\
     exists s ps, s ∈ ss /\ peers s = Some ps /\ p ∈ ps).

Lemma in_set {K V} `{EqDecision K} (k : K) (v : V) d kv : kv ∈ set k v d -> kv = (k, v) \/ kv ∈ d.
Proof.
  induction d as [|[k' v'] d IH]; cbn [set].
  - rewrite list_elem_of_singleton. auto.
  - case_decide; rewrite !elem_of_cons; naive_solver.
Qed.

Lemma crawl_add_peers_spec ps seen q seen' q' ok : add_peers ps seen q = (seen', q', ok) ->
  (NoDup seen -> NoDup seen') /\ (forall id, id ∈ seen' <-> id ∈ seen \/ id ∈ named ps) /\
  (forall id p, (id, p) ∈ q' -> (id, p) ∈ q \/ id ∈ named ps /\ peer_id p = Some id /\ p ∈ ps).
Proof.
  revert seen q. induction ps as [|p ps IH]; intros seen q H; cbn [add_peers named] in *.
  - injection H as <- <- <-. setoid_rewrite elem_of_nil. naive_solver.
  - destruct (peer_id p) as [id|] eqn:Ep.
    + apply IH in H as (H1 & H2 & H3). split; [intros Hn; by apply H1, NoDup_set_update|]. split.
      * intros x. rewrite H2, elem_of_set_update, list_elem_of_singleton, elem_of_cons. tauto.
      * intros x p' [Hx|(Ha & Hb & Hc)]%H3; [|rewrite !elem_of_cons; tauto].
        apply in_set in Hx as [[= -> ->]|Hx]; [|tauto]. right. rewrite !elem_of_cons. tauto.
    + injection H as <- <- <-. setoid_rewrite elem_of_nil. naive_solver.
Qed.

Lemma knows_nil : knows [] (Known [] []) [].
Proof. split_and!; cbn; [apply wf_nil | constructor | done |..]; setoid_rewrite elem_of_nil; naive_solver. Qed.

Lemma last_filter_snoc {A} (f : A -> bool) l x :
  last (List.filter f (l ++ [x])) = if f x then Some x else last (List.filter f l).
Proof. rewrite List.filter_app. cbn. destruct (f x); [by rewrite last_snoc | by rewrite app_nil_r]. Qed.

Lemma add_status_spec ss k q s k' q' ok : knows ss k q -> add_status k q s = (k', q', ok) -> knows (ss ++ [s]) k' q'.
Proof.
  intros (Hw & Hn & Hs & Hseen & Hq). unfold add_status.
  assert (Hnames : forall seen : list string, (forall id, id ∈ seen <-> id ∈ seen_peer_ids k \/ id ∈ names s) ->
    forall id, id ∈ seen <-> exists s', s' ∈ (ss ++ [s])%list /\ id ∈ names s').
  { intros seen He id. rewrite He, Hseen. setoid_rewrite elem_of_app. setoid_rewrite list_elem_of_singleton. naive_solver. }
  assert (Hold : forall id p, (id, p) ∈ q -> exists s0 ps, s0 ∈ (ss ++ [s])%list /\ peers s0 = Some ps /\ p ∈ ps).
  { intros id p Hp. apply Hq in Hp as (_ & _ & s0 & ps & ? & ?). exists s0, ps. rewrite elem_of_app. auto. }
  unfold names in Hnames. destruct (node_peer_id s) as [id|] eqn:Ei.
  - assert (Hget : forall id', get (set id s (node_statuses k)) id' = last (List.filter (of_node id') (ss ++ [s]))).
    { intros id'. rewrite get_set, last_filter_snoc. unfold of_node at 1. rewrite Ei, Hs.
      case_decide as D; [rewrite bool_decide_eq_true_2 by congruence; done|].
      rewrite bool_decide_eq_false_2 by congruence. done. }
    destruct (peers s) as [ps|] eqn:Eps.
    + destruct (add_peers _ _ _) as [[seen q1] ok1] eqn:Ea. intros [= <- <- <-].
      apply crawl_add_peers_spec in Ea as (A1 & A2 & A3). cbn [seen_peer_ids node_statuses] in *.
      split_and!; cbn [seen_peer_ids node_statuses]; [by apply wf_set | by apply A1 | done | by apply Hnames |].
      intros x p [Hx|(Ha & Hb & Hc)]%A3.
      * destruct (Hq _ _ Hx) as (? & ? & _). split; [rewrite A2; auto|]. split; [done|]. by eapply Hold.
      * split; [rewrite A2; auto|]. split; [done|]. exists s, ps. rewrite elem_of_app, list_elem_of_singleton. auto.
    + intros [= <- <- <-]. cbn [seen_peer_ids node_statuses] in *. split_and!; [by apply wf_set | done | done | |].
      * apply Hnames. intros. rewrite elem_of_nil. tauto.
      * intros x p Hx. destruct (Hq _ _ Hx) as (? & ? & _). split; [done|]. split; [done|]. by eapply Hold.
  - intros [= <- <- <-]. split_and!; [done | done | | |].
    + intros id'. rewrite last_filter_snoc, Hs. unfold of_node at 2. by rewrite Ei.
    + apply Hnames. intros. rewrite elem_of_nil. tauto.
    + intros x p Hx. destruct (Hq _ _ Hx) as (? & ? & _). split; [done|]. split; [done|]. by eapply Hold.
Qed.

Section Once.
Context (loads : string -> result status) (check_output : list string -> result string) (prog daemon_port : string).

Lemma add_lines_spec lines ss0 ss k q w : knows ss0 k q ->
  mapM loads (List.filter (fun l => negb (String.eqb l "")) lines) = Ok ss ->
  exists errs k' q', add_lines loads lines k q w = (World (commands w) (printed w ++ errs), Ok (k', q')) /\ knows (ss0 ++ ss) k' q'.
Proof.
  revert ss0 ss k q w. induction lines as [|line lines IH]; intros ss0 ss k q w Hk H; cbn [List.filter] in H.
  - injection H as <-. exists [], k, q. rewrite !app_nil_r. by destruct w.
  - cbn [add_lines]. destruct (String.eqb line ""); cbn [negb] in H; [by apply IH|].
    cbn [mapM] in H. apply bind_Ok_inv in H as (s & Hs & H). apply bind_Ok_inv in H as (ss' & Hss & H). injection H as <-.
    unfold bindM at 1, lift. rewrite Hs. destruct (add_status k q s) as [[k1 q1] ok] eqn:Ea.
    apply (add_status_spec ss0) in Ea; [|done]. replace (ss0 ++ s :: ss')%list with ((ss0 ++ [s]) ++ ss')%list by (by rewrite <- app_assoc).
    destruct ok; cbn [negb when].
    + unfold bindM at 1, ret. by apply IH.
    + destruct (IH _ _ _ _ (World (commands w) (printed w ++ ["Error in node status response: " +:+ line])) Ea Hss)
        as (errs & k' & q' & E & Hk'). unfold bindM at 1, print, modify. cbn in E. rewrite E.
      eexists _, k', q'. rewrite <- app_assoc. by split.
Qed.

(** No peer that was just added is new, so the first turn of the loop is the last. *)
Lemma crawl_stops fuel k q w :
  (forall id p, (id, p) ∈ q -> id ∈ seen_peer_ids k /\ peer_id p = Some id /\ addressed p) ->
  crawl loads check_output prog daemon_port (S fuel) k q w = (w, Ok k).
Proof.
  intros H. cbn [crawl]. unfold bindM at 1, lift.
  replace (foldM (format_peer (seen_peer_ids k)) q true) with (Ok true); [done|].
  symmetry. induction q as [|[id p] q IH]; [done|]. cbn [foldM].
  destruct (H id p ltac:(left)) as (Hs & Hi & [h Hh] & [port Hport]).
  unfold format_peer at 1, peer_to_multiaddr. cbn [snd]. rewrite Hh, Hport, Hi. cbn [need bind fst snd].
  rewrite bool_decide_eq_true_2 by done. cbn [bind]. apply IH. intros id' p' Hin. apply H. by right.
Qed.

Lemma print_statuses_spec num count ss w : num = count + zlength ss ->
  print_statuses num count ss w = (World (commands w) (printed w ++ listing (map (fun s => requote (shown s)) ss)), Ok tt).
Proof.
  revert count w. induction ss as [|s ss IH]; intros count w Hn; cbn [print_statuses map listing].
  - rewrite app_nil_r. by destruct w.
  - unfold bindM at 1, print, modify. cbn zeta. assert (zlength (s :: ss) = zlength ss + 1) by (unfold zlength; cbn; lia).
    rewrite IH by lia. cbn [commands printed]. rewrite <- app_assoc. do 2 f_equal. destruct ss as [|s' ss].
    + destruct (Z.ltb_spec count (num - 1)); [unfold zlength in *; cbn in *; lia|]. cbn. by rewrite app_nil_r_str.
    + destruct (Z.ltb_spec count (num - 1)); [done|]. unfold zlength in *; cbn in *; lia.
Qed.

Lemma print_all_spec k w : print_all k w = (World (commands w) (printed w ++ json_of k), Ok tt).
Proof.
  unfold print_all, bindM at 1, print, modify. unfold bindM at 1. unfold bindM. rewrite print_statuses_spec.
  - cbn [commands printed]. unfold json_of. by rewrite <- !app_assoc.
  - unfold zlength, values. by rewrite length_map.
Qed.
End Once.

(** C19: The crawl asks nobody but the local daemon: whatever the daemon's answer, if its lines are
    JSON and its peers have addresses, the loop that should query the peers ends in its first turn,
    because every peer that an answer names has just been marked as seen.  The script runs exactly
    one command and prints the last status of each node of that answer, once each, under a count
    that it calls queried and that is the number of distinct peers named and never queried. *)
Theorem crawl_asks_once (loads : string -> result status) (check_output : list string -> result string)
  (prog daemon_port output : string) (ss : list status) (fuel : nat) :
  check_output (daemon_query prog daemon_port) = Ok output ->
  mapM loads (lines_of output) = Ok ss ->
  (forall s ps p, s ∈ ss -> peers s = Some ps -> p ∈ ps -> addressed p) ->
  exists errs k,
    script loads check_output prog daemon_port (S fuel) (World [] []) =
      (World [daemon_query prog daemon_port] (errs ++ json_of k), Ok tt) /\
    wf (node_statuses k) /\ (forall id, get (node_statuses k) id = last (List.filter (of_node id) ss)) /\
    NoDup (seen_peer_ids k) /\ (forall id, id ∈ seen_peer_ids k <-> exists s, s ∈ ss /\ id ∈ names s).
Proof.
  intros Ho Hss Ha. unfold script, run. unfold bindM at 1, modify, bindM at 1, bindM at 1, lift. rewrite Ho.
  destruct (add_lines_spec loads (split newline output) [] ss (Known [] []) [] (World [daemon_query prog daemon_port] [])
    knows_nil Hss) as (errs & k & q & E & Hw & Hn & Hs & Hseen & Hq).
  unfold bindM at 1, add_node_statuses. cbn [commands printed app] in E |- *. rewrite E. unfold bindM. cbn [fst snd].
  rewrite crawl_stops.
  - rewrite print_all_spec. exists errs, k. by split_and!.
  - intros id p Hin. destruct (Hq id p Hin) as (H1 & H2 & s & ps & H3 & H4 & H5). split; [done|]. split; [done|]. by eapply Ha.
Qed.

(** The daemon knows two nodes; the second names a third, which is never asked. *)
Definition toy_loads (line : string) : result status :=
  if decide (line = "A") then Ok (Status (Some "a") (Some [Peer (Some "h1") (Some 8302) (Some "b")]) "{'node_peer_id': 'a'}")
  else if decide (line = "B") then
    Ok (Status (Some "b") (Some [Peer (Some "h2") (Some 8302) (Some "a"); Peer (Some "h3") (Some 8302) (Some "c")]) "{'node_peer_id': 'b'}")
  else Err JSONDecodeError.

Definition toy_daemon (command : list string) : result string :=
  if decide (command = daemon_query "mina" "8301") then Ok ("A" +:+ String newline ("B" +:+ String newline "")) else Err AssertionError.

Lemma crawl_asks_once_witness :
  exists errs k, script toy_loads toy_daemon "mina" "8301" 1 (World [] []) = (World [daemon_query "mina" "8301"] (errs ++ json_of k), Ok tt) /\
    get (node_statuses k) "c" = None /\ "c" ∈ seen_peer_ids k.
Proof.
  edestruct (crawl_asks_once toy_loads toy_daemon "mina" "8301") as (errs & k & E & _ & Hg & _ & Hs).
  - vm_compute. reflexivity.
  - vm_compute. reflexivity.
  - intros s ps p Hs Hps Hp. repeat (apply elem_of_cons in Hs as [->|Hs]; [injection Hps as <-;
      repeat (apply elem_of_cons in Hp as [->|Hp]; [split; eexists; reflexivity|]); by apply elem_of_nil in Hp|]).
    by apply elem_of_nil in Hs.
  - exists errs, k. split; [exact E|]. split; [by rewrite Hg|].
    apply Hs. eexists. split; [right; left|]. cbn. right. left.
Defined.
