(* ===== verification/PpxCheck.v ===== *)
(** * The check that dune files run the linter, [scripts/require-ppxs.py]

    [sexpdata] is outside the repository: the class [Sexpdata] has the four functions that the
    script calls, and [SexpdataLaws] what the check relies on: [loads] of a word is a symbol,
    [car] is an alias of [x[0]] and [cdr] of [x[1:]]. *)

From stdpp Require Import base list strings.
From Stdlib Require Import Ascii ZArith Lia.
From S2P Require Import Prelude PyStr PyText PySet.
Open Scope string_scope.
Open Scope Z_scope.

(** A value that [sexpdata.loads] answers: a symbol, a string, a list, or another object
    (a number, a quotation), known by its text. *)
Inductive sexp : Type :=
| Sym (name : string)
| Str (s : string)
| Lst (l : list sexp)
| Obj (text : string).

Fixpoint sexp_dec (x y : sexp) : {x = y} + {x <> y}.
Proof. decide equality; try apply String.string_dec. apply (List.list_eq_dec sexp_dec). Defined.

#[export] Instance sexp_eq_dec : EqDecision sexp := sexp_dec.

Class Sexpdata : Type := {
  loads : string -> result sexp;
  dumps : sexp -> string;
  car : sexp -> result sexp;
  cdr : sexp -> result sexp
}.

Class SexpdataLaws `{HS : Sexpdata} : Prop := {
  loads_word : forall w, w ∈ ["library"; "executable"; "preprocess"; "pps"; "backend"; "no_preprocessing"; "instrumentation";
                              "ppx_version"; "bisect_ppx"; "-lint-version-syntax-warnings"] -> loads w = Ok (Sym w);
  car_list : forall y l, car (Lst (y :: l)) = Ok y;
  car_nil : forall y, car (Lst []) <> Ok y;
  car_symbol : forall x n, car x = Ok (Sym n) -> exists l, x = Lst (Sym n :: l);   (* a string's [x[0]] is a string *)
  cdr_list : forall l, cdr (Lst l) = Ok (Lst (tail l))
}.

(** [dune_paths_ok] *)
Definition dune_paths_ok (dune : string) : bool :=
  let path := split "/" dune in
  let path_prefix2 := slice 1 2 path in
  let path_prefix3 := slice 1 3 path in
  negb (bool_decide (path_prefix2 = ["_build"]) || bool_decide (path_prefix2 = ["external"])
        || bool_decide (path_prefix3 = ["lib"; "marlin"])
        || bool_decide (path_prefix3 = ["lib"; "snarky"])
        || bool_decide (path_prefix3 = ["lib"; "ppx_version"])
        || bool_decide (path_prefix3 = ["app"; "reformat"])
        || bool_decide (path_prefix3 = ["lib"; "ppx_coda"])).

Definition dune_paths (dune_paths_raw : list string) : list string :=
  List.filter (fun s => (0 <? String.length s)%nat && dune_paths_ok s) dune_paths_raw.

(** What the script has printed, and the global [exit_code]. *)
Record report : Type := Report { printed : list string; exit_code : Z }.

Definition fail (line : string) (r : report) : report := Report (printed r ++ [line])%list 1.

Section Check.
Context `{HS : Sexpdata}.

(** [x.index(y)] answers; on what is not a list, it raises. *)
Definition has_index (x y : sexp) : bool :=
  match x with
  | Lst l => existsb (fun z => bool_decide (z = y)) l
  | _ => false
  end.

Definition missing_ppx_error (dune : string) (ppx : sexp) : report -> report :=
  fail ("In dune file " +:+ dune +:+ ", the preprocessing clause is missing; there should be one containing " +:+ dumps ppx).

Definition missing_backend_error (dune : string) (ppx : sexp) : report -> report :=
  fail ("In dune file " +:+ dune +:+ ", the instrumentation clause is missing; there should be one containing a backend for " +:+ dumps ppx).

Definition no_ppx_error (dune : string) (ppxs : sexp) : report -> report :=
  fail ("In dune file " +:+ dune +:+ ", the preprocessing clause indicates no preprocessing, but it should include " +:+ dumps ppxs).

Definition get_ppx_ndx (dune : string) (ppxs ppx : sexp) (r : report) : report :=
  if has_index ppxs ppx then r
  else fail ("In dune file " +:+ dune +:+ ", the preprocessing clause does not contain " +:+ dumps ppx) r.

Definition check_for_proscribed_flag (dune : string) (ppxs flag : sexp) (r : report) : report :=
  if has_index ppxs flag then fail ("In dune file " +:+ dune +:+ ", the preprocessing clause contains proscribed flag " +:+ dumps flag) r
  else r.

Definition get_backends_ndx (dune : string) (backends ppx : sexp) (r : report) : report :=
  if has_index backends ppx then r
  else fail ("In dune file " +:+ dune +:+ ", the instrumentation backends clause does not contain " +:+ dumps ppx) r.

(** The words the script compares with. *)
Record words : Type := Words {
  library : sexp; executable : sexp; preprocess : sexp; pps : sexp; backend : sexp;
  no_preprocessing : sexp; instrumentation : sexp; ppx_lint : sexp; ppx_coverage : sexp;
  version_lint_as_warning_flag : sexp
}.

Definition load_words : result words :=
  let* library := loads "library" in
  let* executable := loads "executable" in
  let* preprocess := loads "preprocess" in
  let* pps := loads "pps" in
  let* backend := loads "backend" in
  let* no_preprocessing := loads "no_preprocessing" in
  let* instrumentation := loads "instrumentation" in
  let* ppx_lint := loads "ppx_version" in
  let* ppx_coverage := loads "bisect_ppx" in
  let* flag := loads "-lint-version-syntax-warnings" in
  Ok (Words library executable preprocess pps backend no_preprocessing instrumentation ppx_lint ppx_coverage flag).

(** [if car(clause) == preprocess: ...] *)
Definition check_preprocess (w : words) (dune : string) (clause : sexp) (r : report) : result report :=
  let* rest := cdr clause in
  let* subclause := car rest in
  if bool_decide (subclause = no_preprocessing w) then Ok (no_ppx_error dune (ppx_lint w) r) else
  let* head := car subclause in
  if bool_decide (head = pps w) then
    let* ppxs := cdr subclause in
    Ok (get_ppx_ndx dune ppxs (ppx_lint w)
          (check_for_proscribed_flag dune ppxs (version_lint_as_warning_flag w) r))
  else Ok r.

(** [if car(clause) == instrumentation: ...] *)
Definition check_instrumentation (w : words) (dune : string) (clause : sexp) (r : report) : result report :=
  let* rest := cdr clause in
  let* subclause := car rest in
  let* head := car subclause in
  if bool_decide (head = backend w) then
    let* backends := cdr subclause in
    Ok (get_backends_ndx dune backends (ppx_coverage w) r)
  else Ok r.

(** A turn of the loop over the clauses, with [found_preprocess] and [found_instrumentation]. *)
Definition check_clause (w : words) (dune : string) (st : bool * bool * report) (clause : sexp)
  : result (bool * bool * report) :=
  let '(found_preprocess, found_instrumentation, r) := st in
  let* head := car clause in
  let* fr := if bool_decide (head = preprocess w) then
               let* r := check_preprocess w dune clause r in Ok (true, r)
             else Ok (found_preprocess, r) in
  let* head := car clause in
  let* gr := if bool_decide (head = instrumentation w) then
               let* r := check_instrumentation w dune clause (snd fr) in Ok (true, r)
             else Ok (found_instrumentation, snd fr) in
  Ok (fst fr, fst gr, snd gr).

Definition is_stanza (w : words) (x : sexp) : bool :=
  match x with
  | Lst (h :: _) => bool_decide (h = library w) || bool_decide (h = executable w)
  | _ => false
  end.

Definition check_sexp (w : words) (dune : string) (r : report) (x : sexp) : result report :=
  if is_stanza w x then
    let* clauses := cdr x in
    match clauses with
    | Lst clauses =>
        let* st := foldM (check_clause w dune) clauses (false, false, r) in
        let '(found_preprocess, found_instrumentation, r) := st in
        let r := if found_preprocess then r else missing_ppx_error dune (ppx_lint w) r in
        Ok (if found_instrumentation then r else missing_backend_error dune (ppx_coverage w) r)
    | _ => Err TypeError
    end
  else Ok r.

(** The script.  [read dune] is the text of a file. *)
Definition check_dune (read : string -> result string) (w : words) (r : report) (dune : string) : result report :=
  let* text := read dune in
  let* sexps := loads ("(" +:+ text +:+ ")") in
  match sexps with
  | Lst sexps => foldM (check_sexp w dune) sexps r
  | _ => Err TypeError
  end.

Definition script (read : string -> result string) (dune_string : string) : result report :=
  let* w := load_words in
  foldM (check_dune read w) (dune_paths (split newline dune_string)) (Report [] 0).
End Check.

(** ** What the check demands *)
Definition kw (s : string) : sexp := Sym s.

(** A [(preprocess ...)] clause: not [no_preprocessing], and a [(pps ...)] that names
    [ppx_version] and has no flag that turns its errors into warnings. *)
Definition preprocess_ok (clause : sexp) : Prop :=
  forall sub more, clause = Lst (kw "preprocess" :: sub :: more) ->
    sub <> kw "no_preprocessing" /\
    forall ppxs, sub = Lst (kw "pps" :: ppxs) ->
      kw "ppx_version" ∈ ppxs /\ kw "-lint-version-syntax-warnings" ∉ ppxs.

Definition instrumentation_ok (clause : sexp) : Prop :=
  forall backends more, clause = Lst (kw "instrumentation" :: Lst (kw "backend" :: backends) :: more) ->
    kw "bisect_ppx" ∈ backends.

Definition headed (s : string) (clause : sexp) : Prop := exists l, clause = Lst (kw s :: l).

Definition stanza_ok (clauses : list sexp) : Prop :=
  (exists c, c ∈ clauses /\ headed "preprocess" c) /\ (exists c, c ∈ clauses /\ headed "instrumentation" c) /\
  forall c, c ∈ clauses -> preprocess_ok c /\ instrumentation_ok c.

(** Every [library] and every [executable] stanza at the top of the file. *)
Definition dune_ok (sexps : list sexp) : Prop :=
  forall h clauses, Lst (h :: clauses) ∈ sexps -> h = kw "library" \/ h = kw "executable" -> stanza_ok clauses.

(** ** The check is exact *)
Section Exact.
Context `{HS : Sexpdata} `{HL : !SexpdataLaws}.

Definition the_words : words :=
  Words (kw "library") (kw "executable") (kw "preprocess") (kw "pps") (kw "backend") (kw "no_preprocessing")
    (kw "instrumentation") (kw "ppx_version") (kw "bisect_ppx") (kw "-lint-version-syntax-warnings").

Lemma load_words_ok : load_words = Ok the_words.
Proof. unfold load_words. by rewrite !loads_word by (rewrite !elem_of_cons; tauto). Qed.

Lemma car_head x n : headed n x <-> car x = Ok (kw n).
Proof. split; [intros [l ->]; apply car_list | apply car_symbol]. Qed.

Lemma has_index_spec l y : has_index (Lst l) y = true <-> y ∈ l.
Proof.
  cbn. rewrite existsb_exists. split.
  - intros (z & Hz & ->%bool_decide_eq_true). by apply list_elem_of_In.
  - intros Hy. exists y. by rewrite bool_decide_eq_true, <- (list_elem_of_In l y).
Qed.

Definition ok_code (r : report) : Prop := exit_code r = 0.

Lemma check_preprocess_spec dune clause r r' :
  car clause = Ok (kw "preprocess") -> check_preprocess the_words dune clause r = Ok r' ->
  ok_code r' <-> ok_code r /\ preprocess_ok clause.
Proof.
  intros (l & ->)%car_symbol H. unfold check_preprocess in H. rewrite cdr_list in H. cbn [bind tail] in H.
  apply bind_Ok_inv in H as (sub & Hsub & H). destruct l as [|s l]; [by apply car_nil in Hsub|]. rewrite car_list in Hsub. injection Hsub as ->.
  unfold preprocess_ok, kw in *. cbn [the_words no_preprocessing pps] in H.
  case_bool_decide as D; unfold kw in D.
  { subst. injection H as <-. unfold ok_code. cbn. split; [done|]. intros [_ Hp]. by destruct (Hp _ _ eq_refl). }
  apply bind_Ok_inv in H as (h & Hh & H). case_bool_decide as D2; unfold kw in D2.
  - subst h. apply car_symbol in Hh as [ppxs ->]. rewrite cdr_list in H. cbn [tail bind] in H. injection H as <-.
    unfold get_ppx_ndx, check_for_proscribed_flag. cbn [the_words ppx_lint version_lint_as_warning_flag].
    pose proof (has_index_spec ppxs (kw "ppx_version")) as H1.
    pose proof (has_index_spec ppxs (kw "-lint-version-syntax-warnings")) as H2. unfold kw in *.
    destruct (has_index _ _), (has_index _ _); unfold ok_code; cbn; naive_solver.
  - injection H as <-. split; [|tauto]. intros Hr. split; [done|]. intros s' m [= -> ->]. split; [done|].
    intros ppxs ->. rewrite car_list in Hh. congruence.
Qed.

Lemma check_instrumentation_spec dune clause r r' :
  car clause = Ok (kw "instrumentation") -> check_instrumentation the_words dune clause r = Ok r' ->
  ok_code r' <-> ok_code r /\ instrumentation_ok clause.
Proof.
  intros (l & ->)%car_symbol H. unfold check_instrumentation in H. rewrite cdr_list in H. cbn [bind tail] in H.
  apply bind_Ok_inv in H as (sub & Hsub & H). destruct l as [|s l]; [by apply car_nil in Hsub|]. rewrite car_list in Hsub. injection Hsub as ->.
  apply bind_Ok_inv in H as (h & Hh & H). unfold instrumentation_ok, kw in *. cbn [the_words backend] in H.
  case_bool_decide as D; unfold kw in D.
  - subst h. apply car_symbol in Hh as [bs ->]. rewrite cdr_list in H. cbn [tail bind] in H. injection H as <-.
    unfold get_backends_ndx. cbn [the_words ppx_coverage].
    pose proof (has_index_spec bs (kw "bisect_ppx")) as H1. unfold kw in *.
    destruct (has_index _ _); unfold ok_code; cbn; naive_solver.
  - injection H as <-. split; [|tauto]. intros Hr. split; [done|]. intros bs m [= -> ->]. rewrite car_list in Hh. congruence.
Qed.

Lemma not_headed_preprocess clause : car clause <> Ok (kw "preprocess") -> preprocess_ok clause.
Proof. intros H sub more ->. destruct H. apply car_list. Qed.

Lemma not_headed_instrumentation clause : car clause <> Ok (kw "instrumentation") -> instrumentation_ok clause.
Proof. intros H sub more ->. destruct H. apply car_list. Qed.

Lemma check_clause_spec dune fp fi r clause fp' fi' r' :
  check_clause the_words dune (fp, fi, r) clause = Ok (fp', fi', r') ->
  (fp' = true <-> fp = true \/ headed "preprocess" clause) /\
  (fi' = true <-> fi = true \/ headed "instrumentation" clause) /\
  (ok_code r' <-> ok_code r /\ preprocess_ok clause /\ instrumentation_ok clause).
Proof.
  rewrite !car_head. unfold check_clause. intros H. apply bind_Ok_inv in H as (h & Hh & H).
  rewrite Hh in *. cbn [bind] in H. apply bind_Ok_inv in H as ([fp1 r1] & H1 & H). cbn [fst snd] in H.
  apply bind_Ok_inv in H as ([fi1 r2] & H2 & H). cbn [fst snd] in H. injection H as -> -> ->.
  assert (P1 : (fp' = true <-> fp = true \/ Ok h = Ok (kw "preprocess")) /\ (ok_code r1 <-> ok_code r /\ preprocess_ok clause)).
  { clear H2. cbn [the_words preprocess] in H1. case_bool_decide as D.
    - subst h. apply bind_Ok_inv in H1 as (r3 & H3 & H1). injection H1 as <- <-.
      split; [tauto|]. by eapply check_preprocess_spec.
    - injection H1 as <- <-. split; [naive_solver|]. split; [|tauto]. intros Hr. split; [done|].
      apply not_headed_preprocess. congruence. }
  assert (P2 : (fi' = true <-> fi = true \/ Ok h = Ok (kw "instrumentation")) /\ (ok_code r' <-> ok_code r1 /\ instrumentation_ok clause)).
  { clear H1 P1. cbn [the_words instrumentation] in H2. case_bool_decide as D.
    - subst h. apply bind_Ok_inv in H2 as (r3 & H3 & H2). injection H2 as <- <-.
      split; [tauto|]. by eapply check_instrumentation_spec.
    - injection H2 as <- <-. split; [naive_solver|]. split; [|tauto]. intros Hr. split; [done|].
      apply not_headed_instrumentation. congruence. }
  tauto.
Qed.

Lemma check_clauses_spec dune cs fp fi r fp' fi' r' :
  foldM (check_clause the_words dune) cs (fp, fi, r) = Ok (fp', fi', r') ->
  (fp' = true <-> fp = true \/ exists c, c ∈ cs /\ headed "preprocess" c) /\
  (fi' = true <-> fi = true \/ exists c, c ∈ cs /\ headed "instrumentation" c) /\
  (ok_code r' <-> ok_code r /\ forall c, c ∈ cs -> preprocess_ok c /\ instrumentation_ok c).
Proof.
  revert fp fi r. induction cs as [|c cs IH]; intros fp fi r H; cbn [foldM] in H.
  - injection H as <- <- <-. setoid_rewrite elem_of_nil. naive_solver.
  - apply bind_Ok_inv in H as ([[fp1 fi1] r1] & H1 & H). apply check_clause_spec in H1 as (A1 & A2 & A3).
    apply IH in H as (B1 & B2 & B3). setoid_rewrite elem_of_cons.
    rewrite B1, B2, B3, A1, A2, A3. clear. split_and!; [naive_solver..|].
    split; [|naive_solver]. intros ((Hr & Hp & Hi) & Hall). split; [done|]. intros c' [->|Hc]; [done | by apply Hall].
Qed.

Lemma is_stanza_spec x : is_stanza the_words x = true <->
  exists h clauses, x = Lst (h :: clauses) /\ (h = kw "library" \/ h = kw "executable").
Proof.
  destruct x as [|?|[|h l]|]; cbn; try (split; [done | by intros (h & c & ? & _)]).
  rewrite orb_true_iff, !bool_decide_eq_true. naive_solver.
Qed.

Lemma check_sexp_spec dune r x r' : check_sexp the_words dune r x = Ok r' ->
  ok_code r' <-> ok_code r /\
    forall h clauses, x = Lst (h :: clauses) -> h = kw "library" \/ h = kw "executable" -> stanza_ok clauses.
Proof.
  unfold check_sexp. destruct (is_stanza the_words x) eqn:E.
  - apply is_stanza_spec in E as (h & cs & -> & Hh). rewrite cdr_list. cbn [tail bind]. intros H.
    apply bind_Ok_inv in H as ([[fp fi] r1] & H1 & H). apply check_clauses_spec in H1 as (A1 & A2 & A3).
    injection H as <-. assert (G : forall P : list sexp -> Prop, (forall h' c', Lst (h :: cs) = Lst (h' :: c') ->
      h' = kw "library" \/ h' = kw "executable" -> P c') <-> P cs) by naive_solver.
    rewrite (G stanza_ok). unfold stanza_ok. destruct fp, fi; unfold ok_code, missing_ppx_error, missing_backend_error in *; cbn;
      naive_solver.
  - intros [= <-]. split; [|tauto]. intros Hr. split; [done|]. intros h cs -> Hh.
    assert (is_stanza the_words (Lst (h :: cs)) = true) by (apply is_stanza_spec; eauto). congruence.
Qed.

Lemma check_sexps_spec dune l r r' : foldM (check_sexp the_words dune) l r = Ok r' -> ok_code r' <-> ok_code r /\ dune_ok l.
Proof.
  revert r. induction l as [|x l IH]; intros r H; cbn [foldM] in H.
  - injection H as <-. unfold dune_ok. setoid_rewrite elem_of_nil. naive_solver.
  - apply bind_Ok_inv in H as (r1 & H1 & H). rewrite (IH _ H), (check_sexp_spec _ _ _ _ H1).
    unfold dune_ok. setoid_rewrite elem_of_cons. naive_solver.
Qed.

(** The top-level expressions of a file. *)
Definition sexps_of (read : string -> result string) (dune : string) (l : list sexp) : Prop :=
  exists text, read dune = Ok text /\ loads ("(" +:+ text +:+ ")") = Ok (Lst l).

Lemma check_dunes_spec read paths r r' :
  foldM (check_dune read the_words) paths r = Ok r' ->
  ok_code r' <-> ok_code r /\ forall dune l, dune ∈ paths -> sexps_of read dune l -> dune_ok l.
Proof.
  revert r. induction paths as [|p paths IH]; intros r H; cbn [foldM] in H.
  - injection H as <-. setoid_rewrite elem_of_nil. naive_solver.
  - apply bind_Ok_inv in H as (r1 & H1 & H). rewrite (IH _ H). unfold check_dune in H1.
    apply bind_Ok_inv in H1 as (text & Ht & H1). apply bind_Ok_inv in H1 as (s & Hs & H1).
    destruct s as [| |l|]; try done. apply check_sexps_spec in H1. rewrite H1. setoid_rewrite elem_of_cons.
    assert (G : (forall l', sexps_of read p l' -> dune_ok l') <-> dune_ok l).
    { split; [intros X; apply X; by exists text|]. intros X l' (t & Ht' & Hl'). replace l' with l by congruence. done. }
    rewrite <- G. naive_solver.
Qed.
(** A clause that the script can take apart: a list with a head, whose second element is there when
    the head is [preprocess] or [instrumentation], and is itself such a list unless it is
    [no_preprocessing]. *)
Definition non_empty_list (x : sexp) : Prop := exists h l, x = Lst (h :: l).

Definition well_shaped (clause : sexp) : Prop :=
  non_empty_list clause /\
  (headed "preprocess" clause ->
   exists sub more, clause = Lst (kw "preprocess" :: sub :: more) /\ (sub = kw "no_preprocessing" \/ non_empty_list sub)) /\
  (headed "instrumentation" clause ->
   exists sub more, clause = Lst (kw "instrumentation" :: sub :: more) /\ non_empty_list sub).

(** A file whose [library] and [executable] stanzas have such clauses only. *)
Definition dune_well_shaped (sexps : list sexp) : Prop :=
  forall h clauses, Lst (h :: clauses) ∈ sexps -> h = kw "library" \/ h = kw "executable" -> forall c, c ∈ clauses -> well_shaped c.

Lemma check_preprocess_total dune sub more r : sub = kw "no_preprocessing" \/ non_empty_list sub ->
  exists r', check_preprocess the_words dune (Lst (kw "preprocess" :: sub :: more)) r = Ok r'.
Proof.
  intros Hs. unfold check_preprocess. rewrite cdr_list. cbn [bind tail]. rewrite car_list. cbn [bind the_words no_preprocessing pps].
  destruct (bool_decide_reflect (sub = kw "no_preprocessing")) as [|D]; [by eexists|]. destruct Hs as [|(h & l & ->)]; [done|].
  rewrite car_list. cbn [bind]. case_bool_decide; [|by eexists]. rewrite cdr_list. by eexists.
Qed.

Lemma check_instrumentation_total dune sub more r : non_empty_list sub ->
  exists r', check_instrumentation the_words dune (Lst (kw "instrumentation" :: sub :: more)) r = Ok r'.
Proof.
  intros (h & l & ->). unfold check_instrumentation. rewrite cdr_list. cbn [bind tail]. rewrite car_list. cbn [bind the_words backend].
  rewrite car_list. cbn [bind]. case_bool_decide; [|by eexists]. rewrite cdr_list. by eexists.
Qed.

Lemma check_clause_total dune st clause : well_shaped clause -> exists st', check_clause the_words dune st clause = Ok st'.
Proof.
  intros ((h & l & ->) & Hp & Hi). destruct st as [[fp fi] r]. unfold check_clause. rewrite car_list. cbn [bind the_words preprocess instrumentation].
  destruct (bool_decide_reflect (h = kw "preprocess")) as [->|D].
  - destruct Hp as (sub & more & [= ->] & Hs); [by eexists|].
    destruct (check_preprocess_total dune sub more r Hs) as [r1 ->]. cbn [bind].
    destruct (bool_decide_reflect (kw "preprocess" = kw "instrumentation")); [done|]. by eexists.
  - cbn [bind fst snd]. destruct (bool_decide_reflect (h = kw "instrumentation")) as [->|D2]; [|by eexists].
    destruct Hi as (sub & more & [= ->] & Hs); [by eexists|].
    destruct (check_instrumentation_total dune sub more r Hs) as [r1 ->]. by eexists.
Qed.

Lemma check_dune_total read dune r : (exists l, sexps_of read dune l /\ dune_well_shaped l) ->
  exists r', check_dune read the_words r dune = Ok r'.
Proof.
  intros (l & (text & Ht & Hl) & Hw). unfold check_dune. rewrite Ht. cbn [bind]. rewrite Hl. cbn [bind].
  destruct (foldM_total (fun _ => True) (check_sexp the_words dune) l r) as (r' & -> & _); [|done|by exists r'].
  intros r1 x Hx%list_elem_of_In _. unfold check_sexp. destruct (is_stanza the_words x) eqn:E; [|by exists r1].
  apply is_stanza_spec in E as (h & cs & -> & Hh). rewrite cdr_list. cbn [tail bind].
  destruct (foldM_total (fun _ => True) (check_clause the_words dune) cs (false, false, r1)) as ([[fp fi] r2] & -> & _); [|done|by eexists].
  intros st c Hc%list_elem_of_In _. destruct (check_clause_total dune st c) as [st' ->]; [by eapply Hw | by exists st'].
Qed.
End Exact.

(** C9: [require-ppxs.py] is exact on the stanzas it looks at: if the script ends without an
    uncaught exception, its exit code is 0 just when, in every dune file outside the excluded
    directories, every [library] and [executable] stanza has a preprocess clause and an
    instrumentation clause, no preprocess clause says [no_preprocessing], every [pps] list names
    [ppx_version] without the flag that turns its errors into warnings, and every backend list
    names [bisect_ppx].  Other stanzas ([executables], [test], ...) and other forms of
    preprocessing are not looked at.  The script does end so when every such file can be read and
    parsed and the clauses of these stanzas are lists with the elements that are looked at. *)
Theorem require_ppxs_exact `{HS : Sexpdata} `{HL : !SexpdataLaws} (read : string -> result string) (dune_string : string) :
  let checked dune := dune ∈ split newline dune_string /\ dune <> "" /\ dune_paths_ok dune = true in
  ((forall dune, checked dune -> exists l, sexps_of read dune l /\ dune_well_shaped l) ->
   exists r, script read dune_string = Ok r) /\
  forall r, script read dune_string = Ok r ->
    exit_code r = 0 <-> forall dune l, checked dune -> sexps_of read dune l -> dune_ok l.
Proof.
  intros checked. assert (G : forall d, d ∈ dune_paths (split newline dune_string) <-> checked d).
  { intros d. unfold dune_paths, checked. rewrite elem_of_filter_bool, andb_true_iff.
    assert ((0 <? String.length d)%nat = true <-> d <> "") as -> by (by destruct d). tauto. }
  unfold script. rewrite load_words_ok. cbn [bind]. split.
  - intros H. destruct (foldM_total (fun _ => True) (check_dune read the_words) (dune_paths (split newline dune_string)) (Report [] 0))
      as (r & -> & _); [|done|by exists r].
    intros r d Hd%list_elem_of_In _. destruct (check_dune_total read d r) as [r' ->]; [by apply H, G | by exists r'].
  - intros r H. apply check_dunes_spec in H. change (exit_code r = 0) with (ok_code r). rewrite H. unfold ok_code. cbn [exit_code].
    setoid_rewrite G. naive_solver.
Qed.

(** A reader that knows two files: the first is in order, the second has a library without
    preprocessing. *)
Definition toy_good : list sexp :=
  [Lst [Sym "library"; Lst [Sym "name"; Sym "a"]; Lst [Sym "preprocess"; Lst [Sym "pps"; Sym "ppx_version"]];
        Lst [Sym "instrumentation"; Lst [Sym "backend"; Sym "bisect_ppx"]]];
   Lst [Sym "executables"; Lst [Sym "names"; Sym "b"]]].

Definition toy_bad : list sexp :=
  [Lst [Sym "library"; Lst [Sym "name"; Sym "a"]; Lst [Sym "preprocess"; Sym "no_preprocessing"]]].

#[local] Instance toy_sexpdata : Sexpdata := {|
  loads s := if decide (s = "(good)") then Ok (Lst toy_good) else if decide (s = "(bad)") then Ok (Lst toy_bad) else Ok (Sym s);
  dumps x := match x with Sym n => n | _ => "?" end;
  car x := match x with
           | Lst [] => Err IndexError
           | Lst (y :: _) => Ok y
           | Str (String a _) => Ok (Str (String a ""))
           | _ => Err TypeError
           end;
  cdr x := match x with Lst l => Ok (Lst (tail l)) | Str s => Ok (Str (drop_str 1 s)) | _ => Err TypeError end
|}.

#[local] Instance toy_laws : SexpdataLaws.
Proof.
  split; [|done..| |done].
  - intros w Hw. cbn. repeat (apply elem_of_cons in Hw as [->|Hw]; [reflexivity|]). by apply elem_of_nil in Hw.
  - intros x n H. destruct x as [|[]|[|y l]|]; try done. injection H as ->. by exists l.
Qed.

Definition toy_read (path : string) : result string :=
  if decide (path = "src/app/cli/dune") then Ok "bad" else Ok "good".

Definition toy_find : string := "src/lib/a/dune" +:+ nl +:+ "src/lib/snarky/dune" +:+ nl.

Example toy_exit :
  match script toy_read (toy_find +:+ "src/app/cli/dune" +:+ nl) with
  | Ok r => exit_code r = 1 /\ length (printed r) = 2%nat
  | Err _ => False
  end.
Proof. by vm_compute. Qed.

(** The one file of the list that is not excluded is in order. *)
Lemma toy_checked dune : dune ∈ split newline toy_find -> dune <> "" -> dune_paths_ok dune = true -> dune = "src/lib/a/dune".
Proof.
  assert (E : split newline toy_find = ["src/lib/a/dune"; "src/lib/snarky/dune"; ""]) by (vm_compute; reflexivity).
  rewrite E, !elem_of_cons, elem_of_nil. by intros [->|[->|[->|[]]]].
Qed.

Lemma toy_well_shaped : dune_well_shaped toy_good.
Proof.
  intros h cs H Hh. unfold toy_good in H. rewrite !elem_of_cons, elem_of_nil in H. destruct H as [[= -> ->]|[[= -> ->]|[]]].
  2: { by destruct Hh. }
  intros c Hc. rewrite !elem_of_cons, elem_of_nil in Hc. unfold well_shaped, headed, non_empty_list, kw.
  destruct Hc as [->|[->|[->|[]]]]; (split; [by eexists _, _ | split; [|]]); intros [l' [=]];
    eexists _, _; (split; [reflexivity|]); try right; by eexists _, _.
Qed.

Lemma require_ppxs_exact_witness :
  exists r, script toy_read toy_find = Ok r /\ exit_code r = 0 /\ dune_ok toy_good.
Proof.
  destruct (require_ppxs_exact toy_read toy_find) as [Ht He].
  destruct Ht as [r Hr].
  - intros d (H1 & H2 & H3). exists toy_good. rewrite (toy_checked d H1 H2 H3). split; [by exists "good" | exact toy_well_shaped].
  - exists r. split; [exact Hr|]. assert (exit_code r = 0) as E by (vm_compute in Hr; injection Hr as <-; reflexivity).
    split; [exact E|]. apply (proj1 (He r Hr) E "src/lib/a/dune").
    + split_and!; [vm_compute; left | done | reflexivity].
    + by exists "good".
Defined.
