(* ===== verification/BuildWarns.v ===== *)
(** * The report on compiler warnings, [scripts/buildwarns.py]

    A Python 2 script.  Its [print] statement writes each expression as soon as it is
    computed, with a soft space before the next one; so the standard output is a text and
    the pending soft space.  The order in which Python 2 visits a Counter is not that of the
    dictionaries of this development; what is proved does not depend on it. *)

From stdpp Require Import base list strings.
From Stdlib Require Import Ascii ZArith Lia.
From S2P Require Import Prelude Dict Counter PyStr PyText Effects.
Open Scope string_scope.
Open Scope Z_scope.

Definition errorcodes : dict string string :=
  [("6", "label key was omitted in the application of this function.");
   ("9", "the following labels are not bound in this record pattern");
   ("27", "unused variable");
   ("32", "unused value");
   ("33", "unused open");
   ("34", "unused type");
   ("35", "unused for-loop index");
   ("37", "unused constructor");
   ("39", "unused rec flag.");
   ("58", "no cmx file was found in path for module");
   ("total", "total")].

Definition dquote : ascii := "034"%char.

(** ** Parsing the log *)
Record data : Type := Data {
  perfile : dict string Z;
  percode : dict string Z;
  fulldata : dict string (dict string Z);
  lastline : option string     (* [False] before the first line *)
}.

Definition bump_in (d : dict string (dict string Z)) (myfile code : string) : dict string (dict string Z) :=
  set myfile (bump (bump (default [] (get d myfile)) code) "total") d.

(** The second part of [lastline], split at double quotes, where there is one. *)
Definition file_of (lastline : option string) : result (option string) :=
  match lastline with
  | Some l => if negb (String.eqb l "") && contains (String dquote "") l
              then let* f := py_nth (split dquote l) 1 in Ok (Some f) else Ok None
  | None => Ok None
  end.

Definition code_of (line : string) : result string :=
  let* w := py_nth (words line) 1 in Ok (replace ":" "" w).

Definition parse_line (d : data) (line : string) : result data :=
  if contains "Warning" line then
    let* code := code_of line in
    let percode := bump (bump (percode d) code) "total" in
    let* f := file_of (lastline d) in
    match f with
    | Some myfile => Ok (Data (bump (perfile d) myfile) percode (bump_in (fulldata d) myfile code) (Some line))
    | None => Ok (Data (perfile d) percode (fulldata d) (Some line))
    end
  else Ok (Data (perfile d) (percode d) (fulldata d) (Some line)).

Definition parse_log (lines : list string) : result data := foldM parse_line lines (Data [] [] [] None).

(** ** Printing *)
Record stdout : Type := Stdout { text : string; softspace : bool }.

Definition print_item (s : string) : M stdout unit := modify (fun o =>
  Stdout (text o +:+ (if softspace o then " " else "") +:+ s) (negb (String.eqb s (String "009"%char "")))).

Definition print_newline : M stdout unit := modify (fun o => Stdout (text o +:+ nl) false).

Definition print1 (s : string) : M stdout unit := perform print_item s then print_newline.

Definition rule (c : ascii) : string := String.string_of_list_ascii (repeat c 80).

(** [sorted(d.iteritems(), reverse=True, key=lambda (k,v): (v,k))] *)
Definition before (x y : string * Z) : bool :=
  (snd y <? snd x) || ((snd x =? snd y) && String.ltb (fst y) (fst x)).

Fixpoint insert_desc (x : string * Z) (l : list (string * Z)) : list (string * Z) :=
  match l with
  | [] => [x]
  | y :: l' => if before y x then y :: insert_desc x l' else x :: y :: l'
  end.

Definition sort_desc (l : list (string * Z)) : list (string * Z) := foldr insert_desc [] l.

(** [print percode[key], errorcodes[key]], and the handler that goes on with the next key. *)
Definition print_code (percode : dict string Z) (key : string) : M stdout unit :=
  try_except
    (perform print_item (py_str (get_count percode key)) then
     do t <- lift (get_item errorcodes key) in
     perform print_item t then print_newline)
    (fun e => match e with KeyError => Some (ret tt) | _ => None end).

Definition print_detail (c : dict string Z) (k : string) : M stdout unit :=
  when (negb (String.eqb k "total"))
    (perform print_item (String "009"%char "") then
     perform print_item (py_str (get_count c k)) then
     do t <- lift (get_item errorcodes k) in
     perform print_item t then print_newline).

Definition print_file (fulldata : dict string (dict string Z)) (kv : string * Z) : M stdout unit :=
  perform print1 (rule "-") then
  perform print1 (fst kv) then
  do c <- lift (get_item fulldata (fst kv)) in
  perform for_each (keys c) (print_detail c) then
  perform print_item (String "009"%char "") then
  perform print_item (py_str (get_count c "total")) then
  print1 "total".

Definition report (d : data) : M stdout unit :=
  perform print1 (rule "=") then
  perform print1 "Warnings by type/code" then
  perform for_each (map fst (sort_desc (percode d))) (print_code (percode d)) then
  perform print1 (rule "=") then
  perform print1 "Warnings by file" then
  perform for_each (sort_desc (perfile d)) (fun kv =>
    perform print_item (py_str (snd kv)) then print1 (fst kv)) then
  perform print1 (rule "=") then
  perform print1 "Warnings detail per file" then
  for_each (sort_desc (perfile d)) (print_file (fulldata d)).

Definition script (lines : list string) : M stdout unit :=
  do d <- lift (parse_log lines) in report d.

(** ** The warnings of a log *)
Record warning : Type := Warning { w_code : string; w_file : option string }.

(** The warnings, each with the file that the line before it names. *)
Fixpoint warnings (lastline : option string) (lines : list string) : result (list warning) :=
  match lines with
  | [] => Ok []
  | line :: lines' =>
      if contains "Warning" line then
        let* c := code_of line in
        let* f := file_of lastline in
        let* ws := warnings (Some line) lines' in
        Ok (Warning c f :: ws)
      else warnings (Some line) lines'
  end.

Definition codes (ws : list warning) : list string := flat_map (fun w => [w_code w; "total"]) ws.

Definition files (ws : list warning) : list string :=
  flat_map (fun w => match w_file w with Some f => [f] | None => [] end) ws.

Definition codes_of (f : string) (ws : list warning) : list string :=
  codes (List.filter (fun w => bool_decide (w_file w = Some f)) ws).

Definition counts (ws : list warning) (d : data) : Prop :=
  percode d = counter (codes ws) /\ perfile d = counter (files ws) /\
  forall f, get (fulldata d) f = match codes_of f ws with [] => None | cs => Some (counter cs) end.

Lemma counter_snoc {K} `{EqDecision K} (l : list K) x : counter (l ++ [x]) = bump (counter l) x.
Proof. unfold counter. by rewrite fold_left_app. Qed.

Lemma codes_snoc ws w : codes (ws ++ [w]) = (codes ws ++ [w_code w; "total"])%list.
Proof. unfold codes. by rewrite flat_map_app. Qed.

Lemma counter_codes_snoc ws w : counter (codes (ws ++ [w])) = bump (bump (counter (codes ws)) (w_code w)) "total".
Proof. rewrite codes_snoc. change [w_code w; "total"] with ([w_code w] ++ ["total"])%list. by rewrite app_assoc, !counter_snoc. Qed.

Lemma codes_of_snoc f ws w :
  codes_of f (ws ++ [w]) = if bool_decide (w_file w = Some f) then (codes_of f ws ++ [w_code w; "total"])%list else codes_of f ws.
Proof.
  unfold codes_of. rewrite List.filter_app. cbn [List.filter]. destruct (bool_decide _); [by rewrite codes_snoc | by rewrite app_nil_r].
Qed.

Lemma parse_counts lines ws0 ws d : counts ws0 d -> warnings (lastline d) lines = Ok ws ->
  exists d', foldM parse_line lines d = Ok d' /\ counts (ws0 ++ ws) d'.
Proof.
  revert ws0 ws d. induction lines as [|line lines IH]; intros ws0 ws d Hd H; cbn [warnings] in H.
  { injection H as <-. exists d. by rewrite app_nil_r. }
  cbn [foldM]. unfold parse_line at 1. destruct (contains "Warning" line) eqn:E.
  - apply bind_Ok_inv in H as (c & Hc & H). apply bind_Ok_inv in H as (f & Hf & H). apply bind_Ok_inv in H as (ws1 & Hws & H).
    assert (ws = Warning c f :: ws1) as -> by congruence. rewrite Hc. cbn [bind]. rewrite Hf. cbn [bind].
    replace (ws0 ++ Warning c f :: ws1)%list with ((ws0 ++ [Warning c f]) ++ ws1)%list by (by rewrite <- app_assoc).
    destruct Hd as (H1 & H2 & H3).
    destruct f as [f|]; cbn [bind]; apply IH; try done; (split; [|split]); cbn [percode perfile fulldata].
    + by rewrite counter_codes_snoc, H1.
    + unfold files. rewrite flat_map_app. cbn. by rewrite counter_snoc, H2.
    + intros f'. unfold bump_in. rewrite get_set, codes_of_snoc. cbn [w_file w_code]. case_decide as D.
      * subst. rewrite bool_decide_eq_true_2, H3 by done.
        destruct (codes_of f ws0) as [|y l]; [done|]. unfold default. cbn [from_option app].
        change (y :: l ++ [c; "total"])%list with ((y :: l) ++ [c] ++ ["total"])%list.
        by rewrite (app_assoc (y :: l)), !counter_snoc.
      * rewrite bool_decide_eq_false_2 by congruence. apply H3.
    + by rewrite counter_codes_snoc, H1.
    + unfold files. rewrite flat_map_app. cbn. by rewrite app_nil_r, H2.
    + intros f'. rewrite codes_of_snoc. cbn [w_file]. by rewrite bool_decide_eq_false_2.
  - cbn [bind]. apply IH; [|done]. by destruct Hd.
Qed.

(** ** How the report ends *)
Definition settles {A} (m : M stdout A) (r : result A) : Prop := forall o, snd (m o) = r.

Lemma settles_bind {A B} (m : M stdout A) (k : A -> M stdout B) r r' :
  settles m r -> (match r with Ok a => settles (k a) r' | Err e => r' = Err e end) -> settles (bindM m k) r'.
Proof.
  intros Hm Hk o. unfold bindM. specialize (Hm o). destruct (m o) as [o' x]. cbn in Hm. subst x.
  destruct r; [apply Hk | done].
Qed.

Lemma settles_then {A B} (m : M stdout A) (k : M stdout B) a r : settles m (Ok a) -> settles k r -> settles (bindM m (fun _ => k)) r.
Proof. intros Hm Hk. eapply settles_bind; [exact Hm | exact Hk]. Qed.

Lemma settles_item s : settles (print_item s) (Ok tt).
Proof. by intros o. Qed.

Lemma settles_print1 s : settles (print1 s) (Ok tt).
Proof. by intros o. Qed.

Lemma settles_for_each {A} (l : list A) (f : A -> M stdout unit) (bad : A -> bool) :
  (forall x, x ∈ l -> settles (f x) (if bad x then Err KeyError else Ok tt)) ->
  settles (for_each l f) (if existsb bad l then Err KeyError else Ok tt).
Proof.
  induction l as [|x l IH]; intros H; [by intros o|]. cbn [for_each existsb].
  eapply settles_bind; [apply H; left|]. destruct (bad x); cbn [orb]; [done|]. apply IH. intros y Hy. apply H. by right.
Qed.

Definition unknown (k : string) : bool := negb (mem k errorcodes).

Lemma get_errorcode k : get_item errorcodes k = if unknown k then Err KeyError else get_item errorcodes k.
Proof. unfold unknown, mem, get_item. by destruct (get errorcodes k). Qed.

Lemma print_code_settles c k : settles (print_code c k) (Ok tt).
Proof.
  intros o. unfold print_code, try_except, bindM, print_item, print_newline, modify, lift.
  rewrite get_errorcode. unfold unknown, mem, get_item. by destruct (get errorcodes k).
Qed.

Lemma print_detail_settles c k : settles (print_detail c k) (if unknown k then Err KeyError else Ok tt).
Proof.
  unfold print_detail, when. destruct (String.eqb_spec k "total") as [->|Hne]; [by intros o|]. cbn [negb].
  intros o. unfold bindM, print_item, print_newline, modify, lift.
  unfold unknown, mem, get_item. by destruct (get errorcodes k).
Qed.

Definition bad_file (fulldata : dict string (dict string Z)) (kv : string * Z) : bool :=
  match get fulldata (fst kv) with Some c => existsb unknown (keys c) | None => true end.

Lemma print_file_settles fd kv : settles (print_file fd kv) (if bad_file fd kv then Err KeyError else Ok tt).
Proof.
  unfold print_file. eapply settles_then; [apply settles_print1|]. eapply settles_then; [apply settles_print1|].
  unfold bad_file. apply (settles_bind _ _ (get_item fd (fst kv))); [intros o; reflexivity|]. unfold get_item. destruct (get fd (fst kv)) as [c|]; [|done].
  eapply settles_bind; [apply settles_for_each; intros k _; apply print_detail_settles|].
  destruct (existsb unknown (keys c)); [done|].
  eapply settles_then; [apply settles_item|]. eapply settles_then; [apply settles_item|]. apply settles_print1.
Qed.

Lemma report_settles d :
  settles (report d) (if existsb (bad_file (fulldata d)) (sort_desc (perfile d)) then Err KeyError else Ok tt).
Proof.
  assert (L : forall {A} (l : list A) (f : A -> M stdout unit), (forall x, settles (f x) (Ok tt)) -> settles (for_each l f) (Ok tt)).
  { intros A l f Hf. pose proof (settles_for_each l f (fun _ => false) (fun x _ => Hf x)) as H.
    replace (existsb (fun _ : A => false) l) with false in H; [done|]. clear; induction l as [|x l IH]; [done | exact IH]. }
  unfold report. do 2 (eapply settles_then; [apply settles_print1|]).
  eapply settles_then; [apply L; intros k; apply print_code_settles|].
  do 2 (eapply settles_then; [apply settles_print1|]).
  eapply settles_then; [apply L; intros kv; eapply settles_then; [apply settles_item | apply settles_print1]|].
  do 2 (eapply settles_then; [apply settles_print1|]). apply settles_for_each. intros kv _. apply print_file_settles.
Qed.

Lemma elem_of_insert_desc x y l : x ∈ insert_desc y l <-> x = y \/ x ∈ l.
Proof.
  induction l as [|z l IH]; cbn [insert_desc]; [rewrite list_elem_of_singleton, elem_of_nil; naive_solver|].
  destruct (before z y); [rewrite !elem_of_cons, IH; tauto | rewrite !elem_of_cons; tauto].
Qed.

Lemma elem_of_sort_desc x l : x ∈ sort_desc l <-> x ∈ l.
Proof.
  unfold sort_desc. induction l as [|y l IH]; cbn [foldr]; [done|]. rewrite elem_of_insert_desc, elem_of_cons. by rewrite IH.
Qed.

Lemma elem_of_codes k ws : k ∈ codes ws <-> exists w, w ∈ ws /\ (k = w_code w \/ k = "total").
Proof.
  unfold codes. rewrite list_elem_of_In, in_flat_map. setoid_rewrite <- list_elem_of_In.
  setoid_rewrite elem_of_cons. setoid_rewrite list_elem_of_singleton. done.
Qed.

Lemma bad_report ws d : counts ws d ->
  existsb (bad_file (fulldata d)) (sort_desc (perfile d)) = true <->
  exists w f, w ∈ ws /\ w_file w = Some f /\ unknown (w_code w) = true.
Proof.
  intros (_ & Hp & Hf). rewrite existsb_exists. setoid_rewrite <- list_elem_of_In. setoid_rewrite elem_of_sort_desc.
  assert (Hk : forall f, f ∈ keys (perfile d) <-> exists w, w ∈ ws /\ w_file w = Some f).
  { intros f. rewrite Hp, (proj2 (proj2 (counter_spec (files ws))) f). unfold files.
    rewrite list_elem_of_In, in_flat_map. setoid_rewrite <- list_elem_of_In. split.
    - intros (w & Hw & H). exists w. split; [done|]. destruct (w_file w); [|by apply elem_of_nil in H].
      by apply list_elem_of_singleton in H as ->.
    - intros (w & Hw & H). exists w. rewrite H. split; [done | by apply list_elem_of_singleton]. }
  assert (Hb : forall f n, f ∈ keys (perfile d) -> bad_file (fulldata d) (f, n) = existsb unknown (codes_of f ws)).
  { intros f n Hin. unfold bad_file. cbn [fst]. rewrite Hf. apply Hk in Hin as (w & Hw & Hwf).
    destruct (codes_of f ws) as [|c cs] eqn:E.
    - exfalso. assert (X : w_code w ∈ codes_of f ws); [|rewrite E in X; by apply elem_of_nil in X].
      apply elem_of_codes. exists w. rewrite list_elem_of_In, filter_In, <- list_elem_of_In, bool_decide_eq_true. auto.
    - destruct (counter_spec (c :: cs)) as (_ & _ & Hkeys). apply eq_true_iff_eq. rewrite !existsb_exists.
      setoid_rewrite <- list_elem_of_In. by setoid_rewrite Hkeys. }
  split.
  - intros ([f n] & Hin & Hbad). assert (Hfk : f ∈ keys (perfile d)) by (apply list_elem_of_fmap; by exists (f, n)).
    rewrite Hb in Hbad by done. apply existsb_exists in Hbad as (k & Hkin & Hu).
    apply list_elem_of_In, elem_of_codes in Hkin as (w & Hw & Hkw). apply list_elem_of_In, filter_In in Hw as [Hw Hwf].
    apply bool_decide_eq_true in Hwf. exists w, f. split; [by apply list_elem_of_In|]. split; [done|]. destruct Hkw as [->| ->]; [done|].
    by vm_compute in Hu.
  - intros (w & f & Hw & Hwf & Hu). assert (Hfk : f ∈ keys (perfile d)) by (apply Hk; by exists w).
    apply list_elem_of_fmap in Hfk as ([f' n] & Hff & Hin). cbn in Hff. subst f'. exists (f, n). split; [done|].
    rewrite Hb by (apply list_elem_of_fmap; by exists (f, n)). apply existsb_exists. exists (w_code w). split; [|done].
    apply list_elem_of_In, elem_of_codes. exists w. rewrite list_elem_of_In, filter_In, <- list_elem_of_In, bool_decide_eq_true. auto.
Qed.

(** The warnings of a build log are counted exactly, and the report breaks on new ones: if
    every line with [Warning] has a second word, the three counters hold, for each code, each file
    and each code of a file, the number of such lines (a file is what the line before quotes) and
    their totals; the report then ends with KeyError just when a warning that has a file has a
    code outside the table of known codes, and otherwise normally. *)
Theorem buildwarns_outcome (lines : list string) (ws : list warning) (o : stdout) :
  warnings None lines = Ok ws ->
  (exists d, parse_log lines = Ok d /\ counts ws d) /\
  match snd (script lines o) with
  | Ok _ => forall w f, w ∈ ws -> w_file w = Some f -> unknown (w_code w) = false
  | Err e => e = KeyError /\ exists w f, w ∈ ws /\ w_file w = Some f /\ unknown (w_code w) = true
  end.
Proof.
  intros H. destruct (parse_counts lines [] ws (Data [] [] [] None)) as (d & Hd & Hc); [by split_and! | done|].
  split; [by exists d|]. unfold script, bindM, lift. unfold parse_log. rewrite Hd.
  pose proof (report_settles d o) as Hr. pose proof (bad_report ws d Hc) as Hb. rewrite Hr. clear Hr.
  destruct (existsb _ _).
  - split; [done|]. by apply Hb.
  - intros w f Hw Hf. destruct (unknown (w_code w)) eqn:E; [|done].
    assert (X : false = true) by (apply Hb; by exists w, f). done.
Qed.

Definition q (s : string) : string := String dquote s +:+ String dquote "".

(** A known warning, and one that the table does not have. *)
Definition toy_log : list string :=
  ["File " +:+ q "src/a.ml" +:+ ", line 3, characters 0-5:" +:+ nl; "Warning 33: unused open." +:+ nl;
   "File " +:+ q "src/b.ml" +:+ ", line 7, characters 0-5:" +:+ nl; "Warning 70: missing mli." +:+ nl].

Lemma buildwarns_outcome_witness :
  (exists d, parse_log toy_log = Ok d /\ counts [Warning "33" (Some "src/a.ml"); Warning "70" (Some "src/b.ml")] d) /\
  snd (script toy_log (Stdout "" false)) = Err KeyError.
Proof.
  destruct (buildwarns_outcome toy_log [Warning "33" (Some "src/a.ml"); Warning "70" (Some "src/b.ml")] (Stdout "" false))
    as [H _]; [vm_compute; reflexivity|]. split; [exact H | vm_compute; reflexivity].
Defined.
