(* ===== verification/ScanState.v ===== *)
(** * The size of the scan state, [rfcs/res/scan_state_memory_usage.py]

    The constants are numbers of bytes.  [M] is the depth of the trees and [D] the delay;
    the script sets the number of trees [T] from them.  Python's integers do not overflow;
    for [M < 0] its [2**M] is a fraction, and the definitions below are for [0 <= M]. *)

From Stdlib Require Import ZArith Lia List String.
From S2P Require Import Prelude PyStr.
Import ListNotations.
Open Scope Z_scope.

Definition Word : Z := 8.
Definition Nonce : Z := 4.
Definition Amount : Z := 8.
Definition Fee : Z := 8.
Definition Memo : Z := 8.
Definition TxnProofType : Z := 8.
Definition LedgerDepth : Z := 30.

Definition Field : Z := 95.
Definition Hash : Z := Field.
Definition Group : Z := 3 * Field.
Definition Pk : Z := Field.
Definition Sig : Z := 2 * Field.
Definition Proof_ : Z := 5 * Group.
Definition Sok : Z := Fee + Pk.

Definition Account : Z := 2 * Pk + Amount + Nonce + Hash.
Definition Txn : Z := 2 * Pk + Sig + 2 * Amount + Memo + Nonce.
Definition Undo : Z := 2 * Hash + 2 * Pk + Txn.

Definition TxnStatement : Z := 4 * Hash + Amount + Fee + TxnProofType.
Definition TxnWitness : Z := 2 * (2 * LedgerDepth * Hash + Account).
Definition Base : Z := Undo + TxnStatement + TxnWitness.
Definition Merge : Z := TxnStatement + Proof_ + Sok.
Definition FullLeaf : Z := Base + 5 * Word.
Definition EmptyLeaf : Z := 3 * Word.
Definition FullBranch : Z := 2 * Merge + 7 * Word.
Definition EmptyBranch : Z := 5 * Word.

Definition NumberOfBranches (M T : Z) : Z := T * (2 ^ M - 1).

(** Two nested loops with the accumulator [acc]. *)
Definition NumberOfFullBranches (M T D : Z) : Z :=
  fold_left (fun acc i => fold_left (fun acc j => acc + 2 ^ (M - j) * (D + 1)) (range 1 (i + 1)) acc)
    (range 1 (M + 1)) 0.

Definition NumberOfEmptyBranches (M T D : Z) : Z := NumberOfBranches M T - NumberOfFullBranches M T D.

Definition NumberOfFullLeaves (M T : Z) : Z := (T - 1) * 2 ^ M.

Definition NumberOfEmptyLeaves (M : Z) : Z := 2 ^ M.

Definition ScanState (M T D : Z) : Z :=
  let TreeStructureOverhead := T * ((2 ^ M - 1) * Word) in
  let FullBranches := NumberOfFullBranches M T D * FullBranch in
  let EmptyBranches := NumberOfEmptyBranches M T D * EmptyBranch in
  let FullLeaves := NumberOfFullLeaves M T * FullLeaf in
  let EmptyLeaves := NumberOfEmptyLeaves M * EmptyLeaf in
  TreeStructureOverhead + FullBranches + EmptyBranches + FullLeaves + EmptyLeaves.

(** The script: what it prints, and how it ends. *)
Definition main (argv : list string) : list string * result unit :=
  match argv with
  | _ :: m :: d :: _ =>
      match py_int m, py_int d with
      | Ok M, Ok D =>
          let T := (M + 1) * (D + 1) + 1 in
          ((["M = " ++ py_str M; "T = " ++ py_str T; "D = " ++ py_str D;
             "NumberOfFullBranches = " ++ py_str (NumberOfFullBranches M T D);
             "NumberOfEmptyBranches = " ++ py_str (NumberOfEmptyBranches M T D);
             "Scan State Size = " ++ py_str (ScanState M T D)])%string, Ok tt)
      | Err e, _ | _, Err e => ([], Err e)
      end
  | _ => (["not enough arguments"%string], Err (SystemExit 1))
  end.

(** ** The loops, in closed form *)
Lemma pow2_S n : 0 <= n -> 2 ^ (n + 1) = 2 * 2 ^ n.
Proof. intros. rewrite Z.pow_add_r, Z.pow_1_r by lia. ring. Qed.

(** The inner loop: the upper [i] levels of [D + 1] trees. *)
Lemma inner_loop M D acc (i : nat) : Z.of_nat i <= M ->
  fold_left (fun acc j => acc + 2 ^ (M - j) * (D + 1)) (range 1 (Z.of_nat i + 1)) acc
  = acc + (D + 1) * (2 ^ M - 2 ^ (M - Z.of_nat i)).
Proof.
  induction i as [|i IH]; intros Hi.
  - rewrite range_empty by lia. cbn [fold_left]. replace (M - Z.of_nat 0) with M by lia. ring.
  - rewrite range_S, fold_left_app by lia. replace (Z.of_nat (S i)) with (Z.of_nat i + 1) by lia.
    rewrite IH by lia. cbn [fold_left].
    replace (M - Z.of_nat i) with (M - (Z.of_nat i + 1) + 1) by ring. rewrite pow2_S by lia. ring.
Qed.

Lemma outer_loop M D (n : nat) : Z.of_nat n <= M ->
  fold_left (fun acc i => fold_left (fun acc j => acc + 2 ^ (M - j) * (D + 1)) (range 1 (i + 1)) acc)
    (range 1 (Z.of_nat n + 1)) 0
  = (D + 1) * (Z.of_nat n * 2 ^ M - 2 ^ M + 2 ^ (M - Z.of_nat n)).
Proof.
  induction n as [|n IH]; intros Hn.
  - rewrite range_empty by lia. cbn [fold_left]. replace (M - Z.of_nat 0) with M by lia. ring.
  - rewrite range_S, fold_left_app by lia. replace (Z.of_nat (S n)) with (Z.of_nat n + 1) by lia.
    rewrite IH by lia. cbn [fold_left]. replace (Z.of_nat n + 1) with (Z.of_nat (S n)) by lia.
    rewrite inner_loop by lia. replace (M - Z.of_nat n) with (M - Z.of_nat (S n) + 1) by lia.
    rewrite pow2_S by lia. replace (Z.of_nat (S n)) with (Z.of_nat n + 1) by lia. ring.
Qed.

Lemma full_branches_closed M T D : 0 <= M -> NumberOfFullBranches M T D = (D + 1) * ((M - 1) * 2 ^ M + 1).
Proof.
  intros HM. unfold NumberOfFullBranches. pose proof (outer_loop M D (Z.to_nat M)) as H.
  rewrite Z2Nat.id in H by lia. rewrite H by lia. rewrite Z.sub_diag. cbn [Z.pow]. ring.
Qed.

Lemma empty_branches_closed M D : 0 <= M ->
  NumberOfEmptyBranches M ((M + 1) * (D + 1) + 1) D = (D + 1) * (2 * 2 ^ M - M - 2) + (2 ^ M - 1).
Proof.
  intros HM. unfold NumberOfEmptyBranches, NumberOfBranches. rewrite full_branches_closed by lia. ring.
Qed.

Lemma pow2_linear M : 0 <= M -> M + 1 <= 2 ^ M.
Proof.
  intros HM. pattern M. apply natlike_ind; [cbn; lia| |exact HM].
  intros x Hx IH. replace (Z.succ x) with (x + 1) by lia. rewrite pow2_S by lia. lia.
Qed.

(** The scan state holds what its name says, and its size is bounded by its leaves: with the
    number of trees the script takes, [T = (M+1)(D+1)+1], the two loops that count the full
    branches compute (D+1)((M-1)2^M+1), the empty branches are never negative and with the full
    ones make up all the branches of [T] trees; and the size lies between that of its full leaves
    alone, 13226 bytes for each of the (M+1)(D+1)2^M of them, and that with 3976 bytes more for
    each, plus 72 for each leaf of the tree being filled. *)
Theorem scan_state_size (M D : Z) :
  0 <= M -> 0 <= D ->
  let T := (M + 1) * (D + 1) + 1 in
  NumberOfFullBranches M T D = (D + 1) * ((M - 1) * 2 ^ M + 1) /\
  0 <= NumberOfFullBranches M T D /\ 0 <= NumberOfEmptyBranches M T D /\
  NumberOfFullBranches M T D + NumberOfEmptyBranches M T D = T * (2 ^ M - 1) /\
  (M + 1) * (D + 1) * 2 ^ M * 13226 <= ScanState M T D <= (M + 1) * (D + 1) * 2 ^ M * (13226 + 3976) + 72 * 2 ^ M.
Proof.
  intros HM HD T. pose proof (pow2_linear M HM) as Hp.
  assert (HF : NumberOfFullBranches M T D = (D + 1) * ((M - 1) * 2 ^ M + 1)) by (apply full_branches_closed; lia).
  assert (HE : NumberOfEmptyBranches M T D = (D + 1) * (2 * 2 ^ M - M - 2) + (2 ^ M - 1))
    by (apply empty_branches_closed; lia).
  assert (H0 : 0 <= (M - 1) * 2 ^ M + 1) by (destruct (Z.eq_dec M 0) as [->|]; [reflexivity | nia]).
  split; [exact HF|]. split; [rewrite HF; nia|]. split; [rewrite HE; nia|].
  split; [rewrite HF, HE; unfold T; ring|].
  unfold ScanState. rewrite HF, HE. unfold NumberOfFullLeaves, NumberOfEmptyLeaves.
  change FullLeaf with 13226. change FullBranch with 3920. change EmptyBranch with 40. change EmptyLeaf with 24.
  change Word with 8. unfold T. set (p := 2 ^ M) in *. nia.
Qed.

Example sizes_2_3 : main ["scan_state"; "2"; "3"]%string =
  (["M = 2"; "T = 13"; "D = 3"; "NumberOfFullBranches = 20"; "NumberOfEmptyBranches = 19"; "Scan State Size = 714416"]%string, Ok tt).
Proof. vm_compute. reflexivity. Qed.

Lemma scan_state_size_witness : let T := (7 + 1) * (2 + 1) + 1 in NumberOfFullBranches 7 T 2 = 2307 /\ 0 <= NumberOfEmptyBranches 7 T 2.
Proof.
  pose proof (scan_state_size 7 2 ltac:(lia) ltac:(lia)) as (H & _ & H0 & _). split; [exact H | exact H0].
Defined.
