(* ===== verification/SnarkJobs.v ===== *)
(** * The list of snark jobs, [automation/scripts/get-snark-job-list.py]

    A tree of the scan state is the list of its jobs, level by level; a job is a slot number
    and its data, of which the script reads the lists under ['M'] and ['B'] and the status of
    the third element of the latter.  [math.log(x, 2)] is whole for the powers of two only;
    with floats this holds for the [x] below 2^29, far above the slots of a tree.  The node's
    client, the configuration file, [json.loads] and the [str] of a Counter are parameters. *)

From stdpp Require Import base list strings.
From Stdlib Require Import Ascii ZArith Lia.
From S2P Require Import Prelude Dict Counter PyStr PyText PySet Effects.
Open Scope string_scope.
Open Scope Z_scope.

(** An element of ['B']: its ['Status'], where it has one. *)
Definition item : Type := option string.

(** [data['M']] by its length, [data['B']], and [str(data)]. *)
Record data : Type := Data { merges : option Z; bases : option (list item); shown : string }.

Definition job : Type := Z * data.

(** The state of the script: the Counter of all trees, and the lines printed. *)
Record world : Type := World { leavestotal : dict string Z; printed : list string }.

Definition print (line : string) : M world unit := modify (fun w => World (leavestotal w) (printed w ++ [line])%list).

Definition count_total (key : string) : M world unit := modify (fun w => World (bump (leavestotal w) key) (printed w)).

(** [cli]: the words of a command are run, and its output stripped. *)
Definition cli (run : list string -> result string) (cmd : string) : result string :=
  let* stdout := run (words cmd) in Ok (strip stdout).

(** [s.center(width)] *)
Definition spaces (n : Z) : string := String.string_of_list_ascii (repeat " "%char (Z.to_nat n)).

Definition center (width : Z) (s : string) : string :=
  let marg := width - Z.of_nat (String.length s) in
  if marg <=? 0 then s else
  let left := marg / 2 + Z.land (Z.land marg width) 1 in
  spaces left +:+ s +:+ spaces (marg - left).

(** [not math.log(x, 2) % 1] *)
Definition log_whole (x : Z) : result bool :=
  if x <=? 0 then Err (ValueError "math domain error") else Ok (x =? 2 ^ Z.log2 x).

(** What the base job [b] adds to the line, where [b] is not empty. *)
Definition base_glyph (b : list item) : result string :=
  let* third := py_nth b 2 in
  match third with
  | None => Ok ""
  | Some status => Ok (if String.eqb status "Todo" then "b" else if String.eqb status "Done" then "B" else "?")
  end.

(** A turn of the loop over the jobs: the Counter of the tree and the line. *)
Definition draw_job (size : Z) (leavesbytree : dict string Z) (output_line : string) (j : job)
  : M world (dict string Z * string) :=
  let '(slotid, data) := j in
  do drawn <-
    match merges data, bases data with
    | Some n, _ => ret (leavesbytree, output_line +:+ if 0 <? n then py_str n else "_")
    | None, Some b =>
        match b with
        | _ :: _ =>
            perform count_total "occupied" then
            do g <- lift (base_glyph b) in
            perform count_total "total" then
            ret (bump (bump leavesbytree "occupied") "total", output_line +:+ g)
        | [] =>
            perform count_total "empty" then
            perform count_total "total" then
            ret (bump (bump leavesbytree "empty") "total", output_line +:+ "_")
        end
    | None, None =>
        perform print ("fouind no match: " +:+ shown data) then
        ret (leavesbytree, output_line)
    end in
  do level_end <- lift (log_whole (slotid + 2)) in
  if level_end then
    perform print (center (size / 2) (snd drawn)) then ret (fst drawn, "")
  else ret drawn.

Fixpoint draw_jobs (size : Z) (jobs : list job) (leavesbytree : dict string Z) (output_line : string)
  : M world (dict string Z * string) :=
  match jobs with
  | [] => ret (leavesbytree, output_line)
  | j :: jobs' =>
      do st <- draw_job size leavesbytree output_line j in
      draw_jobs size jobs' (fst st) (snd st)
  end.

Section Script.
Context (show_counter : dict string Z -> string).

Definition draw_tree (treecount : Z) (tree : list job) : M world unit :=
  perform print (String.string_of_list_ascii (repeat "="%char 70)) then
  perform print ("🌲: " +:+ py_str treecount +:+ " Size: " +:+ py_str (zlength tree)) then
  do st <- draw_jobs (zlength tree) tree [] "" in
  print (show_counter (fst st)).

Fixpoint draw_trees (treecount : Z) (trees : list (list job)) : M world unit :=
  match trees with
  | [] => ret tt
  | tree :: trees' => perform draw_tree treecount tree then draw_trees (treecount + 1) trees'
  end.

(** The script; an [IOError] of the configuration file ends it with code 1. *)
Definition script (config : result unit) (cli : string -> result string)
  (blockchain_length : string -> result string) (loads_jobs : string -> result (list (list job))) : M world unit :=
  perform match config with
          | Err (OSError _) | Err (FileNotFoundError _) =>
              perform print "Error opening secrets config:" then raise (SystemExit 1)
          | r => lift r
          end then
  do status <- lift (cli "mina client status -json") in
  do block <- lift (blockchain_length status) in
  perform print ("Block: " +:+ block) then
  do out <- lift (cli "mina advanced snark-job-list") in
  do snark_job_list <- lift (loads_jobs out) in
  perform draw_trees 0 snark_job_list then
  do total <- gets leavestotal in
  print ("TOTALS: " +:+ show_counter total).
End Script.

(** ** What a tree looks like *)
Definition glyph (d : data) : result string :=
  match merges d, bases d with
  | Some n, _ => Ok (if 0 <? n then py_str n else "_")
  | None, Some [] => Ok "_"
  | None, Some b => base_glyph b
  | None, None => Ok ""
  end.

(** What a job adds to the Counters. *)
Definition tallies (d : data) : list string :=
  match merges d, bases d with
  | None, Some [] => ["empty"; "total"]
  | None, Some _ => ["occupied"; "total"]
  | _, _ => []
  end.

Definition matched (d : data) : Prop := is_Some (merges d) \/ is_Some (bases d).

(** A job with its glyph. *)
Definition shows (d : data) (g : string) : Prop := matched d /\ glyph d = Ok g.

(** The slots of a tree, numbered level by level from the root. *)
Definition number_from (i : Z) (ds : list data) : list job := combine (range i (i + zlength ds)) ds.

Definition concat_str (l : list string) : string := foldr (fun s r => s +:+ r) "" l.

(** The [n + 1] levels of a tree, one line each: level [k] has [2^k] slots. *)
Fixpoint levels (k n : nat) (gs : list string) : list string :=
  concat_str (take (2 ^ k) gs) :: match n with O => [] | S n' => levels (S k) n' (drop (2 ^ k) gs) end.

Definition is_pow2 (x : Z) : bool := x =? 2 ^ Z.log2 x.

Lemma draw_job_spec size c line i d g w : shows d g -> 0 <= i ->
  draw_job size c line (i, d) w =
  (World (fold_left bump (tallies d) (leavestotal w))
     (printed w ++ if is_pow2 (i + 2) then [center (size / 2) (line +:+ g)] else []),
   Ok (fold_left bump (tallies d) c, if is_pow2 (i + 2) then "" else line +:+ g)).
Proof.
  intros [Hm Hg] Hi. unfold glyph in Hg. unfold matched in Hm. unfold draw_job, tallies, is_pow2.
  unfold bindM, lift, ret, count_total, print, modify, log_whole.
  destruct (Z.leb_spec (i + 2) 0); [lia|].
  destruct w as [t p]. destruct (merges d) as [n|].
  - injection Hg as <-. cbn [leavestotal printed fst snd fold_left]. destruct (i + 2 =? 2 ^ Z.log2 (i + 2)); cbn; by rewrite ?app_nil_r.
  - destruct (bases d) as [[|x b]|]; [| |by destruct Hm as [[? ?]|[? ?]]].
    + injection Hg as <-. cbn [leavestotal printed fst snd fold_left]. destruct (i + 2 =? 2 ^ Z.log2 (i + 2)); cbn; by rewrite ?app_nil_r.
    + rewrite Hg. cbn [leavestotal printed fst snd fold_left]. destruct (i + 2 =? 2 ^ Z.log2 (i + 2)); cbn; by rewrite ?app_nil_r.
Qed.

Lemma number_cons i d ds : number_from i (d :: ds) = (i, d) :: number_from (i + 1) ds.
Proof.
  unfold number_from. rewrite range_cons by (unfold zlength; cbn; lia). cbn [combine]. do 3 f_equal. unfold zlength. cbn. lia.
Qed.

Lemma number_nil i : number_from i [] = [].
Proof. apply combine_nil. Qed.

Lemma is_pow2_between k x : 0 <= k -> 2 ^ k < x <= 2 ^ (k + 1) -> is_pow2 x = (x =? 2 ^ (k + 1)).
Proof.
  intros Hk Hx. unfold is_pow2. destruct (Z.eqb_spec x (2 ^ (k + 1))) as [->|Hne].
  - by rewrite Z.log2_pow2, Z.eqb_refl by lia.
  - rewrite (Z.log2_unique x k) by (rewrite <- ?Z.add_1_r; lia). apply Z.eqb_neq. lia.
Qed.

Definition all_tallies (ds : list data) : list string := flat_map tallies ds.

Lemma bumps_app {K} `{EqDecision K} (l1 l2 : list K) d : fold_left bump (l1 ++ l2) d = fold_left bump l2 (fold_left bump l1 d).
Proof. apply fold_left_app. Qed.

(** The rest of a level, from the slot [i]. *)
Lemma draw_level size k c line i ds gs jobs w : Forall2 shows ds gs ->
  2 ^ Z.of_nat k <= i + 1 -> ds <> [] -> i + 2 + zlength ds = 2 ^ (Z.of_nat k + 1) + 1 ->
  draw_jobs size (number_from i ds ++ jobs) c line w =
  draw_jobs size jobs (fold_left bump (all_tallies ds) c) ""
    (World (fold_left bump (all_tallies ds) (leavestotal w)) (printed w ++ [center (size / 2) (line +:+ concat_str gs)])).
Proof.
  intros H. revert c line i w. induction H as [|d g ds gs Hd H IH]; intros c line i w Hi Hne Hlen; [done|].
  rewrite number_cons. cbn [app draw_jobs]. unfold bindM at 1.
  assert (0 < 2 ^ Z.of_nat k) by (apply Z.pow_pos_nonneg; lia). unfold zlength in Hlen. cbn [length] in Hlen.
  rewrite (draw_job_spec _ _ _ _ _ g) by (done || lia).
  rewrite (is_pow2_between (Z.of_nat k)) by lia. destruct ds as [|d' ds].
  - inversion H; subst. rewrite (proj2 (Z.eqb_eq _ _)) by (cbn [length] in Hlen; lia).
    rewrite number_nil. unfold all_tallies.
    cbn [fst snd app concat_str foldr flat_map leavestotal printed]. by rewrite !app_nil_r, app_nil_r_str.
  - rewrite (proj2 (Z.eqb_neq _ _)) by (cbn [length] in Hlen; lia). cbn [fst snd leavestotal printed].
    rewrite app_nil_r, IH by (unfold zlength; cbn [length] in *; (done || lia)).
    unfold all_tallies. cbn [flat_map leavestotal printed concat_str foldr]. by rewrite !bumps_app, app_assoc_str.
Qed.

Lemma zlength_number i ds : zlength (number_from i ds) = zlength ds.
Proof.
  revert i. induction ds as [|d ds IH]; intros i; [by rewrite number_nil|]. rewrite number_cons.
  unfold zlength in *. cbn [length]. rewrite !Nat2Z.inj_succ, (IH (i + 1)). done.
Qed.

Lemma number_app i ds1 ds2 : number_from i (ds1 ++ ds2) = (number_from i ds1 ++ number_from (i + zlength ds1) ds2)%list.
Proof.
  revert i. induction ds1 as [|d ds1 IH]; intros i.
  - rewrite number_nil. cbn [app]. by replace (i + zlength []) with i by (unfold zlength; cbn; lia).
  - cbn [app]. rewrite !number_cons, IH. cbn [app].
    by replace (i + zlength (d :: ds1)) with (i + 1 + zlength ds1) by (unfold zlength; cbn; lia).
Qed.

Lemma draw_levels size n k c ds gs w : Forall2 shows ds gs ->
  Z.of_nat (length ds) = 2 ^ Z.of_nat (k + n + 1) - 2 ^ Z.of_nat k ->
  draw_jobs size (number_from (2 ^ Z.of_nat k - 1) ds) c "" w =
  (World (fold_left bump (all_tallies ds) (leavestotal w)) (printed w ++ map (center (size / 2)) (levels k n gs)),
   Ok (fold_left bump (all_tallies ds) c, "")).
Proof.
  revert k c ds gs w. induction n as [|n IH]; intros k c ds gs w H Hlen.
  all: assert (0 < 2 ^ Z.of_nat k) by (apply Z.pow_pos_nonneg; lia).
  all: pose proof (Forall2_length _ _ _ H) as Hg.
  all: assert (Hk : Z.of_nat (2 ^ k) = 2 ^ Z.of_nat k) by apply Nat2Z.inj_pow.
  - rewrite Nat.add_0_r, Nat2Z.inj_add, Z.pow_add_r in Hlen by lia. change (2 ^ Z.of_nat 1) with 2 in Hlen.
    rewrite <- (app_nil_r (number_from _ ds)).
    rewrite (draw_level _ k _ _ _ _ gs) by (try done; first [lia | (intros ->; cbn in Hlen; lia) |
      (unfold zlength; rewrite Z.pow_add_r, Z.pow_1_r by lia; lia)]).
    cbn [draw_jobs levels map]. rewrite take_ge by lia. done.
  - assert (Hle : Z.of_nat (2 ^ k) <= Z.of_nat (length ds)).
    { rewrite Hlen, Hk. replace (Z.of_nat (k + S n + 1)) with (Z.of_nat k + 1 + Z.of_nat (n + 1)) by lia.
      rewrite !Z.pow_add_r, Z.pow_1_r by lia. assert (0 < 2 ^ Z.of_nat (n + 1)) by (apply Z.pow_pos_nonneg; lia). nia. }
    rewrite <- (take_drop (2 ^ k) ds) at 1. rewrite number_app.
    assert (Hz : zlength (take (2 ^ k) ds) = 2 ^ Z.of_nat k) by (unfold zlength; rewrite length_take; lia).
    rewrite (draw_level _ k _ _ _ _ (take (2 ^ k) gs)).
    2: by apply Forall2_take. 2: lia. 2: (intros E; rewrite E in Hz; unfold zlength in Hz; cbn [length] in Hz; lia).
    2: rewrite Hz, Z.pow_add_r, Z.pow_1_r by lia; lia.
    rewrite Hz. replace (2 ^ Z.of_nat k - 1 + 2 ^ Z.of_nat k) with (2 ^ Z.of_nat (S k) - 1)
      by (rewrite Nat2Z.inj_succ, Z.pow_succ_r by lia; lia).
    rewrite (IH (S k) _ (drop (2 ^ k) ds) (drop (2 ^ k) gs)).
    + cbn [levels map leavestotal printed]. change ("" +:+ ?x) with x. rewrite <- app_assoc. cbn [app].
      rewrite <- !bumps_app. unfold all_tallies. rewrite <- flat_map_app, take_drop. done.
    + by apply Forall2_drop.
    + rewrite length_drop, Nat2Z.inj_sub, Hlen, Hk by lia. replace (S k + n + 1)%nat with (k + S n + 1)%nat by lia.
      rewrite Nat2Z.inj_succ, Z.pow_succ_r by lia. lia.
Qed.

(** A complete tree of depth [n]. *)
Definition complete (n : nat) (ds : list data) : Prop := Z.of_nat (length ds) = 2 ^ (Z.of_nat n + 1) - 1.

Lemma draw_tree_spec show treecount n ds gs w : Forall2 shows ds gs -> complete n ds ->
  draw_tree show treecount (number_from 0 ds) w =
  (World (fold_left bump (all_tallies ds) (leavestotal w))
     (printed w ++ [String.string_of_list_ascii (repeat "="%char 70); "🌲: " +:+ py_str treecount +:+ " Size: " +:+ py_str (zlength ds)] ++
      map (center (zlength ds / 2)) (levels 0 n gs) ++ [show (counter (all_tallies ds))]), Ok tt).
Proof.
  intros H Hn. pose proof (zlength_number 0 ds) as Hz.
  unfold draw_tree, bindM, print, modify. rewrite Hz. cbn [leavestotal printed].
  rewrite (draw_levels _ n 0 _ ds gs _ H); [|unfold complete in Hn; rewrite Hn; do 2 f_equal; lia].
  cbn [leavestotal printed fst]. by rewrite <- !app_assoc.
Qed.

(** ** All the trees *)
Record tree : Type := Tree { depth : nat; slots : list data; glyphs : list string }.

Definition tree_ok (t : tree) : Prop := Forall2 shows (slots t) (glyphs t) /\ complete (depth t) (slots t).

Section Pictures.
Context (show_counter : dict string Z -> string).

Definition picture (treecount : Z) (t : tree) : list string :=
  [String.string_of_list_ascii (repeat "="%char 70); "🌲: " +:+ py_str treecount +:+ " Size: " +:+ py_str (zlength (slots t))] ++
  map (center (zlength (slots t) / 2)) (levels 0 (depth t) (glyphs t)) ++ [show_counter (counter (all_tallies (slots t)))].

Fixpoint pictures (treecount : Z) (ts : list tree) : list string :=
  match ts with
  | [] => []
  | t :: ts' => picture treecount t ++ pictures (treecount + 1) ts'
  end.

Definition all_slots (ts : list tree) : list data := concat (map slots ts).

Lemma draw_trees_spec ts i w : Forall tree_ok ts ->
  draw_trees show_counter i (map (fun t => number_from 0 (slots t)) ts) w =
  (World (fold_left bump (all_tallies (all_slots ts)) (leavestotal w)) (printed w ++ pictures i ts), Ok tt).
Proof.
  intros H. revert i w. induction H as [|t ts [H1 H2] _ IH]; intros i w.
  - cbn. rewrite app_nil_r. by destruct w.
  - cbn [map draw_trees pictures]. unfold bindM at 1. rewrite (draw_tree_spec _ _ (depth t) _ (glyphs t)) by done.
    rewrite IH. cbn [leavestotal printed]. unfold all_slots. cbn [map concat].
    unfold all_tallies. rewrite flat_map_app, bumps_app, <- app_assoc. done.
Qed.
End Pictures.

Definition is_leaf (full : bool) (d : data) : bool :=
  match merges d, bases d with
  | None, Some b => Bool.eqb full (negb (length b =? 0)%nat)
  | _, _ => false
  end.

Lemma tallies_count ds :
  occurrences "occupied" (all_tallies ds) = count (is_leaf true) ds /\
  occurrences "empty" (all_tallies ds) = count (is_leaf false) ds /\
  occurrences "total" (all_tallies ds) = count (is_leaf true) ds + count (is_leaf false) ds.
Proof.
  induction ds as [|d ds IH]; [done|]. unfold all_tallies. cbn [flat_map]. rewrite !count_cons.
  unfold is_leaf at 1 3 5 7. unfold tallies at 1 3 5.
  destruct (merges d) as [n|]; [exact IH|]. destruct (bases d) as [[|x b]|]; [..|exact IH].
  all: assert (Ha : forall x l, occurrences x (l ++ all_tallies ds) = occurrences x l + occurrences x (all_tallies ds))
    by (intros; apply count_app).
  all: fold (all_tallies ds); rewrite !Ha; cbn [length Nat.eqb negb Bool.eqb].
  - change (occurrences "occupied" ["empty"; "total"]) with 0. change (occurrences "empty" ["empty"; "total"]) with 1.
    change (occurrences "total" ["empty"; "total"]) with 1. lia.
  - change (occurrences "occupied" ["occupied"; "total"]) with 1. change (occurrences "empty" ["occupied"; "total"]) with 0.
    change (occurrences "total" ["occupied"; "total"]) with 1. lia.
Qed.

(** The drawing of the snark jobs is complete and its totals are right: for complete trees
    whose base jobs have a status, the script prints each tree level by level, level [k] being one
    line with the glyphs of its [2^k] slots, centred, followed by the tree's own Counter; and the
    Counter of all trees ends with the number of occupied and of empty leaves, merge jobs not
    counted, and their sum as the total. *)
Theorem snark_jobs_drawn (show_counter : dict string Z -> string) (ts : list tree) :
  Forall tree_ok ts ->
  exists total,
    draw_trees show_counter 0 (map (fun t => number_from 0 (slots t)) ts) (World [] []) =
      (World total (pictures show_counter 0 ts), Ok tt) /\
    get_count total "occupied" = count (is_leaf true) (all_slots ts) /\
    get_count total "empty" = count (is_leaf false) (all_slots ts) /\
    get_count total "total" = get_count total "occupied" + get_count total "empty".
Proof.
  intros H. exists (counter (all_tallies (all_slots ts))). rewrite draw_trees_spec by done. split; [done|].
  destruct (counter_spec (all_tallies (all_slots ts))) as (_ & Hc & _). rewrite !Hc.
  destruct (tallies_count (all_slots ts)) as (-> & -> & ->). done.
Qed.

(** A tree with three slots: a merge job, a done base job and an empty one. *)
Definition toy_tree : tree :=
  Tree 1 [Data (Some 2) None ""; Data None (Some [None; None; Some "Done"]) ""; Data None (Some []) ""] ["2"; "B"; "_"].

Lemma toy_tree_ok : Forall tree_ok [toy_tree].
Proof.
  apply Forall_cons. split; [|constructor]. split; [|reflexivity].
  constructor; [split; [left; by eexists | reflexivity]|].
  do 2 (constructor; [split; [right; by eexists | reflexivity]|]). constructor.
Qed.

Example toy_picture : map (String.length) (map (fun s => take_str 3 s) (pictures (fun _ => "Counter") 0 [toy_tree])) = [3; 3; 1; 2; 3]%nat.
Proof. vm_compute. reflexivity. Qed.

Lemma snark_jobs_drawn_witness :
  exists total,
    draw_trees (fun _ => "Counter") 0 [number_from 0 (slots toy_tree)] (World [] []) = (World total (pictures (fun _ => "Counter") 0 [toy_tree]), Ok tt) /\
    get_count total "occupied" = 1 /\ get_count total "empty" = 1.
Proof.
  destruct (snark_jobs_drawn (fun _ => "Counter") [toy_tree] toy_tree_ok) as (total & E & H1 & H2 & _).
  exists total. split; [exact E|]. split; [exact H1 | exact H2].
Defined.
