(* ===== verification/NetUtil.v ===== *)
(** * Cleaning up a cluster, [services/watchdog/scripts/network-utilities.py]

    [kubectl] and [gcloud] are a parameter: [respond] is the return code and the output of a
    command, which does not change while the script runs.  The namespaces of a context and
    the clock are parameters too, and so is [re.search] on the operator's patterns.  A JSON
    document is known by the fields that the script reads. *)

From stdpp Require Import base list strings.
From Stdlib Require Import Ascii ZArith Lia.
From S2P Require Import Prelude Dict PyStr PyText PySet Effects.
Open Scope string_scope.
Open Scope Z_scope.

(** [service['spec']]: its type, and the [nodePort] of each of its ports. *)
Record service : Type := Service { type_ : option string; ports : option (list (option Z)) }.

Record namespace : Type := Namespace { name : string; creation_timestamp : Z }.

(** The commands that were run, and the number of readings of the clock. *)
Record world : Type := World { commands : list string; ticks : nat }.

Section NetUtil.
Context (respond : string -> Z * string).
Context (loads_namespaces : string -> result (list string)) (loads_services : string -> result (list service)).

(** [stderr] is not captured, so [error] is [None] and printing it raises; for a return code
    that is not positive, the output. *)
Definition execute_command (command : string) : M world string :=
  perform modify (fun w => World (commands w ++ [command])%list (ticks w)) then
  let '(returncode, output) := respond command in
  if 0 <? returncode then raise AttributeError else ret output.

Definition get_all_namespaces : M world (list string) :=
  do output <- execute_command "kubectl get namespaces -ojson" in
  lift (loads_namespaces output).

Definition services_command (ns : string) : string := "kubectl -n " +:+ ns +:+ " get services -ojson".

(** [ports.add(port['nodePort'])] for the ports of a [NodePort] service. *)
Definition add_service (ps : list Z) (s : service) : result (list Z) :=
  let* t := need (type_ s) in
  if String.eqb t "NodePort" then
    let* l := need (ports s) in
    foldM (fun ps port => let* p := need port in Ok (set_update ps [p])) l ps
  else Ok ps.

Fixpoint node_ports (namespaces : list string) (ps : list Z) : M world (list Z) :=
  match namespaces with
  | [] => ret ps
  | ns :: rest =>
      do output <- execute_command (services_command ns) in
      do services <- lift (loads_services output) in
      do ps <- lift (foldM add_service services ps) in
      node_ports rest ps
  end.

Definition get_active_node_ports : M world (list Z) :=
  do namespaces <- get_all_namespaces in node_ports namespaces [].

Definition get_ports_command (instance_group zone : string) : string :=
  "gcloud compute instance-groups get-named-ports " +:+ instance_group +:+ " --zone=" +:+ zone.

(** A line of [gcloud]'s table: two columns. *)
Definition parse_mapping (mappings : dict string Z) (line : string) : result (dict string Z) :=
  match split " " (squeeze false line) with
  | [name; port] => let* p := py_int port in Ok (set name p mappings)
  | _ => Err (ValueError "unpack")
  end.

Definition get_mapped_ports (instance_group zone : string) : M world (dict string Z) :=
  do output <- execute_command (get_ports_command instance_group zone) in
  lift (foldM parse_mapping (tail (splitlines output)) []).

Definition set_ports_command (instance_group zone : string) (port_mappings : dict string Z) : string :=
  let assignments := map (fun np => fst np +:+ ":" +:+ py_str (snd np)) port_mappings in
  "gcloud compute instance-groups set-named-ports " +:+ instance_group +:+ " --zone=" +:+ zone
  +:+ " --named-ports=" +:+ join "," assignments.

Definition set_port_mappings (instance_group zone : string) (port_mappings : dict string Z) : M world unit :=
  perform execute_command (set_ports_command instance_group zone port_mappings) then ret tt.

Definition use_context_command (ctx : string) : string := "kubectl config use-context " +:+ ctx.

Definition active_of (active_ports : list Z) (mappings : dict string Z) : dict string Z :=
  List.filter (fun np => bool_decide (snd np ∈ active_ports)) mappings.

Definition prune_zone (instance_group : string) (active_ports : list Z) (z : string) : M world unit :=
  do existing_mappings <- get_mapped_ports instance_group z in
  set_port_mappings instance_group z (active_of active_ports existing_mappings).

Definition cleanup_port_mappings (instance_group : string) (zone : list string) (k8s_context : string) : M world unit :=
  perform execute_command (use_context_command k8s_context) then
  do active_ports <- get_active_node_ports in
  for_each zone (prune_zone instance_group active_ports).

(** ** Old namespaces.  Times are in microseconds. *)
Context (list_namespace : string -> list namespace) (search : string -> string -> bool) (clock : nat -> Z).

Definition now : M world Z :=
  do t <- gets ticks in
  perform modify (fun w => World (commands w) (S (ticks w))) then
  ret (clock t).

Definition delete_all_command (ns : string) : string := "kubectl delete all -n " +:+ ns +:+ " --all".
Definition delete_ns_command (ns : string) : string := "kubectl delete ns " +:+ ns.

(** The loop over the namespaces; the first reading of the clock is for the age printed. *)
Definition clean_namespace (pattern : string) (cleanup_older_than : Z) (ns : namespace) : M world unit :=
  do _ <- now in
  if negb (String.eqb (name ns) "") && search pattern (name ns) then
    do t <- now in
    if creation_timestamp ns <=? t - cleanup_older_than * 1000000 then
      perform execute_command (delete_all_command (name ns)) then
      perform execute_command (delete_ns_command (name ns)) then
      ret tt
    else ret tt
  else ret tt.

Definition cleanup_namespace_resources (namespace_pattern : list string) (cleanup_older_than : Z)
  (k8s_context : list string) : M world unit :=
  for_each k8s_context (fun ctx =>
    perform execute_command (use_context_command ctx) then
    let items := list_namespace ctx in
    for_each namespace_pattern (fun pattern =>
      for_each items (clean_namespace pattern cleanup_older_than))).
End NetUtil.

(** ** Lemmas on commands *)
(** The log only grows. *)
Definition extends (w w' : world) : Prop := forall c, c ∈ commands w -> c ∈ commands w'.
Definition grows {A} (m : M world A) : Prop := forall w, extends w (fst (m w)).

Lemma grows_bind {A B} (m : M world A) (k : A -> M world B) : grows m -> (forall a, grows (k a)) -> grows (bindM m k).
Proof.
  intros Hm Hk w c Hc. specialize (Hm w c Hc). unfold bindM. destruct (m w) as [w1 [a|e]]; [by apply Hk | done].
Qed.

Lemma grows_ret {A} (a : A) : grows (ret a).
Proof. by intros w c. Qed.

Lemma grows_for_each {A} (l : list A) (f : A -> M world unit) : (forall x, grows (f x)) -> grows (for_each l f).
Proof. intros Hf. induction l as [|x l IH]; [apply grows_ret|]. apply grows_bind; [apply Hf | done]. Qed.

(** What every turn of a loop achieves and nothing undoes holds at its end. *)
Lemma for_each_collect {A} (l : list A) (f : A -> M world unit) (Q : A -> world -> Prop) w w' :
  (forall x, grows (f x)) -> (forall x w w', extends w w' -> Q x w -> Q x w') ->
  (forall x w w', x ∈ l -> f x w = (w', Ok tt) -> Q x w') ->
  for_each l f w = (w', Ok tt) -> forall x, x ∈ l -> Q x w'.
Proof.
  intros Hg HQ. revert w. induction l as [|x l IH]; intros w Hf H y Hy; [by apply elem_of_nil in Hy|].
  cbn [for_each] in H. apply bindM_Ok_inv in H as ([] & w1 & H1 & H). apply elem_of_cons in Hy as [->|Hy].
  - apply (HQ x w1); [|eapply Hf; [left | done]]. pose proof (grows_for_each l f Hg w1) as G. by rewrite H in G.
  - eapply IH; [|done|done]. intros z w2 w3 Hz. apply Hf. by right.
Qed.

Section Ports.
Context (respond : string -> Z * string).
Context (loads_services : string -> result (list service)).

Definition log (w : world) (cs : list string) : world := World (commands w ++ cs) (ticks w).

Lemma log_log w cs1 cs2 : log (log w cs1) cs2 = log w (cs1 ++ cs2).
Proof. unfold log. cbn. by rewrite app_assoc. Qed.

Lemma log_nil w : log w [] = w.
Proof. destruct w. unfold log. cbn. by rewrite app_nil_r. Qed.

Lemma execute_command_Ok c w w' o : execute_command respond c w = (w', Ok o) ->
  w' = log w [c] /\ o = snd (respond c) /\ fst (respond c) <= 0.
Proof.
  unfold execute_command, bindM, modify. destruct (respond c) as [rc out].
  destruct (Z.ltb_spec 0 rc); [done|]. intros [= <- <-]. by split_and!.
Qed.

Lemma execute_command_succeeds c w : fst (respond c) <= 0 -> execute_command respond c w = (log w [c], Ok (snd (respond c))).
Proof.
  unfold execute_command, bindM, modify. destruct (respond c) as [rc out]. cbn [fst snd]. intros H.
  by destruct (Z.ltb_spec 0 rc); [lia|].
Qed.

(** The ports of the [NodePort] services among [l]. *)
Definition node_port_of (l : list service) (p : Z) : Prop :=
  exists s ps, s ∈ l /\ type_ s = Some "NodePort" /\ ports s = Some ps /\ Some p ∈ ps.

Lemma add_ports_spec (l : list (option Z)) ps ps' :
  foldM (fun ps port => let* p := need port in Ok (set_update ps [p])) l ps = Ok ps' ->
  forall p, p ∈ ps' <-> p ∈ ps \/ Some p ∈ l.
Proof.
  revert ps. induction l as [|x l IH]; intros ps H p; cbn [foldM] in H.
  - injection H as <-. rewrite elem_of_nil. tauto.
  - apply bind_Ok_inv in H as (ps1 & H1 & H). apply bind_Ok_inv in H1 as (q & Hq & H1).
    assert (ps1 = set_update ps [q]) as -> by congruence. destruct x as [q'|]; [|done]. injection Hq as ->.
    rewrite (IH _ H), elem_of_set_update, list_elem_of_singleton, elem_of_cons. naive_solver.
Qed.

Lemma add_services_spec l ps ps' : foldM add_service l ps = Ok ps' -> forall p, p ∈ ps' <-> p ∈ ps \/ node_port_of l p.
Proof.
  unfold node_port_of. revert ps. induction l as [|s l IH]; intros ps H p; cbn [foldM] in H.
  - injection H as <-. setoid_rewrite elem_of_nil. naive_solver.
  - apply bind_Ok_inv in H as (ps1 & H1 & H). rewrite (IH _ H). setoid_rewrite elem_of_cons. unfold add_service in H1.
    apply bind_Ok_inv in H1 as (t & Ht & H1). destruct (type_ s) as [t'|] eqn:Es; [|done]. injection Ht as ->.
    destruct (String.eqb_spec t "NodePort") as [->|Hne].
    + apply bind_Ok_inv in H1 as (pl & Hp & H1). destruct (ports s) as [pl'|] eqn:Ep; [|done]. injection Hp as ->.
      rewrite (add_ports_spec _ _ _ H1). split; naive_solver.
    + injection H1 as <-. split; naive_solver.
Qed.

(** A node port that some service of the cluster uses. *)
Definition active_port (namespaces : list string) (p : Z) : Prop :=
  exists ns l, ns ∈ namespaces /\ loads_services (snd (respond (services_command ns))) = Ok l /\ node_port_of l p.

Lemma node_ports_Ok nss ps w w' ps' : node_ports respond loads_services nss ps w = (w', Ok ps') ->
  w' = log w (map services_command nss) /\ forall p, p ∈ ps' <-> p ∈ ps \/ active_port nss p.
Proof.
  unfold active_port. revert ps w. induction nss as [|ns nss IH]; intros ps w H; cbn [node_ports] in H.
  - injection H as <- <-. rewrite log_nil. split; [done|]. setoid_rewrite elem_of_nil. naive_solver.
  - apply bindM_Ok_inv in H as (o & w1 & H1 & H). apply execute_command_Ok in H1 as (-> & -> & _).
    apply bindM_Ok_inv in H as (l & w1 & H1 & H). apply lift_Ok in H1 as (-> & Hl).
    apply bindM_Ok_inv in H as (ps1 & w1 & H1 & H). apply lift_Ok in H1 as (-> & Hps).
    apply IH in H as (-> & Hp). rewrite log_log. split; [done|]. intros p.
    rewrite Hp, (add_services_spec _ _ _ Hps). setoid_rewrite elem_of_cons. split.
    + intros [[H|H]|(n & l' & H1 & H2 & H3)]; [by left | right; exists ns, l; by auto | right; exists n, l'; by auto].
    + intros [H|(n & l' & [->|H1] & H2 & H3)]; [by left; left | left; right; congruence | right; by exists n, l'].
Qed.

(** The port mappings of a zone. *)
Definition existing (instance_group z : string) (m : dict string Z) : Prop :=
  foldM parse_mapping (tail (splitlines (snd (respond (get_ports_command instance_group z))))) [] = Ok m.

Lemma prune_zones_Ok ig active zone w w' :
  for_each zone (prune_zone respond ig active) w = (w', Ok tt) ->
  exists ms, Forall2 (existing ig) zone ms /\
    w' = log w (concat (zip_with (fun z m => [get_ports_command ig z; set_ports_command ig z (active_of active m)]) zone ms)).
Proof.
  revert w. induction zone as [|z zone IH]; intros w H; cbn [for_each] in H.
  - injection H as <-. exists []. split; [constructor|]. by rewrite log_nil.
  - apply bindM_Ok_inv in H as ([] & w1 & H1 & H). apply IH in H as (ms & Hms & ->).
    unfold prune_zone, get_mapped_ports, set_port_mappings in H1.
    apply bindM_Ok_inv in H1 as (m & w2 & H2 & H1). apply bindM_Ok_inv in H2 as (o & w3 & H3 & H2).
    apply execute_command_Ok in H3 as (-> & -> & _). apply lift_Ok in H2 as (-> & Hm).
    apply bindM_Ok_inv in H1 as (o & w3 & H3 & H1). apply execute_command_Ok in H3 as (-> & _ & _). apply ret_Ok in H1 as [-> _].
    exists (m :: ms). split; [by constructor|]. by rewrite !log_log.
Qed.
(** A service whose JSON has the keys that are read. *)
Definition readable (s : service) : Prop :=
  exists t, type_ s = Some t /\ (t = "NodePort" -> exists ps, ports s = Some ps /\ Forall is_Some ps).

(** What the cleanup needs: no command fails, and the namespaces, their services and the tables of
    ports can be read. *)
Definition answers (loads_namespaces : string -> result (list string)) (ig : string) (zone : list string) : Prop :=
  (forall c, fst (respond c) <= 0) /\
  (exists nss, loads_namespaces (snd (respond "kubectl get namespaces -ojson")) = Ok nss /\
     forall ns, ns ∈ nss -> exists l, loads_services (snd (respond (services_command ns))) = Ok l /\ Forall readable l) /\
  forall z, z ∈ zone -> exists m, existing ig z m.

Lemma add_services_total l ps : Forall readable l -> exists ps', foldM add_service l ps = Ok ps'.
Proof.
  intros Hl. destruct (foldM_total (fun _ => True) add_service l ps) as (ps' & -> & _); [|done|by eexists].
  intros ps1 s Hs%list_elem_of_In _. rewrite Forall_forall in Hl. destruct (Hl s Hs) as (t & Ht & Hp).
  unfold add_service. rewrite Ht. cbn [need bind]. destruct (String.eqb_spec t "NodePort") as [->|_]; [|by eexists].
  destruct (Hp eq_refl) as (pl & -> & Hpl). cbn [need bind].
  destruct (foldM_total (fun _ => True) (fun ps port => let* p := need port in Ok (set_update ps [p])) pl ps1)
    as (ps2 & E & _); [|done|by exists ps2].
  intros ps3 x Hx%list_elem_of_In _. rewrite Forall_forall in Hpl. destruct (Hpl x Hx) as [q ->]. by eexists.
Qed.

Lemma node_ports_total nss ps w : (forall c, fst (respond c) <= 0) ->
  (forall ns, ns ∈ nss -> exists l, loads_services (snd (respond (services_command ns))) = Ok l /\ Forall readable l) ->
  exists w' ps', node_ports respond loads_services nss ps w = (w', Ok ps').
Proof.
  intros Hc. revert ps w. induction nss as [|ns nss IH]; intros ps w H; cbn [node_ports]; [by exists w, ps|].
  destruct (H ns) as (l & Hl & Hr); [left|]. destruct (add_services_total l ps Hr) as [ps1 Hp].
  unfold bindM at 1. rewrite execute_command_succeeds by done. unfold bindM, lift. rewrite Hl, Hp.
  apply IH. intros ns' Hin. apply H. by right.
Qed.

Lemma prune_zones_total ig active zone w : (forall c, fst (respond c) <= 0) ->
  (forall z, z ∈ zone -> exists m, existing ig z m) ->
  exists w', for_each zone (prune_zone respond ig active) w = (w', Ok tt).
Proof.
  intros Hc. revert w. induction zone as [|z zone IH]; intros w H; cbn [for_each]; [by exists w|].
  destruct (H z) as [m Hm]; [left|]. unfold prune_zone, get_mapped_ports, set_port_mappings.
  unfold bindM at 1 2 3. rewrite execute_command_succeeds by done. unfold lift at 1. rewrite Hm.
  unfold bindM at 1. rewrite execute_command_succeeds by done. apply IH. intros z' Hz. apply H. by right.
Qed.
End Ports.


Section Namespaces.
Context (respond : string -> Z * string) (list_namespace : string -> list namespace)
  (search : string -> string -> bool) (clock : nat -> Z)
  (namespace_pattern : list string) (cleanup_older_than : Z) (k8s_context : list string).

(** A namespace that is to be deleted, the clock having been read as the time [t]. *)
Definition condemned_at (ns : namespace) (t : Z) : Prop :=
  (exists ctx pattern, ctx ∈ k8s_context /\ pattern ∈ namespace_pattern /\ ns ∈ list_namespace ctx /\ search pattern (name ns) = true) /\
  name ns <> "" /\ creation_timestamp ns <= t - cleanup_older_than * 1000000.

Definition deletes (ns : namespace) : list string := [delete_all_command (name ns); delete_ns_command (name ns)].

(** The commands that the script may run. *)
Definition justified (c : string) : Prop :=
  (exists ctx, ctx ∈ k8s_context /\ c = use_context_command ctx) \/
  exists ns n, condemned_at ns (clock n) /\ c ∈ deletes ns.

Definition all_justified (w : world) : Prop := forall c, c ∈ commands w -> justified c.

Lemma execute_justified c : justified c -> keeps all_justified (execute_command respond c).
Proof.
  intros Hc. unfold execute_command. hoare_step.
  - apply hoare_modify. intros w Hw c'. cbn. rewrite elem_of_app, list_elem_of_singleton. intros [H| ->]; [by apply Hw | done].
  - destruct (respond c) as [rc o]. by destruct (0 <? rc); [apply hoare_raise | apply hoare_ret].
Qed.

Lemma now_spec : hoare all_justified (now clock) (fun t w => all_justified w /\ exists n, t = clock n) (fun _ => all_justified).
Proof. intros w Hw. cbn. split; [done|]. by eexists. Qed.

Lemma clean_justified ctx pattern ns : ctx ∈ k8s_context -> pattern ∈ namespace_pattern -> ns ∈ list_namespace ctx ->
  keeps all_justified (clean_namespace respond search clock pattern cleanup_older_than ns).
Proof.
  intros Hc Hp Hns. unfold clean_namespace. eapply hoare_bind; [apply now_spec|]. intros t0.
  destruct (negb (String.eqb (name ns) "") && search pattern (name ns)) eqn:E; [|apply hoare_ret; tauto].
  apply andb_true_iff in E as [E1%negb_true_iff E2]. apply String.eqb_neq in E1.
  eapply hoare_bind with (Q0 := fun t w => all_justified w /\ exists n, t = clock n).
  { intros w [Hw _]. by apply now_spec. }
  intros t w [Hw [n Ht]]. destruct (Z.leb_spec (creation_timestamp ns) (t - cleanup_older_than * 1000000)) as [Hle|]; [|done].
  assert (J : forall c, c ∈ deletes ns -> justified c).
  { intros c Hd. right. exists ns, n. split; [|done]. subst t. split; [exists ctx, pattern|]; by split_and!. }
  assert (K : keeps all_justified (perform execute_command respond (delete_all_command (name ns)) then
    perform execute_command respond (delete_ns_command (name ns)) then ret tt)).
  { hoare_step; [apply execute_justified, J; left|]. hoare_step; [apply execute_justified, J; right; left|].
    by apply hoare_ret. }
  exact (K w Hw).
Qed.

Lemma cleanup_justified : keeps all_justified
  (cleanup_namespace_resources respond list_namespace search clock namespace_pattern cleanup_older_than k8s_context).
Proof.
  apply hoare_for_each. intros ctx Hc. hoare_step.
  - apply execute_justified. left. by exists ctx.
  - apply hoare_for_each. intros pattern Hp. apply hoare_for_each. intros ns Hns. by eapply clean_justified.
Qed.

(** ** Nothing is forgotten *)
Lemma grows_execute c : grows (execute_command respond c).
Proof.
  apply grows_bind.
  - intros w c' Hc. cbn. apply elem_of_app. by left.
  - intros _. destruct (respond c) as [rc o]. destruct (0 <? rc); intros w c0 Hc; exact Hc.
Qed.

Lemma grows_clean pattern ns : grows (clean_namespace respond search clock pattern cleanup_older_than ns).
Proof.
  assert (Hnow : grows (now clock)) by (intros w c Hc; exact Hc).
  apply grows_bind; [done|]. intros _. destruct (_ && _); [|apply grows_ret]. apply grows_bind; [done|]. intros t.
  destruct (_ <=? _); [|apply grows_ret].
  apply grows_bind; [apply grows_execute|]. intros _. apply grows_bind; [apply grows_execute|]. intros _. apply grows_ret.
Qed.

(** Old at every reading of the clock. *)
Definition due (pattern : string) (ns : namespace) : Prop :=
  name ns <> "" /\ search pattern (name ns) = true /\
  forall n, creation_timestamp ns <= clock n - cleanup_older_than * 1000000.

Definition deleted (ns : namespace) (w : world) : Prop := forall c, c ∈ deletes ns -> c ∈ commands w.

Lemma clean_deletes pattern ns w w' :
  clean_namespace respond search clock pattern cleanup_older_than ns w = (w', Ok tt) -> due pattern ns -> deleted ns w'.
Proof.
  intros H (Hne & Hs & Ht). unfold clean_namespace in H. apply bindM_Ok_inv in H as (t0 & w1 & _ & H).
  apply String.eqb_neq in Hne. rewrite Hne, Hs in H. cbn [negb andb] in H.
  apply bindM_Ok_inv in H as (t & w2 & Hn & H). assert (t = clock (ticks w1)) as -> by (unfold now, bindM, gets, modify, ret in Hn; cbn in Hn; congruence).
  destruct (Z.leb_spec (creation_timestamp ns) (clock (ticks w1) - cleanup_older_than * 1000000)) as [_|Hgt];
    [|specialize (Ht (ticks w1)); lia].
  apply bindM_Ok_inv in H as (o & w3 & H1 & H). apply execute_command_Ok in H1 as (-> & _ & _).
  apply bindM_Ok_inv in H as (o2 & w3 & H1 & H). apply execute_command_Ok in H1 as (-> & _ & _). apply ret_Ok in H as [-> _].
  intros c Hc. unfold deletes in Hc. cbn [commands log]. rewrite !elem_of_app, !list_elem_of_singleton. rewrite elem_of_cons, list_elem_of_singleton in Hc. tauto.
Qed.

Lemma cleanup_deletes w w' :
  cleanup_namespace_resources respond list_namespace search clock namespace_pattern cleanup_older_than k8s_context w = (w', Ok tt) ->
  forall ctx, ctx ∈ k8s_context -> forall pattern, pattern ∈ namespace_pattern -> forall ns, ns ∈ list_namespace ctx ->
  due pattern ns -> deleted ns w'.
Proof.
  assert (Hd : forall ns w w', extends w w' -> deleted ns w -> deleted ns w') by (intros ns w1 w2 He H c Hc; by apply He, H).
  pose (Q1 := fun pattern ns w => due pattern ns -> deleted ns w).
  pose (Q2 := fun ctx pattern w => forall ns, ns ∈ list_namespace ctx -> Q1 pattern ns w).
  pose (Q3 := fun ctx w => forall pattern, pattern ∈ namespace_pattern -> Q2 ctx pattern w).
  refine (for_each_collect k8s_context _ Q3 w w' _ _ _).
  - intros ctx. apply grows_bind; [apply grows_execute|]. intros _. do 2 (apply grows_for_each; intros ?). apply grows_clean.
  - intros ctx w1 w2 He H pattern Hp ns Hns Hdue. eapply Hd; [done | by eapply H].
  - intros ctx w1 w2 _ H. apply bindM_Ok_inv in H as (o & w3 & _ & H). revert H. refine (for_each_collect namespace_pattern _ (Q2 ctx) w3 w2 _ _ _).
    + intros pattern. apply grows_for_each. intros ns. apply grows_clean.
    + intros pattern w4 w5 He H ns Hns Hdue. eapply Hd; [done | by eapply H].
    + intros pattern w4 w5 _ H. revert H.
      refine (for_each_collect (list_namespace ctx) _ (Q1 pattern) w4 w5 _ _ _); [intros ns; apply grows_clean | |].
      * intros ns w6 w7 He H Hdue. eapply Hd; [done | by apply H].
      * intros ns w6 w7 _ H. exact (clean_deletes pattern ns w6 w7 H).
Qed.
End Namespaces.


(** ** A small cluster: one used port and one that nothing uses. *)
Definition toy_table : string := "NAME  PORT" +:+ nl +:+ "http   31000" +:+ nl +:+ "old 31001" +:+ nl.

Definition toy_respond (c : string) : Z * string :=
  if decide (c = get_ports_command "ig" "us-east1-b") then (0, toy_table) else (0, "ok").

Definition toy_services (_ : string) : result (list service) :=
  Ok [Service (Some "NodePort") (Some [Some 31000]); Service (Some "ClusterIP") (Some [None])].

Lemma toy_answers : answers toy_respond toy_services (fun _ => Ok ["default"]) "ig" ["us-east1-b"].
Proof.
  split_and!.
  - intros c. unfold toy_respond. by case_decide.
  - exists ["default"]. split; [done|]. intros ns _. eexists. split; [reflexivity|]. repeat constructor.
    + exists "NodePort". split; [done|]. intros _. eexists. split; [done|]. repeat constructor. by eexists.
    + exists "ClusterIP". by split.
  - intros z ->%list_elem_of_singleton. exists [("http", 31000); ("old", 31001)]. vm_compute. reflexivity.
Qed.


(** Two namespaces match; the second is young. *)
Definition toy_namespaces (_ : string) : list namespace := [Namespace "ci-1" 0; Namespace "ci-2" 900000000].

