(* ===== verification/Exporter.v ===== *)
(** * The Buildkite exporter, [buildkite/prometheus-exporter/exporter.py]

    The two GraphQL queries and the REST call are parameters; their answers are
    records of the fields that the code reads, with [None] for null, and times are in
    microseconds.  A label of a sample may be null; a sample is its labels and value. *)

From stdpp Require Import base list strings.
From Stdlib Require Import Ascii ZArith Lia.
From S2P Require Import Prelude Dict PyStr PySet.
Open Scope string_scope.
Open Scope Z_scope.

Record artifact : Type := Artifact {
  a_state : string; a_path : string; a_download_url : string; a_mime_type : string; a_size : Z
}.

Record job : Type := Job {
  j_state : string;
  j_scheduled_at : option Z;
  j_started_at : option Z;
  j_finished_at : option Z;
  j_exit_status : option string;
  j_passed : option bool;
  j_soft_failed : option bool;
  j_step_key : option (option string);   (* ['step'] and its ['key'] *)
  j_agent : option string;               (* its ['hostname'] *)
  j_agent_query_rules : list string;
  j_artifacts : list artifact
}.

Record build : Type := Build { b_branch : string; b_jobs : list job }.

Record agent : Type := Agent {
  g_version : string; g_known_issues : option bool; g_os : option string; g_running_job : option bool;
  g_meta_data : list string; g_connection_state : string
}.

Definition sample : Type := list (option string) * Z.

Record metrics : Type := Metrics {
  runtime : list sample;
  waittime : list sample;
  job_status : list sample;
  exit_status : list sample;
  artifact_size : list sample;
  total_count : list sample
}.

Definition no_metrics : metrics := Metrics [] [] [] [] [] [].

(** [str(b)] for a boolean or null. *)
Definition str_bool (b : option bool) : string :=
  match b with Some true => "True" | Some false => "False" | None => "None" end.

(** [str(b or 'undefined')] *)
Definition str_bool_or (b : option bool) : string := match b with Some true => "True" | _ => "undefined" end.

(** [s or 'undefined']: null and the empty string are false. *)
Definition or_undefined (s : option string) : string :=
  match s with Some s => if String.eqb s "" then "undefined" else s | None => "undefined" end.

(** [timedelta.seconds]: the seconds within the day. *)
Definition seconds (t1 t2 : Z) : Z := ((t1 - t2) / 1000000) mod 86400.

(** A field of a value that may be null, and [strptime] of a time that may be null. *)
Definition not_null {A} (o : option A) : result A := match o with Some a => Ok a | None => Err TypeError end.

Definition rules (j : job) : string := join "," (j_agent_query_rules j).

(** The labels of a finished job that three of its samples share. *)
Definition add_artifact (branch : string) (j : job) (key host : option string) (a : artifact) : sample :=
  ([Some branch; j_exit_status j; Some (a_state a); Some (a_path a); Some (a_download_url a); Some (a_mime_type a);
    key; host; Some (rules j)], a_size a).

Definition finished_job (branch : string) (scheduled_time : Z) (j : job) (m : metrics) : result metrics :=
  let* start_time := not_null (j_started_at j) in
  let* end_time := not_null (j_finished_at j) in
  let* key := not_null (j_step_key j) in
  let* host := not_null (j_agent j) in
  let host := Some host in
  let labels := [Some branch; j_exit_status j; Some (j_state j); Some (str_bool (j_passed j)); key; host; Some (rules j)] in
  Ok (Metrics (runtime m ++ [(labels, seconds end_time start_time)])
        (waittime m ++ [(labels, seconds start_time scheduled_time)])
        (job_status m)
        (exit_status m ++ [([Some branch; j_exit_status j; Some (str_bool (j_soft_failed j)); Some (j_state j);
                             Some (str_bool (j_passed j)); key; host; Some (rules j)], 1)])
        (artifact_size m ++ map (add_artifact branch j key host) (j_artifacts j))
        (total_count m))%list.

Definition unfinished_job (now : Z) (branch : string) (scheduled_time : Z) (j : job) (m : metrics) : result metrics :=
  let* key := not_null (j_step_key j) in
  let t := default now (j_started_at j) in
  Ok (Metrics (runtime m)
        (waittime m ++ [([Some branch; Some (or_undefined (j_exit_status j)); Some (j_state j);
                          Some (str_bool_or (j_passed j)); key; Some (default "unassigned" (j_agent j)); Some (rules j)],
                         seconds t scheduled_time)])
        (job_status m ++ [([Some branch; Some (j_state j); key], 1)])
        (exit_status m) (artifact_size m) (total_count m))%list.

Definition finished (j : job) : bool := String.eqb (j_state j) "FINISHED".

Definition collect_job (now : Z) (branch : string) (m : metrics) (j : job) : result metrics :=
  let* scheduled_time := not_null (j_scheduled_at j) in
  if finished j then finished_job branch scheduled_time j m else unfinished_job now branch scheduled_time j m.

Definition collect_agent (m : metrics) (g : agent) : result metrics :=
  let* os := not_null (g_os g) in
  Ok (Metrics (runtime m) (waittime m) (job_status m) (exit_status m) (artifact_size m)
        (total_count m ++ [([Some (g_version g); Some (str_bool (g_known_issues g)); Some os;
                             Some (str_bool (g_running_job g)); Some (join "," (g_meta_data g)); Some (g_connection_state g)], 1)]))%list.

(** [list_pipeline_stepkeys]: the step keys of all the jobs, without duplicates. *)
Definition stepkey (k : option string) : string :=
  match k with Some k => if String.eqb k "" then "pipeline" else k | None => "pipeline" end.

Definition list_pipeline_stepkeys (builds : list (list (option string))) : list string :=
  set_update [] (map stepkey (concat builds)).

Section Collect.
(** The query for jobs, given the keys and the limits of jobs and artifacts, the query for
    agents, given its limit, and the builds of the REST interface. *)
Context {limit : Type} (query_jobs : list string -> limit -> limit -> result (list build)) (query_agents : limit -> result (list agent))
  (rest_builds : result (list (list (option string))))
  (JOBS : string) (MAX_JOB_COUNT MAX_AGENT_COUNT MAX_ARTIFACTS_COUNT : limit) (now : Z).

Definition job_keys : result (list string) :=
  if String.eqb JOBS "" then let* builds := rest_builds in Ok (list_pipeline_stepkeys builds) else Ok (split "," JOBS).

Definition collect_job_data (m : metrics) : result metrics :=
  let* keys := job_keys in
  let* data := query_jobs keys MAX_JOB_COUNT MAX_ARTIFACTS_COUNT in
  foldM (fun m d => foldM (collect_job now (b_branch d)) (b_jobs d) m) data m.

(** The limit passed is that of artifacts. *)
Definition collect_agent_data (m : metrics) : result metrics :=
  let* data := query_agents MAX_ARTIFACTS_COUNT in foldM collect_agent data m.

Definition collect : result metrics := let* m := collect_job_data no_metrics in collect_agent_data m.
End Collect.

(** ** What is collected *)
Definition tagged (data : list build) : list (string * job) := flat_map (fun d => map (pair (b_branch d)) (b_jobs d)) data.

Lemma collect_builds now data m :
  foldM (fun m d => foldM (collect_job now (b_branch d)) (b_jobs d) m) data m
  = foldM (fun m bj => collect_job now (fst bj) m (snd bj)) (tagged data) m.
Proof.
  revert m. induction data as [|d data IH]; intros m; [done|]. cbn [foldM tagged flat_map]. rewrite foldM_app.
  assert (E : forall l m, foldM (collect_job now (b_branch d)) l m
    = foldM (fun m bj => collect_job now (fst bj) m (snd bj)) (map (pair (b_branch d)) l) m).
  { induction l as [|j l IHl]; intros m0; cbn [foldM map fst snd]; [done|]. by destruct (collect_job now (b_branch d) m0 j); cbn [bind]. }
  rewrite E. destruct (foldM _ (map (pair (b_branch d)) (b_jobs d)) m) as [m'|e]; cbn [bind]; [apply IH | done].
Qed.

(** The samples of one job. *)
Definition runtime_value (j : job) : Z := seconds (default 0 (j_finished_at j)) (default 0 (j_started_at j)).
Definition waittime_value (now : Z) (j : job) : Z := seconds (default now (j_started_at j)) (default 0 (j_scheduled_at j)).

(** What the jobs collected so far amount to. *)
Record collected (now : Z) (jobs : list (string * job)) (m : metrics) : Prop := Collected {
  col_runtime : map snd (runtime m) = map (fun bj => runtime_value (snd bj)) (List.filter (fun bj => finished (snd bj)) jobs);
  col_waittime : map snd (waittime m) = map (fun bj => waittime_value now (snd bj)) jobs;
  col_exit : map (fun s => nth 1 (fst s) None) (exit_status m)
             = map (fun bj => j_exit_status (snd bj)) (List.filter (fun bj => finished (snd bj)) jobs);
  col_status : map fst (job_status m)
               = map (fun bj => [Some (fst bj); Some (j_state (snd bj)); default None (j_step_key (snd bj))])
                   (List.filter (fun bj => negb (finished (snd bj))) jobs);
  col_artifacts : map snd (artifact_size m)
                  = flat_map (fun bj => map a_size (j_artifacts (snd bj))) (List.filter (fun bj => finished (snd bj)) jobs)
}.

Lemma collect_job_collected now jobs m b j m' :
  collected now jobs m -> collect_job now b m j = Ok m' ->
  collected now (jobs ++ [(b, j)]) m' /\ total_count m' = total_count m.
Proof.
  intros [Hr Hw He Hs Ha] H. unfold collect_job in H. apply bind_Ok_inv in H as (st & Hst & H).
  destruct (j_scheduled_at j) as [s|] eqn:Es; [injection Hst as <-|done].
  destruct (finished j) eqn:Ef; [unfold finished_job in H | unfold unfinished_job in H].
  - apply bind_Ok_inv in H as (t1 & H1 & H). apply bind_Ok_inv in H as (t2 & H2 & H).
    apply bind_Ok_inv in H as (k & Hk & H). apply bind_Ok_inv in H as (h & Hh & H). injection H as <-.
    destruct (j_started_at j) eqn:E1; [injection H1 as ->|done]. destruct (j_finished_at j) eqn:E2; [injection H2 as ->|done].
    split; [|done]. split; cbn [runtime waittime exit_status job_status artifact_size];
      rewrite ?List.filter_app, ?map_app, ?flat_map_app; cbn [List.filter snd]; rewrite ?Ef; cbn [negb map flat_map snd fst nth];
      rewrite ?app_nil_r; try done; f_equal; try done; unfold runtime_value, waittime_value; rewrite ?E1, ?E2, ?Es; try done.
    by rewrite map_map.
  - apply bind_Ok_inv in H as (k & Hk & H). injection H as <-. destruct (j_step_key j) eqn:Ek; [injection Hk as ->|done].
    split; [|done]. split; cbn [runtime waittime exit_status job_status artifact_size];
      rewrite ?List.filter_app, ?map_app, ?flat_map_app; cbn [List.filter snd]; rewrite ?Ef; cbn [negb map flat_map snd fst nth];
      rewrite ?app_nil_r; try done; f_equal; try done; unfold waittime_value; by rewrite ?Es, ?Ek.
Qed.

Lemma collect_jobs_collected now l m : foldM (fun m bj => collect_job now (fst bj) m (snd bj)) l no_metrics = Ok m ->
  collected now l m /\ total_count m = [].
Proof.
  enough (G : forall l jobs m0, collected now jobs m0 -> total_count m0 = [] ->
    foldM (fun m bj => collect_job now (fst bj) m (snd bj)) l m0 = Ok m -> collected now (jobs ++ l) m /\ total_count m = []).
  { intros H. by apply (G l [] no_metrics). }
  clear l. induction l as [|[b j] l IH]; intros jobs m0 H0 Ht H; cbn [foldM fst snd] in H.
  - injection H as <-. by rewrite app_nil_r.
  - apply bind_Ok_inv in H as (m1 & H1 & H). destruct (collect_job_collected _ _ _ _ _ _ H0 H1) as [Hc Htc].
    rewrite cons_middle, app_assoc. apply (IH _ m1); [done|congruence|done].
Qed.

Lemma collect_agents_length l m m' : foldM collect_agent l m = Ok m' ->
  zlength (total_count m') = zlength (total_count m) + zlength l /\
  runtime m' = runtime m /\ waittime m' = waittime m /\ job_status m' = job_status m /\
  exit_status m' = exit_status m /\ artifact_size m' = artifact_size m.
Proof.
  revert m. induction l as [|g l IH]; intros m H; cbn [foldM] in H.
  - injection H as <-. unfold zlength. cbn. split_and!; try done. lia.
  - apply bind_Ok_inv in H as (m1 & H1 & H). unfold collect_agent in H1. apply bind_Ok_inv in H1 as (os & _ & H1).
    injection H1 as <-. apply IH in H as (Hl & ? & ? & ? & ? & ?). cbn in *. split_and!; try done.
    rewrite Hl, zlength_app. unfold zlength. cbn [length]. lia.
Qed.

Lemma seconds_exact t1 t2 : 0 <= t1 - t2 < 86400 * 1000000 -> seconds t1 t2 = (t1 - t2) / 1000000.
Proof.
  intros H. unfold seconds. apply Z.mod_small. split; [apply Z.div_pos; lia|]. apply Z.div_lt_upper_bound; lia.
Qed.

(** ** When nothing that is read is null *)
Definition complete_job (j : job) : bool :=
  bool_decide (is_Some (j_scheduled_at j)) && bool_decide (is_Some (j_step_key j)) &&
  (negb (finished j) ||
   bool_decide (is_Some (j_started_at j)) && bool_decide (is_Some (j_finished_at j)) && bool_decide (is_Some (j_agent j))).

Lemma not_null_some {A} (o : option A) : is_Some o -> exists a, not_null o = Ok a.
Proof. intros [a ->]. by exists a. Qed.

Lemma collect_job_total now b m j : complete_job j = true -> exists m', collect_job now b m j = Ok m'.
Proof.
  unfold complete_job. rewrite andb_true_iff, andb_true_iff, !bool_decide_eq_true. intros [[Hs Hk] H].
  destruct (not_null_some _ Hs) as [s Es], (not_null_some _ Hk) as [k Ek]. unfold collect_job, finished_job, unfinished_job. rewrite Es. cbn [bind].
  destruct (finished j); [|rewrite Ek; by eexists]. cbn [negb orb] in H. rewrite !andb_true_iff, !bool_decide_eq_true in H.
  destruct H as [[H1 H2] Ha]. destruct (not_null_some _ H1) as [t1 ->], (not_null_some _ H2) as [t2 ->], (not_null_some _ Ha) as [h ->].
  rewrite Ek. by eexists.
Qed.

Lemma collect_jobs_total now l m : forallb (fun bj => complete_job (snd bj)) l = true ->
  exists m', foldM (fun m bj => collect_job now (fst bj) m (snd bj)) l m = Ok m'.
Proof.
  intros H. destruct (foldM_total (fun _ : metrics => True) (fun m bj => collect_job now (fst bj) m (snd bj)) l m) as (m' & E & _); [|done|by exists m'].
  intros m0 x Hx _. rewrite forallb_forall in H. destruct (collect_job_total now (fst x) m0 (snd x) (H x Hx)) as [m' E]. by exists m'.
Qed.

Lemma collect_agents_total l m : forallb (fun g => bool_decide (is_Some (g_os g))) l = true -> exists m', foldM collect_agent l m = Ok m'.
Proof.
  intros H. destruct (foldM_total (fun _ : metrics => True) collect_agent l m) as (m' & E & _); [|done|by exists m'].
  intros m0 g Hg _. rewrite forallb_forall in H. specialize (H g Hg). apply bool_decide_eq_true in H. destruct (not_null_some _ H) as [os Eos].
  unfold collect_agent. rewrite Eos. by eexists.
Qed.

(** C39: A scrape of the exporter answers when its requests do and no field that it reads of a job or
    an agent is null; it then reports every job of every build, in order: each
    job has one waiting time, each finished job one running time, one exit status and the sizes
    of its artifacts, each other job one status; and it reports every agent of the one query
    for them, whose limit is the limit of artifacts. The times are the seconds within a day: they
    are the whole seconds of the difference when it is between nothing and one day, and always
    below 86,400, so that a job of a day or more shows what is left over the whole days. *)
Theorem exporter_samples {limit} (query_jobs : list string -> limit -> limit -> _) query_agents rest_builds JOBS MAX_JOB_COUNT MAX_ARTIFACTS_COUNT now :
  let run := collect query_jobs query_agents rest_builds JOBS MAX_JOB_COUNT MAX_ARTIFACTS_COUNT now in
  (forall keys builds agents, job_keys rest_builds JOBS = Ok keys -> query_jobs keys MAX_JOB_COUNT MAX_ARTIFACTS_COUNT = Ok builds ->
     query_agents MAX_ARTIFACTS_COUNT = Ok agents -> forallb (fun bj => complete_job (snd bj)) (tagged builds) = true ->
     forallb (fun g => bool_decide (is_Some (g_os g))) agents = true -> exists m, run = Ok m) /\
  forall m, run = Ok m ->
  exists keys builds agents, query_jobs keys MAX_JOB_COUNT MAX_ARTIFACTS_COUNT = Ok builds /\
    query_agents MAX_ARTIFACTS_COUNT = Ok agents /\
    collected now (tagged builds) m /\ zlength (total_count m) = zlength agents /\
    (forall j, 0 <= runtime_value j < 86400 /\ 0 <= waittime_value now j < 86400) /\
    (forall j s e, j_started_at j = Some s -> j_finished_at j = Some e -> 0 <= e - s < 86400 * 1000000 ->
       runtime_value j = (e - s) / 1000000) /\
    (forall j s t, j_scheduled_at j = Some t -> j_started_at j = Some s -> 0 <= s - t < 86400 * 1000000 ->
       waittime_value now j = (s - t) / 1000000).
Proof.
  cbv zeta. unfold collect, collect_job_data, collect_agent_data. split.
  { intros keys builds agents Hk Hb Ha Hj Hg. rewrite Hk. cbn [bind]. rewrite Hb. cbn [bind]. rewrite collect_builds.
    destruct (collect_jobs_total now _ no_metrics Hj) as [m1 ->]. cbn [bind]. rewrite Ha. by apply collect_agents_total. }
  intros m H. apply bind_Ok_inv in H as (m1 & H1 & H). apply bind_Ok_inv in H1 as (ks & _ & H1).
  apply bind_Ok_inv in H1 as (builds & Hb & H1). apply bind_Ok_inv in H as (agents & Ha & H).
  rewrite collect_builds in H1. apply collect_jobs_collected in H1 as [[? ? ? ? ?] Ht].
  apply collect_agents_length in H as (Hl & E1 & E2 & E3 & E4 & E5).
  exists ks, builds, agents. split_and!; [done|done| | | | |].
  - split; congruence.
  - rewrite Hl, Ht. unfold zlength. cbn. lia.
  - intros j. split; by apply Z.mod_pos_bound.
  - intros j s e Hs He Hd. unfold runtime_value. rewrite Hs, He. by apply seconds_exact.
  - intros j s t Hs He Hd. unfold waittime_value. rewrite Hs, He. by apply seconds_exact.
Qed.

(** A finished job of 25 hours, and a running one. *)
Definition toy_builds : list build :=
  [Build "develop"
    [Job "FINISHED" (Some 0) (Some 30000000) (Some 90030000000) (Some "0") (Some true) (Some false) (Some (Some "test")) (Some "host-1")
       ["size=large"] [Artifact "FINISHED" "a.deb" "https://a" "deb" 1024];
     Job "RUNNING" (Some 0) (Some 12000000) None None None None (Some None) None [] []]].

Lemma exporter_samples_witness :
  exists m, collect (fun _ _ _ => Ok toy_builds) (fun _ => Ok []) (Ok []) "test" 500 500 0 = Ok m /\
  map snd (runtime m) = [3600] /\ map snd (waittime m) = [30; 12] /\
  exists keys builds agents, Ok toy_builds = Ok builds /\ Ok [] = Ok agents /\ @length string keys = length keys /\
    collected 0 (tagged builds) m /\ zlength (total_count m) = @zlength agent agents.
Proof.
  destruct (collect (fun _ _ _ => Ok toy_builds) (fun _ => Ok []) (Ok []) "test" 500 500 0) as [m|e] eqn:E.
  - destruct (proj2 (exporter_samples (fun _ _ _ => Ok toy_builds) (fun _ => Ok []) (Ok []) "test" 500 500 0) m E) as (ks & builds & agents & Hb & Ha & Hc & Hl & _).
    exists m. split; [done|]. vm_compute in E. injection E as <-. do 2 (split; [done|]). by exists ks, builds, agents.
  - vm_compute in E. discriminate E.
Defined.
