(* ===== verification/GraphQL.v ===== *)
(** * GraphQL queries and their answers

    The programs that ask GraphQL services hold their queries as texts.  This file has the
    part of the language that the texts use: a lexer and a parser for documents, the
    expansion of fragments, and what it means for an answer to be the one that a selection
    asks for.  The schema of a service is a parameter: the type of a field. *)

From stdpp Require Import base list strings.
From Stdlib Require Import Ascii ZArith Lia.
From S2P Require Import Prelude Dict PyStr.
Open Scope string_scope.

(** ** Tokens *)
Inductive token : Type :=
| TName (n : string)
| TPunct (a : ascii)
| TSpread.

#[export] Instance token_eq : EqDecision token.
Proof. solve_decision. Defined.

Definition is_name_char (a : ascii) : bool :=
  let n := nat_of_ascii a in
  ((48 <=? n) && (n <=? 57) || (65 <=? n) && (n <=? 90) || (97 <=? n) && (n <=? 122) || (n =? 95))%nat.

(** White space and commas are ignored. *)
Definition is_ignored (a : ascii) : bool := is_space a || Ascii.eqb a ",".

Definition is_punct (a : ascii) : bool := existsb (Ascii.eqb a) ["!"; "$"; "("; ")"; ":"; "="; "@"; "["; "]"; "{"; "|"; "}"]%char.

Definition flush_name (cur : string) (ts : list token) : list token := match cur with EmptyString => ts | _ => TName cur :: ts end.

(** [cur] is the name being read, [dots] the number of dots. *)
Fixpoint lex (cur : string) (dots : nat) (s : string) : option (list token) :=
  match s with
  | EmptyString => match dots with O => Some (flush_name cur []) | _ => None end
  | String a s' =>
      if Ascii.eqb a "." then
        match dots with
        | 2%nat => ts ← lex "" 0 s'; Some (TSpread :: ts)
        | _ => ts ← lex "" (S dots) s'; Some (flush_name cur ts)
        end
      else match dots with
      | S _ => None
      | O =>
          if is_name_char a then lex (cur +:+ String a "") 0 s'
          else if is_ignored a then ts ← lex "" 0 s'; Some (flush_name cur ts)
          else if is_punct a then ts ← lex "" 0 s'; Some (flush_name cur (TPunct a :: ts))
          else None
      end
  end.

Definition tokens (s : string) : option (list token) := lex "" 0 s.

(** ** Documents *)
Inductive sel : Type :=
| Field (name : string) (args : list token) (sub : list sel)
| Spread (fragment : string)
| Inline (type : string) (sub : list sel).

Inductive definition : Type :=
| Query (name : string) (variables : list token) (sels : list sel)
| Fragment (name type : string) (sels : list sel).

(** The tokens up to a closing parenthesis, after an opening one. *)
Fixpoint until_close (ts : list token) : option (list token * list token) :=
  match ts with
  | [] => None
  | TPunct ")" :: ts' => Some ([], ts')
  | t :: ts' => '(l, r) ← until_close ts'; Some (t :: l, r)
  end.

Definition parse_arguments (ts : list token) : option (list token * list token) :=
  match ts with TPunct "(" :: ts' => until_close ts' | _ => Some ([], ts) end.

(** The selections up to a closing brace, after an opening one. *)
Fixpoint parse_sels (fuel : nat) (ts : list token) : option (list sel * list token) :=
  match fuel with
  | O => None
  | S fuel' =>
      match ts with
      | TPunct "}" :: ts' => Some ([], ts')
      | TSpread :: TName "on" :: TName ty :: TPunct "{" :: ts' =>
          '(sub, ts1) ← parse_sels fuel' ts'; '(rest, ts2) ← parse_sels fuel' ts1; Some (Inline ty sub :: rest, ts2)
      | TSpread :: TName f :: ts' => '(rest, ts1) ← parse_sels fuel' ts'; Some (Spread f :: rest, ts1)
      | TName n :: ts' =>
          '(args, ts0) ← parse_arguments ts';
          match ts0 with
          | TPunct "{" :: ts0' =>
              '(sub, ts1) ← parse_sels fuel' ts0'; '(rest, ts2) ← parse_sels fuel' ts1; Some (Field n args sub :: rest, ts2)
          | _ => '(rest, ts1) ← parse_sels fuel' ts0; Some (Field n args [] :: rest, ts1)
          end
      | _ => None
      end
  end.

Definition parse_definition (fuel : nat) (ts : list token) : option (definition * list token) :=
  match ts with
  | TName "query" :: TName n :: ts' =>
      '(vars, ts0) ← parse_arguments ts';
      match ts0 with
      | TPunct "{" :: ts0' => '(sels, ts1) ← parse_sels fuel ts0'; Some (Query n vars sels, ts1)
      | _ => None
      end
  | TName "fragment" :: TName n :: TName "on" :: TName ty :: TPunct "{" :: ts' =>
      '(sels, ts1) ← parse_sels fuel ts'; Some (Fragment n ty sels, ts1)
  | _ => None
  end.

Fixpoint parse_definitions (fuel : nat) (ts : list token) : option (list definition) :=
  match ts with
  | [] => Some []
  | _ =>
      match fuel with
      | O => None
      | S fuel' =>
          '(d, ts1) ← parse_definition (S (length ts)) ts; ds ← parse_definitions fuel' ts1; Some (d :: ds)
      end
  end.

Definition parse (text : string) : option (list definition) := ts ← tokens text; parse_definitions (S (length ts)) ts.

(** ** Fragments *)
Fixpoint fragment (ds : list definition) (n : string) : option (string * list sel) :=
  match ds with
  | [] => None
  | Fragment m ty sels :: ds' => if String.eqb n m then Some (ty, sels) else fragment ds' n
  | Query _ _ _ :: ds' => fragment ds' n
  end.

Definition mapO {A B} (f : A -> option B) : list A -> option (list B) :=
  fix go l := match l with [] => Some [] | x :: l' => y ← f x; ys ← go l'; Some (y :: ys) end.

(** A spread is an inline fragment; the fuel bounds the nesting of spreads and selections. *)
Fixpoint expand (fuel : nat) (ds : list definition) (s : sel) : option sel :=
  match fuel with
  | O => None
  | S fuel' =>
      match s with
      | Field n args sub => sub' ← mapO (expand fuel' ds) sub; Some (Field n args sub')
      | Inline ty sub => sub' ← mapO (expand fuel' ds) sub; Some (Inline ty sub')
      | Spread n => '(ty, sels) ← fragment ds n; sub' ← mapO (expand fuel' ds) sels; Some (Inline ty sub')
      end
  end.

(** The selections of the first query of a text, without spreads. *)
Definition operation (fuel : nat) (text : string) : option (list sel) :=
  ds ← parse text;
  match ds with
  | Query _ _ sels :: _ => mapO (expand fuel ds) sels
  | _ => None
  end.

(** ** Variables *)
Fixpoint variables_from (after_dollar : bool) (ts : list token) : list string :=
  match ts with
  | [] => []
  | TName n :: ts' => if after_dollar then n :: variables_from false ts' else variables_from false ts'
  | TPunct a :: ts' => variables_from (Ascii.eqb a "$") ts'
  | TSpread :: ts' => variables_from false ts'
  end.

Definition variables_in (ts : list token) : list string := variables_from false ts.

Fixpoint variables_used (s : sel) : list string :=
  match s with
  | Field _ args sub => (variables_in args ++ flat_map variables_used sub)%list
  | Inline _ sub => flat_map variables_used sub
  | Spread _ => []
  end.

(** The declarations of a query: the name and the type of each variable. *)
Inductive vtype : Type :=
| VNamed (n : string)
| VList (t : vtype)
| VNonNull (t : vtype).

Definition bang (t : vtype) (ts : list token) : vtype * list token :=
  match ts with TPunct "!" :: ts' => (VNonNull t, ts') | _ => (t, ts) end.

Fixpoint parse_vtype (ts : list token) : option (vtype * list token) :=
  match ts with
  | TName n :: ts' => Some (bang (VNamed n) ts')
  | TPunct "[" :: ts' =>
      '(t, ts1) ← parse_vtype ts';
      match ts1 with TPunct "]" :: ts2 => Some (bang (VList t) ts2) | _ => None end
  | _ => None
  end.

Fixpoint parse_declarations (fuel : nat) (ts : list token) : option (list (string * vtype)) :=
  match fuel, ts with
  | _, [] => Some []
  | S fuel', TPunct "$" :: TName n :: TPunct ":" :: ts' =>
      '(t, ts1) ← parse_vtype ts'; ds ← parse_declarations fuel' ts1; Some ((n, t) :: ds)
  | _, _ => None
  end.

(** Those of the first query of a text. *)
Definition declarations (text : string) : option (list (string * vtype)) :=
  ds ← parse text;
  match ds with Query _ vars _ :: _ => parse_declarations (length vars) vars | _ => None end.

(** ** Answers *)
Inductive json : Type :=
| JNull
| JBool (b : bool)
| JNum (z : Z)
| JStr (s : string)
| JArr (l : list json)
| JObj (d : dict string json).

(** The values that a variable of a type may be given.  A value that is not a list stands for
    the list of it; an integer has 32 bits. *)
Fixpoint input_ok (t : vtype) (v : json) : bool :=
  match t with
  | VNonNull t' => match v with JNull => false | _ => input_ok t' v end
  | VList t' => match v with JNull => true | JArr l => forallb (input_ok t') l | _ => input_ok t' v end
  | VNamed n =>
      match v with
      | JNull => true
      | JNum z => String.eqb n "Int" && (-2 ^ 31 <=? z)%Z && (z <? 2 ^ 31)%Z || String.eqb n "ID"
      | JStr _ => negb (String.eqb n "Int") && negb (String.eqb n "Boolean")
      | JBool _ => String.eqb n "Boolean"
      | _ => false
      end
  end.

(** A request is executed when its text declares the variables that it uses, each once, and each has a
    value of its type; a variable without a value is null. *)
Definition well_formed (fuel : nat) (text : string) : bool :=
  match operation fuel text, declarations text with
  | Some sels, Some ds =>
      bool_decide (Forall (fun x => x ∈ map fst ds) (flat_map variables_used sels)) &&
      bool_decide (Forall (fun x => x ∈ flat_map variables_used sels) (map fst ds)) && bool_decide (NoDup (map fst ds))
  | _, _ => false
  end.

Definition accepted (fuel : nat) (text : string) (vars : dict string json) : bool :=
  well_formed fuel text &&
  match declarations text with
  | Some ds => forallb (fun '(x, t) => input_ok t (default JNull (get vars x))) ds
  | None => false
  end.

(** The type of a field: a scalar, an object of one of some types, a list, or a type with null. *)
Inductive gtype : Type :=
| TScalar (ok : json -> bool)
| TObject (types : list string)
| TList (t : gtype)
| TNullable (t : gtype).

Section Answers.
Context (field_type : string -> string -> option gtype).

(** A value of a type; [leaf] says that nothing is selected of it, as is right for scalars only,
    and [obj] what an object is asked for. *)
Fixpoint value_ok (leaf : bool) (obj : string -> dict string json -> bool) (t : gtype) (v : json) : bool :=
  match t with
  | TScalar ok => leaf && ok v
  | TObject types => negb leaf && match v with JObj d => existsb (fun ty => obj ty d) types | _ => false end
  | TList t' => match v with JArr l => forallb (value_ok leaf obj t') l | _ => false end
  | TNullable t' => match v with JNull => true | _ => value_ok leaf obj t' v end
  end.

Definition is_leaf (sub : list sel) : bool := match sub with [] => true | _ => false end.

Definition is_str (s : string) (v : json) : bool := match v with JStr s' => String.eqb s' s | _ => false end.

(** An object of type [ty] has what the selection asks for. *)
Fixpoint answers_sel (s : sel) (ty : string) (d : dict string json) : bool :=
  match s with
  | Field n _ sub =>
      match get d n with
      | None => false
      | Some v =>
          if String.eqb n "__typename" then is_str ty v else
          match field_type ty n with
          | Some t => value_ok (is_leaf sub) (fun ty' d' => forallb (fun s => answers_sel s ty' d') sub) t v
          | None => false
          end
      end
  | Inline ty' sub => negb (String.eqb ty ty') || forallb (fun s => answers_sel s ty d) sub
  | Spread _ => false
  end.

Definition answers (sels : list sel) (ty : string) (d : dict string json) : bool := forallb (fun s => answers_sel s ty d) sels.

(** The answer to a request that is executed; the data is null when an error leaves nothing of it. *)
Definition response (root : string) (sels : list sel) (body : json) : bool :=
  match body with
  | JObj b =>
      match get b "data" with
      | Some JNull => true
      | Some (JObj d) => answers sels root d
      | _ => false
      end
  | _ => false
  end.
End Answers.

(** ** Reading an answer in Python *)
Definition item (v : json) (k : string) : result json := match v with JObj d => get_item d k | _ => Err TypeError end.

Definition elements (v : json) : result (list json) := match v with JArr l => Ok l | _ => Err TypeError end.

Fixpoint path (v : json) (ks : list string) : result json :=
  match ks with
  | [] => Ok v
  | k :: ks' => let* v' := item v k in path v' ks'
  end.

(** A JSON string, [None] for null; the values of other types are not read by the programs. *)
Definition opt_string (v : json) : result (option string) :=
  match v with JStr s => Ok (Some s) | JNull => Ok None | _ => Err TypeError end.

Definition as_string (v : json) : result string := match v with JStr s => Ok s | _ => Err TypeError end.
Definition as_int (v : json) : result Z := match v with JNum z => Ok z | _ => Err TypeError end.
Definition opt_bool (v : json) : result (option bool) := match v with JBool b => Ok (Some b) | JNull => Ok None | _ => Err TypeError end.

(** ** Reading what was asked for *)

(** What is selected of the field [k], and of the objects of a type. *)
Fixpoint sub_of (sels : list sel) (k : string) : option (list sel) :=
  match sels with
  | [] => None
  | Field n _ sub :: sels' => if String.eqb n k then Some sub else sub_of sels' k
  | _ :: sels' => sub_of sels' k
  end.

Fixpoint inline_of (sels : list sel) (ty : string) : option (list sel) :=
  match sels with
  | [] => None
  | Inline ty' sub :: sels' => if String.eqb ty' ty then Some sub else inline_of sels' ty
  | _ :: sels' => inline_of sels' ty
  end.

(** The result is not a missing key. *)
Definition no_key_error {A} (r : result A) : Prop := r <> Err KeyError.

Lemma no_key_bind {A B} (r : result A) (k : A -> result B) : no_key_error r -> (forall a, r = Ok a -> no_key_error (k a)) -> no_key_error (bind r k).
Proof. unfold no_key_error. destruct r as [a|e]; cbn [bind]; [intros _ H; by apply H | congruence]. Qed.

Lemma no_key_mapM {A B} (f : A -> result B) l : (forall x, x ∈ l -> no_key_error (f x)) -> no_key_error (mapM f l).
Proof.
  induction l as [|x l IH]; intros H; cbn [mapM]; [done|]. apply no_key_bind; [apply H; left|]. intros y _.
  apply no_key_bind; [|done]. apply IH. intros z Hz. apply H. by right.
Qed.

Lemma no_key_foldM {A S} (f : S -> A -> result S) l s : (forall s x, no_key_error (f s x)) -> no_key_error (foldM f l s).
Proof. intros H. revert s. induction l as [|x l IH]; intros s; cbn [foldM]; [done|]. apply no_key_bind; [apply H | intros; apply IH]. Qed.

Lemma no_key_leaf v : no_key_error (opt_string v) /\ no_key_error (as_string v) /\ no_key_error (as_int v) /\ no_key_error (opt_bool v).
Proof. by destruct v. Qed.

Section Asked.
Context (field_type : string -> string -> option gtype).

(** A value of a field of which [sels] is selected. *)
Inductive asked (sels : list sel) : json -> Prop :=
| asked_null : asked sels JNull
| asked_object ty d : answers field_type sels ty d = true -> asked sels (JObj d)
| asked_list l : (forall v, v ∈ l -> asked sels v) -> asked sels (JArr l).

Lemma value_ok_asked sels t v : is_leaf sels = false -> value_ok (is_leaf sels) (answers field_type sels) t v = true -> asked sels v.
Proof.
  intros Hl. rewrite Hl. revert v. induction t as [ok|types|t IH|t IH]; intros v H; cbn [value_ok negb andb] in H.
  - discriminate H.
  - destruct v as [| | | | |d]; try discriminate H. apply existsb_exists in H as (ty & _ & H). by eapply asked_object.
  - destruct v as [| | | |l|]; try discriminate H. constructor. intros v Hv. apply IH. rewrite forallb_forall in H. by apply H, list_elem_of_In.
  - destruct v; try (by apply IH). constructor.
Qed.

Lemma answers_sub sels ty d k sub : answers field_type sels ty d = true -> sub_of sels k = Some sub ->
  exists v, get d k = Some v /\ (is_leaf sub = false -> k <> "__typename" -> asked sub v).
Proof.
  unfold answers. induction sels as [|s sels IH]; intros H Hs; [done|]. cbn [forallb] in H. apply andb_true_iff in H as [H0 H].
  destruct s as [n args sub'|f|ty' sub']; cbn [sub_of] in Hs; [|by apply IH..].
  destruct (String.eqb_spec n k) as [->|Hn]; [|by apply IH]. injection Hs as ->. cbn [answers_sel] in H0.
  destruct (get d k) as [v|]; [|discriminate H0]. exists v. split; [done|]. intros Hl Hk.
  destruct (String.eqb_spec k "__typename") as [->|_]; [done|]. destruct (field_type ty k) as [t|]; [|discriminate H0]. by eapply value_ok_asked.
Qed.

(** A key of the selection is found, unless there is no object. *)
Lemma asked_item sels v k sub : asked sels v -> sub_of sels k = Some sub -> k <> "__typename" ->
  no_key_error (item v k) /\ forall v', item v k = Ok v' -> is_leaf sub = false -> asked sub v'.
Proof.
  intros H Hs Hk. destruct H as [|ty d H|l _]; [done| |done]. destruct (answers_sub _ _ _ _ _ H Hs) as (v & Hv & Hsub).
  unfold no_key_error. cbn [item]. unfold get_item. rewrite Hv. split; [done|]. intros v' [= <-] Hl. by apply Hsub.
Qed.

Lemma asked_elements sels v : asked sels v -> no_key_error (elements v) /\ forall l, elements v = Ok l -> forall x, x ∈ l -> asked sels x.
Proof. intros H. destruct H as [| |l H]; unfold no_key_error; cbn [elements]; [done..|]. split; [done|]. by intros l' [= <-]. Qed.

(** An object of the type of an inline fragment has what it asks for. *)
Lemma asked_inline sels v ty sub : asked sels v -> item v "__typename" = Ok (JStr ty) -> sub_of sels "__typename" = Some [] ->
  inline_of sels ty = Some sub -> asked sub v.
Proof.
  intros H Hty Hs Hi. destruct H as [|ty0 d H|l _]; [done| |done]. cbn [item] in Hty. unfold get_item in Hty.
  assert (ty0 = ty) as ->.
  { clear Hi. unfold answers in H. induction sels as [|s sels IH]; [done|]. cbn [forallb] in H. apply andb_true_iff in H as [H0 H].
    destruct s as [n args sub'|f|ty' sub']; cbn [sub_of] in Hs; [|by apply IH..].
    destruct (String.eqb_spec n "__typename") as [->|Hn]; [|by apply IH]. cbn [answers_sel] in H0.
    destruct (get d "__typename") as [v|]; [|discriminate H0]. injection Hty as ->. by apply String.eqb_eq in H0. }
  apply asked_object with (ty := ty). clear Hs Hty. unfold answers in H. induction sels as [|s sels IH]; [done|]. cbn [forallb] in H. apply andb_true_iff in H as [H0 H].
  destruct s as [n args sub'|f|ty' sub']; cbn [inline_of] in Hi; [by apply IH..|].
  destruct (String.eqb_spec ty' ty) as [->|Hn]; [|by apply IH]. injection Hi as ->. cbn [answers_sel] in H0. by rewrite String.eqb_refl in H0.
Qed.

(** The data of an answer. *)
Lemma response_data root sels body : response field_type root sels body = true -> exists data, item body "data" = Ok data /\ asked sels data.
Proof.
  unfold response. destruct body as [| | | | |b]; try discriminate. cbn [item]. unfold get_item.
  destruct (get b "data") as [data|]; [|discriminate]. intros H. exists data. split; [done|].
  destruct data; try discriminate H; [constructor | by eapply asked_object].
Qed.

(** Steps of a program that reads an answer. *)
Lemma item_then {B} sels v k sub (f : json -> result B) : asked sels v -> sub_of sels k = Some sub -> k <> "__typename" ->
  (forall v', item v k = Ok v' -> (is_leaf sub = false -> asked sub v') -> no_key_error (f v')) -> no_key_error (bind (item v k) f).
Proof.
  intros H Hs Hk Hf. destruct (asked_item sels v k sub H Hs Hk) as [Hn Hi]. apply no_key_bind; [done|]. intros v' Hv'. apply Hf; auto.
Qed.

Lemma elements_then {B} sels v (f : list json -> result B) : asked sels v ->
  (forall l, elements v = Ok l -> (forall x, x ∈ l -> asked sels x) -> no_key_error (f l)) -> no_key_error (bind (elements v) f).
Proof. intros H Hf. destruct (asked_elements sels v H) as [Hn Hl]. apply no_key_bind; [done|]. intros l El. by apply Hf; [|apply Hl]. Qed.
End Asked.

Lemma no_key_elements v : no_key_error (elements v).
Proof. by destruct v. Qed.

Lemma no_key_ok {A} (a : A) : no_key_error (Ok a).
Proof. done. Qed.

(** One step of the proof that a program reads only what was asked for. *)
Ltac no_key_step :=
  match goal with
  | |- no_key_error (Ok _) => apply no_key_ok
  | |- no_key_error (bind (bind _ _) _) => rewrite bind_assoc
  | |- no_key_error (bind (path _ _) _) => cbn [path bind]
  | |- no_key_error (bind (Ok _) _) => cbn [bind]
  | H : asked _ ?sels ?v |- no_key_error (bind (item ?v ?k) _) =>
      eapply (item_then _ sels v k); [exact H | reflexivity | discriminate |];
      let v' := fresh "v" in let Hv := fresh "Hv" in let Ha := fresh "Ha" in
      intros v' Hv Ha; first [specialize (Ha eq_refl) | clear Ha]
  | H : asked _ _ ?v |- no_key_error (bind (elements ?v) _) =>
      apply (elements_then _ _ v _ H); let l := fresh "l" in intros l ? ?
  | |- no_key_error (bind (elements _) _) => apply no_key_bind; [apply no_key_elements|]; intros ? ?
  | |- no_key_error (bind (mapM _ _) _) => apply no_key_bind; [apply no_key_mapM; intros ? ? |]; [|intros ? _]
  | |- no_key_error (bind (opt_string ?v) _) => apply no_key_bind; [apply (no_key_leaf v)|]; intros ? _
  | |- no_key_error (bind (as_string ?v) _) => apply no_key_bind; [apply (no_key_leaf v)|]; intros ? _
  | |- no_key_error (bind (as_int ?v) _) => apply no_key_bind; [apply (no_key_leaf v)|]; intros ? _
  | |- no_key_error (bind (opt_bool ?v) _) => apply no_key_bind; [apply (no_key_leaf v)|]; intros ? _
  | |- no_key_error (as_string ?v) => apply (no_key_leaf v)
  end.
