(* ===== verification/Queries.v ===== *)
(** * The queries of the GraphQL clients, and what they read of the answers

    The texts of the queries of [buildkite/prometheus-exporter/exporter.py],
    [mina-bp-stats/sidecar/sidecar.py], [testnet-validation/compare_best_tip.py] and
    [scripts/introspection_query.py], each with the reading of its answer as the program does
    it.  A program that reads a key that its query does not ask for ends in a KeyError; the
    theorems say that none does.  [strptime] is the parser of times. *)

From stdpp Require Import base list strings.
From Stdlib Require Import Ascii ZArith Lia.
From S2P Require Import Prelude Dict PyStr PySet GraphQL.
From S2P Require Exporter.
Open Scope string_scope.
Open Scope Z_scope.

(** ** The exporter *)
Definition jobQuery : string := "
            query jobQuery($slug: ID!, $createdAtFrom: DateTime, $branch: [String!], $jobLimit: Int, $jobKey: [String!], $jobArtifactLimit: Int){
                pipeline(slug:$slug) {
                    builds(createdAtFrom:$createdAtFrom, branch:$branch) {
                    edges {
                        node {
                        id
                        branch
                        commit
                        state
                        startedAt
                        finishedAt
                        message
                        jobs(first:$jobLimit, , step: { key:$jobKey }) {
                            edges {
                                node {
                                __typename
                                ... on JobTypeCommand {
                                    label
                                    step {
                                        key
                                    }
                                    agent {
                                        hostname
                                    }
                                    agentQueryRules
                                    command
                                    exitStatus
                                    startedAt
                                    finishedAt
                                    runnableAt
                                    scheduledAt
                                    softFailed
                                    passed
                                    state
                                    artifacts(first:$jobArtifactLimit) {
                                        edges {
                                            node {
                                                path
                                                downloadURL
                                                size
                                                state
                                                mimeType
                                                sha1sum
                                            }
                                        }
                                    }
                                }
                                }
                            }
                            }
                        }
                    }
                    }
                }
            }
        ".

Definition agentQuery : string := "
            query agentQuery($slug: ID!, $agentLimit: Int) {
                organization(slug:$slug) {
                    agents(first:$agentLimit) {
                    edges {
                        node {
                        name
                        hostname
                        ipAddress
                        operatingSystem {
                        name
                        }
                        userAgent
                        version
                        versionHasKnownIssues
                        createdAt
                        connectedAt
                        connectionState
                        heartbeatAt
                        isRunningJob
                        pid
                        public
                        metaData
                        userAgent
                        }
                    }
                    }
                }
            }
        ".

Section Read.
Context (strptime : string -> result Z).

(** [strptime(v)]; [Exporter] raises the TypeError of null when it uses the time. *)
Definition time_of (v : json) : result (option Z) :=
  let* s := opt_string v in
  match s with None => Ok None | Some s => let* t := strptime s in Ok (Some t) end.

(** [strptime(v) if v else ...]: the empty string is false. *)
Definition time_or_none (v : json) : result (option Z) :=
  match v with JStr "" => Ok None | _ => time_of v end.

Definition artifact_of_json (a : json) : result Exporter.artifact :=
  let* node := item a "node" in
  let* state := item node "state" in let* state := as_string state in
  let* p := item node "path" in let* p := as_string p in
  let* url := item node "downloadURL" in let* url := as_string url in
  let* mime := item node "mimeType" in let* mime := as_string mime in
  let* size := item node "size" in let* size := as_int size in
  Ok (Exporter.Artifact state p url mime size).

(** [j['node']['step']['key']], where the step may be null. *)
Definition step_key_of (node : json) : result (option (option string)) :=
  let* step := item node "step" in
  match step with
  | JNull => Ok None
  | _ => let* key := item step "key" in let* key := opt_string key in Ok (Some key)
  end.

Definition hostname_of (node : json) : result (option string) :=
  let* agent := item node "agent" in
  match agent with
  | JNull => Ok None
  | _ => let* h := item agent "hostname" in let* h := as_string h in Ok (Some h)
  end.

Definition rules_of (node : json) : result (list string) :=
  let* rules := item node "agentQueryRules" in
  let* rules := elements rules in
  mapM as_string rules.

(** A job; the last three fields are read of finished jobs only. *)
Definition job_of_json (j : json) : result Exporter.job :=
  let* node := item j "node" in
  let* scheduled := item node "scheduledAt" in let* scheduled := time_of scheduled in
  let* state := item node "state" in let* state := as_string state in
  let* started := item node "startedAt" in
  let* exit_status := item node "exitStatus" in let* exit_status := opt_string exit_status in
  let* passed := item node "passed" in let* passed := opt_bool passed in
  let* key := step_key_of node in
  let* host := hostname_of node in
  let* rules := rules_of node in
  if String.eqb state "FINISHED" then
    let* started := time_of started in
    let* finished := item node "finishedAt" in let* finished := time_of finished in
    let* soft := item node "softFailed" in let* soft := opt_bool soft in
    let* artifacts := path node ["artifacts"; "edges"] in let* artifacts := elements artifacts in
    let* artifacts := mapM artifact_of_json artifacts in
    Ok (Exporter.Job state scheduled started finished exit_status passed soft key host rules artifacts)
  else
    let* started := time_or_none started in
    Ok (Exporter.Job state scheduled started None exit_status passed None key host rules []).

(** The branch is read with each job. *)
Definition build_of_json (d : json) : result Exporter.build :=
  let* node := item d "node" in
  let* jobs := path node ["jobs"; "edges"] in let* jobs := elements jobs in
  match jobs with
  | [] => Ok (Exporter.Build "" [])
  | _ =>
      let* branch := item node "branch" in let* branch := as_string branch in
      let* jobs := mapM job_of_json jobs in
      Ok (Exporter.Build branch jobs)
  end.

(** [data['data']['pipeline']['builds']['edges']] *)
Definition builds_of_json (data : json) : result (list Exporter.build) :=
  let* edges := path data ["data"; "pipeline"; "builds"; "edges"] in
  let* edges := elements edges in
  mapM build_of_json edges.

Definition agent_of_json (d : json) : result Exporter.agent :=
  let* node := item d "node" in
  let* version := item node "version" in let* version := as_string version in
  let* issues := item node "versionHasKnownIssues" in let* issues := opt_bool issues in
  let* os := item node "operatingSystem" in
  let* os := match os with JNull => Ok None | _ => let* n := item os "name" in let* n := as_string n in Ok (Some n) end in
  let* running := item node "isRunningJob" in let* running := opt_bool running in
  let* meta := item node "metaData" in let* meta := elements meta in let* meta := mapM as_string meta in
  let* state := item node "connectionState" in let* state := as_string state in
  Ok (Exporter.Agent version issues os running meta state).

Definition agents_of_json (data : json) : result (list Exporter.agent) :=
  let* edges := path data ["data"; "organization"; "agents"; "edges"] in
  let* edges := elements edges in
  mapM agent_of_json edges.
End Read.

(** [os.getenv(name, 500)]: a limit that is set is a string. *)
Definition limit_of (value : option string) : json := match value with Some s => JStr s | None => JNum 500 end.

Section Scrape.
Context (strptime : string -> result Z) (execute_qlquery : string -> dict string json -> result json).
Context (environ : string -> option string) (rest_builds : result (list (list (option string)))) (scan_from : string) (now : Z).

Definition env_or (name default : string) : string := match environ name with Some v => v | None => default end.

Definition ORG_SLUG : string := env_or "BUILDKITE_ORG_SLUG" "o-1-labs-2".
Definition PIPELINE_SLUG : string := strip (env_or "BUILDKITE_PIPELINE_SLUG" "o-1-labs-2/mina").
Definition BRANCH : string := env_or "BUILDKITE_BRANCH" "*".
Definition JOBS : string := env_or "BUILDKITE_JOBS" "".
Definition MAX_JOB_COUNT : json := limit_of (environ "BUILDKITE_MAX_JOB_COUNT").
Definition MAX_AGENT_COUNT : json := limit_of (environ "BUILDKITE_MAX_AGENT_COUNT").
Definition MAX_ARTIFACTS_COUNT : json := limit_of (environ "BUILDKITE_MAX_ARTIFACT_COUNT").

(** The rest of the environment, and the headers of [main]; without a key the text is [None]. *)
Definition API_KEY : option string := environ "BUILDKITE_API_KEY".
Definition API_URL : string := env_or "BUILDKITE_API_URL" "https://graphql.buildkite.com/v1".
Definition METRICS_PORT : result Z := match environ "METRICS_PORT" with Some s => py_int s | None => Ok 8000%Z end.
Definition main_headers : list (string * string) :=
  [("Authorization", "Bearer " +:+ default "None" API_KEY); ("Content-Type", "application/json")].

Definition job_vars (keys : list string) (job_limit artifact_limit : json) : dict string json :=
  [("slug", JStr PIPELINE_SLUG); ("createdAtFrom", JStr scan_from); ("branch", JStr BRANCH); ("jobLimit", job_limit);
   ("jobKey", JArr (map JStr keys)); ("jobArtifactLimit", artifact_limit)].

Definition agent_vars (agent_limit : json) : dict string json := [("slug", JStr ORG_SLUG); ("agentLimit", agent_limit)].

Definition query_jobs (keys : list string) (job_limit artifact_limit : json) : result (list Exporter.build) :=
  let* data := execute_qlquery jobQuery (job_vars keys job_limit artifact_limit) in builds_of_json strptime data.

Definition query_agents (agent_limit : json) : result (list Exporter.agent) :=
  let* data := execute_qlquery agentQuery (agent_vars agent_limit) in agents_of_json data.

(** [int(self.interval)] comes first, then the two queries. *)
Definition scrape : result Exporter.metrics :=
  let* _ := match environ "BUILDKITE_EXPORTER_SCAN_INTERVAL" with Some s => py_int s | None => Ok 3600 end in
  Exporter.collect query_jobs query_agents rest_builds JOBS MAX_JOB_COUNT MAX_ARTIFACTS_COUNT now.
End Scrape.

(** ** The sidecar *)
Definition SYNC_STATUS_GRAPHQL : string := "
query SyncStatus {
  daemonStatus {
    syncStatus
    blockchainLength
  }
}
".

Definition FETCH_BLOCK_GRAPHQL : string := "
query FetchBlockData($blockID: Int!) {
  version
  daemonStatus {
    blockchainLength
    syncStatus
    chainId
    commitId
    highestBlockLengthReceived
    highestUnvalidatedBlockLengthReceived
    stateHash
    blockProductionKeys
    uptimeSecs
  }
  block(height: $blockID) {
    stateHash
  }
}
".

(** [fetch_mina_status]: the status and the length. *)
Definition status_of_json (body : json) : result (string * Z) :=
  let* data := item body "data" in
  let* s := path data ["daemonStatus"; "syncStatus"] in let* s := as_string s in
  let* n := path data ["daemonStatus"; "blockchainLength"] in let* n := as_int n in
  Ok (s, n).

(** [fetch_block], and the length that the loop reads of the block. *)
Definition block_length_of_json (body : json) : result (option Z) :=
  let* data := item body "data" in
  match data with
  | JNull => Ok None
  | _ => let* n := path data ["daemonStatus"; "blockchainLength"] in let* n := as_int n in Ok (Some n)
  end.

(** ** The best tips *)
Definition bestChainQuery : string := "query bestChainQuery { bestChain { stateHash } }".

(** The state hashes of [process_pod]; [None] is a null chain. *)
Definition best_chain_of_json (result_ : json) : result (option (list string)) :=
  let* chain := path result_ ["data"; "bestChain"] in
  match chain with
  | JNull => Ok None
  | _ => let* blocks := elements chain in
         let* hashes := mapM (fun a => let* h := item a "stateHash" in as_string h) blocks in Ok (Some hashes)
  end.

(** ** The introspection query *)
Definition introspection_query : string := "
query IntrospectionQuery {
    __schema {
      queryType { name }
      mutationType { name }
      subscriptionType { name }
      types {
        ...FullType
      }
      directives {
        name
        description
        locations
        args {
          ...InputValue
        }
      }
    }
  }
  fragment FullType on __Type {
    kind
    name
    description
    fields(includeDeprecated: true) {
      name
      description
      args {
        ...InputValue
      }
      type {
        ...TypeRef
      }
      isDeprecated
      deprecationReason
    }
    inputFields {
      ...InputValue
    }
    interfaces {
      ...TypeRef
    }
    enumValues(includeDeprecated: true) {
      name
      description
      isDeprecated
      deprecationReason
    }
    possibleTypes {
      ...TypeRef
    }
  }
  fragment InputValue on __InputValue {
    name
    description
    type { ...TypeRef }
    defaultValue
  }
  fragment TypeRef on __Type {
    kind
    name
    ofType {
      kind
      name
      ofType {
        kind
        name
        ofType {
          kind
          name
          ofType {
            kind
            name
            ofType {
              kind
              name
              ofType {
                kind
                name
                ofType {
                  kind
                  name
                }
              }
            }
          }
        }
      }
    }
  }".

(** ** What the texts ask for *)
Definition selections (text : string) : list sel := default [] (operation 40 text).

Fixpoint sels_at (sels : list sel) (ks : list string) : list sel :=
  match ks with [] => sels | k :: ks' => sels_at (default [] (sub_of sels k)) ks' end.

Definition job_sels : list sel := Eval vm_compute in selections jobQuery.
Definition agent_sels : list sel := Eval vm_compute in selections agentQuery.
Definition build_edge : list sel := Eval vm_compute in sels_at job_sels ["pipeline"; "builds"; "edges"].
Definition job_edge : list sel := Eval vm_compute in sels_at build_edge ["node"; "jobs"; "edges"].
Definition command_sels : list sel := Eval vm_compute in default [] (inline_of (sels_at job_edge ["node"]) "JobTypeCommand").
Definition artifact_edge : list sel := Eval vm_compute in sels_at command_sels ["artifacts"; "edges"].
Definition agent_edge : list sel := Eval vm_compute in sels_at agent_sels ["organization"; "agents"; "edges"].

(** The texts are well formed. *)
Lemma texts_well_formed :
  forallb (well_formed 40) [jobQuery; agentQuery; SYNC_STATUS_GRAPHQL; FETCH_BLOCK_GRAPHQL; bestChainQuery; introspection_query] = true.
Proof. vm_compute. reflexivity. Qed.

(** The jobs of an answer whose nodes are commands, or null. *)
Definition is_command (j : json) : bool :=
  match item j "node" with
  | Ok JNull => true
  | Ok node => match item node "__typename" with Ok (JStr ty) => String.eqb ty "JobTypeCommand" | _ => false end
  | Err _ => true
  end.

Definition all_in (v : json) (ks : list string) (p : json -> bool) : bool :=
  match path v ks with Ok (JArr l) => forallb p l | _ => true end.

Definition commands_only (body : json) : bool :=
  all_in body ["data"; "pipeline"; "builds"; "edges"] (fun b => all_in b ["node"; "jobs"; "edges"] is_command).

Lemma all_in_spec v ks p l : all_in v ks p = true -> path v ks = Ok (JArr l) -> forall x, x ∈ l -> p x = true.
Proof. unfold all_in. intros H E. rewrite E in H. intros x Hx. rewrite forallb_forall in H. apply H. by apply list_elem_of_In. Qed.

Section Reads.
Context (field_type : string -> string -> option gtype) (root : string) (strptime : string -> result Z).
Context (Hstrptime : forall s, no_key_error (strptime s)).
Notation asked := (asked field_type).

Lemma time_of_no_key v : no_key_error (time_of strptime v).
Proof. unfold time_of. no_key_step. destruct a as [s|]; [|no_key_step]. apply no_key_bind; [apply Hstrptime|]. intros t _. no_key_step. Qed.

Lemma time_or_none_no_key v : no_key_error (time_or_none strptime v).
Proof. unfold time_or_none. destruct v as [| | |[|]| |]; try apply time_of_no_key. done. Qed.

Lemma artifact_reads a : asked artifact_edge a -> no_key_error (artifact_of_json a).
Proof. intros H. unfold artifact_of_json. repeat no_key_step. Qed.

Lemma step_key_reads node : asked command_sels node -> no_key_error (step_key_of node).
Proof. intros H. unfold step_key_of. no_key_step. destruct v; try no_key_step; repeat no_key_step. Qed.

Lemma hostname_reads node : asked command_sels node -> no_key_error (hostname_of node).
Proof. intros H. unfold hostname_of. no_key_step. destruct v; try no_key_step; repeat no_key_step. Qed.

Lemma rules_reads node : asked command_sels node -> no_key_error (rules_of node).
Proof. intros H. unfold rules_of. repeat no_key_step. apply no_key_mapM. intros x _. no_key_step. Qed.

(** A job that is a command, or null. *)
Lemma job_reads j : asked job_edge j -> is_command j = true -> no_key_error (job_of_json strptime j).
Proof.
  intros H Hc. unfold job_of_json. unfold is_command in Hc. no_key_step. rewrite Hv in Hc. destruct v as [| | | | |d]; try done.
  destruct (item (JObj d) "__typename") as [[| | |ty| |]|] eqn:E; try discriminate Hc. apply String.eqb_eq in Hc as ->.
  assert (asked command_sels (JObj d)) as H' by (eapply asked_inline; [exact Ha | exact E | reflexivity | reflexivity]).
  clear Ha Hv E H. generalize dependent (JObj d). intros node H.
  pose proof (time_of_no_key : forall v, _) as Ht. pose proof (step_key_reads _ H). pose proof (hostname_reads _ H). pose proof (rules_reads _ H).
  repeat first [no_key_step | apply no_key_bind; [first [apply Ht | done] | intros ? _]].
  destruct (String.eqb _ _); repeat first [no_key_step | apply no_key_bind; [first [apply Ht | apply time_or_none_no_key] | intros ? _]].
  eapply artifact_reads. eauto.
Qed.

Lemma build_reads d : asked build_edge d -> all_in d ["node"; "jobs"; "edges"] is_command = true -> no_key_error (build_of_json strptime d).
Proof.
  intros H Hc. unfold build_of_json. repeat no_key_step.
  destruct l as [|j l]; [no_key_step|]. repeat no_key_step. apply job_reads; [auto|]. refine (all_in_spec _ _ _ _ Hc _ _ _); [|done].
  cbn [path]. rewrite Hv. cbn [bind]. rewrite Hv0. cbn [bind]. rewrite Hv1. cbn [bind]. by destruct v1; try discriminate; injection H0 as ->.
Qed.

Lemma builds_read body : response field_type root job_sels body = true -> commands_only body = true -> no_key_error (builds_of_json strptime body).
Proof.
  intros (data & Hd & H)%response_data Hc. unfold builds_of_json. unfold commands_only in Hc. cbn [path]. rewrite Hd. cbn [bind].
  repeat no_key_step. apply no_key_mapM. intros b Hb. apply build_reads; [auto|]. refine (all_in_spec _ _ _ _ Hc _ _ Hb).
  cbn [path]. rewrite Hd. cbn [bind]. rewrite Hv. cbn [bind]. rewrite Hv0. cbn [bind]. rewrite Hv1. cbn [bind].
  by destruct v1; try discriminate; injection H0 as ->.
Qed.

Lemma agent_reads d : asked agent_edge d -> no_key_error (agent_of_json d).
Proof.
  intros H. unfold agent_of_json. repeat no_key_step. apply no_key_bind.
  - destruct v2; try no_key_step; repeat no_key_step.
  - intros os _. repeat no_key_step.
Qed.

Lemma agents_read body : response field_type root agent_sels body = true -> no_key_error (agents_of_json body).
Proof.
  intros (data & Hd & H)%response_data. unfold agents_of_json. cbn [path]. rewrite Hd. cbn [bind].
  repeat no_key_step. apply no_key_mapM. intros b Hb. apply agent_reads. auto.
Qed.

Lemma status_read body : response field_type root (selections SYNC_STATUS_GRAPHQL) body = true -> no_key_error (status_of_json body).
Proof. intros (data & Hd & H)%response_data. vm_compute selections in H. unfold status_of_json. rewrite Hd. cbn [bind]. repeat no_key_step. Qed.

Lemma block_read body : response field_type root (selections FETCH_BLOCK_GRAPHQL) body = true -> no_key_error (block_length_of_json body).
Proof.
  intros (data & Hd & H)%response_data. vm_compute selections in H. unfold block_length_of_json. rewrite Hd. cbn [bind].
  destruct data; try no_key_step; repeat no_key_step.
Qed.

Lemma best_chain_read body : response field_type root (selections bestChainQuery) body = true -> no_key_error (best_chain_of_json body).
Proof.
  intros (data & Hd & H)%response_data. vm_compute selections in H. unfold best_chain_of_json. cbn [path]. rewrite Hd. cbn [bind].
  repeat no_key_step. destruct v; try no_key_step; repeat no_key_step.
  all: specialize (H1 _ H2); repeat no_key_step.
Qed.
End Reads.

(** The collector itself does not look up keys. *)
Lemma no_key_not_null {A} (o : option A) : no_key_error (Exporter.not_null o).
Proof. by destruct o. Qed.

Lemma collect_job_no_key now b m j : no_key_error (Exporter.collect_job now b m j).
Proof.
  unfold Exporter.collect_job, Exporter.finished_job, Exporter.unfinished_job. apply no_key_bind; [apply no_key_not_null|]. intros t _.
  destruct (Exporter.finished j); repeat first [no_key_step | apply no_key_bind; [apply no_key_not_null|]; intros ? _].
Qed.

Lemma collect_agent_no_key m g : no_key_error (Exporter.collect_agent m g).
Proof. apply no_key_bind; [apply no_key_not_null|]. intros os _. no_key_step. Qed.

(** ** The service *)

(** A GraphQL service answers a request that it accepts as its schema says, with the type [root] of queries;
    the client raises no KeyError of its own. *)
Class Service (field_type : string -> string -> option gtype) (root : string) (execute_qlquery : string -> dict string json -> result json) : Prop := {
  service_raises : forall text vars, no_key_error (execute_qlquery text vars);
  service_answers : forall text vars body, accepted 40 text vars = true -> execute_qlquery text vars = Ok body ->
    response field_type root (selections text) body = true
}.

Lemma job_declarations : declarations jobQuery =
  Some [("slug", VNonNull (VNamed "ID")); ("createdAtFrom", VNamed "DateTime"); ("branch", VList (VNonNull (VNamed "String")));
        ("jobLimit", VNamed "Int"); ("jobKey", VList (VNonNull (VNamed "String"))); ("jobArtifactLimit", VNamed "Int")].
Proof. vm_compute. reflexivity. Qed.

Lemma agent_declarations : declarations agentQuery = Some [("slug", VNonNull (VNamed "ID")); ("agentLimit", VNamed "Int")].
Proof. vm_compute. reflexivity. Qed.

Lemma exporter_well_formed : well_formed 40 jobQuery = true /\ well_formed 40 agentQuery = true.
Proof. split; vm_compute; reflexivity. Qed.

(** The number that stands for an unset limit has the type Int; a string has not. *)
Lemma job_vars_accepted environ scan_from keys l1 l2 :
  accepted 40 jobQuery (job_vars environ scan_from keys (limit_of l1) (limit_of l2)) = bool_decide (l1 = None /\ l2 = None).
Proof.
  unfold accepted. rewrite (proj1 exporter_well_formed), job_declarations.
  assert (input_ok (VList (VNonNull (VNamed "String"))) (JArr (map JStr keys)) = true) as Hk.
  { apply forallb_forall. intros v Hv. apply in_map_iff in Hv as (k & <- & _). done. }
  unfold job_vars. remember (JArr (map JStr keys)) as ks eqn:E. clear E. remember (input_ok _ ks) as b eqn:E in Hk. cbn -[input_ok].
  change (input_ok (VNamed "Int") (limit_of l1) && (input_ok (VList (VNonNull (VNamed "String"))) ks && (input_ok (VNamed "Int") (limit_of l2) && true))
    = bool_decide (l1 = None /\ l2 = None)). rewrite <- E, Hk. by destruct l1, l2.
Qed.

Lemma agent_vars_accepted environ limit : accepted 40 agentQuery (agent_vars environ (limit_of limit)) = bool_decide (limit = None).
Proof. unfold accepted. rewrite (proj2 exporter_well_formed), agent_declarations. by destruct limit. Qed.

Section Covered.
Context (field_type : string -> string -> option gtype) (root : string) (strptime : string -> result Z).
Context (execute_qlquery : string -> dict string json -> result json) (service : Service field_type root execute_qlquery).
Context (environ : string -> option string) (rest_builds : result (list (list (option string)))) (scan_from : string) (now : Z).
Context (Hstrptime : forall s, no_key_error (strptime s)) (Hrest : no_key_error rest_builds).
Context (Hjobs : environ "BUILDKITE_MAX_JOB_COUNT" = None) (Hartifacts : environ "BUILDKITE_MAX_ARTIFACT_COUNT" = None).
Context (Hcommands : forall vars body, execute_qlquery jobQuery vars = Ok body -> commands_only body = true).

Lemma query_jobs_no_key keys :
  no_key_error (query_jobs strptime execute_qlquery environ scan_from keys (MAX_JOB_COUNT environ) (MAX_ARTIFACTS_COUNT environ)).
Proof.
  unfold query_jobs. apply no_key_bind; [apply service_raises|]. intros body Hb.
  apply builds_read with (field_type := field_type) (root := root); [done| |by eapply Hcommands].
  change job_sels with (selections jobQuery). eapply service_answers; [|exact Hb]. unfold MAX_JOB_COUNT, MAX_ARTIFACTS_COUNT.
  rewrite job_vars_accepted. by apply bool_decide_eq_true.
Qed.

Lemma query_agents_no_key : no_key_error (query_agents execute_qlquery environ (MAX_ARTIFACTS_COUNT environ)).
Proof.
  unfold query_agents. apply no_key_bind; [apply service_raises|]. intros body Hb. eapply agents_read with (root := root).
  change agent_sels with (selections agentQuery). eapply service_answers; [|exact Hb]. unfold MAX_ARTIFACTS_COUNT.
  rewrite agent_vars_accepted. by apply bool_decide_eq_true.
Qed.

Lemma scrape_no_key : no_key_error (scrape strptime execute_qlquery environ rest_builds scan_from now).
Proof.
  unfold scrape. apply no_key_bind.
  { destruct (environ "BUILDKITE_EXPORTER_SCAN_INTERVAL") as [s|]; [|done]. unfold no_key_error, py_int. by repeat case_match. }
  intros _ _. unfold Exporter.collect, Exporter.collect_job_data, Exporter.collect_agent_data, Exporter.job_keys.
  apply no_key_bind.
  - apply no_key_bind; [destruct (String.eqb _ ""); [apply no_key_bind; [done|]; intros ? _|]; no_key_step|]. intros keys _.
    apply no_key_bind; [apply query_jobs_no_key|]. intros builds _. apply no_key_foldM. intros m d. apply no_key_foldM. intros m' j.
    apply collect_job_no_key.
  - intros m _. apply no_key_bind; [apply query_agents_no_key|]. intros agents _. apply no_key_foldM. apply collect_agent_no_key.
Qed.
End Covered.

(** C7: No client ends in a KeyError for a key that its query does not ask for.  For a service that
    answers, as its schema says, each request that it accepts (the text declares its variables,
    and their values have the declared types), a scrape of the exporter that has its default
    limits and meets only command jobs raises no KeyError, whatever nulls and lists the answers
    have; nor does the sidecar for the answers to its two queries, nor the reader of best tips.
    A limit that is set in the environment is a string, with which the request for the jobs is not
    one that is accepted. *)
Theorem queries_cover_reads field_type root strptime execute_qlquery environ rest_builds scan_from now
    (service : Service field_type root execute_qlquery) (Hstrptime : forall s, no_key_error (strptime s)) (Hrest : no_key_error rest_builds) :
  (environ "BUILDKITE_MAX_JOB_COUNT" = None -> environ "BUILDKITE_MAX_ARTIFACT_COUNT" = None ->
   (forall vars body, execute_qlquery jobQuery vars = Ok body -> commands_only body = true) ->
   no_key_error (scrape strptime execute_qlquery environ rest_builds scan_from now)) /\
  (forall body, response field_type root (selections SYNC_STATUS_GRAPHQL) body = true -> no_key_error (status_of_json body)) /\
  (forall body, response field_type root (selections FETCH_BLOCK_GRAPHQL) body = true -> no_key_error (block_length_of_json body)) /\
  (forall body, response field_type root (selections bestChainQuery) body = true -> no_key_error (best_chain_of_json body)) /\
  (forall keys n a, environ "BUILDKITE_MAX_JOB_COUNT" = Some n \/ environ "BUILDKITE_MAX_ARTIFACT_COUNT" = Some a ->
   accepted 40 jobQuery (job_vars environ scan_from keys (MAX_JOB_COUNT environ) (MAX_ARTIFACTS_COUNT environ)) = false).
Proof.
  split_and!.
  - intros Hj Ha Hc. by eapply scrape_no_key.
  - apply status_read.
  - apply block_read.
  - apply best_chain_read.
  - intros keys n a H. unfold MAX_JOB_COUNT, MAX_ARTIFACTS_COUNT. rewrite job_vars_accepted. apply bool_decide_eq_false.
    intros [H1 H2]. destruct H; congruence.
Qed.

(** A schema for the fields that the exporter asks for, and a service with one finished job and one agent. *)
Definition toy_string : gtype := TNullable (TScalar (fun v => match v with JStr _ => true | _ => false end)).
Definition toy_bool : gtype := TNullable (TScalar (fun v => match v with JBool _ => true | _ => false end)).
Definition toy_strings : gtype := TNullable (TList toy_string).

Definition toy_schema (ty field : string) : option gtype :=
  match get [("pipeline", TNullable (TObject ["Pipeline"])); ("builds", TNullable (TObject ["Builds"])); ("jobs", TNullable (TObject ["Jobs"]));
             ("organization", TNullable (TObject ["Organization"])); ("agents", TNullable (TObject ["Agents"]));
             ("artifacts", TNullable (TObject ["Artifacts"]));
             ("edges", TNullable (TList (TNullable (TObject [ty ++ "Edge"]))));
             ("node", TNullable (TObject (if String.eqb ty "JobsEdge" then ["JobTypeWait"; "JobTypeCommand"] else [ty ++ "Node"])));
             ("step", TNullable (TObject ["Step"])); ("agent", TNullable (TObject ["Agent"])); ("operatingSystem", TNullable (TObject ["OS"]));
             ("agentQueryRules", toy_strings); ("metaData", toy_strings); ("softFailed", toy_bool); ("passed", toy_bool);
             ("versionHasKnownIssues", toy_bool); ("isRunningJob", toy_bool); ("public", toy_bool);
             ("size", TScalar (fun v => match v with JNum _ => true | _ => false end))] field with
  | Some t => Some t
  | None => Some toy_string
  end.

Definition strings_of (l : list (string * string)) : dict string json := map (fun '(k, v) => (k, JStr v)) l.

Definition toy_job : json := JObj
  (strings_of [("__typename", "JobTypeCommand"); ("label", "test"); ("command", "make"); ("exitStatus", "0"); ("startedAt", "t1"); ("finishedAt", "t2");
               ("runnableAt", "t0"); ("scheduledAt", "t0"); ("state", "FINISHED")] ++
   [("step", JObj [("key", JStr "test")]); ("agent", JObj [("hostname", JStr "host-1")]); ("agentQueryRules", JArr [JStr "size=large"]);
    ("softFailed", JBool false); ("passed", JBool true);
    ("artifacts", JObj [("edges", JArr [JObj [("node", JObj (("size", JNum 7) ::
       strings_of [("path", "a.deb"); ("downloadURL", "https://a"); ("state", "FINISHED"); ("mimeType", "deb"); ("sha1sum", "ab")]))]])])])%list.

Definition toy_jobs : json := JObj [("data", JObj [("pipeline", JObj [("builds", JObj [("edges", JArr [JObj [("node", JObj
  (strings_of [("id", "1"); ("branch", "develop"); ("commit", "c"); ("state", "PASSED"); ("startedAt", "t0"); ("finishedAt", "t2"); ("message", "m")] ++
   [("jobs", JObj [("edges", JArr [JObj [("node", toy_job)]])])])%list)]])])])])].

Definition toy_agents : json := JObj [("data", JObj [("organization", JObj [("agents", JObj [("edges", JArr [JObj [("node", JObj
  (strings_of [("name", "a"); ("hostname", "host-1"); ("ipAddress", "10.0.0.1"); ("userAgent", "u"); ("version", "3.2"); ("createdAt", "t"); ("connectedAt", "t");
               ("connectionState", "connected"); ("heartbeatAt", "t"); ("pid", "1")] ++
   [("operatingSystem", JObj [("name", JStr "linux")]); ("versionHasKnownIssues", JBool false); ("isRunningJob", JBool false);
    ("public", JBool false); ("metaData", JArr [JStr "size=large"])])%list)]])])])])].

Definition toy_service (text : string) (vars : dict string json) : result json :=
  if accepted 40 text vars then
    if String.eqb text jobQuery then Ok toy_jobs else if String.eqb text agentQuery then Ok toy_agents else Err TypeError
  else Err TypeError.

Lemma toy_service_answers : Service toy_schema "Query" toy_service.
Proof.
  split; unfold toy_service, no_key_error; intros text vars; [by repeat case_match|]. intros body -> H.
  destruct (String.eqb_spec text jobQuery) as [->|_]; [injection H as <-; vm_compute; reflexivity|].
  destruct (String.eqb_spec text agentQuery) as [->|_]; [injection H as <-; vm_compute; reflexivity | discriminate H].
Qed.

Lemma queries_cover_reads_witness :
  let run := scrape (fun _ => Ok 0) toy_service (fun _ => None) (Ok [[Some "test"]]) "t" 0 in
  no_key_error run /\ exists m, run = Ok m /\ map snd (Exporter.artifact_size m) = [7] /\ map snd (Exporter.total_count m) = [1].
Proof.
  split.
  - apply (queries_cover_reads toy_schema "Query" (fun _ => Ok 0) toy_service (fun _ => None) (Ok [[Some "test"]]) "t" 0 toy_service_answers); try done.
    intros vars body. unfold toy_service. destruct (accepted 40 jobQuery vars); [|done]. intros H.
    assert (body = toy_jobs) as -> by (revert H; vm_compute; congruence). vm_compute. reflexivity.
  - vm_compute. eexists. split_and!; reflexivity.
Defined.
