(* ===== verification/CommandLine.v ===== *)
(** * The command lines of the programs

    [main] of [scripts/test.py], [scripts/introspection_query.py], and the first lines of
    [scripts/node-status-crawl.py] and of [main] of [services/watchdog/make_report.py]: what
    each makes of its arguments.  [ArgParse] is the parser. *)

From stdpp Require Import base list strings gmap.
From Stdlib Require Import Ascii ZArith Lia.
From S2P Require Import Prelude Dict PyStr Effects ArgParse GraphQL.
From S2P Require TestRunner MakeReport Queries.
Open Scope string_scope.

(** ** Reading a namespace *)
Definition attr (ns : dict string value) (k : string) : result value := match get ns k with Some v => Ok v | None => Err AttributeError end.

Definition as_bool (v : value) : result bool := match v with VBool b => Ok b | _ => Err TypeError end.
Definition as_str (v : value) : result string := match v with VStr s => Ok s | _ => Err TypeError end.
Definition as_int (v : value) : result Z := match v with VInt z => Ok z | _ => Err TypeError end.
Definition as_strs (v : value) : result (list string) := match v with VStrs l => Ok l | _ => Err TypeError end.
Definition as_opt_str (v : value) : result (option string) := match v with VStr s => Ok (Some s) | VNone => Ok None | _ => Err TypeError end.

(** ** scripts/test.py *)
Definition run_parser : parser := Parser
  [Optional ["--non-interactive"] "non_interactive" StoreTrue (VBool false);
   Optional ["--yes"] "yes" StoreTrue (VBool false);
   Optional ["--out-dir"] "out_dir" StoreStr (VStr "test_output");
   Optional ["--collect-artifacts"] "collect_artifacts" StoreTrue (VBool false);
   Optional ["-d"; "--dry-run"] "dry_run" StoreTrue (VBool false);
   Optional ["-b"; "--excludes-pattern"] "excludes_patterns" Append (VStrs []);
   Optional ["--no-build"] "no_build" StoreTrue (VBool false)]
  [Many "includes_patterns" (VStrs ["*"])]
  [("action", VStr "run")].

Definition render_parser : parser := Parser
  [Optional ["-c"; "--check"] "check" StoreTrue (VBool false)]
  [One "circle_jinja_file"; One "mergify_jinja_file"]
  [("action", VStr "render")].

Definition list_parser : parser := Parser [] [] [("action", VStr "list")].

Definition required_status_parser : parser := Parser [] [] [("action", VStr "required-status")].

Definition subparsers : dict string parser :=
  [("run", run_parser); ("render", render_parser); ("list", list_parser); ("required-status", required_status_parser)].

(** The arguments that [run] reads. *)
Definition run_args (ns : dict string value) : result TestRunner.args :=
  let bool k := (let* v := attr ns k in as_bool v) in
  let* dry_run := bool "dry_run" in
  let* non_interactive := bool "non_interactive" in
  let* yes := bool "yes" in
  let* collect_artifacts := bool "collect_artifacts" in
  let* no_build := bool "no_build" in
  let* out_dir := attr ns "out_dir" in let* out_dir := as_str out_dir in
  let* includes := attr ns "includes_patterns" in let* includes := as_strs includes in
  let* excludes := attr ns "excludes_patterns" in let* excludes := as_strs excludes in
  Ok (TestRunner.Args dry_run non_interactive yes collect_artifacts no_build out_dir includes excludes).

Section Runner.
Context (call : string -> string -> gmap string (list string) -> gmap string (list string) * Z)
        (glob : string -> string -> gmap string (list string) -> list string)
        (render : string -> list (string * string) -> string)
        (render_ci : string -> string -> dict string (list string) -> string)
        (render_mergify : string -> string -> list string -> string) (now : Z).

(** [actions[args.action](args)] *)
Definition act (ns : dict string value) : M TestRunner.world unit :=
  do action <- lift (let* v := attr ns "action" in as_str v) in
  if String.eqb action "run" then
    do a <- lift (run_args ns) in TestRunner.run call glob render a now
  else if String.eqb action "render" then
    do check <- lift (let* v := attr ns "check" in as_bool v) in
    do circle <- lift (let* v := attr ns "circle_jinja_file" in as_str v) in
    do mergify <- lift (let* v := attr ns "mergify_jinja_file" in as_str v) in
    TestRunner.render_action render_ci render_mergify check circle mergify
  else if String.eqb action "list" then TestRunner.list_tests
  else if String.eqb action "required-status" then TestRunner.required_status
  else raise KeyError.

Definition main (argv : list string) : M TestRunner.world unit :=
  do ns <- lift (parse_commands subparsers argv) in
  match get ns "action" with
  | None => perform TestRunner.print "Unrecognized action" then raise (SystemExit 1)
  | Some _ => act ns
  end.
End Runner.

(** ** scripts/introspection_query.py *)
Definition introspection_parser : parser := Parser
  [Optional ["-p"; "--port"] "port" StoreInt (VInt 8080);
   Optional ["--uri"] "uri" StoreStr (VStr "/graphql");
   Optional ["--headers"] "headers" StoreMany (VStrs [])] [] [].

Section Introspection.
(** A request: the port, the address, the body and the headers; its answer is a text. *)
Context {request : Type} (post : Z -> string -> json -> dict string string -> result string)
        (json_loads : string -> result json) (json_dumps : json -> string).

(** [headers.update(extra_headers)], where each header is a list of strings. *)
Definition update_header (headers : dict string string) (key_value : list string) : result (dict string string) :=
  match key_value with
  | [k; v] => Ok (set k v headers)
  | _ => Err (ValueError "dictionary update sequence element has length other than 2")
  end.

Definition json_body : json :=
  JObj [("query", JStr Queries.introspection_query); ("variables", JNull); ("operationName", JStr "IntrospectionQuery")].

(** The text that is printed. *)
Definition print_schema (port : Z) (uri : string) (extra_headers : list (list string)) : result string :=
  let* headers := foldM update_header extra_headers [("Content-type", "application/json"); ("Accept", "text/plain")] in
  let* data := post port uri json_body headers in
  let* parsed := json_loads data in
  Ok (json_dumps parsed).

Definition introspection_main (argv : list string) : result string :=
  let* args := parse_args introspection_parser argv in
  let* headers := attr args "headers" in let* headers := as_strs headers in
  let* port := attr args "port" in let* port := as_int port in
  let* uri := attr args "uri" in let* uri := as_str uri in
  print_schema port uri (map (split ":") headers).
End Introspection.

(** ** scripts/node-status-crawl.py *)
Definition default_port : Z := 8301.
Definition default_prog : string := "mina".

Definition crawl_parser : parser := Parser
  [Optional ["--daemon-port"] "daemon_port" StoreStr VNone; Optional ["--executable"] "executable" StoreStr VNone] [] [].

(** The program and the port of the daemon. *)
Definition crawl_args (argv : list string) : result (string * string) :=
  let* args := parse_args crawl_parser argv in
  let* port := attr args "daemon_port" in let* port := as_opt_str port in
  let* prog := attr args "executable" in let* prog := as_opt_str prog in
  Ok (match prog with None => default_prog | Some p => p end, match port with None => py_str default_port | Some p => p end).

(** ** services/watchdog/make_report.py *)
Definition report_parser : parser := Parser
  [Optional ["-n"; "--namespace"] "namespace" StoreStr VNone;
   Optional ["-ic"; "--incluster"] "incluster" StoreBool (VBool false);
   Optional ["-d"; "--discord_webhook_url"] "discord_webhook_url" StoreStr VNone;
   Optional ["-a"; "--accounts"] "accounts_csv" StoreStr VNone;
   Optional ["-l"; "--local"] "local" StoreBool (VBool false);
   Optional ["-b"; "--bin"] "binary" StoreStr (VStr "mina")] [] [].

Definition report_args (argv : list string) : result MakeReport.arguments :=
  let* args := parse_args report_parser argv in
  let* namespace := attr args "namespace" in let* namespace := as_opt_str namespace in
  let* incluster := attr args "incluster" in let* incluster := as_bool incluster in
  let* url := attr args "discord_webhook_url" in let* url := as_opt_str url in
  let* accounts := attr args "accounts_csv" in let* accounts := as_opt_str accounts in
  let* local := attr args "local" in let* local := as_bool local in
  let* binary := attr args "binary" in let* binary := as_str binary in
  Ok (MakeReport.Arguments_ namespace incluster url accounts local binary).

(** ** Lines for what one wants *)
Definition flag (b : bool) (s : string) : list string := if b then [s] else [].

Definition run_line (a : TestRunner.args) : list string :=
  ("run" :: flag (TestRunner.non_interactive a) "--non-interactive" ++ flag (TestRunner.yes a) "--yes" ++ ["--out-dir=" +:+ TestRunner.out_dir a] ++
   flag (TestRunner.collect_artifacts_arg a) "--collect-artifacts" ++ flag (TestRunner.dry_run a) "--dry-run" ++
   map (fun e => "--excludes-pattern=" +:+ e) (TestRunner.excludes_patterns a) ++ flag (TestRunner.no_build_arg a) "--no-build" ++
   TestRunner.includes_patterns a)%list.

Definition render_line (check : bool) (circle mergify : string) : list string := ("render" :: flag check "--check" ++ [circle; mergify])%list.

(** The namespace of a run. *)
Definition run_ns (ni y : bool) (out : string) (ca d : bool) (ex : list string) (nb : bool) (inc : list string) : dict string value :=
  [("non_interactive", VBool ni); ("yes", VBool y); ("out_dir", VStr out); ("collect_artifacts", VBool ca); ("dry_run", VBool d);
   ("excludes_patterns", VStrs ex); ("no_build", VBool nb); ("includes_patterns", VStrs inc); ("action", VStr "run")].

Definition flag_words (os : list (string * optional)) (b : bool) (s : string) : list (string * option_tuple) :=
  match get os s with Some o => if b then [(s, (o, s, None))] else [] | None => [] end.

Definition explicit_word (os : list (string * optional)) (s x : string) : list (string * option_tuple) :=
  match get os s with Some o => [(s +:+ "=" +:+ x, (o, s, Some x))] | None => [] end.

Definition calls_of (ts : list (string * option_tuple)) : list (optional * list string) := omap (fun t => whole (snd t)) ts.

Definition run_words (a : TestRunner.args) : list (string * option_tuple) :=
  let os := option_strings run_parser in
  (flag_words os (TestRunner.non_interactive a) "--non-interactive" ++ flag_words os (TestRunner.yes a) "--yes" ++
   explicit_word os "--out-dir" (TestRunner.out_dir a) ++
   flag_words os (TestRunner.collect_artifacts_arg a) "--collect-artifacts" ++ flag_words os (TestRunner.dry_run a) "--dry-run" ++
   flat_map (explicit_word os "--excludes-pattern") (TestRunner.excludes_patterns a) ++
   flag_words os (TestRunner.no_build_arg a) "--no-build")%list.

Lemma excludes_fold es : forall ni y out ca d ex nb inc,
  foldM take_action (calls_of (flat_map (explicit_word (option_strings run_parser) "--excludes-pattern") es)) (run_ns ni y out ca d ex nb inc)
  = Ok (run_ns ni y out ca d (ex ++ es) nb inc).
Proof.
  induction es as [|e es IH]; intros ni y out ca d ex nb inc; [by rewrite app_nil_r|].
  change (foldM take_action (calls_of (flat_map (explicit_word (option_strings run_parser) "--excludes-pattern") es)) (run_ns ni y out ca d (ex ++ [e])%list nb inc)
    = Ok (run_ns ni y out ca d (ex ++ e :: es)%list nb inc)). by rewrite IH, <- app_assoc.
Qed.

Lemma run_words_line a : run_line a = ("run" :: map fst (run_words a) ++ TestRunner.includes_patterns a)%list.
Proof.
  destruct a as [d ni y ca nb out inc ex]. unfold run_line, run_words. cbn [TestRunner.non_interactive TestRunner.yes TestRunner.out_dir
    TestRunner.collect_artifacts_arg TestRunner.dry_run TestRunner.excludes_patterns TestRunner.no_build_arg TestRunner.includes_patterns].
  f_equal. rewrite !map_app, <- !app_assoc.
  assert (map fst (flat_map (explicit_word (option_strings run_parser) "--excludes-pattern") ex) = map (fun e => "--excludes-pattern=" +:+ e) ex) as ->.
  { induction ex as [|e ex IH]; [done|]. cbn [flat_map map]. rewrite map_app, IH. done. }
  by destruct ni, y, ca, d, nb.
Qed.

Definition good_word (os : list (string * optional)) (t : string * option_tuple) : Prop := reads os (fst t) (snd t) /\ is_Some (whole (snd t)).

Lemma calls_of_good os ts : Forall (good_word os) ts -> Forall2 (fun t call => whole (snd t) = Some call) ts (calls_of ts).
Proof. induction 1 as [|t ts [_ [call Hc]] _ IH]; [constructor|]. cbn [calls_of omap list_omap]. rewrite Hc. by constructor. Qed.

Lemma explicit_good s x : In s ["--out-dir"; "--excludes-pattern"] ->
  Forall (good_word (option_strings run_parser)) (explicit_word (option_strings run_parser) s x).
Proof. intros [<-|[<-|[]]]; (constructor; [|constructor]); (split; [split; reflexivity | by eexists]). Qed.

Lemma flag_good p b s : In (p, s) [(run_parser, "--non-interactive"); (run_parser, "--yes"); (run_parser, "--collect-artifacts"); (run_parser, "--dry-run");
    (run_parser, "--no-build"); (render_parser, "--check")] ->
  Forall (good_word (option_strings p)) (flag_words (option_strings p) b s).
Proof.
  intros H. repeat destruct H as [H|H]; try (injection H as <- <-; destruct b; [(constructor; [|constructor]); (split; [split; reflexivity | by eexists]) | constructor]). done.
Qed.

Lemma run_words_good a : Forall (good_word (option_strings run_parser)) (run_words a).
Proof.
  unfold run_words. rewrite !Forall_app. split_and!; try (apply flag_good; cbn; tauto); [apply explicit_good; cbn; tauto|].
  induction (TestRunner.excludes_patterns a) as [|e es IH]; [constructor|]. cbn [flat_map]. apply Forall_app. split; [|done]. apply explicit_good. cbn; tauto.
Qed.

Lemma calls_of_app l1 l2 : calls_of (l1 ++ l2) = (calls_of l1 ++ calls_of l2)%list.
Proof. unfold calls_of. induction l1 as [|t l1 IH]; [done|]. cbn [app omap list_omap]. destruct (whole (snd t)); cbn [app]; by rewrite <- IH. Qed.

Lemma flags_fold b ni y out ca d ex nb inc :
  let os := option_strings run_parser in
  let does s ns ns' := foldM take_action (calls_of (flag_words os b s)) ns = Ok ns' in
  does "--non-interactive" (run_ns false y out ca d ex nb inc) (run_ns b y out ca d ex nb inc) /\
  does "--yes" (run_ns ni false out ca d ex nb inc) (run_ns ni b out ca d ex nb inc) /\
  does "--collect-artifacts" (run_ns ni y out false d ex nb inc) (run_ns ni y out b d ex nb inc) /\
  does "--dry-run" (run_ns ni y out ca false ex nb inc) (run_ns ni y out ca b ex nb inc) /\
  does "--no-build" (run_ns ni y out ca d ex false inc) (run_ns ni y out ca d ex b inc).
Proof. destruct b; split_and!; reflexivity. Qed.

Lemma out_dir_fold x ni y out ca d ex nb inc :
  foldM take_action (calls_of (explicit_word (option_strings run_parser) "--out-dir" x)) (run_ns ni y out ca d ex nb inc) = Ok (run_ns ni y x ca d ex nb inc).
Proof. reflexivity. Qed.

Lemma run_words_fold a inc :
  foldM take_action (calls_of (run_words a)) (run_ns false false "test_output" false false [] false inc)
  = Ok (run_ns (TestRunner.non_interactive a) (TestRunner.yes a) (TestRunner.out_dir a) (TestRunner.collect_artifacts_arg a) (TestRunner.dry_run a)
          (TestRunner.excludes_patterns a) (TestRunner.no_build_arg a) inc).
Proof.
  unfold run_words. rewrite !calls_of_app. pose proof flags_fold as F. cbv zeta in F.
  rewrite foldM_app, (proj1 (F _ false _ _ _ _ _ _ _)). cbn [bind]. rewrite foldM_app, (proj1 (proj2 (F _ _ false _ _ _ _ _ _))). cbn [bind].
  rewrite foldM_app, out_dir_fold. cbn [bind]. rewrite foldM_app, (proj1 (proj2 (proj2 (F _ _ _ _ false _ _ _ _)))). cbn [bind].
  rewrite foldM_app, (proj1 (proj2 (proj2 (proj2 (F _ _ _ _ _ false _ _ _))))). cbn [bind]. rewrite foldM_app, excludes_fold. cbn [bind].
  by rewrite (proj2 (proj2 (proj2 (proj2 (F _ _ _ _ _ _ _ false _))))).
Qed.

Lemma run_line_parses a : forallb plain (TestRunner.includes_patterns a) = true -> TestRunner.includes_patterns a <> [] ->
  parse_commands subparsers (run_line a) =
  Ok (run_ns (TestRunner.non_interactive a) (TestRunner.yes a) (TestRunner.out_dir a) (TestRunner.collect_artifacts_arg a) (TestRunner.dry_run a)
        (TestRunner.excludes_patterns a) (TestRunner.no_build_arg a) (TestRunner.includes_patterns a)).
Proof.
  intros Hp Hne. rewrite run_words_line, (parse_subcommand subparsers "run" run_parser) by done.
  destruct (parse_line run_parser (run_words a) (calls_of (run_words a)) (TestRunner.includes_patterns a) _
    (Forall_impl _ _ _ (run_words_good a) (fun _ H => proj1 H)) (calls_of_good _ _ (run_words_good a)) Hp (run_words_fold a ["*"])) as [fuel ->].
  cbn [p_positionals run_parser]. rewrite parse_many. destruct (TestRunner.includes_patterns a); [done|]. reflexivity.
Qed.

Lemma render_line_parses check circle mergify : plain circle = true -> plain mergify = true ->
  parse_commands subparsers (render_line check circle mergify) =
  Ok [("check", VBool check); ("circle_jinja_file", VStr circle); ("mergify_jinja_file", VStr mergify); ("action", VStr "render")].
Proof.
  intros Hc Hm. unfold render_line. rewrite (parse_subcommand subparsers "render" render_parser) by done.
  set (ts := flag_words (option_strings render_parser) check "--check").
  assert (flag check "--check" = map fst ts) as -> by (by destruct check).
  assert (Forall (good_word (option_strings render_parser)) ts) as Hg by (apply flag_good; cbn; tauto).
  destruct (parse_line render_parser ts (calls_of ts) [circle; mergify]
    [("check", VBool check); ("circle_jinja_file", VNone); ("mergify_jinja_file", VNone); ("action", VStr "render")]
    (Forall_impl _ _ _ Hg (fun _ H => proj1 H)) (calls_of_good _ _ Hg)) as [fuel ->].
  - cbn [forallb]. by rewrite Hc, Hm.
  - by destruct check.
  - cbn [p_positionals render_parser]. by rewrite parse_two.
Qed.

(** C10: The command line of the test runner.  Every run can be asked for, whatever its
    directory and its exclusions, when its patterns are not written like options; the arguments
    are then those asked for, and what is done is the run with them.  So can every rendering, the
    list and the required status.  Without a command the runner says so and exits with 1, with an
    unknown one it exits with 2 and does nothing. *)
Theorem main_command_line call glob render render_ci render_mergify now :
  let main := main call glob render render_ci render_mergify now in
  (forall a w, forallb plain (TestRunner.includes_patterns a) = true -> TestRunner.includes_patterns a <> [] ->
     main (run_line a) w = TestRunner.run call glob render a now w) /\
  (forall check circle mergify w, plain circle = true -> plain mergify = true ->
     main (render_line check circle mergify) w = TestRunner.render_action render_ci render_mergify check circle mergify w) /\
  (forall w, main ["list"] w = TestRunner.list_tests w /\ main ["required-status"] w = TestRunner.required_status w) /\
  (forall w, main [] w = (TestRunner.set_out (TestRunner.out w ++ ["Unrecognized action"])%list w, Err (SystemExit 1))) /\
  (forall name argv w, plain name = true -> get subparsers name = None -> main (name :: argv) w = (w, Err (SystemExit 2))).
Proof.
  cbv zeta. split_and!.
  - intros a w Hp Hne. unfold main, bindM, lift. rewrite run_line_parses by done. by destruct a.
  - intros check circle mergify w Hc Hm. unfold main, bindM, lift. by rewrite render_line_parses.
  - intros w. split; reflexivity.
  - reflexivity.
  - intros name argv w Hn Hg. unfold main, bindM, lift. by rewrite parse_no_subcommand.
Qed.

(** A dry run of one test, and a name that is no command. *)
Lemma main_command_line_witness :
  let main := main TestRunner.call0 TestRunner.glob0 TestRunner.render0 (fun _ _ _ => "") (fun _ _ _ => "") 0 in
  let a := TestRunner.Args true true false false true "-o=x" ["*:full-test"] ["-y"; ""] in
  run_line a = ["run"; "--non-interactive"; "--out-dir=-o=x"; "--dry-run"; "--excludes-pattern=-y"; "--excludes-pattern="; "--no-build"; "*:full-test"] /\
  main (run_line a) TestRunner.world0 = TestRunner.run TestRunner.call0 TestRunner.glob0 TestRunner.render0 a 0 TestRunner.world0 /\
  main ["test"] TestRunner.world0 = (TestRunner.world0, Err (SystemExit 2)).
Proof.
  cbv zeta. destruct (main_command_line TestRunner.call0 TestRunner.glob0 TestRunner.render0 (fun _ _ _ => "") (fun _ _ _ => "") 0) as (H & _ & _ & _ & H').
  split; [reflexivity|]. split; [apply H; [reflexivity | discriminate] | by apply H'].
Defined.
(** ** The introspection query *)

(** A header in two parts. *)
Definition two_parts (h : string) : bool := Nat.eqb (length (split ":" h)) 2.

Definition add_header (headers : dict string string) (h : string) : dict string string :=
  match split ":" h with [k; v] => set k v headers | _ => headers end.

Lemma update_headers hs : forall d,
  foldM update_header (map (split ":") hs) d
  = if forallb two_parts hs then Ok (foldl add_header d hs) else Err (ValueError "dictionary update sequence element has length other than 2").
Proof.
  induction hs as [|h hs IH]; intros d; [done|]. cbn [map foldM forallb foldl]. unfold two_parts at 1, add_header at 2. unfold update_header at 1.
  destruct (split ":" h) as [|k [|v [|x l]]]; cbn [length Nat.eqb andb bind]; try done. 
Qed.

Definition introspection_line (port : Z) (uri : string) (headers : list string) : list string :=
  (("--port=" +:+ py_str port) :: ("--uri=" +:+ uri) :: "--headers" :: headers)%list.

Lemma arguments_of_args l : arguments_of (map arg_word l) = (l, []).
Proof. induction l as [|a l IH]; [done|]. cbn [map arg_word arguments_of]. by rewrite IH. Qed.

Lemma introspection_line_parses port uri headers : (0 <= port)%Z -> forallb plain headers = true ->
  parse_args introspection_parser (introspection_line port uri headers) = Ok [("port", VInt port); ("uri", VStr uri); ("headers", VStrs headers)].
Proof.
  intros Hp Hh. unfold parse_args, introspection_line. set (os := option_strings introspection_parser).
  assert (classes os (("--port=" +:+ py_str port) :: ("--uri=" +:+ uri) :: "--headers" :: headers)%list
    = Ok (("--port=" +:+ py_str port, COption (Some (Optional ["-p"; "--port"] "port" StoreInt (VInt 8080), "--port", Some (py_str port)))) ::
          ("--uri=" +:+ uri, COption (Some (Optional ["--uri"] "uri" StoreStr (VStr "/graphql"), "--uri", Some uri))) ::
          ("--headers", COption (Some (Optional ["--headers"] "headers" StoreMany (VStrs []), "--headers", None))) :: map arg_word headers)) as ->.
  { apply (classes_app os [_; _; _] headers [_; _; _]); [|by apply classes_plain].
    repeat (apply Forall2_cons; split; [split_and!; reflexivity|]). constructor. }
  cbn [bind length]. rewrite length_map.
  assert (type_int (py_str port) = Ok (VInt port)) as Hi by (unfold type_int; by rewrite py_int_py_str).
  set (o1 := Optional ["-p"; "--port"] "port" StoreInt (VInt 8080)). set (o2 := Optional ["--uri"] "uri" StoreStr (VStr "/graphql")).
  set (o3 := Optional ["--headers"] "headers" StoreMany (VStrs [])).
  eapply eq_trans; [refine (parse_wholes (S (S (length headers))) os _ _ [(o1, [py_str port]); (o2, [uri])]
    [(_, (o1, "--port", Some (py_str port))); (_, (o2, "--uri", Some uri))] _ _ _ (("--headers", COption (Some (o3, "--headers", None))) :: map arg_word headers) _)|].
  - repeat constructor.
  - cbn [foldM take_action o_action o_dest]. rewrite Hi. reflexivity.
  - cbn [parse_words consume_optional]. unfold o3 at 1. cbn [o_action match_argument]. rewrite arguments_of_args. reflexivity.
Qed.

(** C33: A run of the introspection script with a port, an address and headers.  When each header has exactly
    one colon, one request is made, for the introspection query, with the two headers of the script
    and those given on top of them, and the answer is printed; the query is one that a server accepts
    without variables.  Another header, one with a second colon or with none, ends the run in a
    ValueError before anything is asked. *)
Theorem introspection_outcome {post json_loads json_dumps} port uri headers : (0 <= port)%Z -> forallb plain headers = true ->
  introspection_main post json_loads json_dumps (introspection_line port uri headers) =
  (if forallb two_parts headers then
     let* data := post port uri json_body (foldl add_header [("Content-type", "application/json"); ("Accept", "text/plain")] headers) in
     let* parsed := json_loads data in Ok (json_dumps parsed)
   else Err (ValueError "dictionary update sequence element has length other than 2")) /\
  get (match json_body with JObj d => d | _ => [] end) "query" = Some (JStr Queries.introspection_query) /\
  accepted 40 Queries.introspection_query [] = true.
Proof.
  intros Hp Hh. split_and!; [|reflexivity|vm_compute; reflexivity]. unfold introspection_main. rewrite introspection_line_parses by done.
  cbn [bind]. unfold print_schema.
  change (attr _ "headers") with (Ok (VStrs headers)). change (attr _ "port") with (Ok (VInt port)). change (attr _ "uri") with (Ok (VStr uri)).
  cbn [bind as_strs as_int as_str]. rewrite update_headers. by destruct (forallb two_parts headers).
Qed.

Lemma introspection_outcome_witness :
  let post port uri body headers := Ok (py_str port +:+ uri +:+ join ";" (map (fun kv => fst kv +:+ ":" +:+ snd kv) headers)) in
  let run := introspection_main post (fun s => Ok (JStr s)) (fun j => match j with JStr s => s | _ => "" end) in
  run (introspection_line 3085 "/graphql" ["Accept:text/html"; "X:1"]) = Ok "3085/graphqlContent-type:application/json;Accept:text/html;X:1" /\
  run (introspection_line 3085 "/graphql" ["Authorization:a:b"]) = Err (ValueError "dictionary update sequence element has length other than 2").
Proof.
  cbv zeta. split.
  - rewrite (proj1 (introspection_outcome 3085 "/graphql" ["Accept:text/html"; "X:1"] ltac:(lia) eq_refl)). reflexivity.
  - rewrite (proj1 (introspection_outcome 3085 "/graphql" ["Authorization:a:b"] ltac:(lia) eq_refl)). reflexivity.
Defined.
