(* ===== verification/UserAgent.v ===== *)
(** * The user agent, [coda-user-agent/agent.py]

    The client of the daemon and [Currency.random] are parameters; the two counters
    and the wallet kept by the agent are its state. *)

From stdpp Require Import base list strings.
From Stdlib Require Import ZArith Lia.
From S2P Require Import Prelude PyStr Effects.
Open Scope string_scope.
Open Scope Z_scope.

(** What a call of [send_payment] answers; [errors] is truthy or not. *)
Record response : Type := Response { errors : bool; body : string }.

Record payment : Type := Payment { p_to : string; p_from : string; p_amount : Z; p_fee : Z; p_memo : string }.

Record config : Type := Config {
  public_key : string;
  privkey_pass : string;
  min_tx_amount : Z; max_tx_amount : Z;
  min_fee_amount : Z; max_fee_amount : Z;
  batch_size : Z
}.

Record agent : Type := Agent {
  to_account : option string;
  transactions_sent : Z;
  transaction_errors : Z;
  requested : list payment
}.

Definition set_account (a : string) (w : agent) : agent :=
  Agent (Some a) (transactions_sent w) (transaction_errors w) (requested w).
Definition inc_sent (w : agent) : agent := Agent (to_account w) (transactions_sent w + 1) (transaction_errors w) (requested w).
Definition inc_errors (w : agent) : agent := Agent (to_account w) (transactions_sent w) (transaction_errors w + 1) (requested w).
Definition request (p : payment) (w : agent) : agent :=
  Agent (to_account w) (transactions_sent w) (transaction_errors w) (requested w ++ [p])%list.

(** What the daemon does during one transaction: the three calls of the client and the two
    draws of [Currency.random]. *)
Record daemon : Type := Daemon {
  create_wallet : string -> result string;
  unlock : string -> string -> result string;
  send_payment : payment -> result response;
  random_amount : Z -> Z -> result Z;
  random_fee : Z -> Z -> result Z
}.

Section Agent.
(** [requests.exceptions.ConnectionError]. *)
Context (is_connection_error : exn -> bool) (cfg : config).

Definition get_to_account (d : daemon) : M agent string :=
  do w <- gets to_account in
  match w with
  | Some a =>
      if String.eqb a "" then
        do a <- lift (create_wallet d (privkey_pass cfg)) in perform modify (set_account a) then ret a
      else ret a
  | None => do a <- lift (create_wallet d (privkey_pass cfg)) in perform modify (set_account a) then ret a
  end.

Definition unlock_wallet (d : daemon) : M agent string := lift (unlock d (public_key cfg) (privkey_pass cfg)).

(** The first [try]: the account to pay, or [None] after a [return None]. *)
Definition prepare (d : daemon) : M agent (option string) :=
  try_except (do a <- get_to_account d in perform unlock_wallet d then ret (Some a))
    (fun e => Some (if is_connection_error e then perform modify inc_errors then ret None else ret None)).

(** The second [try] and what follows. *)
Definition pay (d : daemon) (p : payment) : M agent (option response) :=
  do r <- try_except (perform modify (request p) then do r <- lift (send_payment d p) in ret (Some r))
            (fun _ => Some (perform modify inc_errors then ret None)) in
  match r with
  | None => ret None
  | Some r => perform modify (if errors r then inc_errors else inc_sent) then ret (Some r)
  end.

Definition send_transaction (d : daemon) : M agent (option response) :=
  do to <- prepare d in
  match to with
  | None => ret None
  | Some to =>
      do tx_amount <- lift (random_amount d (min_tx_amount cfg) (max_tx_amount cfg)) in
      do fee_amount <- lift (random_fee d (min_fee_amount cfg) (max_fee_amount cfg)) in
      pay d (Payment to (public_key cfg) tx_amount fee_amount "BeepBoop")
  end.

(** [ds i] is what the daemon does in turn [i] of the loop. *)
Definition send_transaction_batch (ds : Z -> daemon) : M agent (list (option response)) :=
  map_each (fun i => send_transaction (ds i)) (range 0 (batch_size cfg)).

(** ** Outcomes *)
Definition account_of (d : daemon) (w : agent) : result string :=
  match to_account w with
  | Some a => if String.eqb a "" then create_wallet d (privkey_pass cfg) else Ok a
  | None => create_wallet d (privkey_pass cfg)
  end.

(** The agent once it has its account. *)
Definition with_account (d : daemon) (w : agent) : agent := match account_of d w with Ok a => set_account a w | Err _ => w end.

Definition ready (d : daemon) (w : agent) : result string :=
  let* a := account_of d w in let* _ := unlock d (public_key cfg) (privkey_pass cfg) in Ok a.

Lemma set_account_same a w : to_account w = Some a -> set_account a w = w.
Proof. destruct w. cbn. by intros ->. Qed.

Lemma get_to_account_eq d w : get_to_account d w = (with_account d w, account_of d w).
Proof.
  unfold get_to_account, with_account, account_of, bindM, gets, lift, modify, ret.
  destruct (to_account w) as [a|] eqn:Ea; [destruct (String.eqb a "")|]; try (by destruct (create_wallet d (privkey_pass cfg))).
  by rewrite set_account_same.
Qed.

Lemma prepare_eq d w : prepare d w =
  match ready d w with
  | Ok a => (with_account d w, Ok (Some a))
  | Err e => ((if is_connection_error e then inc_errors else fun w => w) (with_account d w), Ok None)
  end.
Proof.
  unfold prepare, ready, try_except, bindM at 1. rewrite get_to_account_eq.
  destruct (account_of d w) as [a|e]; cbn [bind].
  - unfold unlock_wallet, bindM, lift, ret. destruct (unlock d _ _); cbn [bind]; [done|]. by destruct (is_connection_error e).
  - by destruct (is_connection_error e).
Qed.

(** The agent accounts for its transactions: when the wallet cannot be made or unlocked
    nothing is sent, and the failure is counted only if it is a connection error; otherwise one
    payment is requested, to the account kept from then on, from the agent's key, with the drawn
    amount and fee, and exactly one of the two counters goes up by one, that of sent transactions
    exactly when the daemon answered without errors. Only the drawing of an amount or a fee can
    raise out of [send_transaction], and then nothing has been counted or requested. *)
Theorem send_transaction_outcome d w :
  let w1 := with_account d w in
  match ready d w with
  | Err e => send_transaction d w = ((if is_connection_error e then inc_errors else fun w => w) w1, Ok None)
  | Ok to =>
      to_account w1 = Some to /\
      match (let* a := random_amount d (min_tx_amount cfg) (max_tx_amount cfg) in
             let* f := random_fee d (min_fee_amount cfg) (max_fee_amount cfg) in Ok (a, f)) with
      | Err e => send_transaction d w = (w1, Err e)
      | Ok (amount, fee) =>
          let p := Payment to (public_key cfg) amount fee "BeepBoop" in
          match send_payment d p with
          | Ok r => send_transaction d w = ((if errors r then inc_errors else inc_sent) (request p w1), Ok (Some r))
          | Err _ => send_transaction d w = (inc_errors (request p w1), Ok None)
          end
      end
  end.
Proof.
  cbn zeta. destruct (ready d w) as [to|e] eqn:E.
  - split.
    + unfold ready in E. unfold with_account. destruct (account_of d w) as [a|]; [|done].
      cbn [bind] in E. destruct (unlock d _ _); [|done]. by injection E as ->.
    + destruct (random_amount d _ _) as [a|e] eqn:Ea; cbn [bind];
        [destruct (random_fee d _ _) as [f|e] eqn:Ef; cbn [bind]; [destruct (send_payment d _) as [r|e] eqn:Es|]|];
        unfold send_transaction, pay, try_except, bindM, modify, lift, ret; rewrite prepare_eq, E, Ea; [rewrite Ef, Es..|by rewrite Ef|done]; done.
  - unfold send_transaction, bindM, ret. by rewrite prepare_eq, E.
Qed.
End Agent.
