(* ===== verification/AgentSettings.v ===== *)
(** * The settings and the main loop of the user agent, [coda-user-agent/agent.py]

    The settings come from the environment; an amount that is not set is drawn at random,
    between bounds that an earlier setting may give.  [Currency] of the client package is a
    parameter: reading an amount (in its smallest unit) and drawing one.  [schedule] runs the
    job in the turns in which it is due. *)

From stdpp Require Import base list strings.
From Stdlib Require Import ZArith Lia.
From S2P Require Import Prelude PyStr Effects UserAgent.
Open Scope string_scope.
Open Scope Z_scope.

(** What [Currency.random] does on the bounds of a draw. *)
Class CurrencyRandom (random : Z -> Z -> result Z) : Prop := {
  random_between : forall lo hi r, random lo hi = Ok r -> lo <= r <= hi;
  random_total : forall lo hi, lo <= hi -> exists r, random lo hi = Ok r
}.

(** ** The settings, lines 10 to 35 *)
Record settings : Type := Settings {
  agent_config : config;
  send_every_mins : Z;
  metrics_port : Z;
  graphql_host : string;
  graphql_port : string
}.

Section Settings.
Context (environ : string -> option string) (Currency : string -> result Z).

(** The default is a value: it is computed even when the variable is set. *)
Definition getenv_default_map {A} (env_var : string) (f : string -> result A) (default : A) : result A :=
  match environ env_var with
  | None => Ok default
  | Some value => f value
  end.

Definition getenv_str (env_var default : string) : string :=
  strip (match environ env_var with Some value => value | None => default end).

Definition getenv_int (env_var : string) (default : Z) : result Z := getenv_default_map env_var py_int default.

(** [random] is the draw of this call. *)
Definition getenv_currency (random : Z -> Z -> result Z) (env_var : string) (lower_bound upper_bound : Z) : result Z :=
  let* default := random lower_bound upper_bound in
  getenv_default_map env_var Currency default.

Definition CODA_PUBLIC_KEY : string := getenv_str "CODA_PUBLIC_KEY"
  "4vsRCVyVkSRs89neWnKPrnz4FRPmXXrWtbsAQ31hUTSi41EkbptYaLkzmxezQEGCgZnjqY2pQ6mdeCytu7LrYMGx9NiUNNJh8XfJYbzprhhJmm1ZjVbW9ZLRvhWBXRqes6znuF7fWbECrCpQ".
Definition MINA_PRIVKEY_PASS : string := getenv_str "MINA_PRIVKEY_PASS" "naughty blue worm".

(** A pair of bounds: a drawn minimum, and a maximum drawn above it. *)
Definition bounds (r_min r_max : Z -> Z -> result Z) (min_var max_var lower upper above : string) : result (Z * Z) :=
  let* lo := Currency lower in
  let* hi := Currency upper in
  let* low := getenv_currency r_min min_var lo hi in
  let* a := Currency above in
  let* high := getenv_currency r_max max_var low (low + a) in
  Ok (low, high).

(** The four draws of amounts, in order, and that of the minutes ([random.randint(1, 5)]). *)
Definition load_settings (r1 r2 r3 r4 : Z -> Z -> result Z) (randint : Z) : result settings :=
  let* (min_fee, max_fee) := bounds r1 r2 "AGENT_MIN_FEE" "AGENT_MAX_FEE" "0.06" "0.1" "0.2" in
  let* (min_tx, max_tx) := bounds r3 r4 "AGENT_MIN_TX" "AGENT_MAX_TX" "0.0015" "0.005" "0.01" in
  let* batch := getenv_int "AGENT_TX_BATCH_SIZE" 1 in
  let* mins := getenv_int "AGENT_SEND_EVERY_MINS" randint in
  let* port := getenv_int "AGENT_METRICS_PORT" 8000 in
  Ok (Settings (Config CODA_PUBLIC_KEY MINA_PRIVKEY_PASS min_tx max_tx min_fee max_fee batch) mins port
        (getenv_str "CODA_HOST" "localhost") (getenv_str "CODA_PORT" "3085")).
End Settings.

(** ** The main loop *)
Record turn : Type := Turn { due : bool; daemons : Z -> daemon }.

Section Main.
Context (is_connection_error : exn -> bool) (s : settings).

(** [schedule.run_pending()]: what a due job raises leaves the loop. *)
Definition run_pending (t : turn) : M agent unit :=
  when (due t) (perform send_transaction_batch is_connection_error (agent_config s) (daemons t) then ret tt).

(** The first turns of [main]'s loop. *)
Definition main (turns : list turn) : M agent unit := for_each turns run_pending.
End Main.

Definition new_agent : agent := Agent None 0 0 [].

(** ** What an agent does in some transactions *)
Section Bounds.
Context (is_connection_error : exn -> bool) (cfg : config).

Definition in_bounds (p : payment) : Prop :=
  min_tx_amount cfg <= p_amount p <= max_tx_amount cfg /\ min_fee_amount cfg <= p_fee p <= max_fee_amount cfg /\
  p_from p = public_key cfg /\ p_memo p = "BeepBoop".

(** At most [n] transactions lead from [w] to [w']: the payments requested are in bounds, each is
    counted once, as sent or as an error, and an error may also be a failure to connect. *)
Definition grows (n : Z) (w w' : agent) : Prop :=
  exists ps, requested w' = (requested w ++ ps)%list /\ Forall in_bounds ps /\
    zlength ps <= (transactions_sent w' - transactions_sent w) + (transaction_errors w' - transaction_errors w) <= n /\
    0 <= transactions_sent w' - transactions_sent w <= zlength ps /\ 0 <= transaction_errors w' - transaction_errors w.

Lemma grows_refl w : grows 0 w w.
Proof. exists []. rewrite app_nil_r. unfold zlength. cbn. split_and!; (done || constructor || lia). Qed.

Lemma grows_trans n m a b c : grows n a b -> grows m b c -> grows (n + m) a c.
Proof.
  intros (p1 & E1 & F1 & H1) (p2 & E2 & F2 & H2). exists (p1 ++ p2)%list. rewrite zlength_app.
  split_and!; [by rewrite E2, E1, app_assoc | by apply Forall_app | lia..].
Qed.

Lemma grows_weaken n m a b : grows n a b -> n <= m -> grows m a b.
Proof. intros (ps & E & F & H) Hm. exists ps. split_and!; (done || lia). Qed.

Definition draws_well (d : daemon) : Prop := CurrencyRandom (random_amount d) /\ CurrencyRandom (random_fee d).

Lemma with_account_grows d w : grows 0 w (with_account cfg d w).
Proof.
  unfold with_account. destruct (account_of cfg d w); [|apply grows_refl].
  exists []. cbn. rewrite app_nil_r. unfold zlength. cbn. split_and!; (done || constructor || lia).
Qed.

Lemma inc_errors_grows w : grows 1 w (inc_errors w).
Proof. exists []. rewrite app_nil_r. unfold zlength. cbn. split_and!; (done || constructor || lia). Qed.

Lemma request_grows w p (c : bool) : in_bounds p -> grows 1 w ((if c then inc_errors else inc_sent) (request p w)).
Proof. intros Hp. exists [p]. unfold zlength. destruct c; cbn; split_and!; (done || lia || by constructor). Qed.

Lemma send_transaction_grows d w : draws_well d -> grows 1 w (fst (send_transaction is_connection_error cfg d w)).
Proof.
  intros [Ha Hf]. pose proof (send_transaction_outcome is_connection_error cfg d w) as H. cbv zeta in H.
  pose proof (with_account_grows d w) as H0. assert (G : forall w', grows 1 (with_account cfg d w) w' -> grows 1 w w')
    by (intros w' Hw'; by apply (grows_trans 0 1 w (with_account cfg d w))).
  destruct (ready cfg d w) as [to|e].
  - destruct H as [_ H]. destruct (random_amount d _ _) as [a|] eqn:Ea; cbn [bind] in H; [|rewrite H; eapply grows_weaken; [exact H0 | lia]].
    destruct (random_fee d _ _) as [f|] eqn:Ef; cbn [bind] in H; [|rewrite H; eapply grows_weaken; [exact H0 | lia]].
    assert (Hp : in_bounds (Payment to (public_key cfg) a f "BeepBoop")).
    { pose proof (random_between _ _ _ Ea). pose proof (random_between _ _ _ Ef). unfold in_bounds. cbn. split_and!; (done || lia). }
    destruct (send_payment d _) as [r|]; rewrite H; apply G; [by apply request_grows | by apply (request_grows _ _ true)].
  - rewrite H. apply G. destruct (is_connection_error e); [apply inc_errors_grows|]. eapply grows_weaken; [apply grows_refl | lia].
Qed.

Lemma send_transaction_returns d w : draws_well d -> min_tx_amount cfg <= max_tx_amount cfg -> min_fee_amount cfg <= max_fee_amount cfg ->
  exists r, snd (send_transaction is_connection_error cfg d w) = Ok r.
Proof.
  intros [Ha Hf] H1 H2. pose proof (send_transaction_outcome is_connection_error cfg d w) as H. cbv zeta in H.
  destruct (ready cfg d w) as [to|e]; [|rewrite H; by eexists]. destruct H as [_ H].
  destruct (random_total (random := random_amount d) _ _ H1) as [a Ea], (random_total (random := random_fee d) _ _ H2) as [f Ef].
  rewrite Ea, Ef in H. cbn [bind] in H. destruct (send_payment d _); rewrite H; by eexists.
Qed.
End Bounds.

Section Runs.
Context (is_connection_error : exn -> bool).

Lemma batch_grows (cfg : config) (ds : Z -> daemon) l w : (forall i, draws_well (ds i)) ->
  grows cfg (zlength l) w (fst (map_each (fun i => send_transaction is_connection_error cfg (ds i)) l w)).
Proof.
  intros Hd. revert w. induction l as [|i l IH]; intros w; [apply grows_refl|]. cbn [map_each].
  pose proof (send_transaction_grows is_connection_error cfg (ds i) w (Hd i)) as H1. unfold bindM, ret.
  replace (zlength (i :: l)) with (1 + zlength l) by (unfold zlength; cbn [length]; lia). pose proof (zlength_nonneg l).
  destruct (send_transaction _ _ _ w) as [w1 [r|e]]; cbn [fst] in H1; [|eapply grows_weaken; [exact H1 | lia]].
  pose proof (IH w1) as H2. destruct (map_each _ _ w1) as [w2 [rs|e]]; cbn [fst] in *; by eapply grows_trans.
Qed.

Lemma batch_returns (cfg : config) (ds : Z -> daemon) l w : (forall i, draws_well (ds i)) ->
  min_tx_amount cfg <= max_tx_amount cfg -> min_fee_amount cfg <= max_fee_amount cfg ->
  exists rs, snd (map_each (fun i => send_transaction is_connection_error cfg (ds i)) l w) = Ok rs.
Proof.
  intros Hd H1 H2. revert w. induction l as [|i l IH]; intros w; [by eexists|]. cbn [map_each]. unfold bindM, ret.
  destruct (send_transaction_returns is_connection_error cfg (ds i) w (Hd i) H1 H2) as [r Hr].
  destruct (send_transaction _ _ _ w) as [w1 r1]. cbn in Hr. subst r1. destruct (IH w1) as [rs Hrs].
  destruct (map_each _ _ w1) as [w2 r2]. cbn in Hrs. subst r2. by eexists.
Qed.

Definition due_turns (turns : list turn) : Z := zlength (List.filter due turns).

Lemma main_grows s turns w : (forall t i, t ∈ turns -> draws_well (daemons t i)) ->
  grows (agent_config s) (due_turns turns * Z.max 0 (batch_size (agent_config s))) w (fst (main is_connection_error s turns w)).
Proof.
  unfold main, due_turns. revert w. induction turns as [|t ts IH]; intros w Hd; [apply grows_refl|]. cbn [for_each List.filter].
  pose proof (batch_grows (agent_config s) (daemons t) (range 0 (batch_size (agent_config s))) w ltac:(intros i; apply Hd; left)) as HB.
  assert (Hl : zlength (range 0 (batch_size (agent_config s))) = Z.max 0 (batch_size (agent_config s))).
  { unfold zlength. rewrite range_length. lia. }
  rewrite Hl in HB. specialize (IH) with (1 := (fun t' i H => Hd t' i (proj2 (elem_of_cons _ _ _) (or_intror H)))). unfold run_pending at 1.
  unfold bindM at 1, when. pose proof (zlength_nonneg (List.filter due ts)). destruct (due t); [|apply IH].
  replace (zlength (t :: List.filter due ts)) with (1 + zlength (List.filter due ts)) by (unfold zlength; cbn [length]; lia).
  rewrite Z.mul_add_distr_r, Z.mul_1_l. unfold send_transaction_batch, bindM at 1.
  destruct (map_each _ _ w) as [w1 [rs|e]]; cbn [fst] in HB |- *; [|eapply grows_weaken; [exact HB | nia]].
  eapply grows_trans; [exact HB | apply IH].
Qed.

Lemma main_returns s turns w : (forall t i, t ∈ turns -> draws_well (daemons t i)) ->
  min_tx_amount (agent_config s) <= max_tx_amount (agent_config s) -> min_fee_amount (agent_config s) <= max_fee_amount (agent_config s) ->
  snd (main is_connection_error s turns w) = Ok tt.
Proof.
  unfold main. intros Hd H1 H2. revert w. induction turns as [|t ts IH]; intros w; [done|]. cbn [for_each]. unfold bindM at 1.
  assert (IH' : forall w, snd (for_each ts (run_pending is_connection_error s) w) = Ok tt) by (apply IH; intros ? ? ?; apply Hd; by right).
  unfold run_pending at 1, when. destruct (due t); [|apply IH'].
  destruct (batch_returns (agent_config s) (daemons t) (range 0 (batch_size (agent_config s))) w ltac:(intros i; apply Hd; left) H1 H2) as [rs Hrs].
  unfold send_transaction_batch, bindM at 1. destruct (map_each _ _ w) as [w1 r1]. cbn in Hrs. subst r1. apply IH'.
Qed.
End Runs.

(** A maximum that is drawn is not below its minimum. *)
Lemma bounds_ordered environ Currency r1 r2 min_var max_var lower upper above low high :
  CurrencyRandom r2 -> (forall c, Currency above = Ok c -> 0 <= c) -> environ max_var = None ->
  bounds environ Currency r1 r2 min_var max_var lower upper above = Ok (low, high) -> low <= high.
Proof.
  intros Hr Ha He H. unfold bounds in H. apply bind_Ok_inv in H as (lo & _ & H). apply bind_Ok_inv in H as (hi & _ & H).
  apply bind_Ok_inv in H as (l & _ & H). apply bind_Ok_inv in H as (a & Ea & H). apply bind_Ok_inv in H as (h & Eh & H).
  injection H as <- <-. unfold getenv_currency in Eh. apply bind_Ok_inv in Eh as (d & Ed & Eh).
  unfold getenv_default_map in Eh. rewrite He in Eh. injection Eh as <-. pose proof (random_between _ _ _ Ed). lia.
Qed.


(** ** A run with the default settings, and one with a maximum below its minimum *)
Definition toy_currency (a : string) : result Z :=
  if String.eqb a "0.06" then Ok 60000000 else if String.eqb a "0.1" then Ok 100000000 else if String.eqb a "0.2" then Ok 200000000
  else if String.eqb a "0.0015" then Ok 1500000 else if String.eqb a "0.005" then Ok 5000000 else if String.eqb a "0.01" then Ok 10000000
  else Err (ValueError "currency").

Definition toy_random (lo hi : Z) : result Z := if lo <=? hi then Ok hi else Err (RuntimeError "underflow").

#[export] Instance toy_random_laws : CurrencyRandom toy_random.
Proof.
  unfold toy_random. constructor; intros lo hi.
  - intros r. destruct (Z.leb_spec lo hi); [intros [= <-]; lia | done].
  - intros H. destruct (Z.leb_spec lo hi); [by eexists | lia].
Qed.

Definition toy_daemon : daemon :=
  Daemon (fun _ => Ok "B62q") (fun _ _ => Ok "unlocked") (fun _ => Ok (Response false "")) toy_random toy_random.

Definition toy_settings (environ : string -> option string) : result settings :=
  load_settings environ toy_currency toy_random toy_random toy_random toy_random 3.

Definition toy_turns : list turn := [Turn true (fun _ => toy_daemon); Turn false (fun _ => toy_daemon); Turn true (fun _ => toy_daemon)].

Definition run_toy (environ : string -> option string) : result (agent * result unit) :=
  let* s := toy_settings environ in Ok (main (fun _ => true) s toy_turns new_agent).

(** The draw of an amount between 15000000 and 1500000 raises. *)
Example inverted_bounds :
  run_toy (fun v => if String.eqb v "AGENT_MAX_TX" then Some "0.0015" else if String.eqb v "AGENT_MIN_TX" then Some "0.01" else None) =
  Ok (Agent (Some "B62q") 0 0 [], Err (RuntimeError "underflow")).
Proof. vm_compute. reflexivity. Qed.

