(* ===== verification/VersionedItems.v ===== *)
(** * Versioned items, [scripts/compare_versioned_items.py]

    The printer of an OCaml file is a parameter: the lines it writes.  Lines are of the
    form [path:item]. *)

From stdpp Require Import base list strings.
From Stdlib Require Import Ascii ZArith Lia.
From S2P Require Import Prelude Dict PyStr.
Open Scope string_scope.

(** [line.strip(' \n')] *)
Definition space_or_newline (a : ascii) : bool := Ascii.eqb a " " || Ascii.eqb a "010"%char.

Definition strip_line (line : string) : string := rstrip space_or_newline (lstrip space_or_newline line).

(** [line.split(':', 1)] *)
Fixpoint split_colon (line : string) : string * option string :=
  match line with
  | EmptyString => ("", None)
  | String a line' =>
      if Ascii.eqb a ":" then ("", Some line')
      else let '(path, item) := split_colon line' in (String a path, item)
  end.

Definition add_line (items : dict string string) (line : string) : result (dict string string) :=
  match split_colon (strip_line line) with
  | (path, Some item) => Ok (set path item items)
  | (_, None) => Err IndexError
  end.

Definition create_dict (lines : list string) : result (dict string string) := foldM add_line lines [].

(** An item that changed: its path, what it was and what it is. *)
Definition change : Type := string * string * string.

(** [compare_items]: the changes printed. *)
Definition compare_items (original modified : list string) : result (list change) :=
  let* items_orig := create_dict original in
  let* items_mod := create_dict modified in
  Ok (flat_map (fun e =>
    match get items_mod (fst e) with
    | Some item => if String.eqb item (snd e) then [] else [(fst e, snd e, item)]
    | None => []
    end) items_orig).

(** [run_comparison], which ends in [sys.exit]. *)
Section Run.
Context (printer : string -> result (list string)).

Definition run_comparison (original modified : string) : list change * exn :=
  match (let* orig_items := printer original in let* mod_items := printer modified in compare_items orig_items mod_items) with
  | Ok cs => (cs, SystemExit (match cs with [] => 0 | _ => 1 end))
  | Err e => ([], e)
  end.
End Run.

(** ** Correctness *)

(** The item of a path: that of its last line. *)
Fixpoint item_of (lines : list string) (path : string) : option string :=
  match lines with
  | [] => None
  | l :: ls =>
      match item_of ls path with
      | Some i => Some i
      | None => let '(p, i) := split_colon (strip_line l) in if String.eqb p path then i else None
      end
  end.

Definition well_formed (line : string) : bool := match snd (split_colon (strip_line line)) with Some _ => true | None => false end.

Lemma create_dict_from lines d : match foldM add_line lines d with
  | Ok d' => forallb well_formed lines = true /\ (wf d -> wf d') /\
             forall p, get d' p = match item_of lines p with Some i => Some i | None => get d p end
  | Err e => e = IndexError /\ forallb well_formed lines = false
  end.
Proof.
  revert d. induction lines as [|l ls IH]; intros d; cbn [foldM forallb item_of]; [done|].
  unfold add_line at 1, well_formed at 1 3. destruct (split_colon (strip_line l)) as [q [i|]]; cbn [bind snd]; [|done].
  specialize (IH (set q i d)). destruct (foldM add_line ls (set q i d)) as [d'|e]; [|done].
  destruct IH as (Hf & Hw & Hg). split_and!; [done|auto with py|]. intros p. rewrite Hg.
  destruct (item_of ls p) as [x|]; [done|]. rewrite get_set. destruct (String.eqb_spec q p) as [->|].
  - by rewrite decide_True.
  - by rewrite decide_False by congruence.
Qed.

Lemma create_dict_spec lines : match create_dict lines with
  | Ok d => forallb well_formed lines = true /\ wf d /\ forall p, get d p = item_of lines p
  | Err e => e = IndexError /\ forallb well_formed lines = false
  end.
Proof.
  unfold create_dict. pose proof (create_dict_from lines []) as H. destruct (foldM add_line lines []) as [d|e]; [|done].
  destruct H as (Hf & Hw & Hg). split_and!; [done|by apply Hw, wf_nil|]. intros p. rewrite Hg. cbn. by destruct (item_of lines p).
Qed.

(** The comparison of versioned items accepts exactly the compatible changes: on well-formed
    lines, the changes printed are the paths that both files have and whose items, those of
    their last lines, differ, each with the old and the new item, so that removed and added
    paths are accepted, and the exit status is 1 when there is one and 0 otherwise; a line
    without a colon in either file ends the script with [IndexError]. *)
Theorem comparison_exact printer original modified orig_lines mod_lines :
  printer original = Ok orig_lines -> printer modified = Ok mod_lines ->
  if forallb well_formed orig_lines && forallb well_formed mod_lines then
    exists cs, run_comparison printer original modified = (cs, SystemExit (if (0 <? length cs)%nat then 1 else 0)) /\
      NoDup cs /\
      forall path was now, (path, was, now) ∈ cs <->
        item_of orig_lines path = Some was /\ item_of mod_lines path = Some now /\ was <> now
  else run_comparison printer original modified = ([], IndexError).
Proof.
  intros Ho Hm. unfold run_comparison, compare_items. rewrite Ho, Hm. cbn [bind].
  pose proof (create_dict_spec orig_lines) as Hco. pose proof (create_dict_spec mod_lines) as Hcm.
  destruct (create_dict orig_lines) as [d|e]; cbn [bind]; [|by destruct Hco as [-> ->]].
  destruct Hco as (-> & Hw & Hg). destruct (create_dict mod_lines) as [d'|e]; cbn [bind andb]; [|by destruct Hcm as [-> ->]].
  destruct Hcm as (-> & _ & Hg'). set (cs := flat_map _ d). exists cs.
  assert (Hin : forall path was now, (path, was, now) ∈ cs <->
    item_of orig_lines path = Some was /\ item_of mod_lines path = Some now /\ was <> now).
  { intros path was now. unfold cs. rewrite list_elem_of_In, in_flat_map, <- Hg, <- Hg'. split.
    - intros ([p v] & Hpv & H). cbn [fst snd] in H. destruct (get d' p) as [i|] eqn:Ei; [|done].
      destruct (String.eqb_spec i v) as [|Hne]; [done|]. destruct H as [H|[]]. injection H as -> -> ->.
      apply list_elem_of_In, (in_get _ _ _ Hw) in Hpv. split_and!; [done|done|congruence].
    - intros (H1 & H2 & Hne). exists (path, was). split; [by apply list_elem_of_In, get_in|]. cbn [fst snd].
      rewrite H2. destruct (String.eqb_spec now was) as [->|]; [done | by left]. }
  split_and!; [by destruct cs| |done].
  unfold cs. clear -Hw. unfold wf, keys in Hw. induction d as [|[p v] d IH]; [constructor|]. cbn [map fst] in Hw.
  apply NoDup_cons in Hw as [Hp Hw]. cbn [flat_map fst snd]. specialize (IH Hw).
  destruct (get d' p) as [i|]; [|done]. destruct (String.eqb i v); [done|]. apply NoDup_cons. split; [|done].
  intros H. apply Hp. apply list_elem_of_In, in_flat_map in H as ([q u] & Hq & H). cbn [fst snd] in H.
  destruct (get d' q) as [x|]; [|done]. destruct (String.eqb x u); [done|]. destruct H as [H|[]]. injection H as -> _ _.
  apply list_elem_of_fmap. exists (p, u). split; [done | by apply list_elem_of_In].
Qed.

Definition toy_printer (file : string) : result (list string) :=
  if String.eqb file "old.ml" then Ok ["A.Stable.V1:int"; "B.Stable.V1:string"; "C.Stable.V1:a : b"]
  else if String.eqb file "new.ml" then Ok ["A.Stable.V1:int64"; "C.Stable.V1:a : b"; "D.Stable.V1:t"]
  else Err (RuntimeException "CalledProcessError").

Lemma comparison_exact_witness :
  run_comparison toy_printer "old.ml" "new.ml" = ([("A.Stable.V1", "int", "int64")], SystemExit 1) /\
  exists cs, run_comparison toy_printer "old.ml" "new.ml" = (cs, SystemExit (if (0 <? length cs)%nat then 1 else 0)) /\
    NoDup cs /\
    forall path was now, (path, was, now) ∈ cs <->
      item_of ["A.Stable.V1:int"; "B.Stable.V1:string"; "C.Stable.V1:a : b"] path = Some was /\
      item_of ["A.Stable.V1:int64"; "C.Stable.V1:a : b"; "D.Stable.V1:t"] path = Some now /\ was <> now.
Proof.
  split; [vm_compute; reflexivity|].
  apply (comparison_exact toy_printer "old.ml" "new.ml"
    ["A.Stable.V1:int"; "B.Stable.V1:string"; "C.Stable.V1:a : b"]
    ["A.Stable.V1:int64"; "C.Stable.V1:a : b"; "D.Stable.V1:t"]); reflexivity.
Defined.
