(* ===== verification/PrDiff.v ===== *)
(** * Versioned items of a pull request, [scripts/compare_pr_diff_*.py]

    [compare_pr_diff_types.py] and [compare_pr_diff_binables.py] call [run_comparison] of
    [compare_pr_diff_items.py], which runs [compare_versioned_types.py] or
    [compare_binables.py] on every changed OCaml file; these call [run_comparison] of
    [compare_versioned_items.py], modelled in VersionedItems.  The parameters are what the
    scripts see: the printers, the directory [base], whether [git clone] works, the output of
    [git diff], and the paths that exist once the base branch is checked out.  The events are
    the changes of directory and the commands; what is written to the standard streams is
    left out. *)

From stdpp Require Import base list strings.
From Stdlib Require Import Ascii ZArith Lia.
From S2P Require Import Prelude Dict PyStr PyText Effects VersionedItems.
Open Scope string_scope.

Inductive event : Type :=
| Rmtree (path : string)
| Mkdir (path : string)
| Chdir (path : string)
| Run (args : list string).

Definition happen (e : event) : M (list event) unit := modify (fun l => l ++ [e])%list.

(** The exit status of a script that ends with an exception. *)
Definition exit_status (e : exn) : Z := match e with SystemExit n => n | _ => 1 end.

Section Files.
Context (printer : string -> string -> option (list string)).

(** [retval.check_returncode()]: the lines of a printer that succeeds. *)
Definition print_items (exe file : string) : result (list string) :=
  match printer exe file with
  | Some ls => Ok ls
  | None => Err (RuntimeException "CalledProcessError")
  end.

(** ** [compare_versioned_types.py] and [compare_binables.py] *)
Definition types_printer : string := "_build/default/src/external/ppx_version/tools/print_versioned_types.exe".
Definition binables_printer : string := "_build/default/src/external/ppx_version/tools/print_binable_functors.exe".

Definition compare_files (exe : string) (argv : list string) : exn :=
  match argv with
  | [_; path1; path2] =>
      if String.eqb path1 path2 then SystemExit 1
      else snd (VersionedItems.run_comparison (print_items exe) path1 path2)
  | _ => SystemExit 1
  end.

Definition compare_versioned_types : list string -> exn := compare_files types_printer.
Definition compare_binables : list string -> exn := compare_files binables_printer.

(** The comparison that a script file makes. *)
Definition script_main (compare_script : string) : list string -> exn :=
  if String.eqb compare_script "compare_versioned_types.py" then compare_versioned_types else compare_binables.

Definition original_of (diff : string) : string := "base/mina/" +:+ diff.

(** ** What the comparison finds *)

(** A pair of files is compatible: both are printed, on well-formed lines, and no path that
    both have changes its item. *)
Definition compatible (exe original modified : string) : Prop :=
  exists ls ms, printer exe original = Some ls /\ printer exe modified = Some ms /\
    forallb well_formed ls = true /\ forallb well_formed ms = true /\
    forall path was now, item_of ls path = Some was -> item_of ms path = Some now -> was = now.

(** The status of a comparison of two printed files. *)
Lemma printed_status exe original modified ls ms : printer exe original = Some ls -> printer exe modified = Some ms ->
  exit_status (snd (VersionedItems.run_comparison (print_items exe) original modified)) = 0%Z <->
  forallb well_formed ls = true /\ forallb well_formed ms = true /\
    forall path was now, item_of ls path = Some was -> item_of ms path = Some now -> was = now.
Proof.
  intros Eo Em.
  pose proof (comparison_exact (print_items exe) original modified ls ms ltac:(unfold print_items; by rewrite Eo)
    ltac:(unfold print_items; by rewrite Em)) as H.
  destruct (forallb well_formed ls), (forallb well_formed ms); cbn [andb] in H; [|rewrite H; cbn; naive_solver..].
  destruct H as (cs & -> & _ & Hcs). cbn [snd exit_status]. destruct cs as [|[[p was] now] cs]; cbn [length Nat.ltb Nat.leb].
  - split; [|done]. intros _. split_and!; [done..|]. intros p w n H1 H2. destruct (decide (w = n)) as [|Hne]; [done|].
    by pose proof (proj2 (Hcs p w n) (conj H1 (conj H2 Hne))) as ?%elem_of_nil.
  - split; [done|]. intros (_ & _ & Hc). destruct (proj1 (Hcs p was now)) as (H1 & H2 & Hne); [by left|]. by destruct Hne; eapply Hc.
Qed.

Lemma comparison_status exe original modified :
  exit_status (snd (VersionedItems.run_comparison (print_items exe) original modified)) = 0%Z <-> compatible exe original modified.
Proof.
  unfold compatible. destruct (printer exe original) as [ls|] eqn:Eo; [destruct (printer exe modified) as [ms|] eqn:Em|].
  - rewrite (printed_status exe original modified ls ms Eo Em). naive_solver.
  - unfold VersionedItems.run_comparison, print_items. rewrite Eo, Em. cbn. naive_solver.
  - unfold VersionedItems.run_comparison, print_items. rewrite Eo. cbn. naive_solver.
Qed.

Definition printer_of (compare_script : string) : string :=
  if String.eqb compare_script "compare_versioned_types.py" then types_printer else binables_printer.

Lemma original_ne diff : original_of diff <> diff.
Proof. intros H. apply (f_equal String.length) in H. unfold original_of in H. rewrite app_length_str in H. cbn in H. lia. Qed.

Lemma script_status compare_script diff : exit_status (script_main compare_script
    ["./scripts/" +:+ compare_script; original_of diff; diff]) = 0%Z <-> compatible (printer_of compare_script) (original_of diff) diff.
Proof.
  rewrite <- comparison_status. unfold script_main, printer_of, compare_versioned_types, compare_binables, compare_files.
  pose proof (original_ne diff) as Hne%String.eqb_neq. destruct (String.eqb compare_script _); by rewrite Hne.
Qed.

End Files.

Section PrDiff.
Context (printer : string -> string -> option (list string)).
Context (base_exists clone_works : bool) (git_diff : string -> result string) (path_exists : string -> bool).

(** ** [compare_pr_diff_items.py] *)

(** [subprocess.run(['./scripts/' + compare_script, orig, diff]).returncode] *)
Definition run_script (compare_script orig diff : string) : M (list event) Z :=
  let args := ["./scripts/" +:+ compare_script; orig; diff] in
  perform happen (Run args) then
  ret (exit_status (script_main printer compare_script args)).

Definition clone_base (base_commit cwd : string) : M (list event) unit :=
  perform when base_exists (happen (Rmtree "base")) then
  perform happen (Mkdir "base") then
  perform happen (Chdir "base") then
  perform happen (Run ["git"; "clone"; "https://github.com/MinaProtocol/mina.git"]) then
  perform when (negb clone_works) (raise (FileNotFoundError "mina")) then
  perform happen (Chdir "mina") then
  perform happen (Run ["git"; "checkout"; base_commit]) then
  happen (Chdir cwd).

(** The files that the loop does not skip. *)
Definition compared (diff : string) : bool :=
  endswith ".ml" (basename diff) && (path_exists (original_of diff) && path_exists diff).

Fixpoint compare_diffs (compare_script : string) (diffs : list string) (exit_code : Z) : M (list event) Z :=
  match diffs with
  | [] => ret exit_code
  | diff :: diffs' =>
      if compared diff then
        do returncode <- run_script compare_script (original_of diff) diff in
        compare_diffs compare_script diffs' (if negb (returncode =? 0)%Z then 1 else exit_code)
      else compare_diffs compare_script diffs' exit_code
  end.

Definition run_comparison (cwd base_commit compare_script : string) : M (list event) unit :=
  perform clone_base base_commit cwd then
  perform happen (Run ["git"; "diff"; "--name-only"; "origin/" +:+ base_commit]) then
  do diffs_decoded <- lift (git_diff ("origin/" +:+ base_commit)) in
  do exit_code <- compare_diffs compare_script (split newline diffs_decoded) 0 in
  raise (SystemExit exit_code).

(** ** [compare_pr_diff_types.py] and [compare_pr_diff_binables.py] *)
Definition pr_main (compare_script cwd : string) (argv : list string) : M (list event) unit :=
  match argv with
  | [_; base_branch] => run_comparison cwd base_branch compare_script
  | _ => raise (SystemExit 1)
  end.

Definition compare_pr_diff_types : string -> list string -> M (list event) unit := pr_main "compare_versioned_types.py".
Definition compare_pr_diff_binables : string -> list string -> M (list event) unit := pr_main "compare_binables.py".

Definition comparison_of (compare_script diff : string) : event := Run ["./scripts/" +:+ compare_script; original_of diff; diff].

Lemma compare_diffs_spec compare_script diffs c l : exists c',
  compare_diffs compare_script diffs c l =
    ((l ++ map (comparison_of compare_script) (List.filter compared diffs))%list, Ok c') /\
  (c' = c \/ c' = 1%Z) /\
  (c' = 1%Z <-> c = 1%Z \/ exists diff, diff ∈ diffs /\ compared diff = true /\
                                 ~ compatible printer (printer_of compare_script) (original_of diff) diff).
Proof.
  clear base_exists clone_works git_diff. revert c l. induction diffs as [|d ds IH]; intros c l; cbn [compare_diffs List.filter].
  { exists c. cbn. rewrite app_nil_r. setoid_rewrite elem_of_nil. naive_solver. }
  setoid_rewrite elem_of_cons. destruct (compared d) eqn:Ed.
  - unfold run_script, bindM, happen, modify, ret. fold (comparison_of compare_script d).
    set (rc := exit_status _). destruct (IH (if negb (rc =? 0)%Z then 1%Z else c) (l ++ [comparison_of compare_script d])%list) as (c' & E & H1 & H2).
    exists c'. split; [rewrite E; cbn [map]; by rewrite <- app_assoc|]. pose proof (script_status printer compare_script d) as Hs. fold rc in Hs.
    destruct (Z.eqb_spec rc 0) as [E0|E0]; cbn [negb] in H1, H2; (split; [naive_solver|]); rewrite H2; [|naive_solver].
    split; [naive_solver|]. intros [?|(x & [->|Hx] & Hc & Hn)]; [by left | naive_solver | right; by exists x].
  - destruct (IH c l) as (c' & E & H1 & H2). exists c'. split; [exact E|]. split; [done|]. rewrite H2. naive_solver congruence.
Qed.
End PrDiff.

(** C12: The check of a pull request finds exactly its incompatible files: when the base
    branch is cloned and [git diff] answers, the script compares, in order, each changed [.ml] file
    that both branches have, and nothing else, with the printer of its kind of item, and ends with
    status 1 if one of them is not compatible (a printer fails, a line is malformed, or an item
    that both have has changed) and 0 otherwise. *)
Theorem pr_check_exact printer base_exists git_diff path_exists compare_script cwd prog base output :
  git_diff ("origin/" +:+ base) = Ok output ->
  let compared := compared path_exists in
  let diffs := split newline output in
  exists setup code,
    pr_main printer base_exists true git_diff path_exists compare_script cwd [prog; base] [] =
      ((setup ++ map (comparison_of compare_script) (List.filter compared diffs))%list, Err (SystemExit code)) /\
    (forall d, comparison_of compare_script d ∉ setup) /\
    (code = 0%Z \/ code = 1%Z) /\
    (code = 1%Z <-> exists d, d ∈ diffs /\ compared d = true /\
       ~ compatible printer (printer_of compare_script) (original_of d) d).
Proof.
  intros Hg compared diffs.
  set (setup := ((if base_exists then [Rmtree "base"] else []) ++
    [Mkdir "base"; Chdir "base"; Run ["git"; "clone"; "https://github.com/MinaProtocol/mina.git"]; Chdir "mina";
     Run ["git"; "checkout"; base]; Chdir cwd; Run ["git"; "diff"; "--name-only"; "origin/" +:+ base]])%list).
  destruct (compare_diffs_spec printer path_exists compare_script diffs 0 setup) as (code & E & H1 & H2).
  exists setup, code. split_and!; [| | |rewrite H2; naive_solver lia].
  - unfold pr_main, run_comparison, clone_base, bindM, happen, modify, lift, raise, when, ret. rewrite Hg. fold diffs.
    unfold setup in *. destruct base_exists; cbn [app negb] in *; by rewrite E.
  - intros d H. unfold setup in H. rewrite elem_of_app, !elem_of_cons in H. unfold comparison_of in H.
    destruct base_exists; rewrite ?list_elem_of_singleton, ?elem_of_nil in H; naive_solver.
  - naive_solver.
Qed.

(** A pull request that changes [A.Stable.V1] in [a.ml], edits [b.ml] and adds [c.ml]. *)
Definition toy_files : list string := ["base/mina/src/a.ml"; "src/a.ml"; "base/mina/src/b.ml"; "src/b.ml"; "src/c.ml"].

Definition toy_printer (_ file : string) : option (list string) :=
  if String.eqb file "base/mina/src/a.ml" then Some ["A.Stable.V1:int"]
  else if String.eqb file "src/a.ml" then Some ["A.Stable.V1:int64"; "A.Stable.V2:int"]
  else Some [].

Definition toy_diff (_ : string) : result string := Ok (join nl ["src/a.ml"; "README.md"; "src/b.ml"; "src/c.ml"; ""]).

Definition toy_exists (path : string) : bool := bool_decide (path ∈ toy_files).

Lemma pr_check_exact_witness :
  exists setup code,
    pr_main toy_printer true true toy_diff toy_exists "compare_versioned_types.py" "/pr" ["prog"; "develop"] [] =
      ((setup ++ [comparison_of "compare_versioned_types.py" "src/a.ml"; comparison_of "compare_versioned_types.py" "src/b.ml"])%list,
       Err (SystemExit code)) /\ code = 1%Z /\
    exists d, d ∈ ["src/a.ml"; "README.md"; "src/b.ml"; "src/c.ml"; ""] /\ compared toy_exists d = true /\
      ~ compatible toy_printer types_printer (original_of d) d.
Proof.
  destruct (pr_check_exact toy_printer true toy_diff toy_exists "compare_versioned_types.py" "/pr" "prog" "develop"
    (join nl ["src/a.ml"; "README.md"; "src/b.ml"; "src/c.ml"; ""]) eq_refl) as (setup & code & E & _ & _ & H).
  exists setup, code.
  assert (Hcode : code = 1%Z).
  { assert (X : snd (pr_main toy_printer true true toy_diff toy_exists "compare_versioned_types.py" "/pr" ["prog"; "develop"] []) =
      Err (SystemExit 1)) by (vm_compute; reflexivity). rewrite E in X. cbn [snd] in X. congruence. }
  split; [rewrite E; f_equal|]. split; [exact Hcode|]. exact (proj1 H Hcode).
Defined.
