(* ===== verification/Simulation.v ===== *)
(** * Stake over time, [src/app/proposer_simulation/sim.py]

    Floats are rational numbers.  The random module is two streams: [random n] is the n-th
    answer of [random.random()], and the k-th [random.choice(l)] is the element of [l] at
    [choice k] modulo its length; the position in the streams is threaded through.  The power
    of floats is a parameter; the bars of the plot are left out. *)

From stdpp Require Import base list strings.
From Stdlib Require Import ZArith QArith Lqa Lia.
From S2P Require Import Prelude.
Open Scope Q_scope.

Definition f : Q := 99 # 100.
Definition coinbase_amount : Q := 1 # 10.

(** The numbers of draws and of choices made so far. *)
Record rng : Type := Rng { draws : nat; picks : nat }.

Section Simulation.
Context (pow : Q -> Q -> Q) (random : nat -> Q) (choice : nat -> nat).

Definition threshold (x : Q) : Q := 1 - pow (1 - f) x.

Definition Qltb (x y : Q) : bool := negb (Qle_bool y x).

(** [s / total_money] *)
Definition divide (x y : Q) : result Q := if Qeq_bool y 0 then Err ZeroDivisionError else Ok (x / y).

(** The loop over the stakes of a slot, from the number [id] on. *)
Fixpoint slot_winners (total_money : Q) (id : nat) (stakes : list Q) (r : rng) : result (list nat * rng) :=
  match stakes with
  | [] => Ok ([], r)
  | s :: stakes' =>
      let* share := divide s total_money in
      let won := Qltb (random (draws r)) (threshold share) in
      let* (per_slot_winners, r) := slot_winners total_money (S id) stakes' (Rng (S (draws r)) (picks r)) in
      Ok ((if won then id :: per_slot_winners else per_slot_winners), r)
  end.

Definition choose (l : list nat) (r : rng) : nat * rng :=
  (List.nth (choice (picks r) mod length l) l 0%nat, Rng (draws r) (S (picks r))).

Fixpoint play (stakes : list Q) (total_money : Q) (slots : nat) (r : rng) : result (list nat * rng) :=
  match slots with
  | O => Ok ([], r)
  | S slots' =>
      let* (per_slot_winners, r) := slot_winners total_money 0 stakes r in
      let '(won, r) := match per_slot_winners with
                       | [] => ([], r)
                       | _ => let '(w, r) := choose per_slot_winners r in ([w], r)
                       end in
      let* (winners, r) := play stakes total_money slots' r in
      Ok ((won ++ winners)%list, r)
  end.

(** [total_money += coinbase_amount; new_stakes[w] += coinbase_amount] *)
Definition reward (st : list Q * Q) (w : nat) : result (list Q * Q) :=
  let '(new_stakes, total_money) := st in
  match new_stakes !! w with
  | Some s => Ok (<[w := s + coinbase_amount]> new_stakes, total_money + coinbase_amount)
  | None => Err IndexError
  end.

Definition simulate (stakes : list Q) (total_money : Q) (slots : nat) (r : rng) : result (list Q * Q * rng) :=
  let* (winners, r) := play stakes total_money slots r in
  let* st := foldM reward winners (stakes, total_money) in
  Ok (st, r).

Definition sim (st : list Q * Q * rng) : result (list Q * Q * rng) :=
  let '(s, g, r) := st in simulate s g 2160 r.

Fixpoint iterate {A} (f : A -> result A) (n : nat) (x : A) : result A :=
  match n with
  | O => Ok x
  | S n' => let* y := f x in iterate f n' y
  end.

Definition sum (l : list Q) : Q := fold_right Qplus 0 l.

(** [[ x / s for x in xs ]], which nothing calls. *)
Definition normalize (xs : list Q) : result (list Q) := let s := sum xs in mapM (fun x => divide x s) xs.

Definition Qmaximum (x y : Q) : Q := if Qle_bool x y then y else x.

(** [max(stakes)] *)
Definition py_max (l : list Q) : result Q :=
  match l with
  | [] => Err (ValueError "max() arg is an empty sequence"%string)
  | x :: l' => Ok (fold_left Qmaximum l' x)
  end.

(** A frame of the animation: the new state and the number printed. *)
Definition update (st : list Q * Q * rng) : result (list Q * Q * rng * Q) :=
  let* st := iterate sim 1 st in
  let* m := py_max (fst (fst st)) in
  let* share := divide m (snd (fst st)) in
  Ok (st, share).

(** The first frames of the animation, and what they print. *)
Fixpoint frames (n : nat) (st : list Q * Q * rng) : result (list Q * Q * rng * list Q) :=
  match n with
  | O => Ok (st, [])
  | S n' =>
      let* (st, share) := update st in
      let* (st, shares) := frames n' st in
      Ok (st, share :: shares)
  end.

Definition stakes0 : list Q := (repeat (1 # 2) 100 ++ [50])%list.

Definition animation (n : nat) : result (list Q * Q * rng * list Q) := frames n (stakes0, sum stakes0, Rng 0 0).

(** ** Money is conserved *)

(** What is normalized adds up to one. *)
Lemma divide_sum s xs ys : ~ s == 0 -> mapM (fun x => divide x s) xs = Ok ys -> sum ys == sum xs / s.
Proof.
  intros Hs. revert ys. induction xs as [|x xs IH]; intros ys H; cbn [mapM] in H.
  - injection H as <-. cbn. by field.
  - apply bind_Ok_inv in H as (y & Hy & H). apply bind_Ok_inv in H as (zs & Hz & H). injection H as <-.
    unfold divide in Hy. destruct (Qeq_bool s 0); [done|]. injection Hy as <-.
    change (x / s + sum zs == (x + sum xs) / s). rewrite (IH zs Hz). by field.
Qed.

Lemma normalize_sum xs ys : xs <> [] -> normalize xs = Ok ys -> sum ys == 1.
Proof.
  intros Hne H. assert (Hs : ~ sum xs == 0).
  { intros E. destruct xs as [|x xs]; [done|]. unfold normalize in H. set (s := sum (x :: xs)) in *. cbn [mapM] in H.
    unfold divide at 1 in H. by rewrite (proj2 (Qeq_bool_iff _ _) E) in H. }
  rewrite (divide_sum _ _ _ Hs H). by field.
Qed.

(** The total is the sum of the stakes, none of which is negative. *)
Definition sound (stakes : list Q) (total_money : Q) : Prop :=
  total_money == sum stakes /\ Forall (fun s => 0 <= s) stakes /\ 0 < total_money.

Lemma divide_pos x y : 0 < y -> divide x y = Ok (x / y).
Proof. intros H. unfold divide. destruct (Qeq_bool y 0) eqn:E; [|done]. apply Qeq_bool_iff in E. lra. Qed.

Lemma slot_winners_spec total id stakes r : 0 < total ->
  exists ws r', slot_winners total id stakes r = Ok (ws, r') /\ Forall (fun w => (id <= w < id + length stakes)%nat) ws.
Proof.
  intros Ht. revert id r. induction stakes as [|s ss IH]; intros id r; cbn [slot_winners]; [by exists [], r|].
  rewrite divide_pos by done. cbn [bind]. destruct (IH (S id) (Rng (S (draws r)) (picks r))) as (ws & r' & -> & H). cbn [bind length].
  eexists _, r'. split; [reflexivity|].
  assert (H' : Forall (fun w => (id <= w < id + S (length ss))%nat) ws) by (eapply Forall_impl; [exact H|]; cbn; lia).
  destruct (Qltb _ _); [constructor; [lia | done] | done].
Qed.

Lemma choose_in l r : l <> [] -> fst (choose l r) ∈ l.
Proof.
  intros H. unfold choose. cbn [fst]. apply list_elem_of_In, nth_In, Nat.mod_upper_bound. by destruct l.
Qed.

Lemma play_spec stakes total slots r : 0 < total ->
  exists ws r', play stakes total slots r = Ok (ws, r') /\ (length ws <= slots)%nat /\ Forall (fun w => (w < length stakes)%nat) ws.
Proof.
  intros Ht. revert r. induction slots as [|k IH]; intros r; cbn [play]; [by exists [], r|].
  destruct (slot_winners_spec total 0 stakes r Ht) as (ps & r1 & -> & Hps). cbn [bind].
  destruct ps as [|w0 ps]; [|destruct (choose (w0 :: ps) r1) as [w r2] eqn:Ec].
  - destruct (IH r1) as (ws & r' & -> & Hl & Hw). cbn [bind app]. eexists _, r'. split; [reflexivity|]. split; [lia | done].
  - destruct (IH r2) as (ws & r' & -> & Hl & Hw). cbn [bind app]. eexists _, r'. split; [reflexivity|]. split; [cbn; lia|].
    constructor; [|done]. pose proof (choose_in (w0 :: ps) r1 ltac:(done)) as Hin. rewrite Ec in Hin. cbn [fst] in Hin.
    rewrite Forall_forall in Hps. specialize (Hps w Hin). lia.
Qed.

Lemma sum_insert stakes w s : stakes !! w = Some s -> sum (<[w := s + coinbase_amount]> stakes) == sum stakes + coinbase_amount.
Proof.
  revert w. induction stakes as [|x xs IH]; intros [|w] H; try done.
  - injection H as ->. change (s + coinbase_amount + sum xs == s + sum xs + coinbase_amount). ring.
  - change (x + sum (<[w := s + coinbase_amount]> xs) == x + sum xs + coinbase_amount). rewrite (IH w H). ring.
Qed.

(** Every stake has grown or stayed. *)
Definition grown (stakes stakes' : list Q) : Prop := Forall2 Qle stakes stakes'.

Lemma reward_spec stakes total w : sound stakes total -> (w < length stakes)%nat ->
  exists stakes', reward (stakes, total) w = Ok (stakes', total + coinbase_amount) /\
    sound stakes' (total + coinbase_amount) /\ grown stakes stakes'.
Proof.
  intros (Ht & Hs & Hp) Hw. unfold reward. destruct (lookup_lt_is_Some_2 stakes w Hw) as [s Es]. rewrite Es.
  eexists. split; [reflexivity|]. assert (H0 : 0 <= s) by by eapply Forall_lookup_1 in Es; [exact Es|].
  split; [split_and!|].
  - by rewrite sum_insert, Ht.
  - apply Forall_insert; [done|]. unfold coinbase_amount. lra.
  - unfold coinbase_amount. lra.
  - apply Forall2_same_length_lookup. split; [by rewrite length_insert|]. intros i x y Hx Hy.
    destruct (decide (w = i)) as [->|Hne].
    + rewrite list_lookup_insert_eq in Hy by done. injection Hy as <-. assert (x = s) as -> by congruence. unfold coinbase_amount. lra.
    + rewrite list_lookup_insert_ne in Hy by done. assert (x = y) as -> by congruence. lra.
Qed.

Lemma grown_refl l : grown l l.
Proof. apply Forall_Forall2_diag, Forall_forall. intros. apply Qle_refl. Qed.

Lemma grown_trans l1 l2 l3 : grown l1 l2 -> grown l2 l3 -> grown l1 l3.
Proof.
  intros H. revert l3. induction H as [|x y l1 l2 Hxy _ IH]; intros l3 H; inversion_clear H; constructor; [by eapply Qle_trans | by apply IH].
Qed.

Lemma rewards_spec ws stakes total : sound stakes total -> Forall (fun w => (w < length stakes)%nat) ws ->
  exists stakes' total', foldM reward ws (stakes, total) = Ok (stakes', total') /\
    sound stakes' total' /\ grown stakes stakes' /\ total' == total + inject_Z (Z.of_nat (length ws)) * coinbase_amount.
Proof.
  revert stakes total. induction ws as [|w ws IH]; intros stakes total Hs Hw; cbn [foldM].
  - exists stakes, total. split; [done|]. split; [done|]. split; [apply grown_refl|].
    change (total == total + 0 * coinbase_amount). ring.
  - inversion_clear Hw as [|? ? Hw0 Hws]. destruct (reward_spec stakes total w Hs Hw0) as (st1 & -> & Hs1 & Hg1). cbn [bind].
    pose proof (Forall2_length _ _ _ Hg1) as Hl.
    destruct (IH st1 (total + coinbase_amount) Hs1) as (st2 & t2 & -> & Hs2 & Hg2 & Ht2); [by rewrite <- Hl|].
    exists st2, t2. split; [done|]. split; [done|]. split; [by eapply grown_trans|].
    rewrite Ht2. cbn [length]. rewrite Nat2Z.inj_succ. unfold Z.succ. rewrite inject_Z_plus. change (inject_Z 1) with 1. ring.
Qed.

Lemma simulate_spec stakes total slots r : sound stakes total ->
  exists stakes' total' r', simulate stakes total slots r = Ok (stakes', total', r') /\
    sound stakes' total' /\ grown stakes stakes' /\ total <= total' <= total + inject_Z (Z.of_nat slots) * coinbase_amount.
Proof.
  intros Hs. unfold simulate. destruct (play_spec stakes total slots r) as (ws & r' & -> & Hl & Hw); [apply Hs|]. cbn [bind].
  destruct (rewards_spec ws stakes total Hs Hw) as (st & t & -> & Hs' & Hg & Ht). cbn [bind].
  exists st, t, r'. split_and!; [done..| |]; rewrite Ht.
  - enough (0 <= inject_Z (Z.of_nat (length ws)) * coinbase_amount) by lra.
    apply Qmult_le_0_compat; [|done]. change 0 with (inject_Z 0). rewrite <- Zle_Qle. lia.
  - apply Qplus_le_r. apply Qmult_le_compat_r; [|done]. rewrite <- Zle_Qle. lia.
Qed.

Lemma fold_max_spec l x : x <= fold_left Qmaximum l x /\ (fold_left Qmaximum l x = x \/ fold_left Qmaximum l x ∈ l).
Proof.
  revert x. induction l as [|y l IH]; intros x; cbn [fold_left]; [split; [apply Qle_refl | by left]|].
  destruct (IH (Qmaximum x y)) as [H1 H2]. unfold Qmaximum in *. destruct (Qle_bool x y) eqn:E.
  - apply Qle_bool_iff in E. split; [by eapply Qle_trans|]. rewrite elem_of_cons. naive_solver.
  - split; [done|]. rewrite elem_of_cons. naive_solver.
Qed.

Lemma fold_max_in l x : fold_left Qmaximum l x ∈ x :: l.
Proof. rewrite elem_of_cons. destruct (fold_max_spec l x) as [_ [->|H]]; auto. Qed.

Lemma fold_max_upper l x y : y ∈ x :: l -> y <= fold_left Qmaximum l x.
Proof.
  revert x y. induction l as [|z l IH]; intros x y Hy; cbn [fold_left].
  - apply list_elem_of_singleton in Hy as ->. apply Qle_refl.
  - assert (Hz : x <= Qmaximum x z /\ z <= Qmaximum x z).
    { unfold Qmaximum. destruct (Qle_bool x z) eqn:E; [apply Qle_bool_iff in E; split; [done | apply Qle_refl]|].
      split; [apply Qle_refl|]. apply Qnot_lt_le. intros Hlt. apply Qlt_le_weak, Qle_bool_iff in Hlt. congruence. }
    rewrite !elem_of_cons in Hy. destruct Hy as [->|[->|Hy]].
    + eapply Qle_trans; [apply Hz|]. apply IH. by left.
    + eapply Qle_trans; [apply Hz|]. apply IH. by left.
    + apply IH. by right.
Qed.

Lemma elem_le_sum l x : Forall (fun s => 0 <= s) l -> x ∈ l -> 0 <= x <= sum l.
Proof.
  induction 1 as [|y l Hy Hl IH]; intros Hx; [by apply elem_of_nil in Hx|].
  assert (H0 : 0 <= sum l).
  { clear -Hl. induction Hl as [|z l Hz _ IH]; [apply Qle_refl|]. change (0 <= z + sum l). lra. }
  change (0 <= x <= y + sum l). apply elem_of_cons in Hx as [->|Hx]; [split; lra|]. specialize (IH Hx). lra.
Qed.

(** The share printed is that of a largest stake. *)
Lemma update_spec stakes total r : sound stakes total -> stakes <> [] ->
  exists stakes' total' r' share, update (stakes, total, r) = Ok (stakes', total', r', share) /\
    sound stakes' total' /\ grown stakes stakes' /\ total <= total' <= total + 216 /\
    0 <= share <= 1 /\ (exists s, s ∈ stakes' /\ share == s / total') /\ forall s, s ∈ stakes' -> s / total' <= share.
Proof.
  intros Hs Hne. unfold update. cbn [iterate sim].
  destruct (simulate_spec stakes total 2160 r Hs) as (st & t & r' & -> & Hs' & Hg & Ht). cbn [bind fst snd].
  pose proof (Forall2_length _ _ _ Hg) as Hlen. destruct st as [|x l]; [by destruct stakes|]. cbn [py_max bind].
  destruct Hs' as (Hsum & Hall & Hp). rewrite divide_pos by done. cbn [bind].
  exists (x :: l), t, r', (fold_left Qmaximum l x / t). split; [done|]. split; [done|]. split; [done|].
  pose proof (fold_max_in l x) as Hin. destruct (elem_le_sum _ _ Hall Hin) as [H0 H1].
  change (inject_Z (Z.of_nat 2160) * coinbase_amount) with (2160 * (1 # 10)) in Ht.
  split; [lra|]. split; [|split].
  - split; [apply Qle_shift_div_l; lra|]. apply Qle_shift_div_r; lra.
  - by exists (fold_left Qmaximum l x).
  - intros s Hx. apply Qmult_le_compat_r; [by apply fold_max_upper | by apply Qlt_le_weak, Qinv_lt_0_compat].
Qed.

Lemma frames_spec n stakes total r : sound stakes total -> stakes <> [] ->
  exists stakes' total' r' shares, frames n (stakes, total, r) = Ok (stakes', total', r', shares) /\
    sound stakes' total' /\ grown stakes stakes' /\ total <= total' <= total + inject_Z (Z.of_nat n) * 216 /\
    length shares = n /\ Forall (fun share => 0 <= share <= 1) shares.
Proof.
  revert stakes total r. induction n as [|n IH]; intros stakes total r Hs Hne; cbn [frames].
  - exists stakes, total, r, []. split_and!; try done; [apply grown_refl | apply Qle_refl | change (inject_Z (Z.of_nat 0)) with 0; lra].
  - destruct (update_spec stakes total r Hs Hne) as (st & t & r1 & share & -> & Hs1 & Hg1 & Ht1 & Hsh & _). cbn [bind].
    destruct (IH st t r1 Hs1) as (st2 & t2 & r2 & shares & -> & Hs2 & Hg2 & Ht2 & Hl & Hf).
    { intros ->. apply Forall2_length in Hg1. by destruct stakes. }
    cbn [bind]. exists st2, t2, r2, (share :: shares). split; [done|]. split; [done|]. split; [by eapply grown_trans|].
    split; [|split; [cbn; congruence | by constructor]].
    rewrite Nat2Z.inj_succ. unfold Z.succ. rewrite inject_Z_plus. change (inject_Z 1) with 1. lra.
Qed.
End Simulation.

