(* ===== verification/AdminScripts.v ===== *)
(** * Small scripts

    [scripts/generate-genesis-ledger.py] quotes the accounts of the daemon's ledger for a
    template, [scripts/update_branch_rule.py] sets the status checks that a branch requires,
    and [scripts/archive/change_constraint.py] renames a JSON key.  The daemon, the template
    engine, the clock and the HTTP requests are parameters. *)

From stdpp Require Import base list strings.
From Stdlib Require Import Ascii ZArith Lia.
From S2P Require Import Prelude PyStr PyText Effects.
Open Scope string_scope.

(** ** [generate-genesis-ledger.py] *)
Definition quote : ascii := "034"%char.
Definition backslash : ascii := "092"%char.

(** The lambda over the accounts: quotes are escaped, and the account is put between quotes. *)
Definition quote_account (acct : string) : string :=
  String quote (replace quote (String backslash (String quote "")) acct +:+ String quote "").

Definition generate (check_output : list string -> result string)
  (render : string -> string -> list string -> result string) (argv : list string) : result string :=
  let* jinja_file := py_nth argv 1 in
  let conf_dir := dirname jinja_file in
  let jinja_file_basename := basename jinja_file in
  let '(_, ext) := splitext jinja_file in
  if negb (String.eqb ext ".jinja") then Err AssertionError else
  let* output := check_output ["coda"; "advanced"; "dump-ledger"; "-json"] in
  let accounts := map quote_account (split newline output) in
  render conf_dir jinja_file_basename accounts.

(** ** [update_branch_rule.py] *)
Inductive admin_event : Type :=
| Patch (url : string) (contexts : list string).

Definition branch_url (branch_name : string) : string :=
  "https://api.github.com/repos/MinaProtocol/mina/branches/" +:+ branch_name +:+ "/protection/required_status_checks".

Definition required_status (text : string) : list string :=
  List.filter (fun l => negb (String.eqb l "")) (split newline text).

(** [read] is [open] and [read]; [patch_ok] is what [raise_for_status] does, where it raises. *)
Definition update_branch_rule (read : string -> result string) (token : result string) (patch_ok : result unit)
  (required_file branch_name : string) : M (list admin_event) unit :=
  do text <- lift (read required_file) in
  let required := required_status text in
  if negb (0 <? length required)%nat then raise (SystemExit 1) else
  perform lift (let* _ := token in Ok tt) then
  perform modify (fun es => es ++ [Patch (branch_url branch_name) required])%list then
  lift patch_ok.

Definition update_branch_main read token patch_ok (argv : list string) : M (list admin_event) unit :=
  match argv with
  | [_; required_file; branch_name] => update_branch_rule read token patch_ok required_file branch_name
  | _ => raise (SystemExit 1)
  end.

(** ** [change_constraint.py] *)
Definition quoted (s : string) : string := String quote (s +:+ String quote "").

Definition change_constraint (stdin : string) : string := replace_str (quoted "constraint") (quoted "constraint_") stdin.

(** ** What a reader of the quoted account sees *)

(** The rest of a string literal, where a backslash stands before a quote or a backslash. *)
Fixpoint read_rest (escaped : bool) (s : string) : option string :=
  match s with
  | EmptyString => None
  | String a s' =>
      if escaped then
        if Ascii.eqb a quote || Ascii.eqb a backslash then option_map (String a) (read_rest false s') else None
      else if Ascii.eqb a backslash then read_rest true s'
      else if Ascii.eqb a quote then (if String.eqb s' "" then Some "" else None)
      else option_map (String a) (read_rest false s')
  end.

Definition read_literal (s : string) : option string :=
  match s with
  | String a s' => if Ascii.eqb a quote then read_rest false s' else None
  | EmptyString => None
  end.

(** An account without backslashes is read back; the escapes that JSON itself uses for a quote
    are not escaped again, so an account with an escaped quote is not. *)
Theorem quote_account_roundtrip acct : no_char backslash acct = true -> read_literal (quote_account acct) = Some acct.
Proof.
  unfold read_literal, quote_account. cbn [Ascii.eqb]. rewrite Ascii.eqb_refl.
  induction acct as [|a s IH]; intros H; [done|]. cbn [no_char] in H. apply andb_true_iff in H as [Ha H].
  apply negb_true_iff in Ha. specialize (IH H). cbn [replace]. destruct (Ascii.eqb_spec a quote) as [->|Hne].
  - rewrite !app_cons_str. cbn. change ("" +:+ ?x) with x in *. by rewrite IH.
  - rewrite app_cons_str. cbn [read_rest]. rewrite Ha, (proj2 (Ascii.eqb_neq a quote) Hne). by rewrite IH.
Qed.

Example quote_account_escaped : read_literal (quote_account (String backslash (String quote ""))) = None.
Proof. reflexivity. Qed.

(** The checks of a branch are never emptied: a request carries at least one check, all the
    lines of the file that are not empty, and without such a line no request is made. *)
Theorem branch_rule_not_emptied read token patch_ok argv es' r :
  update_branch_main read token patch_ok argv [] = (es', r) ->
  es' = [] \/ exists prog file branch text, argv = [prog; file; branch] /\ read file = Ok text /\
    es' = [Patch (branch_url branch) (required_status text)] /\ required_status text <> [] /\ r = patch_ok.
Proof.
  destruct argv as [|prog [|file [|branch [|]]]]; cbn; try (intros [= <- <-]; by left).
  unfold update_branch_rule, bindM, lift. destruct (read file) as [text|e] eqn:Er; [|intros [= <- <-]; by left].
  destruct (required_status text) as [|x l] eqn:El; cbn [length Nat.ltb Nat.leb negb]; [intros [= <- <-]; by left|].
  destruct token as [t|e]; cbn [bind]; [|intros [= <- <-]; by left]. cbn [modify app]. intros [= <- <-]. right.
  exists prog, file, branch, text. by rewrite El.
Qed.
