(* ===== verification/Http.v ===== *)
(** * Replies over HTTP

    [lib/marlin_plonk_bindings/wasm/server.py] serves files with two headers that isolate the
    page from other origins, by overriding [end_headers]; the mock server of
    [puppeteer-context/mina_daemon_puppeteer.py] answers every request with one page.  Both
    extend the handlers of Python's [http.server], whose buffer of headers is modelled here.
    The name of the server, the date and the phrase of a status are parameters.  A reader of
    replies says what a client sees. *)

From stdpp Require Import base list strings.
From Stdlib Require Import Ascii ZArith Lia.
From S2P Require Import Prelude PyStr.
Open Scope string_scope.

Definition cr : ascii := "013"%char.
Definition lf : ascii := "010"%char.
Definition crlf : string := String cr (String lf "").

(** The fields of a request handler that a reply goes through. *)
Record handler : Type := Handler { request_version : string; headers_buffer : list string; wfile : string }.

Definition old (h : handler) : bool := String.eqb (request_version h) "HTTP/0.9".

Definition buffer (line : string) (h : handler) : handler :=
  if old h then h else Handler (request_version h) (headers_buffer h ++ [line])%list (wfile h).

(** ** [BaseHTTPRequestHandler] *)
Definition send_header (keyword value : string) : handler -> handler := buffer (keyword +:+ ": " +:+ value +:+ crlf).

(** [b''.join(l)] *)
Definition joined (l : list string) : string := foldr (fun x s => x +:+ s) "" l.

Definition flush_headers (h : handler) : handler :=
  Handler (request_version h) [] (wfile h +:+ joined (headers_buffer h)).

Definition base_end_headers (h : handler) : handler := if old h then h else flush_headers (buffer crlf h).

Definition write (body : string) (h : handler) : handler := Handler (request_version h) (headers_buffer h) (wfile h +:+ body).

Section Replies.
Context (version_string date_time_string : string) (phrase : Z -> string).

Definition send_response (code : Z) (h : handler) : handler :=
  let h := buffer ("HTTP/1.0 " +:+ py_str code +:+ " " +:+ phrase code +:+ crlf) h in
  send_header "Date" date_time_string (send_header "Server" version_string h).

(** A method that answers with a status, some headers and a body; [end_headers] is looked up in
    the handler's class. *)
Definition respond (end_headers : handler -> handler) (code : Z) (headers : list (string * string)) (body : string) (h : handler) : handler :=
  write body (end_headers (fold_left (fun h kv => send_header (fst kv) (snd kv) h) headers (send_response code h))).

(** ** [CORSRequestHandler] *)
Definition end_headers (h : handler) : handler :=
  let h := send_header "Cross-Origin-Embedder-Policy" "require-corp" h in
  let h := send_header "Cross-Origin-Opener-Policy" "same-origin" h in
  base_end_headers h.

(** [int(sys.argv[1]) if len(sys.argv) > 1 else 8000] *)
Definition server_port (argv : list string) : result Z :=
  if (1 <? length argv)%nat then let* a := py_nth argv 1 in py_int a else Ok 8000%Z.

(** ** [MockRequestHandler] *)
Definition offline_page : string :=
  "<html><body>The daemon is currently offline.<br/><i>This broadcast was brought to you by the puppeteer mock server</i></body></html>".

Definition do_GET (h : handler) : handler :=
  let h := send_response 200 h in
  let h := send_header "Content-Type" "text/html" h in
  write offline_page (base_end_headers h).
End Replies.

(** ** A client *)

(** The text up to the first CR LF, and what follows it. *)
Fixpoint read_line (s : string) : option (string * string) :=
  match s with
  | EmptyString => None
  | String a s' =>
      match s' with
      | String b s'' =>
          if Ascii.eqb a cr && Ascii.eqb b lf then Some ("", s'')
          else option_map (fun '(l, rest) => (String a l, rest)) (read_line s')
      | EmptyString => None
      end
  end.

Fixpoint read_field (s : string) : option (string * string) :=
  match s with
  | EmptyString => None
  | String a s' =>
      if Ascii.eqb a ":" then match s' with String b v => if Ascii.eqb b " " then Some ("", v) else None | _ => None end
      else option_map (fun '(k, v) => (String a k, v)) (read_field s')
  end.

(** The header fields up to the empty line, and the body. *)
Fixpoint read_headers (fuel : nat) (s : string) : option (list (string * string) * string) :=
  match fuel with
  | O => None
  | S fuel' =>
      match read_line s with
      | Some ("", body) => Some ([], body)
      | Some (l, rest) =>
          match read_field l, read_headers fuel' rest with
          | Some f, Some (fs, body) => Some (f :: fs, body)
          | _, _ => None
          end
      | None => None
      end
  end.

(** The status line, the fields and the body of a reply. *)
Definition read_reply (fuel : nat) (s : string) : option (string * list (string * string) * string) :=
  match read_line s with
  | Some (status, rest) => option_map (fun '(fs, body) => (status, fs, body)) (read_headers fuel rest)
  | None => None
  end.

Lemma read_line_app l rest : no_char cr l = true -> read_line (l +:+ crlf +:+ rest) = Some (l, rest).
Proof.
  induction l as [|a l IH]; intros H; [reflexivity|]. cbn [no_char] in H. apply andb_true_iff in H as [Ha%negb_true_iff H].
  rewrite app_cons_str. cbn [read_line]. destruct (l +:+ crlf +:+ rest) as [|b s] eqn:E; [by destruct l|].
  rewrite Ha. cbn [andb]. by rewrite (IH H).
Qed.

Lemma read_field_app k v : no_char ":" k = true -> read_field (k +:+ ": " +:+ v) = Some (k, v).
Proof.
  induction k as [|a k IH]; intros H; [reflexivity|]. cbn [no_char] in H. apply andb_true_iff in H as [Ha%negb_true_iff H].
  rewrite app_cons_str. cbn [read_field]. by rewrite Ha, (IH H).
Qed.

(** A field that cannot be taken for another. *)
Definition clean (f : string * string) : bool := no_char ":" (fst f) && no_char cr (fst f) && no_char cr (snd f).

Definition field_text (f : string * string) : string := fst f +:+ ": " +:+ snd f +:+ crlf.

Lemma joined_app l1 l2 : joined (l1 ++ l2)%list = joined l1 +:+ joined l2.
Proof. induction l1 as [|x l1 IH]; [done|]. cbn [joined foldr app]. fold (joined (l1 ++ l2)%list). fold (joined l1). by rewrite IH, app_assoc_str. Qed.

Lemma read_headers_fields fs body fuel : forallb clean fs = true -> (length fs < fuel)%nat ->
  read_headers fuel (joined (map field_text fs) +:+ crlf +:+ body) = Some (fs, body).
Proof.
  revert fuel. induction fs as [|[k v] fs IH]; intros [|fuel] Hc Hf; cbn [length] in Hf; try lia; [reflexivity|].
  cbn [forallb] in Hc. apply andb_true_iff in Hc as [Hc Hcs]. unfold clean in Hc. cbn [fst snd] in Hc.
  rewrite !andb_true_iff in Hc. destruct Hc as [[Hk Hk'] Hv].
  assert (E : joined (map field_text ((k, v) :: fs)) +:+ crlf +:+ body
    = (k +:+ ": " +:+ v) +:+ crlf +:+ (joined (map field_text fs) +:+ crlf +:+ body)).
  { cbn [map joined foldr]. fold (joined (map field_text fs)). unfold field_text at 1. cbn [fst snd]. by rewrite !app_assoc_str. }
  rewrite E. cbn [read_headers]. rewrite read_line_app by (rewrite !no_char_app, Hk', Hv; reflexivity).
  rewrite read_field_app by done. rewrite IH by (done || lia).
  destruct (k +:+ ": " +:+ v) eqn:Ek; [by destruct k|]. done.
Qed.

(** Everything that is sent before the fields of a method. *)
Definition status_line (phrase : Z -> string) (code : Z) : string := "HTTP/1.0 " +:+ py_str code +:+ " " +:+ phrase code.

Definition isolation : list (string * string) :=
  [("Cross-Origin-Embedder-Policy", "require-corp"); ("Cross-Origin-Opener-Policy", "same-origin")].

Section Sent.
Context (version_string date_time_string : string) (phrase : Z -> string).

Definition standard_fields : list (string * string) := [("Server", version_string); ("Date", date_time_string)].

Lemma send_headers_buffer fs h : old h = false ->
  fold_left (fun h kv => send_header (fst kv) (snd kv) h) fs h
  = Handler (request_version h) (headers_buffer h ++ map field_text fs)%list (wfile h).
Proof.
  revert h. induction fs as [|[k v] fs IH]; intros h Hv; cbn [fold_left map].
  - destruct h. by rewrite app_nil_r.
  - rewrite IH; unfold send_header, buffer; rewrite Hv; [|done]. cbn. by rewrite <- app_assoc.
Qed.

Lemma send_response_buffer code h : old h = false ->
  send_response version_string date_time_string phrase code h
  = Handler (request_version h) (headers_buffer h ++ (status_line phrase code +:+ crlf) :: map field_text standard_fields)%list (wfile h).
Proof.
  intros Hv. unfold send_response. cbv zeta. set (h1 := buffer _ h).
  change (fold_left (fun h kv => send_header (fst kv) (snd kv) h) standard_fields h1
    = Handler (request_version h) (headers_buffer h ++ (status_line phrase code +:+ crlf) :: map field_text standard_fields)%list (wfile h)).
  assert (E : h1 = Handler (request_version h) (headers_buffer h ++ [status_line phrase code +:+ crlf])%list (wfile h)).
  { unfold h1, buffer, status_line. rewrite Hv. by rewrite !app_assoc_str. }
  rewrite send_headers_buffer, E by (rewrite E; exact Hv). cbn [request_version headers_buffer wfile]. by rewrite <- app_assoc.
Qed.

Lemma base_end_headers_sent h : old h = false ->
  base_end_headers h = Handler (request_version h) [] (wfile h +:+ joined (headers_buffer h) +:+ crlf).
Proof.
  intros Hv. unfold base_end_headers, flush_headers, buffer. rewrite Hv. cbn [request_version headers_buffer wfile].
  rewrite joined_app. done.
Qed.

(** The bytes of a reply whose last fields [more] are those that [end_headers] adds. *)
Lemma respond_sent endh more code fs body h :
  (forall h, old h = false -> endh h = base_end_headers (fold_left (fun h kv => send_header (fst kv) (snd kv) h) more h)) ->
  old h = false -> headers_buffer h = [] -> wfile h = "" ->
  wfile (respond version_string date_time_string phrase endh code fs body h)
  = status_line phrase code +:+ crlf +:+ joined (map field_text (standard_fields ++ fs ++ more)%list) +:+ crlf +:+ body.
Proof.
  intros Hend Hv Hb Hw. unfold respond. rewrite send_response_buffer by done. rewrite send_headers_buffer by done.
  rewrite Hend by done. rewrite send_headers_buffer by done. rewrite base_end_headers_sent by done.
  cbn [write wfile request_version headers_buffer]. rewrite Hb, Hw, app_nil_l, <- !app_assoc. cbn [app].
  rewrite !map_app. cbn [joined foldr]. rewrite !app_assoc_str. done.
Qed.
End Sent.

(** Every reply of the server, whatever the method that makes it, reaches the client with its
    status, the fields of the method and, as its last two fields, the headers that isolate the
    page. *)
Theorem replies_isolated version date phrase code fs body h fuel :
  old h = false -> headers_buffer h = [] -> wfile h = "" ->
  forallb clean (standard_fields version date ++ fs)%list = true -> no_char cr (status_line phrase code) = true ->
  (length fs + 4 < fuel)%nat ->
  read_reply fuel (wfile (respond version date phrase end_headers code fs body h))
  = Some (status_line phrase code, (standard_fields version date ++ fs ++ isolation)%list, body).
Proof.
  intros Hv Hb Hw Hc Hs Hf. rewrite (respond_sent _ _ _ _ isolation) by done.
  unfold read_reply. rewrite read_line_app by done. rewrite read_headers_fields.
  - done.
  - rewrite app_assoc, forallb_app, Hc. reflexivity.
  - rewrite !length_app. cbn. lia.
Qed.

(** While the daemon is stopped, every request gets the same page. *)
Theorem offline_reply version date phrase h :
  old h = false -> headers_buffer h = [] -> wfile h = "" ->
  forallb clean (standard_fields version date) = true -> no_char cr (status_line phrase 200) = true ->
  read_reply 4 (wfile (do_GET version date phrase h))
  = Some (status_line phrase 200, (standard_fields version date ++ [("Content-Type", "text/html")])%list, offline_page).
Proof.
  intros Hv Hb Hw Hc Hs.
  change (do_GET version date phrase h) with
    (respond version date phrase base_end_headers 200 [("Content-Type", "text/html")] offline_page h).
  rewrite (respond_sent _ _ _ _ []) by done. rewrite app_nil_r.
  unfold read_reply. rewrite read_line_app by done. rewrite read_headers_fields; [done| |cbn; lia].
  rewrite forallb_app, Hc. reflexivity.
Qed.

Lemma replies_isolated_witness :
  read_reply 6 (wfile (respond "SimpleHTTP/0.6" "today" (fun _ => "OK") end_headers 200 [("Content-Length", "2")] "hi" (Handler "HTTP/1.1" [] "")))
  = Some ("HTTP/1.0 200 OK", [("Server", "SimpleHTTP/0.6"); ("Date", "today"); ("Content-Length", "2");
      ("Cross-Origin-Embedder-Policy", "require-corp"); ("Cross-Origin-Opener-Policy", "same-origin")], "hi").
Proof.
  apply (replies_isolated "SimpleHTTP/0.6" "today" (fun _ => "OK") 200 [("Content-Length", "2")] "hi" (Handler "HTTP/1.1" [] "") 6);
    try reflexivity. cbn. lia.
Defined.

Lemma offline_reply_witness :
  read_reply 4 (wfile (do_GET "BaseHTTP/0.6" "today" (fun _ => "OK") (Handler "HTTP/1.1" [] "")))
  = Some ("HTTP/1.0 200 OK", [("Server", "BaseHTTP/0.6"); ("Date", "today"); ("Content-Type", "text/html")], offline_page).
Proof. by apply (offline_reply "BaseHTTP/0.6" "today" (fun _ => "OK") (Handler "HTTP/1.1" [] "")). Defined.
