(* ===== verification/Options.v ===== *)
(** * The options of the commands

    The commands of the network utilities, the genesis ledger and the scripts of
    [testnet-validation] take their arguments from click, which is outside the repository:
    the class [Click] has the reading of a command line against a table of options, and
    [ClickLaws] what the default runs rely on: without arguments every option has its default,
    an option that may be repeated and has none is the empty list, and a required option ends
    the program with status 2.  The tables are those of the decorators. *)

From stdpp Require Import base list strings.
From Stdlib Require Import Ascii ZArith Lia.
From S2P Require Import Prelude Dict PyStr Effects.
From S2P Require Ledger VisCommands PeerConfig NetUtil.
Open Scope string_scope.
Open Scope Z_scope.

Inductive value : Type :=
| Text (s : string)
| Number (z : Z)
| Switch (b : bool)
| Texts (l : list string)
| Nothing.

(** An option: [default=...], or a required option. *)
Inductive rule : Type :=
| Default (v : value)
| Required.

Definition table : Type := list (string * rule).

Definition is_required (o : string * rule) : bool := match snd o with Required => true | Default _ => false end.

Definition defaults (t : table) : dict string value :=
  flat_map (fun o => match snd o with Default v => [(fst o, v)] | Required => [] end) t.

Class Click : Type := { parse_args : table -> list string -> result (dict string value) }.

Class ClickLaws `{C : Click} : Prop := {
  no_arguments : forall t, parse_args t [] = if existsb is_required t then Err (SystemExit 2) else Ok (defaults t)
}.

(** ** The tables *)

(** [rebroadcasted_blocks_vis.py], the group of commands and [visualize_blockchain]. *)
Definition vis_options : table :=
  [("namespace", Default (Text "hangry-lobster")); ("hours_ago", Default (Text "1")); ("max_entries", Default (Number 1000));
   ("cache_logs", Default (Switch false)); ("cache_file", Default (Text "./cached-logs.json")); ("in_file", Default Nothing)].

Definition visualize_blockchain_options : table :=
  [("count_best_tips", Default (Switch false)); ("remote_graphql_port", Default (Number 3085))].

(** [compare_best_tip.py] and [check_logs.py] *)
Definition compare_options : table :=
  [("namespace", Default (Text "regeneration")); ("remote_graphql_port", Default (Number 3085)); ("show_graph", Default (Switch true))].

Definition check_logs_options : table :=
  [("namespace", Default (Text "hangry-lobster")); ("hours_ago", Default (Text "1")); ("skip_crashes", Default (Switch false));
   ("skip_proofs", Default (Switch false)); ("skip_snark_work", Default (Switch false))].

(** [local_daemon.py] and [helm_deploy.py] *)
Definition local_options : table :=
  [("namespace", Default (Text "regeneration")); ("gossip_port", Default (Number 10000));
   ("docker_image", Default (Text "codaprotocol/coda-daemon:latest")); ("working_directory", Default (Text "."))].

Definition helm_options : table :=
  [("namespace", Default (Text "regeneration")); ("values_file", Default Nothing); ("release_name", Default Nothing);
   ("working_directory", Default (Text "."))].

(** [network-utilities.py] *)
Definition DEFAULT_K8S_CONFIG_PATH : string := "kube-config".
Definition DEFAULT_CLEANUP_THRESHOLD : Z := 60 * 60 * 24 * 7.
Definition DEFAULT_CLEANUP_PATTERNS : list string := [].
Definition DEFAULT_K8S_CONTEXTS : list string := [].

Definition port_options : table :=
  [("instance_group", Required); ("zone", Required); ("k8s_context", Required); ("kube_config_file", Required)].

Definition namespace_options : table :=
  [("namespace_pattern", Default (Texts DEFAULT_CLEANUP_PATTERNS)); ("cleanup_older_than", Default (Number DEFAULT_CLEANUP_THRESHOLD));
   ("k8s_context", Default (Texts DEFAULT_K8S_CONTEXTS)); ("kube_config_file", Default (Text DEFAULT_K8S_CONFIG_PATH))].

(** [generate-local-network-ledger.py]: the directories are next to the script. *)
Section LedgerOptions.
Context (script_dir : string).

Definition DEFAULT_ONLINE_WHALE_KEYS_DIR : string := path_join script_dir "online_whale_keys".
Definition DEFAULT_OFFLINE_WHALE_KEYS_DIR : string := path_join script_dir "offline_whale_keys".
Definition DEFAULT_OFFLINE_FISH_KEYS_DIR : string := path_join script_dir "offline_fish_keys".
Definition DEFAULT_ONLINE_FISH_KEYS_DIR : string := path_join script_dir "online_fish_keys".
Definition DEFAULT_SERVICE_KEY_DIR : string := path_join script_dir "service_keys".

Definition ledger_options : table :=
  [("generate_remainder", Default (Switch false)); ("service_accounts_directory", Default (Text DEFAULT_SERVICE_KEY_DIR));
   ("num_whale_accounts", Default (Number 5)); ("online_whale_accounts_directory", Default (Text DEFAULT_ONLINE_WHALE_KEYS_DIR));
   ("offline_whale_accounts_directory", Default (Text DEFAULT_OFFLINE_WHALE_KEYS_DIR)); ("num_fish_accounts", Default (Number 10));
   ("online_fish_accounts_directory", Default (Text DEFAULT_ONLINE_FISH_KEYS_DIR));
   ("offline_fish_accounts_directory", Default (Text DEFAULT_OFFLINE_FISH_KEYS_DIR)); ("staker_csv_file", Default Nothing)].
End LedgerOptions.

(** ** The arguments of the functions *)
Definition text (d : dict string value) (k : string) : result string :=
  match get d k with Some (Text s) => Ok s | Some _ => Err TypeError | None => Err KeyError end.
Definition number (d : dict string value) (k : string) : result Z :=
  match get d k with Some (Number z) => Ok z | Some _ => Err TypeError | None => Err KeyError end.
Definition switch (d : dict string value) (k : string) : result bool :=
  match get d k with Some (Switch b) => Ok b | Some _ => Err TypeError | None => Err KeyError end.
Definition texts (d : dict string value) (k : string) : result (list string) :=
  match get d k with Some (Texts l) => Ok l | Some _ => Err TypeError | None => Err KeyError end.
Definition maybe_text (d : dict string value) (k : string) : result (option string) :=
  match get d k with Some (Text s) => Ok (Some s) | Some Nothing => Ok None | Some _ => Err TypeError | None => Err KeyError end.

Section Commands.
Context `{C : Click}.

(** [cli()] of the visualizer, up to its context. *)
Definition vis_ctx (argv : list string) : result VisCommands.ctx :=
  let* d := parse_args vis_options argv in
  let* ns := text d "namespace" in
  let* hours := text d "hours_ago" in
  let* cache := switch d "cache_logs" in
  let* file := text d "cache_file" in
  let* input := maybe_text d "in_file" in
  let* entries := number d "max_entries" in
  Ok (VisCommands.Ctx ns (VisCommands.Text hours) cache file input entries).

Definition ledger_options_of (script_dir : string) (argv : list string) : result Ledger.options :=
  let* d := parse_args (ledger_options script_dir) argv in
  let* services := text d "service_accounts_directory" in
  let* whales := number d "num_whale_accounts" in
  let* online_whales := text d "online_whale_accounts_directory" in
  let* offline_whales := text d "offline_whale_accounts_directory" in
  let* fish := number d "num_fish_accounts" in
  let* online_fish := text d "online_fish_accounts_directory" in
  let* offline_fish := text d "offline_fish_accounts_directory" in
  let* csv := maybe_text d "staker_csv_file" in
  Ok (Ledger.Options services whales online_whales offline_whales fish online_fish offline_fish csv).

(** [janitor cleanup-namespace-resources] and [janitor cleanup-port-mappings] *)
Definition janitor_namespaces respond list_namespace search clock (argv : list string) : M NetUtil.world unit :=
  do d <- lift (parse_args namespace_options argv) in
  do patterns <- lift (texts d "namespace_pattern") in
  do older <- lift (number d "cleanup_older_than") in
  do contexts <- lift (texts d "k8s_context") in
  NetUtil.cleanup_namespace_resources respond list_namespace search clock patterns older contexts.

Definition janitor_ports respond loads_namespaces loads_services (argv : list string) : M NetUtil.world unit :=
  do d <- lift (parse_args port_options argv) in
  do group <- lift (text d "instance_group") in
  do zones <- lift (texts d "zone") in
  do ctx <- lift (text d "k8s_context") in
  NetUtil.cleanup_port_mappings respond loads_namespaces loads_services group zones ctx.

(** [helm_deploy.py run] and [local_daemon.py run] *)
Definition helm_main stdout list_pods cwd script_dir sample3 safe_load dump (argv : list string) : M PeerConfig.world unit :=
  do d <- lift (parse_args helm_options argv) in
  do ns <- lift (text d "namespace") in
  do release <- lift (maybe_text d "release_name") in
  do dir <- lift (text d "working_directory") in
  PeerConfig.helm_run stdout list_pods cwd script_dir sample3 safe_load dump ns release dir.

Definition local_main stdout list_pods shuffle list_config_maps docker_run cwd script_dir (argv : list string) : M PeerConfig.world unit :=
  do d <- lift (parse_args local_options argv) in
  do ns <- lift (text d "namespace") in
  do port <- lift (number d "gossip_port") in
  do image <- lift (text d "docker_image") in
  do dir <- lift (text d "working_directory") in
  PeerConfig.local_run stdout list_pods shuffle list_config_maps docker_run cwd script_dir ns port image dir.
End Commands.

(** Run without arguments, the scripts that change a cluster leave it alone: the cleanup of
    namespaces runs no command, that of port mappings is refused, and the helm script stops
    before its first command because its optional release name is missing.  The ledger is then
    made of the keys next to the script. *)
Theorem default_runs_harmless `{C : Click} {L : ClickLaws} respond list_namespace search clock loads_namespaces loads_services
  stdout list_pods cwd script_dir sample3 safe_load dump w v :
  janitor_namespaces respond list_namespace search clock [] w = (w, Ok tt) /\
  janitor_ports respond loads_namespaces loads_services [] w = (w, Err (SystemExit 2)) /\
  helm_main stdout list_pods cwd script_dir sample3 safe_load dump [] v
  = (v, Err (RuntimeException "Please enter a release name when invoking this script.")) /\
  ledger_options_of script_dir []
  = Ok (Ledger.Options (DEFAULT_SERVICE_KEY_DIR script_dir) 5 (DEFAULT_ONLINE_WHALE_KEYS_DIR script_dir)
          (DEFAULT_OFFLINE_WHALE_KEYS_DIR script_dir) 10 (DEFAULT_ONLINE_FISH_KEYS_DIR script_dir)
          (DEFAULT_OFFLINE_FISH_KEYS_DIR script_dir) None).
Proof.
  split_and!.
  - unfold janitor_namespaces, bindM, lift. rewrite no_arguments. reflexivity.
  - unfold janitor_ports, bindM, lift. rewrite no_arguments. reflexivity.
  - unfold helm_main, bindM, lift. rewrite no_arguments. reflexivity.
  - unfold ledger_options_of. rewrite no_arguments. reflexivity.
Qed.

(** A reader of command lines that knows no arguments. *)
#[local] Instance bare_click : Click :=
  {| parse_args t argv := match argv with
                          | [] => if existsb is_required t then Err (SystemExit 2) else Ok (defaults t)
                          | _ => Err (SystemExit 2)
                          end |}.

#[local] Instance bare_click_laws : ClickLaws.
Proof. by split. Qed.

Lemma default_runs_harmless_witness :
  janitor_namespaces (fun _ => (0, "")) (fun _ => [NetUtil.Namespace "ci-1" 0]) (fun _ _ => true) (fun _ => 10 ^ 15) [] (NetUtil.World [] 0)
  = (NetUtil.World [] 0, Ok tt) /\ vis_ctx [] = Ok (VisCommands.Ctx "hangry-lobster" (VisCommands.Text "1") false "./cached-logs.json" None 1000).
Proof.
  split; [|reflexivity].
  apply (default_runs_harmless (fun _ => (0, "")) (fun _ => [NetUtil.Namespace "ci-1" 0]) (fun _ _ => true) (fun _ => 10 ^ 15)
    (fun _ => Ok []) (fun _ => Ok []) (fun _ => "") (fun _ => []) "" "" id (fun _ => Ok (PeerConfig.Items [])) (fun _ => "")
    (NetUtil.World [] 0) (PeerConfig.World [] [] [])).
Defined.
